(* ===== verification/_CoqProject ===== *)
-Q . S2P
Prelude.v
Sha256.v
Unicode.v
Wire.v
Merkle.v
Consistency.v
MerkleSpec.v
Base64.v
Strings.v
Rows.v
Moment.v
Origin.v
Journal.v
Canon.v
JournalSpec.v
Jobs.v
JobsSpec.v
Capabilities.v
CapabilitiesSpec.v
Policy.v
Circuit.v
RuntimeCache.v
RuntimeCacheSpec.v
SqlitePool.v
FileLock.v
Stem.v
Oblivious.v
Number.v
Ledger.v
Vda.v
SiteMemory.v
Mesh.v
MeshSpec.v
Seal.v
Transparency.v
TransparencySpec.v
Artifacts.v
Lineage.v
LineageSpec.v
Rotate.v
Edge.v
EdgeSpec.v
SqlGuard.v
SqlGuardSpec.v
ChangeStream.v
ChangeStreamSpec.v
KvCapsules.v
KvCapsulesSpec.v
Royalties.v
RoyaltiesSpec.v
Shield.v
ShieldSpec.v
Effects.v
ArtifactStore.v
ArtifactStoreSpec.v
ArtifactAccess.v
Household.v
HouseholdSpec.v
Records.v
RecordJournal.v
RecordJournalSpec.v
Grounding.v
RecordErasure.v
RecordErasureSpec.v
RecordLife.v
ForeignScope.v
RecordStories.v
TeamIsolation.v
TeamIsolationSpec.v
TeamStories.v
MemoryBlocks.v
MemoryBlocksSpec.v
MemoryBlocksGuards.v
