(* ===== verification/Prelude.v ===== *)
(** * UniMem: a verification development for the governance and evidence core

    UniMem keeps the long-term memory of software agents and robots.  What a
    reader of its memory relies on - who said something, that it was not
    altered, from what it was derived, who may see it, that it was deleted
    when it had to be - is decided by a core of Python modules under
    [src/unimem/].  This library models that core as executable Gallina
    definitions, named as in the source, and proves what makes it correct.

    ** How the program is put together

    Everything durable rests on *signed journals* ([frontier_protocol.py]):
    append-only files whose rows are canonical JSON, signed by the store's key
    and chained by digests.  A *transparency log* ([transparency_log.py]) is an
    RFC 6962 Merkle tree over such a journal.  The other components keep their
    state as the fold of a journal and are written against two interfaces,
    [Ledger] (read, append) and [Sealed] (sign, verify, tip), whose laws the
    journals discharge; so their theorems hold of the files on the disk.  The
    artifact store, the lineage, the change stream, the model caches, the robot
    edge and the household gate call one another through those journals and
    through the interfaces named below.

    ** Conventions

    A fallible function returns [res E A]; a function that changes state
    passes it, and where an exception may leave a partial change it is a
    computation of [Effects.v], which returns the state also when it raises.
    JSON values are [json], with floats as the [repr] that determines them;
    texts are byte strings in UTF-8, or code points where characters matter
    ([Unicode.v]).  Integers of the source are unbounded, hence [Z]; times are
    integers.  Code outside the repository (Ed25519, random bytes, the clock,
    the operating system's failures, the Unicode database, floating-point
    arithmetic) is a parameter, with laws in a [Class] where a proof needs one
    and an instance that shows the laws can hold.

    ** Files and what they model

    - [Prelude], [Strings], [Effects], [Unicode]: results and their automation,
      sets and orders of strings, state and exceptions with a Hoare-style
      predicate [holds], texts as code points.
    - [Sha256], [Base64]: the parts of the Python library the code hashes and
      encodes with, executable.
    - [Wire], [Number], [Moment], [Canon]: [frontier_protocol.py]'s JSON
      validator (bounds on depth, nodes, bytes), canonical encoding, digests,
      argument checks, timestamps.  The validator is proved to accept exactly
      the trees within its bounds, the encoding to be injective.
    - [Origin], [Journal], [JournalSpec], [Rotate]: [origin.py],
      [memory_authority.py] (signing half), [frontier_protocol.py] (journals).
      An append extends the history by one verifiable row; a chain's tip
      determines its rows; a row of exactly the limit makes a journal
      unreadable (a finding).
    - [Merkle], [Consistency], [MerkleSpec], [Transparency], [TransparencySpec]:
      [transparency_log.py].  Both proof systems are complete and sound, on
      inputs without SHA-256 collisions among the strings they hash; published
      receipts and heads verify; the process cache is coherent.
    - [Ledger], [Seal]: the interfaces, discharged by the journals and by a
      ledger in memory used in the witnesses.
    - [Jobs], [JobsSpec]: [jobs.py], the queue as transactions on a table:
      invariant of every reachable table, the choice of [claim], fencing.
    - [Capabilities], [CapabilitiesSpec], [Policy]: [capabilities.py],
      [policy_proof.py]: delegation only narrows; the exhaustive policy
      difference is sound and complete.
    - [Artifacts], [ArtifactStore], [ArtifactStoreSpec], [ArtifactAccess]:
      [nextwave_store.py].  An erasure removes what is derived from its sources
      at any distance and spares the rest; a read checks every transitive
      source; a write reads back; scopes, sources and erasures are final.
    - [Lineage], [LineageSpec]: [lineage.py]: reachability within the bound,
      snapshots are replays, a statement never has more integrity than what it
      is made from, taints reach descendants.
    - [ChangeStream], [ChangeStreamSpec]: [change_stream.py]: the outbox
      never repeats, reorders or invents an event, whatever the crashes.
    - [KvCapsules], [KvCapsulesSpec]: [kv_capsules.py]: model caches in pools.
    - [MemoryBlocks], [MemoryBlocksSpec], [MemoryBlocksGuards]:
      [memory_blocks.py] over a disk whose operations may fail: edits are
      atomic under one fault, protected blocks are kept, the log is a chain.
    - [Household], [HouseholdSpec]: [household.py]: a scene is stored only with
      everyone's consent; a private room stays private.
    - [Records], [RecordJournal], [RecordJournalSpec], [Grounding],
      [RecordErasure], [RecordErasureSpec], [RecordLife], [ForeignScope],
      [RecordStories]:
      [memory_record.py], [record_visibility.py] and [memory_journal.py]: the
      SQLite journal of versioned memory records as tables, one computation per
      method, transactions that leave the tables alone when they raise.  In
      that order: records, scopes and visibility; the tables and the methods
      that write them; the invariant of the tables and its preservation;
      grounding, [ground] to [current], whose memoised bounded walk decides
      support by current sources; [forget] and its cascade; what [forget]
      erases, and that the fuel of its cascade is enough; the life of a
      journal under any run of operations (typed tables, versions, exact
      erasure where scopes are printable ASCII, cursors, deliveries); scopes
      outside printable ASCII, whose distilled copies every erasure leaves in
      place (a finding); concrete journals.
    - [Royalties], [RoyaltiesSpec]: [cleanroom.py]: the budget is paid exactly.
    - [SqlGuard], [SqlGuardSpec]: [sql_guard.py]: what a validated statement can
      contain, and the limit it runs under.
    - [TeamIsolation], [TeamIsolationSpec], [TeamStories]:
      [team_isolation.py], [team_io.py] and the scope test of
      [memory_control.py]: optimistic transactions of a team on the shared
      facts.  A commit rests on reads that still hold, stays within its
      caller's scope, is fenced by its lease, and an active policy cannot be
      passed by.
    - [Rows], [RuntimeCache], [RuntimeCacheSpec]: [runtime_cache.py], every
      interleaving of its locked sections: limits, no waiter left behind, no
      value from before an invalidation.
    - [SqlitePool]: [sqlite_pool.py]: a connection has one owner, and a closed
      file is reopened.
    - [FileLock]: [locked] of [frontmatter.py] and [_jsonl.py] as a step system
      over inodes and locks: it excludes, a free lock is taken at the first
      try, and the wait is bounded.
    - [Circuit], [Oblivious], [Stem]: [circuit_breaker.py], [oblivious.py],
      [_stem.py]: every interleaving of the breaker, private retrieval and its
      uniform shares, the stemmer.
    - [Vda], [SiteMemory], [Mesh], [MeshSpec], [Edge], [EdgeSpec], [Shield],
      [ShieldSpec]: the robot side: [robotics/vda5050.py],
      [robotics/site_memory.py], [mesh_crdt.py], [robotics/edge.py],
      [robotics/shield.py]: merges converge, hazards are never forgotten, the
      outcome queue refines a list, the monitor's sign is satisfaction.

    ** Fuel and bounds

    Recursion that is not structural takes fuel the code's own bounds make
    sufficient: [Wire.walk] one step per node; [Lineage.walk_loop] the 2000
    iterations of the source; [ArtifactStore._get] one more than the sixteen
    open artifacts the source allows ([ArtifactAccess._get_enough]);
    [ArtifactStore.closure] the source's sixteen rounds, whose exhaustion is
    the error the source raises; [Grounding.ground] the 64 levels after which
    the source refuses, and one more for the refusal;
    [RecordErasure.cascade_fuel] one step per edge, record and capture of the
    tables ([RecordErasureSpec.cascade_returns]); [Merkle] and [Consistency] recurse on sizes
    or on the bits of positions.

    ** Not modelled

    The HTTP and MCP servers, the command line, the hub and its consoles, the
    SDKs, ingestion, embeddings and language-model calls are input, output and
    glue around the core.  Statistics ([eprocess.py], [promotion.py], the
    experiment engine) and ranking compute with binary64 arithmetic whose
    guarantees are statistical.  The canonical fact and lesson stores
    ([hierarchical.py], [lesson_io.py]) are reached by the components here only
    through interfaces.  Sessions of several processes are serialized by the
    file locks the code takes ([FileLock] shows that they exclude) and appear as
    sequences of operations; the circuit breaker, the process cache, the
    connection pool and the locks themselves, whose calls do interleave, are
    step systems. *)

From stdpp Require Export base gmap strings list sorting.
From Stdlib Require Export ZArith Lia Ascii.

#[export] Set Warnings "-clear-no-such-hyp,-register-all".

(** ** Results of fallible Python code

    A Python operation either returns ([Ok]) or raises ([Err]).  The error
    type is a parameter: most components raise the built-in exceptions
    below, some have an exception hierarchy of their own. *)

Inductive res (E A : Type) : Type :=
  | Ok (a : A)
  | Err (e : E).
Arguments Ok {E A} a.
Arguments Err {E A} e.

(** The built-in exception classes the modelled operations raise. *)
Inductive pyexn :=
  | ValueError
  | TypeError
  | KeyError
  | IndexError
  | PermissionError
  | RuntimeError
  | FileNotFoundError
  | OSError
  | AttributeError
  | RecursionError
  | OverflowError
  | StopIteration.

#[export] Instance pyexn_eq_dec : EqDecision pyexn.
Proof. solve_decision. Defined.

#[export] Instance res_eq_dec {E A} `{EqDecision E, EqDecision A} : EqDecision (res E A).
Proof. solve_decision. Defined.

#[export] Instance res_ret {E} : MRet (res E) := λ A a, Ok a.
#[export] Instance res_bind {E} : MBind (res E) :=
  λ A B f m, match m with Ok a => f a | Err e => Err e end.
#[export] Instance res_fmap {E} : FMap (res E) :=
  λ A B f m, match m with Ok a => Ok (f a) | Err e => Err e end.

(** [if not cond: raise e] *)
Definition require {E} (cond : bool) (e : E) : res E () :=
  if cond then Ok () else Err e.

Definition is_ok {E A} (r : res E A) : bool :=
  match r with Ok _ => true | Err _ => false end.

Definition ok_or {E A} (d : A) (r : res E A) : A :=
  match r with Ok a => a | Err _ => d end.

(** A dictionary or sequence access that raises [e] when the key is absent. *)
Definition get_or {E A} (o : option A) (e : E) : res E A :=
  match o with Some a => Ok a | None => Err e end.

(** The loop [for x in l: acc = f(acc, x)] of a body that may raise. *)
Fixpoint foldM {E A B} (f : B → A → res E B) (acc : B) (l : list A) : res E B :=
  match l with
  | [] => Ok acc
  | x :: l' => b ← f acc x; foldM f b l'
  end.

(** [[f(x) for x in l]] with a body that may raise. *)
Fixpoint mapR {E A B} (f : A → res E B) (l : list A) : res E (list B) :=
  match l with
  | [] => Ok []
  | x :: l' => y ← f x; ys ← mapR f l'; Ok (y :: ys)
  end.

Section res_lemmas.
  Context {E : Type}.

Lemma bind_Ok {A B} (m : res E A) (f : A → res E B) (b : B) :
    (m ≫= f) = Ok b ↔ ∃ a, m = Ok a ∧ f a = Ok b.
  Proof.
    destruct m as [a|e]; simpl; split.
    - eauto.
    - by intros (a' & [= ->] & H).
    - done.
    - by intros (a' & ? & H).
  Qed.

Lemma require_Ok (c : bool) (e : E) u : require c e = Ok u ↔ c = true.
  Proof. destruct c, u; simpl; split; congruence. Qed.

Lemma get_or_Ok {A} (o : option A) (e : E) a : get_or o e = Ok a ↔ o = Some a.
  Proof. destruct o; simpl; split; congruence. Qed.

Lemma mapR_Ok_Forall2 {A B} (f : A → res E B) l k :
    mapR f l = Ok k ↔ Forall2 (λ x y, f x = Ok y) l k.
  Proof.
    revert k. induction l as [|x l IH]; intros k; simpl.
    - split; [intros [= <-]; constructor | intros H; by inversion H].
    - split.
      + intros (y & Hy & (ys & Hys & [= <-])%bind_Ok)%bind_Ok.
        constructor; [done | by apply IH].
      + intros H. inversion H as [|? y ? ys Hy Hys]; subst.
        rewrite Hy. simpl. by rewrite (proj2 (IH ys) Hys).
  Qed.

Lemma mapR_length {A B} (f : A → res E B) l k : mapR f l = Ok k → length k = length l.
  Proof. intros H%mapR_Ok_Forall2. by rewrite (Forall2_length _ _ _ H). Qed.

  (** Rule of the raising loop: an invariant of the body is one of the loop. *)
Lemma foldM_inv {A B} (P : B → Prop) (f : B → A → res E B) l acc out :
    P acc → (∀ b x b', x ∈ l → P b → f b x = Ok b' → P b') →
    foldM f acc l = Ok out → P out.
  Proof.
    revert acc. induction l as [|x l IH]; simpl; intros acc Hacc Hstep Hfold.
    - by injection Hfold as <-.
    - apply bind_Ok in Hfold as (b & Hb & Hfold).
      eapply IH; [|intros ????; by eapply Hstep; right|exact Hfold].
      eapply Hstep; [by left|exact Hacc|exact Hb].
  Qed.

Lemma foldM_app {A B} (f : B → A → res E B) l k acc :
    foldM f acc (l ++ k) = (b ← foldM f acc l; foldM f b k).
  Proof.
    revert acc. induction l as [|x l IH]; intros acc; simpl; [done|].
    destruct (f acc x); simpl; [apply IH|done].
  Qed.
Lemma is_ok_or {A} (d : A) (r : res E A) : is_ok r = true → r = Ok (ok_or d r).
Proof. by destruct r. Qed.
End res_lemmas.

(** ** Automation

    [res_inv] opens a successful run: every bind, guard and lookup on the
    way to [Ok] becomes a hypothesis. *)
Ltac res_step :=
  match goal with
  | H : Ok _ = Ok _ |- _ => injection H as H; try subst
  | H : Err _ = Ok _ |- _ => discriminate H
  | H : Ok _ = Err _ |- _ => discriminate H
  | H : (_ ≫= _) = Ok _ |- _ => apply bind_Ok in H as (? & ? & ?)
  | H : require _ _ = Ok _ |- _ => apply require_Ok in H
  | H : get_or _ _ = Ok _ |- _ => apply get_or_Ok in H
  | H : mret _ = Ok _ |- _ => injection H as H; try subst
  | H : negb _ = true |- _ => apply negb_true_iff in H
  | H : negb _ = false |- _ => apply negb_false_iff in H
  | H : andb _ _ = true |- _ => apply andb_true_iff in H as [? ?]
  | H : orb _ _ = false |- _ => apply orb_false_iff in H as [? ?]
  | H : bool_decide _ = true |- _ => apply bool_decide_eq_true in H
  | H : bool_decide _ = false |- _ => apply bool_decide_eq_false in H
  end.
Ltac res_inv := repeat (res_step; simpl in *).

(** One bind of a successful computation: [bind H as x Hx] names its first
    result [x] and leaves the rest in [H]. *)
Tactic Notation "bind" hyp(H) "as" simple_intropattern(x) simple_intropattern(Hx) :=
  apply bind_Ok in H as (x & Hx & H).

(** Turn boolean integer comparisons in the context into propositions. *)
Ltac zbool :=
  repeat match goal with
  | H : (_ <=? _)%Z = true |- _ => apply Z.leb_le in H
  | H : (_ <=? _)%Z = false |- _ => apply Z.leb_gt in H
  | H : (_ <? _)%Z = true |- _ => apply Z.ltb_lt in H
  | H : (_ <? _)%Z = false |- _ => apply Z.ltb_ge in H
  | H : (_ =? _)%Z = true |- _ => apply Z.eqb_eq in H
  | H : (_ =? _)%Z = false |- _ => apply Z.eqb_neq in H
  | H : (_ <=? _)%nat = true |- _ => apply Nat.leb_le in H
  | H : (_ <=? _)%nat = false |- _ => apply Nat.leb_gt in H
  | H : (_ <? _)%nat = true |- _ => apply Nat.ltb_lt in H
  | H : (_ <? _)%nat = false |- _ => apply Nat.ltb_ge in H
  | H : (_ =? _)%nat = true |- _ => apply Nat.eqb_eq in H
  | H : (_ =? _)%nat = false |- _ => apply Nat.eqb_neq in H
  end.

(** Split the [match]/[if] the goal is stuck on, keeping the equation. *)
Ltac case_goal :=
  match goal with
  | |- context [match ?x with _ => _ end] => destruct x eqn:?; simplify_eq/=
  end.

Create HintDb unimem.
#[export] Hint Resolve Forall_nil_2 Forall_cons_2 : unimem.

(** ** Lists *)

Lemma filter_none {A} (p : A → bool) l : Forall (λ x, p x = false) l → List.filter p l = [].
Proof. induction 1 as [|x l Hx _ IH]; [done|]. simpl. by rewrite Hx. Qed.

(** [all(p(x) for x in l)] and [any(p(x) for x in l)]. *)
Lemma forallb_Forall {A} (p : A → bool) l : forallb p l = true ↔ Forall (λ x, p x = true) l.
Proof. rewrite forallb_forall, Forall_forall. by setoid_rewrite list_elem_of_In. Qed.

Lemma existsb_Exists {A} (p : A → bool) l : existsb p l = true ↔ Exists (λ x, p x = true) l.
Proof.
  rewrite existsb_exists, Exists_exists. by setoid_rewrite list_elem_of_In.
Qed.

Lemma existsb_false_Forall {A} (p : A → bool) l :
  existsb p l = false ↔ Forall (λ x, p x = false) l.
Proof.
  induction l as [|x l IH]; simpl; [by split|].
  rewrite orb_false_iff, Forall_cons, IH. done.
Qed.

Lemma forallb_rev {A} (p : A → bool) l : forallb p (rev l) = forallb p l.
Proof.
  induction l as [|x l IH]; simpl; [done|]. rewrite forallb_app, IH. simpl.
  by rewrite andb_true_r, andb_comm.
Qed.

(** The index of an element is an element of the range of a list. *)
Lemma NoDup_map_filter {A B} (f : A → B) (p : A → bool) l : NoDup (map f l) → NoDup (map f (List.filter p l)).
Proof.
  induction l as [|a l IH]; simpl; [done|]. intros [Ha Hnd]%NoDup_cons. destruct (p a); [|auto]. simpl.
  constructor; [|auto]. intros Hin. apply Ha. apply list_elem_of_fmap in Hin as (b & -> & Hb). apply list_elem_of_fmap.
  exists b. split; [done|]. apply list_elem_of_In. apply list_elem_of_In, filter_In in Hb. tauto.
Qed.

Lemma elem_rev {A} (x : A) l : x ∈ rev l ↔ x ∈ l.
Proof. rewrite !list_elem_of_In. symmetry. apply in_rev. Qed.

Lemma run_pair {A B} (p : A * B) (a : A) : fst p = a → p = (a, snd p).
Proof. intros <-. apply surjective_pairing. Qed.

Lemma last_snoc_Some {A} (l : list A) x : last (l ++ [x]) = Some x.
Proof. by rewrite last_snoc. Qed.

(** Concatenation up to order. *)
Lemma concat_perm {A} (l k : list (list A)) : l ≡ₚ k → concat l ≡ₚ concat k.
Proof.
  induction 1 as [| |g h l|]; simpl; [done|by apply Permutation_app_head| |by etrans].
  rewrite !app_assoc. by apply Permutation_app_tail, Permutation_app_comm.
Qed.

(** ** Python strings

    A [str] is modelled by its UTF-8 encoding, a byte [string]; [len(s)]
    counts the bytes that start a code point and [len(s.encode())] all of
    them. *)
Fixpoint str_bytes (s : string) : list ascii :=
  match s with
  | EmptyString => []
  | String c s' => c :: str_bytes s'
  end.

Fixpoint of_bytes (l : list ascii) : string :=
  match l with
  | [] => EmptyString
  | c :: l' => String c (of_bytes l')
  end.

Definition byte_len (s : string) : Z := Z.of_nat (String.length s).

(** Continuation bytes are [0b10xxxxxx]. *)
Definition starts_code_point (c : ascii) : bool :=
  negb ((128 <=? nat_of_ascii c)%nat && (nat_of_ascii c <? 192)%nat).

Definition str_len (s : string) : Z :=
  Z.of_nat (length (filter (λ c, Is_true (starts_code_point c)) (str_bytes s))).

(** [s[:n]], in code points. *)
Fixpoint str_take (n : nat) (s : string) : string :=
  match s with
  | EmptyString => EmptyString
  | String c s' =>
      if starts_code_point c then
        match n with O => EmptyString | S n' => String c (str_take n' s') end
      else String c (str_take n s')
  end.

Definition has_char (c : ascii) (s : string) : bool := existsb (Ascii.eqb c) (str_bytes s).

Lemma of_bytes_str_bytes s : of_bytes (str_bytes s) = s.
Proof. induction s; simpl; congruence. Qed.

Lemma str_bytes_of_bytes l : str_bytes (of_bytes l) = l.
Proof. induction l; simpl; congruence. Qed.

Lemma str_bytes_inj s t : str_bytes s = str_bytes t → s = t.
Proof. intros H. by rewrite <- (of_bytes_str_bytes s), H, of_bytes_str_bytes. Qed.

Lemma length_str_bytes s : length (str_bytes s) = String.length s.
Proof. induction s; simpl; congruence. Qed.

Lemma str_bytes_app s t : str_bytes (s +:+ t) = str_bytes s ++ str_bytes t.
Proof. induction s as [|c s IH]; [done|]. simpl. by f_equal. Qed.

Lemma str_len_le_byte_len s : (str_len s <= byte_len s)%Z.
Proof.
  unfold str_len, byte_len. rewrite <- length_str_bytes.
  pose proof (length_filter (λ c, Is_true (starts_code_point c)) (str_bytes s)). lia.
Qed.

(** Lexicographic order of byte strings; on UTF-8 it is the order Python
    compares [str] values by. *)
Definition str_leb (s t : string) : bool :=
  match String.compare s t with Gt => false | _ => true end.

Definition str_ltb (s t : string) : bool :=
  match String.compare s t with Lt => true | _ => false end.
