(* ===== verification/Sha256.v ===== *)
(** * SHA-256, HMAC-SHA256 and hexadecimal text

    The parts of Python's [hashlib], [hmac] and [bytes.hex] that the modelled
    code calls, as executable functions over byte strings (FIPS 180-4 and
    RFC 2104), with their published test vectors. *)

From S2P Require Import Prelude.
Local Open Scope Z_scope.

(** ** 32-bit words *)

Definition w32 (x : Z) : Z := Z.land x 0xffffffff.
Definition add32 (x y : Z) : Z := w32 (x + y).
Definition rotr (n x : Z) : Z := Z.lor (Z.shiftr x n) (w32 (Z.shiftl x (32 - n))).
Definition not32 (x : Z) : Z := Z.lxor x 0xffffffff.

Definition big_sigma0 (x : Z) : Z := Z.lxor (rotr 2 x) (Z.lxor (rotr 13 x) (rotr 22 x)).
Definition big_sigma1 (x : Z) : Z := Z.lxor (rotr 6 x) (Z.lxor (rotr 11 x) (rotr 25 x)).
Definition small_sigma0 (x : Z) : Z := Z.lxor (rotr 7 x) (Z.lxor (rotr 18 x) (Z.shiftr x 3)).
Definition small_sigma1 (x : Z) : Z := Z.lxor (rotr 17 x) (Z.lxor (rotr 19 x) (Z.shiftr x 10)).
Definition choose (x y z : Z) : Z := Z.lxor (Z.land x y) (Z.land (not32 x) z).
Definition majority (x y z : Z) : Z := Z.lxor (Z.land x y) (Z.lxor (Z.land x z) (Z.land y z)).

(** The standard derives its constants from the first primes: the first 32
    bits of the fractional parts of their cube roots (one per round) and of
    their square roots (the initial state). *)
Definition primes (bound : nat) : list Z :=
  List.filter (λ p, forallb (λ d, negb (p mod d =? 0)) (map Z.of_nat (seq 2 (Z.to_nat p - 2))))
              (map Z.of_nat (seq 2 (bound - 1))).

(** The largest [r < 2 ^ bits] with [r ^ 3 <= x], one bit at a time. *)
Fixpoint cube_root (bits : nat) (r x : Z) : Z :=
  match bits with
  | O => r
  | S b => let r' := r + 2 ^ Z.of_nat b in cube_root b (if r' ^ 3 <=? x then r' else r) x
  end.

Definition round_constants : list Z :=
  Eval vm_compute in map (λ p, w32 (cube_root 36 0 (p * 2 ^ 96))) (primes 311).

(** ** Byte strings and words *)

Definition byte_of (c : ascii) : Z := Z.of_nat (nat_of_ascii c).
Definition chr (z : Z) : ascii := ascii_of_N (Z.to_N (Z.land z 255)).

Fixpoint be_words (l : list ascii) : list Z :=
  match l with
  | a :: b :: c :: d :: l' =>
      (byte_of a * 0x1000000 + byte_of b * 0x10000 + byte_of c * 0x100 + byte_of d) :: be_words l'
  | _ => []
  end.

Definition be32 (w : Z) : list ascii :=
  [chr (Z.shiftr w 24); chr (Z.shiftr w 16); chr (Z.shiftr w 8); chr w].

(** The 64 message bits, the one bit and zeros up to a multiple of 64 bytes. *)
Definition pad (msg : list ascii) : list ascii :=
  let n := Z.of_nat (length msg) in
  let zeros := Z.to_nat ((55 - n) mod 64) in
  msg ++ chr 0x80 :: replicate zeros (chr 0)
      ++ be32 (Z.shiftr (8 * n) 32) ++ be32 (w32 (8 * n)).

(** ** The compression function *)

Record regs := Regs { ra : Z; rb : Z; rc : Z; rd : Z; re : Z; rf : Z; rg : Z; rh : Z }.

Definition initial_state : list Z :=
  Eval vm_compute in map (λ p, w32 (Z.sqrt (p * 2 ^ 64))) (primes 19).

Definition initial_regs : regs :=
  let h i := nth i initial_state 0 in Regs (h 0%nat) (h 1%nat) (h 2%nat) (h 3%nat) (h 4%nat) (h 5%nat) (h 6%nat) (h 7%nat).

Definition round (s : regs) (k w : Z) : regs :=
  let t1 := add32 (rh s) (add32 (big_sigma1 (re s))
             (add32 (choose (re s) (rf s) (rg s)) (add32 k w))) in
  let t2 := add32 (big_sigma0 (ra s)) (majority (ra s) (rb s) (rc s)) in
  Regs (add32 t1 t2) (ra s) (rb s) (rc s) (add32 (rd s) t1) (re s) (rf s) (rg s).

(** One round consumes the oldest word of the sixteen-word schedule window
    and pushes the next one. *)
Definition schedule_next (w : list Z) : list Z :=
  match w with
  | w0 :: w' =>
      w' ++ [add32 (small_sigma1 (nth 13 w' 0))
              (add32 (nth 8 w' 0) (add32 (small_sigma0 (nth 0 w' 0)) w0))]
  | [] => []
  end.

Definition rounds (s : regs) (block : list Z) : regs :=
  fst (fold_left (λ '(st, w) k, (round st k (hd 0 w), schedule_next w))
                 round_constants (s, block)).

Definition add_regs (s t : regs) : regs :=
  Regs (add32 (ra s) (ra t)) (add32 (rb s) (rb t)) (add32 (rc s) (rc t)) (add32 (rd s) (rd t))
       (add32 (re s) (re t)) (add32 (rf s) (rf t)) (add32 (rg s) (rg t)) (add32 (rh s) (rh t)).

Definition compress (s : regs) (block : list Z) : regs := add_regs s (rounds s block).

Fixpoint compress_all (fuel : nat) (s : regs) (ws : list Z) : regs :=
  match fuel, ws with
  | S fuel', _ :: _ => compress_all fuel' (compress s (take 16 ws)) (drop 16 ws)
  | _, _ => s
  end.

Definition regs_bytes (s : regs) : list ascii :=
  be32 (ra s) ++ be32 (rb s) ++ be32 (rc s) ++ be32 (rd s)
  ++ be32 (re s) ++ be32 (rf s) ++ be32 (rg s) ++ be32 (rh s).

Definition sha256_bytes (msg : list ascii) : list ascii :=
  let ws := be_words (pad msg) in
  regs_bytes (compress_all (length ws) initial_regs ws).

(** [hashlib.sha256(msg).digest()] *)
Definition sha256 (msg : string) : string := of_bytes (sha256_bytes (str_bytes msg)).

(** ** Hexadecimal text *)

Definition hex_digit (z : Z) : ascii :=
  if z <? 10 then chr (48 + z) else chr (87 + z).

Definition hex_value (c : ascii) : option Z :=
  let n := byte_of c in
  if (48 <=? n) && (n <=? 57) then Some (n - 48)
  else if (97 <=? n) && (n <=? 102) then Some (n - 87)
  else if (65 <=? n) && (n <=? 70) then Some (n - 55)
  else None.

Fixpoint hex_bytes (l : list ascii) : list ascii :=
  match l with
  | [] => []
  | c :: l' => hex_digit (Z.shiftr (byte_of c) 4) :: hex_digit (Z.land (byte_of c) 15) :: hex_bytes l'
  end.

(** [bytes.hex()] and [hexdigest()] *)
Definition hex (s : string) : string := of_bytes (hex_bytes (str_bytes s)).
Definition sha256_hex (msg : string) : string := hex (sha256 msg).

Fixpoint unhex_bytes (l : list ascii) : option (list ascii) :=
  match l with
  | [] => Some []
  | a :: b :: l' =>
      x ← hex_value a; y ← hex_value b; r ← unhex_bytes l';
      Some (chr (16 * x + y) :: r)
  | _ => None
  end.

(** [bytes.fromhex(s)] on text without embedded white space. *)
Definition unhex (s : string) : option string := of_bytes <$> unhex_bytes (str_bytes s).

(** ** HMAC-SHA256 *)

Definition xor_pad (v : Z) (key : list ascii) : list ascii :=
  map (λ c, chr (Z.lxor (byte_of c) v)) key.

Definition hmac_key (key : string) : list ascii :=
  let k := if byte_len key <=? 64 then str_bytes key else str_bytes (sha256 key) in
  k ++ replicate (64 - length k) (chr 0).

Definition hmac_sha256 (key msg : string) : string :=
  let k := hmac_key key in
  sha256 (of_bytes (xor_pad 0x5c k
    ++ str_bytes (sha256 (of_bytes (xor_pad 0x36 k ++ str_bytes msg))))).

(** [hmac.new(key, msg, hashlib.sha256).hexdigest()] *)
Definition hmac_hex (key msg : string) : string := hex (hmac_sha256 key msg).

(** FIPS 180-4 and RFC 4231 test vectors. *)
Example sha256_empty :
  sha256_hex "" = "e3b0c44298fc1c149afbf4c8996fb92427ae41e4649b934ca495991b7852b855"%string.
Proof. vm_compute. reflexivity. Qed.

Example sha256_abc :
  sha256_hex "abc" = "ba7816bf8f01cfea414140de5dae2223b00361a396177a9cb410ff61f20015ad"%string.
Proof. vm_compute. reflexivity. Qed.

Example sha256_two_blocks :
  sha256_hex "abcdbcdecdefdefgefghfghighijhijkijkljklmklmnlmnomnopnopq"
  = "248d6a61d20638b8e5c026930c3e6039a33ce45964ff2167f6ecedd419db06c1"%string.
Proof. vm_compute. reflexivity. Qed.

Example hmac_rfc4231_2 :
  hmac_hex "Jefe" "what do ya want for nothing?"
  = "5bdcc146bf60754e6a042426089575c75a003f089d2739839dec58b964ec3843"%string.
Proof. vm_compute. reflexivity. Qed.

(** ** Shape of digests *)

(** [re.compile(r"[0-9a-f]{64}\Z").fullmatch] *)
Definition is_lower_hex (c : ascii) : bool :=
  let n := byte_of c in ((48 <=? n) && (n <=? 57)) || ((97 <=? n) && (n <=? 102)).

Definition is_hash (s : string) : bool :=
  (String.length s =? 64)%nat && forallb is_lower_hex (str_bytes s).

Lemma byte_of_range c : 0 <= byte_of c < 256.
Proof. unfold byte_of. pose proof (nat_ascii_bounded c). lia. Qed.

Lemma byte_of_chr z : byte_of (chr z) = Z.land z 255.
Proof.
  unfold byte_of, chr, nat_of_ascii.
  assert (0 <= Z.land z 255 < 256) as Hz.
  { change 255 with (Z.ones 8). rewrite Z.land_ones by lia. apply Z.mod_pos_bound. lia. }
  rewrite N_ascii_embedding by lia. lia.
Qed.

Lemma chr_byte_of c : chr (byte_of c) = c.
Proof.
  unfold chr, byte_of, nat_of_ascii.
  change 255 with (Z.ones 8). rewrite Z.land_ones by lia.
  pose proof (N_ascii_bounded c).
  rewrite Z.mod_small by lia. rewrite N_nat_Z, N2Z.id. apply ascii_N_embedding.
Qed.

Lemma hex_digit_ok z : 0 <= z < 16 →
  is_lower_hex (hex_digit z) = true ∧ hex_value (hex_digit z) = Some z.
Proof.
  intros Hz.
  assert (z = 0 ∨ z = 1 ∨ z = 2 ∨ z = 3 ∨ z = 4 ∨ z = 5 ∨ z = 6 ∨ z = 7 ∨ z = 8 ∨ z = 9 ∨ z = 10
    ∨ z = 11 ∨ z = 12 ∨ z = 13 ∨ z = 14 ∨ z = 15) as H by lia.
  repeat destruct H as [->|H]; try subst z; vm_compute; done.
Qed.

Lemma nibbles c : 0 <= Z.shiftr (byte_of c) 4 < 16 ∧ 0 <= Z.land (byte_of c) 15 < 16
  ∧ 16 * Z.shiftr (byte_of c) 4 + Z.land (byte_of c) 15 = byte_of c.
Proof.
  pose proof (byte_of_range c) as Hc.
  rewrite Z.shiftr_div_pow2 by lia. change (2 ^ 4) with 16.
  change 15 with (Z.ones 4). rewrite Z.land_ones by lia. change (2 ^ 4) with 16.
  pose proof (Z.div_mod (byte_of c) 16 ltac:(lia)).
  pose proof (Z.mod_pos_bound (byte_of c) 16 ltac:(lia)).
  repeat split; lia.
Qed.

Lemma length_hex_bytes l : length (hex_bytes l) = (2 * length l)%nat.
Proof. induction l; simpl; lia. Qed.

Lemma hex_bytes_lower l : forallb is_lower_hex (hex_bytes l) = true.
Proof.
  induction l as [|c l IH]; [done|]. cbn [hex_bytes forallb].
  destruct (nibbles c) as (H1 & H2 & _).
  by rewrite (proj1 (hex_digit_ok _ H1)), (proj1 (hex_digit_ok _ H2)), IH.
Qed.

Lemma unhex_hex_bytes l : unhex_bytes (hex_bytes l) = Some l.
Proof.
  induction l as [|c l IH]; [done|]. cbn [hex_bytes unhex_bytes].
  destruct (nibbles c) as (H1 & H2 & H3).
  rewrite (proj2 (hex_digit_ok _ H1)), (proj2 (hex_digit_ok _ H2)), IH. simpl.
  by rewrite H3, chr_byte_of.
Qed.

Lemma unhex_hex s : unhex (hex s) = Some s.
Proof.
  unfold unhex, hex. rewrite str_bytes_of_bytes, unhex_hex_bytes. simpl.
  by rewrite of_bytes_str_bytes.
Qed.

Lemma length_regs_bytes s : length (regs_bytes s) = 32%nat.
Proof. reflexivity. Qed.

Lemma length_sha256 m : String.length (sha256 m) = 32%nat.
Proof. unfold sha256. by rewrite <- length_str_bytes, str_bytes_of_bytes. Qed.

Lemma is_hash_hex s : String.length s = 32%nat → is_hash (hex s) = true.
Proof.
  intros Hs. unfold is_hash, hex.
  rewrite <- length_str_bytes, str_bytes_of_bytes, length_hex_bytes, length_str_bytes, Hs.
  by rewrite hex_bytes_lower.
Qed.

Lemma is_hash_sha256_hex m : is_hash (sha256_hex m) = true.
Proof. apply is_hash_hex, length_sha256. Qed.

Lemma is_lower_hex_value c : is_lower_hex c = true →
  ∃ z, hex_value c = Some z ∧ 0 <= z < 16 ∧ hex_digit z = c.
Proof.
  unfold is_lower_hex, hex_value. intros H.
  assert (c = chr (byte_of c)) as Hc by by rewrite chr_byte_of.
  apply orb_true_iff in H as [H|H]; rewrite H; apply andb_true_iff in H as [H1 H2]; zbool.
  - exists (byte_of c - 48). repeat split; try lia. unfold hex_digit.
    rewrite (proj2 (Z.ltb_lt _ _)) by lia. rewrite Hc at 2. f_equal. lia.
  - rewrite (proj2 (andb_false_iff _ _)) by (right; apply Z.leb_gt; lia).
    exists (byte_of c - 87). repeat split; try lia. unfold hex_digit.
    rewrite (proj2 (Z.ltb_ge _ _)) by lia. rewrite Hc at 2. f_equal. lia.
Qed.

Lemma hex_unhex_bytes n l : length l = (2 * n)%nat → forallb is_lower_hex l = true →
  ∃ r, unhex_bytes l = Some r ∧ length r = n ∧ hex_bytes r = l.
Proof.
  revert l. induction n as [|n IH]; intros l Hl Hhex.
  - destruct l; [|done]. by exists [].
  - destruct l as [|a [|b l]]; simpl in Hl; try lia.
    cbn [forallb] in Hhex. apply andb_true_iff in Hhex as [Ha Hhex].
    apply andb_true_iff in Hhex as [Hb Hhex].
    destruct (is_lower_hex_value a Ha) as (x & Hx & Hx' & Hax).
    destruct (is_lower_hex_value b Hb) as (y & Hy & Hy' & Hby).
    destruct (IH l) as (r & Hr & Hlen & Hrl); [lia|done|].
    exists (chr (16 * x + y) :: r). cbn [unhex_bytes hex_bytes]. rewrite Hx, Hy, Hr. simpl.
    repeat split; [lia|]. rewrite byte_of_chr.
    change 255 with (Z.ones 8). rewrite Z.land_ones by lia. change (2 ^ 8) with 256.
    rewrite Z.mod_small by lia.
    rewrite Z.shiftr_div_pow2 by lia. change (2 ^ 4) with 16.
    change 15 with (Z.ones 4). rewrite Z.land_ones by lia. change (2 ^ 4) with 16.
    rewrite (Z.mul_comm 16 x), Z.div_add_l, Z.div_small, Z.add_0_r by lia.
    rewrite Z.add_comm, Z.mod_add, Z.mod_small by lia. by rewrite Hax, Hby, Hrl.
Qed.

(** Canonical 64-digit hashes are exactly the hex texts of 32 bytes. *)
Lemma is_hash_unhex s : is_hash s = true →
  ∃ b, unhex s = Some b ∧ String.length b = 32%nat ∧ hex b = s.
Proof.
  unfold is_hash. intros [Hl Hh]%andb_true_iff. zbool.
  destruct (hex_unhex_bytes 32 (str_bytes s)) as (r & Hr & Hlen & Hrl); [by rewrite length_str_bytes|done|].
  exists (of_bytes r). unfold unhex. rewrite Hr. simpl. split; [done|].
  split; [by rewrite <- length_str_bytes, str_bytes_of_bytes|].
  unfold hex. by rewrite str_bytes_of_bytes, Hrl, of_bytes_str_bytes.
Qed.

Lemma hex_inj s t : hex s = hex t → s = t.
Proof. intros H. apply (f_equal unhex) in H. rewrite !unhex_hex in H. congruence. Qed.

(** Unification never has a reason to run the compression function. *)
#[global] Opaque sha256 hmac_sha256.

(** ** Collisions

    Claims that rest on SHA-256 assume it does not collide on a finite list
    of strings, the ones that are hashed. *)
Definition collision_free (inputs : list string) : Prop :=
  ∀ x y, x ∈ inputs → y ∈ inputs → sha256 x = sha256 y → x = y.

Lemma collision_free_sub S T : (∀ x, x ∈ T → x ∈ S) → collision_free S → collision_free T.
Proof. intros Hsub Hcf x y ???. apply Hcf; auto. Qed.

(** Deciding collision freedom of concrete inputs. *)
Definition collision_freeb (inputs : list string) : bool :=
  let hashed := map (λ x, (x, sha256 x)) inputs in
  forallb (λ p, forallb (λ q, negb (String.eqb p.2 q.2) || String.eqb p.1 q.1) hashed) hashed.

Lemma collision_freeb_true inputs : collision_freeb inputs = true → collision_free inputs.
Proof.
  intros H x y Hx Hy Heq. unfold collision_freeb in H.
  rewrite forallb_Forall, Forall_map in H.
  rewrite Forall_forall in H. specialize (H x Hx). simpl in H.
  rewrite forallb_Forall, Forall_map, Forall_forall in H. specialize (H y Hy). simpl in H.
  rewrite Heq, String.eqb_refl in H. by apply String.eqb_eq in H.
Qed.

#[export] Hint Resolve is_hash_sha256_hex length_sha256 : unimem.

Arguments sha256 : simpl never.
Arguments sha256_hex : simpl never.
Arguments hex : simpl never.
Arguments unhex : simpl never.
Arguments hmac_hex : simpl never.
Arguments is_hash : simpl never.
