(* ===== verification/Unicode.v ===== *)
(** * Python texts as code points

    [ustr] is Python's [str]; the methods the package calls on texts whose
    characters matter, with Python's white space written out.  The rest of the
    Unicode database is a parameter of the definitions that ask it. *)

From S2P Require Import Prelude.
Local Open Scope Z_scope.

Abbreviation ustr := (list Z) (only parsing).

(** An ASCII literal of the source. *)
Definition u (s : string) : ustr := map (λ c, Z.of_nat (nat_of_ascii c)) (str_bytes s).

Definition between (lo hi c : Z) : bool := (lo <=? c) && (c <=? hi).

(** [str.isspace] and [\s] *)
Definition is_space (c : Z) : bool :=
  between 9 13 c || between 28 32 c || (c =? 133) || (c =? 160) || (c =? 5760) || between 8192 8202 c ||
  (c =? 8232) || (c =? 8233) || (c =? 8239) || (c =? 8287) || (c =? 12288).

(** The UTF-8 length of a code point; surrogates have none. *)
Definition utf8_len (c : Z) : option Z :=
  if c <? 128 then Some 1 else if c <? 2048 then Some 2
  else if between 55296 57343 c then None else if c <? 65536 then Some 3 else Some 4.
Fixpoint encoded_len (s : ustr) : option Z :=
  match s with [] => Some 0 | c :: s' => n ← utf8_len c; m ← encoded_len s'; Some (n + m) end.

Fixpoint starts_with (p s : ustr) : bool :=
  match p, s with
  | [], _ => true
  | _ :: _, [] => false
  | a :: p', b :: s' => (a =? b) && starts_with p' s'
  end.
Fixpoint lstrip (s : ustr) : ustr :=
  match s with c :: s' => if is_space c then lstrip s' else s | [] => [] end.
Definition rstrip (s : ustr) : ustr := rev (lstrip (rev s)).
Definition strip (s : ustr) : ustr := rstrip (lstrip s).

(** [s.strip(chars)] *)
Fixpoint lstrip_of (chars s : ustr) : ustr :=
  match s with c :: s' => if existsb (Z.eqb c) chars then lstrip_of chars s' else s | [] => [] end.
Definition strip_of (chars s : ustr) : ustr := rev (lstrip_of chars (rev (lstrip_of chars s))).

(** [s.expandtabs()] from column [col]. *)
Fixpoint expandtabs_from (col : nat) (s : ustr) : ustr :=
  match s with
  | [] => []
  | c :: s' =>
      if c =? 9 then let n := (8 - col mod 8)%nat in repeat 32 n ++ expandtabs_from (col + n) s'
      else c :: expandtabs_from (if (c =? 10) || (c =? 13) then 0 else S col) s'
  end.
Definition expandtabs (s : ustr) : ustr := expandtabs_from 0 s.

(** [s.split("\n")] and [sep.join(l)] *)
Fixpoint lines (s : ustr) : list ustr :=
  match s with
  | [] => [[]]
  | c :: s' => if c =? 10 then [] :: lines s' else match lines s' with l :: ls => (c :: l) :: ls | [] => [[c]] end
  end.
Fixpoint ujoin (sep : ustr) (l : list ustr) : ustr :=
  match l with [] => [] | [x] => x | x :: l' => x ++ sep ++ ujoin sep l' end.

(** Occurrences of [old] that do not overlap; [skip] characters belong to the
    last one. *)
Fixpoint count_from (skip : nat) (old s : ustr) : nat :=
  match s with
  | [] => 0
  | c :: s' =>
      match skip with
      | S k => count_from k old s'
      | O => if starts_with old s then S (count_from (length old - 1) old s') else count_from 0 old s'
      end
  end.
(** [s.count(old)] *)
Definition occurrences (old s : ustr) : nat := match old with [] => S (length s) | _ => count_from 0 old s end.

Fixpoint replace_from (skip : nat) (old new s : ustr) : ustr :=
  match s with
  | [] => []
  | c :: s' =>
      match skip with
      | S k => replace_from k old new s'
      | O => if starts_with old s then new ++ replace_from (length old - 1) old new s' else c :: replace_from 0 old new s'
      end
  end.
(** [s.replace(old, new)] *)
Definition ureplace (old new s : ustr) : ustr :=
  match old with [] => new ++ concat (map (λ c, c :: new) s) | _ => replace_from 0 old new s end.

(** What text mode reads of a text: universal newlines. *)
Fixpoint translate_newlines (s : ustr) : ustr :=
  match s with
  | [] => []
  | c :: s' =>
      if c =? 13 then
        match s' with
        | d :: s'' => if d =? 10 then 10 :: translate_newlines s'' else 10 :: translate_newlines s'
        | [] => [10]
        end
      else c :: translate_newlines s'
  end.

(** ** Digits and lower case

    Outside ASCII they are the Unicode database's: the value of a decimal
    digit, the lower case of a character between the texts around it. *)

Section unicode.
Variable uni_digit : Z → option (fin 10).
Variable uni_lower : ustr → Z → ustr → ustr.

(** [\d]; white space is never a digit. *)
Definition digit_of (c : Z) : option Z :=
  if c <? 128 then if between 48 57 c then Some (c - 48) else None
  else if is_space c then None else d ← uni_digit c; Some (Z.of_nat (fin_to_nat d)).
Definition is_digit (c : Z) : bool := match digit_of c with Some _ => true | None => false end.

Fixpoint lower_in (done s : ustr) : ustr :=
  match s with
  | [] => []
  | c :: s' => (if c <? 128 then [if between 65 90 c then c + 32 else c] else uni_lower done c s') ++ lower_in (done ++ [c]) s'
  end.
Definition lower (s : ustr) : ustr := lower_in [] s.
End unicode.

(** UTF-8; [None] for a surrogate. *)
Definition byte (z : Z) : ascii := ascii_of_nat (Z.to_nat z).
Definition utf8_char (c : Z) : option (list ascii) :=
  n ← utf8_len c;
  Some (if n =? 1 then [byte c]
        else if n =? 2 then [byte (192 + c / 64); byte (128 + c mod 64)]
        else if n =? 3 then [byte (224 + c / 4096); byte (128 + c / 64 mod 64); byte (128 + c mod 64)]
        else [byte (240 + c / 262144); byte (128 + c / 4096 mod 64); byte (128 + c / 64 mod 64); byte (128 + c mod 64)]).
Fixpoint utf8_bytes (s : ustr) : option (list ascii) :=
  match s with [] => Some [] | c :: s' => b ← utf8_char c; bs ← utf8_bytes s'; Some (b ++ bs) end.
(** [s.encode("utf-8")] *)
Definition utf8 (s : ustr) : option string := of_bytes <$> utf8_bytes s.

(** The code points of well-formed UTF-8. *)
Fixpoint code_points (l : list ascii) : ustr :=
  let n c := Z.of_nat (nat_of_ascii c) in
  let low c := n c mod 64 in
  match l with
  | [] => []
  | a :: l1 =>
      if n a <? 128 then n a :: code_points l1
      else match l1 with
      | b :: l2 =>
          if n a <? 224 then (n a mod 32 * 64 + low b) :: code_points l2
          else match l2 with
          | c :: l3 =>
              if n a <? 240 then (n a mod 16 * 4096 + low b * 64 + low c) :: code_points l3
              else match l3 with
              | d :: l4 => (n a mod 8 * 262144 + low b * 4096 + low c * 64 + low d) :: code_points l4
              | [] => []
              end
          | [] => []
          end
      | [] => []
      end
  end.

(** [not s.strip()] *)
Definition blank (s : string) : bool := bool_decide (strip (code_points (str_bytes s)) = []).

(** ** Lemmas *)

Lemma translate_newlines_id s : 13 ∉ s → translate_newlines s = s.
Proof.
  induction s as [|c s IH]; [done|]. rewrite not_elem_of_cons. intros [Hc Hs]. simpl.
  rewrite (proj2 (Z.eqb_neq c 13)) by congruence. by rewrite IH.
Qed.
Lemma translate_newlines_shorter s : (length (translate_newlines s) ≤ length s)%nat.
Proof.
  enough ((length (translate_newlines s) ≤ length s)%nat ∧ ∀ c, (length (translate_newlines (c :: s)) ≤ S (length s))%nat) by tauto.
  induction s as [|d s [IH1 IH2]]; [split; [done|]; intros c; simpl; case_match; simpl; lia|].
  split; [exact (IH2 d)|]. intros c. specialize (IH2 d). set (t := d :: s) in *. cbn [translate_newlines].
  destruct (c =? 13); [unfold t at 1; cbv iota beta; destruct (d =? 10)|]; simpl in *; lia.
Qed.

Example text_examples :
  strip (u " a b ") = u "a b" ∧ strip_of (u "_-") (u "_a-b-") = u "a-b" ∧ expandtabs [97; 9; 98] = u "a       b" ∧
  lines (u "ab" ++ [10; 10]) = [u "ab"; []; []] ∧ occurrences (u "aa") (u "aaaaa") = 2%nat ∧
  ureplace (u "aa") (u "b") (u "aaaaa") = u "bba" ∧ translate_newlines [97; 13; 10; 13] = [97; 10; 10] ∧
  utf8 [233; 8364; 128512] = Some (of_bytes (map byte [195; 169; 226; 130; 172; 240; 159; 152; 128])) ∧
  code_points (map byte [97; 195; 169; 226; 130; 172; 240; 159; 152; 128]) = [97; 233; 8364; 128512] ∧
  blank (of_bytes (map byte [32; 194; 160; 9])) = true ∧ blank " x" = false.
Proof. repeat split. Qed.
