(* ===== verification/Wire.v ===== *)
(** * Canonical JSON envelopes ([unimem/frontier_protocol.py], first half)

    JSON values as Python sees them, the bounded validator
    [validate_json_tree], the canonical encoding [wire], [digest], and the
    argument checks [text] and [count]. *)

From S2P Require Import Prelude Sha256.
From stdpp Require Import pretty.
Local Open Scope Z_scope.

Definition MAX_BYTES : Z := 1048576.
Definition MAX_ROWS : Z := 100000.

(** ** JSON values

    A Python [float] is represented by its [repr], which determines it (since
    Python 3.1 [float(repr(x)) == x]); the non-finite ones print as [inf],
    [-inf] and [nan].  A [dict] is an association list in insertion order
    with distinct keys; [list] and [tuple] encode alike. *)
Inductive json :=
  | JNull
  | JBool (b : bool)
  | JInt (n : Z)
  | JFloat (repr : string)
  | JStr (s : string)
  | JList (l : list json)
  | JObj (kvs : list (string * json)).

Section json_ind.
  Variable P : json → Prop.
  Hypothesis Hnull : P JNull.
  Hypothesis Hbool : ∀ b, P (JBool b).
  Hypothesis Hint : ∀ n, P (JInt n).
  Hypothesis Hfloat : ∀ r, P (JFloat r).
  Hypothesis Hstr : ∀ s, P (JStr s).
  Hypothesis Hlist : ∀ l, Forall P l → P (JList l).
  Hypothesis Hobj : ∀ kvs, Forall P kvs.*2 → P (JObj kvs).

Fixpoint json_rect' (v : json) : P v :=
    match v with
    | JNull => Hnull
    | JBool b => Hbool b
    | JInt n => Hint n
    | JFloat r => Hfloat r
    | JStr s => Hstr s
    | JList l => Hlist l ((fix go l : Forall P l :=
        match l with
        | [] => Forall_nil_2 P
        | x :: l' => Forall_cons_2 P x l' (json_rect' x) (go l')
        end) l)
    | JObj kvs => Hobj kvs ((fix go kvs : Forall P kvs.*2 :=
        match kvs with
        | [] => Forall_nil_2 P
        | kv :: kvs' => Forall_cons_2 P (snd kv) (kvs'.*2)
            (let (k, x) as kv return P (snd kv) := kv in json_rect' x) (go kvs')
        end) kvs)
    end.
End json_ind.

Fixpoint json_eqb (v w : json) {struct v} : bool :=
  match v, w with
  | JNull, JNull => true
  | JBool a, JBool b => Bool.eqb a b
  | JInt a, JInt b => a =? b
  | JFloat a, JFloat b => String.eqb a b
  | JStr a, JStr b => String.eqb a b
  | JList l, JList k =>
      (fix go l k := match l, k with
        | [], [] => true
        | x :: l', y :: k' => json_eqb x y && go l' k'
        | _, _ => false end) l k
  | JObj l, JObj k =>
      (fix go l k := match l, k with
        | [], [] => true
        | (a, x) :: l', (b, y) :: k' => String.eqb a b && json_eqb x y && go l' k'
        | _, _ => false end) l k
  | _, _ => false
  end.

Lemma json_eqb_eq v : ∀ w, json_eqb v w = true ↔ v = w.
Proof.
  induction v as [|b|n|r|s|l IH|kvs IH] using json_rect'; intros [| | | | |k|k]; simpl;
    try (split; [discriminate|congruence]); try done.
  - rewrite Bool.eqb_true_iff. naive_solver.
  - rewrite Z.eqb_eq. naive_solver.
  - rewrite String.eqb_eq. naive_solver.
  - rewrite String.eqb_eq. naive_solver.
  - transitivity (l = k); [|naive_solver].
    revert k. induction IH as [|x l Hx Hl IHl]; intros [|y k]; try (split; [discriminate|congruence]); [done|].
    rewrite andb_true_iff, Hx, IHl. naive_solver.
  - transitivity (kvs = k); [|naive_solver].
    revert k. induction kvs as [|[a x] l IHl]; intros [|[b y] k]; try (split; [discriminate|congruence]); [done|].
    simpl in IH. inversion IH as [|?? Hx Hl]; subst.
    rewrite !andb_true_iff, String.eqb_eq, Hx, IHl by done. naive_solver.
Qed.

#[export] Instance json_eq_dec : EqDecision json.
Proof.
  intros v w. destruct (json_eqb v w) eqn:H; [left|right].
  - by apply json_eqb_eq.
  - intros E%json_eqb_eq. congruence.
Defined.

(** ** Dictionaries *)

Fixpoint assoc {A} (k : string) (kvs : list (string * A)) : option A :=
  match kvs with
  | [] => None
  | (k', x) :: kvs' => if String.eqb k k' then Some x else assoc k kvs'
  end.

(** [d[k] = x]: the key keeps its place when present. *)
Fixpoint assoc_set {A} (k : string) (x : A) (kvs : list (string * A)) : list (string * A) :=
  match kvs with
  | [] => [(k, x)]
  | (k', y) :: kvs' => if String.eqb k k' then (k, x) :: kvs' else (k', y) :: assoc_set k x kvs'
  end.

Definition assoc_del {A} (k : string) (kvs : list (string * A)) : list (string * A) :=
  List.filter (λ kv, negb (String.eqb k (fst kv))) kvs.

(** [d.get(k)] on a value that may not be a dict. *)
Definition jget (k : string) (v : json) : option json :=
  match v with JObj kvs => assoc k kvs | _ => None end.

Definition jset (k : string) (x v : json) : json :=
  match v with JObj kvs => JObj (assoc_set k x kvs) | _ => v end.

(** [{**v, **updates}] *)
Definition jupdate (v : json) (updates : list (string * json)) : json :=
  fold_left (λ acc kv, jset (fst kv) (snd kv) acc) updates v.

(** [set(v)] of a dict, as a list of keys. *)
Definition jkeys (v : json) : list string :=
  match v with JObj kvs => kvs.*1 | _ => [] end.

Definition is_obj (v : json) : bool := match v with JObj _ => true | _ => false end.

(** [set(v) == {keys}] for a dict. *)
Definition has_exact_keys (keys : list string) (v : json) : bool :=
  is_obj v && forallb (λ k, existsb (String.eqb k) keys) (jkeys v)
           && forallb (λ k, existsb (String.eqb k) (jkeys v)) keys.

(** ** [json.dumps(..., sort_keys=True, separators=(",", ":"), ensure_ascii=False)] *)

Definition dquote : ascii := ascii_of_nat 34.
Definition backslash : ascii := ascii_of_nat 92.
Definition qstr : string := String dquote EmptyString.

Definition escape_char (c : ascii) : string :=
  let n := byte_of c in
  if n =? 34 then String backslash (String dquote EmptyString)
  else if n =? 92 then String backslash (String backslash EmptyString)
  else if n =? 10 then String backslash "n"
  else if n =? 13 then String backslash "r"
  else if n =? 9 then String backslash "t"
  else if n =? 12 then String backslash "f"
  else if n =? 8 then String backslash "b"
  else if n <? 32 then
    String backslash ("u00" +:+ of_bytes [hex_digit (Z.shiftr n 4); hex_digit (Z.land n 15)])
  else String c EmptyString.

Fixpoint escape (s : string) : string :=
  match s with
  | EmptyString => EmptyString
  | String c s' => escape_char c +:+ escape s'
  end.

Definition quote (s : string) : string := qstr +:+ escape s +:+ qstr.

Fixpoint join (sep : string) (l : list string) : string :=
  match l with
  | [] => EmptyString
  | [s] => s
  | s :: l' => s +:+ sep +:+ join sep l'
  end.

(** Insertion sort on the keys; dict keys are distinct. *)
Fixpoint insert_key {A} (kv : string * A) (l : list (string * A)) : list (string * A) :=
  match l with
  | [] => [kv]
  | kv' :: l' => if str_leb (fst kv) (fst kv') then kv :: l else kv' :: insert_key kv l'
  end.

Fixpoint sort_keys {A} (l : list (string * A)) : list (string * A) :=
  match l with [] => [] | kv :: l' => insert_key kv (sort_keys l') end.

Fixpoint dumps (v : json) : string :=
  match v with
  | JNull => "null"
  | JBool b => if b then "true" else "false"
  | JInt n => pretty n
  | JFloat r => r
  | JStr s => quote s
  | JList l => "[" +:+ join "," (map dumps l) +:+ "]"
  | JObj kvs =>
      "{" +:+ join "," (map (λ kv, quote (fst kv) +:+ ":" +:+ snd kv)
                            (sort_keys (map (λ '(k, x), (k, dumps x)) kvs))) +:+ "}"
  end.

(** ** [validate_json_tree] *)

Definition isfinite (repr : string) : bool :=
  negb (existsb (String.eqb repr) ["inf"; "-inf"; "nan"]%string).

(** [int.bit_length] *)
Definition bit_length (n : Z) : Z := if n =? 0 then 0 else Z.log2 (Z.abs n) + 1.

(** The state of the worklist loop: [pending] with its top first. *)
Record tree_walk := TreeWalk {
  pending : list (json * Z);
  visited : Z;
  minimum_bytes : Z;
}.

Definition item_bytes (item : json) : Z :=
  match item with
  | JStr s => 1 + str_len s
  | JInt n => 1 + Z.max 0 ((bit_length n - 1) * 3 / 10)
  | _ => 1
  end.

Definition key_bytes (kvs : list (string * json)) : Z :=
  fold_right (λ kv acc, str_len (fst kv) + acc) 0 kvs.

Definition children (item : json) : list json :=
  match item with
  | JList l => l
  | JObj kvs => kvs.*2
  | _ => []
  end.

(** One iteration of [while pending].  The dict keys of a [json] are
    strings, so the "canonical JSON keys must be strings" check holds. *)
Definition walk_step (item : json) (depth : Z) (rest : list (json * Z)) (w : tree_walk)
    : res pyexn tree_walk :=
  let visited' := visited w + 1 in
  let bytes := minimum_bytes w + item_bytes item in
  require (bytes <=? MAX_BYTES) ValueError;;
  require (negb ((64 <? depth) || (200000 <? visited'))) ValueError;;
  let push l := rev (map (λ c, (c, depth + 1)) l) ++ rest in
  match item with
  | JObj kvs =>
      require (visited' + Z.of_nat (length rest) + Z.of_nat (length kvs) <=? 200000) ValueError;;
      require (forallb (λ kv, str_len (fst kv) <=? MAX_BYTES) kvs) ValueError;;
      require (bytes + key_bytes kvs <=? MAX_BYTES) ValueError;;
      Ok (TreeWalk (push (kvs.*2)) visited' (bytes + key_bytes kvs))
  | JList l =>
      require (visited' + Z.of_nat (length rest) + Z.of_nat (length l) <=? 200000) ValueError;;
      Ok (TreeWalk (push l) visited' bytes)
  | JStr s =>
      require (str_len s <=? MAX_BYTES) ValueError;;
      Ok (TreeWalk rest visited' bytes)
  | JFloat r =>
      require (isfinite r) ValueError;;
      Ok (TreeWalk rest visited' bytes)
  | _ => Ok (TreeWalk rest visited' bytes)
  end.

(** The fuel counts iterations; every iteration visits one node. *)
Fixpoint walk (fuel : nat) (w : tree_walk) : option (res pyexn ()) :=
  match pending w with
  | [] => Some (Ok ())
  | (item, depth) :: rest =>
      match fuel with
      | O => None
      | S fuel' =>
          match walk_step item depth rest w with
          | Err e => Some (Err e)
          | Ok w' => walk fuel' w'
          end
      end
  end.

Fixpoint nodes (v : json) : nat :=
  match v with
  | JList l => S (fold_right (λ x n, nodes x + n)%nat 0%nat l)
  | JObj kvs => S (fold_right (λ '(_, x) n, nodes x + n)%nat 0%nat kvs)
  | _ => 1%nat
  end.

Fixpoint depth_of (v : json) : nat :=
  match v with
  | JList l => fold_right (λ x n, Nat.max (S (depth_of x)) n) 0%nat l
  | JObj kvs => fold_right (λ '(_, x) n, Nat.max (S (depth_of x)) n) 0%nat kvs
  | _ => 0%nat
  end.

Definition validate_json_tree (value : json) : res pyexn () :=
  match walk (nodes value) (TreeWalk [(value, 0)] 0 0) with
  | Some r => r
  | None => Err RuntimeError
  end.

(** ** [wire], [digest] *)

Definition wire (value : json) : res pyexn string :=
  _ ← validate_json_tree value;
  let encoded := dumps value in
  require (byte_len encoded <=? MAX_BYTES) ValueError;;
  Ok encoded.

Definition digest (value : json) : res pyexn string := sha256_hex <$> wire value.

(** ** Argument checks *)

Definition text (value : string) (maximum : Z) : res pyexn string :=
  require (negb (String.eqb value "") && (str_len value <=? maximum)
           && (byte_len value <=? maximum) && negb (has_char "000" value)) ValueError;;
  Ok value.

(** [text] on an arbitrary parsed value: [isinstance(value, str)] first. *)
Definition text_json (value : json) (maximum : Z) : res pyexn string :=
  match value with JStr s => text s maximum | _ => Err ValueError end.

Definition count (value low high : Z) : res pyexn Z :=
  require ((low <=? value) && (value <=? high)) ValueError;;
  Ok value.

(** [type(value) is not int]: booleans and floats are refused. *)
Definition count_json (value : json) (low high : Z) : res pyexn Z :=
  match value with JInt n => count n low high | _ => Err ValueError end.

(** ** The validator accepts exactly the bounded finite trees *)

Fixpoint tree_bytes (v : json) : Z :=
  match v with
  | JList l => 1 + fold_right (λ x n, tree_bytes x + n) 0 l
  | JObj kvs => 1 + fold_right (λ '(k, x) n, str_len k + tree_bytes x + n) 0 kvs
  | _ => item_bytes v
  end.

Fixpoint all_finite (v : json) : bool :=
  match v with
  | JFloat r => isfinite r
  | JList l => forallb all_finite l
  | JObj kvs => forallb (λ '(_, x), all_finite x) kvs
  | _ => true
  end.

(** The order-independent reading of the bounds. *)
Definition within_bounds (v : json) : bool :=
  (Z.of_nat (depth_of v) <=? 64) && (Z.of_nat (nodes v) <=? 200000)
  && (tree_bytes v <=? MAX_BYTES) && all_finite v.

(** ** Dictionaries *)

Lemma assoc_set_same {A} k (x : A) kvs : assoc k (assoc_set k x kvs) = Some x.
Proof.
  induction kvs as [|[k' y] kvs IH]; simpl; [by rewrite String.eqb_refl|].
  destruct (String.eqb k k') eqn:E; simpl; by rewrite ?E, ?String.eqb_refl.
Qed.

Lemma assoc_set_other {A} k k' (v : A) l : k' ≠ k → assoc k' (assoc_set k v l) = assoc k' l.
Proof.
  intros Hne. induction l as [|[j w] l IH]; simpl.
  - by rewrite (proj2 (String.eqb_neq _ _) Hne).
  - destruct (String.eqb_spec k j) as [<-|]; simpl; [by rewrite (proj2 (String.eqb_neq _ _) Hne)|].
    by destruct (String.eqb k' j).
Qed.

(** ** The walk *)

Section walk.
Definition sum_nodes (l : list json) : Z := fold_right (λ x n, Z.of_nat (nodes x) + n) 0 l.
Definition sum_bytes (l : list json) : Z := fold_right (λ x n, tree_bytes x + n) 0 l.
Definition item_ok (p : json * Z) : bool :=
    (snd p + Z.of_nat (depth_of (fst p)) <=? 64) && all_finite (fst p).

Lemma str_len_nonneg s : 0 <= str_len s.
  Proof. unfold str_len. lia. Qed.

Lemma item_bytes_pos v : 1 <= item_bytes v.
  Proof. destruct v; simpl; try lia. pose proof (str_len_nonneg s). lia. Qed.

Lemma sum_nodes_app l k : sum_nodes (l ++ k) = sum_nodes l + sum_nodes k.
  Proof. induction l; simpl; lia. Qed.
Lemma sum_bytes_app l k : sum_bytes (l ++ k) = sum_bytes l + sum_bytes k.
  Proof. induction l; simpl; lia. Qed.
Lemma sum_nodes_rev l : sum_nodes (rev l) = sum_nodes l.
  Proof. induction l; simpl; [done|]. rewrite sum_nodes_app, IHl. simpl. lia. Qed.
Lemma sum_bytes_rev l : sum_bytes (rev l) = sum_bytes l.
  Proof. induction l; simpl; [done|]. rewrite sum_bytes_app, IHl. simpl. lia. Qed.

Lemma nodes_pos v : (1 <= nodes v)%nat.
  Proof. destruct v; simpl; lia. Qed.

Lemma tree_bytes_pos v : 1 <= tree_bytes v.
  Proof.
    induction v as [|b|n|r|s|l IH|kvs IH] using json_rect'; try apply item_bytes_pos; simpl.
    - induction IH; simpl; lia.
    - induction kvs as [|[k x] kvs IHk]; simpl in *; [lia|].
      inversion IH; subst. pose proof (str_len_nonneg k). specialize (IHk ltac:(done)). simpl in *. lia.
  Qed.

Lemma sum_nodes_ge l : Z.of_nat (length l) <= sum_nodes l.
  Proof. induction l as [|v l IH]; simpl; [lia|]. pose proof (nodes_pos v). lia. Qed.
Lemma sum_bytes_nonneg l : 0 <= sum_bytes l.
  Proof. induction l as [|v l IH]; simpl; [lia|]. pose proof (tree_bytes_pos v). lia. Qed.

Lemma nodes_children v : Z.of_nat (nodes v) = 1 + sum_nodes (children v).
  Proof.
    destruct v; cbn -[Z.of_nat Z.add]; try lia.
    - induction l; cbn -[Z.of_nat Z.add] in *; lia.
    - induction kvs as [|[k x] kvs IH]; cbn -[Z.of_nat Z.add] in *; lia.
  Qed.

Lemma tree_bytes_children v : tree_bytes v =
    item_bytes v + sum_bytes (children v) + match v with JObj kvs => key_bytes kvs | _ => 0 end.
  Proof.
    unfold sum_bytes, key_bytes. destruct v; cbn -[Z.add]; try lia.
    induction kvs as [|[k x] kvs IH]; cbn -[Z.add] in *; lia.
  Qed.

Definition max_depth (l : list json) : nat :=
    fold_right (λ x n, Nat.max (S (depth_of x)) n) 0%nat l.

Lemma depth_of_children v : depth_of v = max_depth (children v).
  Proof.
    destruct v; try done. simpl. induction kvs as [|[k x] kvs IH]; simpl; [done|]. by rewrite IH.
  Qed.

Lemma all_finite_children v :
    all_finite v = match v with JFloat r => isfinite r | _ => true end
                   && forallb all_finite (children v).
  Proof.
    destruct v; simpl; rewrite ?andb_true_r; try done.
    induction kvs as [|[k x] kvs IH]; simpl; [done|]. by rewrite IH.
  Qed.

Lemma kids_ok kids d : 0 <= d →
    forallb item_ok (map (λ c, (c, d + 1)) kids) && (d <=? 64)
    = (d + Z.of_nat (max_depth kids) <=? 64) && forallb all_finite kids.
  Proof.
    intros Hd. induction kids as [|x l IH]; cbn [map forallb max_depth fold_right].
    - rewrite andb_true_r, Z.add_0_r. done.
    - unfold item_ok at 1. cbn [fst snd]. rewrite <- !andb_assoc, IH.
      destruct (all_finite x); simpl; rewrite ?andb_false_r; [|done].
      rewrite andb_assoc. f_equal. apply Bool.eq_iff_eq_true.
      rewrite andb_true_iff, !Z.leb_le. fold (max_depth l). lia.
  Qed.

Lemma item_ok_children v d : 0 <= d →
    item_ok (v, d) = match v with JFloat r => isfinite r | _ => true end
      && forallb item_ok (rev (map (λ c, (c, d + 1)) (children v))) && (d <=? 64).
  Proof.
    intros Hd. rewrite forallb_rev, <- andb_assoc, kids_ok by done. unfold item_ok. cbn [fst snd].
    rewrite depth_of_children, all_finite_children.
    rewrite !andb_assoc, (andb_comm (_ <=? _)). done.
  Qed.
End walk.

Lemma pending_forallb rest kids d :
  forallb item_ok (rev (map (λ c, (c, d + 1)) kids) ++ rest)
  = forallb item_ok (rev (map (λ c, (c, d + 1)) kids)) && forallb item_ok rest.
Proof. apply forallb_app. Qed.

Lemma map_fst_push kids (d : Z) : (rev (map (λ c : json, (c, d)) kids)).*1 = rev kids.
Proof. rewrite <- map_rev. unfold fmap. induction (rev kids); simpl; congruence. Qed.

Lemma key_bytes_nonneg kvs : 0 <= key_bytes kvs.
Proof.
  induction kvs as [|[k x] kvs IH]; [done|]. pose proof (str_len_nonneg k).
  change (0 <= str_len k + key_bytes kvs). lia.
Qed.

Lemma key_bytes_cons k x kvs : key_bytes ((k, x) :: kvs) = str_len k + key_bytes kvs.
Proof. done. Qed.

Lemma key_bytes_bound kvs m : key_bytes kvs <= m → forallb (λ kv, str_len (fst kv) <=? m) kvs = true.
Proof.
  induction kvs as [|[k x] kvs IH]; [done|]. intros H. rewrite key_bytes_cons in H.
  pose proof (key_bytes_nonneg kvs). pose proof (str_len_nonneg k).
  cbn [forallb fst]. rewrite IH by lia. rewrite andb_true_r. apply Z.leb_le. lia.
Qed.

Lemma item_bytes_le_tree v : item_bytes v <= tree_bytes v.
Proof.
  pose proof (tree_bytes_children v) as H. pose proof (sum_bytes_nonneg (children v)).
  destruct v; cbv beta iota in H; try lia. pose proof (key_bytes_nonneg kvs). lia.
Qed.

(** Verdict of the loop from a state that has not tripped a bound yet. *)
Definition walk_verdict (w : tree_walk) : bool :=
  forallb item_ok (pending w)
  && (visited w + sum_nodes ((pending w).*1) <=? 200000)
  && (minimum_bytes w + sum_bytes ((pending w).*1) <=? MAX_BYTES).

Lemma walk_step_spec item d rest v mb :
  0 <= d → 0 <= mb →
  match walk_step item d rest (TreeWalk ((item, d) :: rest) v mb) with
  | Ok w' => walk_verdict w' = walk_verdict (TreeWalk ((item, d) :: rest) v mb)
             ∧ visited w' <= 200000 ∧ 0 <= minimum_bytes w' <= MAX_BYTES
             ∧ pending w' = rev (map (λ c, (c, d + 1)) (children item)) ++ rest
  | Err e => e = ValueError ∧ walk_verdict (TreeWalk ((item, d) :: rest) v mb) = false
  end.
Proof.
  intros Hd Hmb0. unfold walk_step. simpl visited. simpl minimum_bytes.
  assert (Hq : walk_verdict (TreeWalk ((item, d) :: rest) v mb)
    = item_ok (item, d) && forallb item_ok rest
      && (v + 1 + sum_nodes (children item) + sum_nodes rest.*1 <=? 200000)
      && (mb + tree_bytes item + sum_bytes rest.*1 <=? MAX_BYTES)).
  { unfold walk_verdict. cbn [pending visited minimum_bytes forallb fmap list_fmap sum_nodes sum_bytes fold_right fst].
    f_equal; [f_equal|]; f_equal; unfold sum_nodes, sum_bytes.
    - pose proof (nodes_children item). unfold sum_nodes in *. lia.
    - lia. }
  pose proof (sum_bytes_nonneg rest.*1) as Hb. pose proof (sum_nodes_ge rest.*1) as Hn.
  pose proof (sum_bytes_nonneg (children item)) as Hcb. pose proof (sum_nodes_ge (children item)) as Hcn.
  pose proof (tree_bytes_children item) as Htb.
  pose proof (item_bytes_le_tree item) as Hle.
  rewrite length_fmap in Hn. rewrite Hq, item_ok_children by done. clear Hq.
  set (tb := tree_bytes item) in *. clearbody tb.
  assert (Hok : ∀ w', pending w' = rev (map (λ c, (c, d + 1)) (children item)) ++ rest →
    d <= 64 → match item with JFloat r => isfinite r | _ => true end = true →
    visited w' = v + 1 → v + 1 <= 200000 → 0 <= minimum_bytes w' <= MAX_BYTES →
    minimum_bytes w' + sum_bytes (children item) = mb + tb →
    walk_verdict w' = match item with JFloat r => isfinite r | _ => true end
      && forallb item_ok (rev (map (λ c, (c, d + 1)) (children item))) && (d <=? 64) && forallb item_ok rest
      && (v + 1 + sum_nodes (children item) + sum_nodes rest.*1 <=? 200000)
      && (mb + tb + sum_bytes rest.*1 <=? MAX_BYTES)
    ∧ visited w' <= 200000 ∧ 0 <= minimum_bytes w' <= MAX_BYTES
    ∧ pending w' = rev (map (λ c, (c, d + 1)) (children item)) ++ rest).
  { intros w' Hp Hd64 Hfin Hv Hv' Hmb Hbytes. split; [|by rewrite Hv].
    unfold walk_verdict. rewrite Hp, Hfin, pending_forallb, fmap_app, map_fst_push, (proj2 (Z.leb_le d 64) Hd64).
    rewrite sum_nodes_app, sum_bytes_app, sum_nodes_rev, sum_bytes_rev, Hv. simpl. rewrite andb_true_r.
    f_equal; [f_equal|]; f_equal; lia. }
  destruct (mb + item_bytes item <=? MAX_BYTES) eqn:E1; zbool; simpl;
    [|split; [done|]; apply andb_false_iff; right; apply Z.leb_gt; lia].
  destruct (64 <? d) eqn:E2; zbool; simpl.
  { split; [done|]. rewrite (proj2 (Z.leb_gt d 64)) by done. by rewrite !andb_false_r. }
  destruct (200000 <? v + 1) eqn:E3; zbool; simpl.
  { split; [done|]. rewrite (proj2 (Z.leb_gt (_ + sum_nodes rest.*1) 200000)) by lia. by rewrite !andb_false_r. }
  pose proof (item_bytes_pos item) as Hpos.
  destruct item as [|b|n|r|s|l|kvs]; cbv beta iota in Htb; cbn [children] in Htb;
    change (sum_bytes []) with 0 in Htb; cbn [item_bytes] in *;
    try (apply Hok; cbn [pending visited minimum_bytes children];
      change (sum_bytes []) with 0; done || lia).
  - destruct (isfinite r) eqn:Er; simpl; [|done].
    apply Hok; cbn [pending visited minimum_bytes children];
      change (sum_bytes []) with 0; done || lia.
  - rewrite (proj2 (Z.leb_le (str_len s) MAX_BYTES)) by (cbn [item_bytes] in E1; lia). simpl.
    apply Hok; cbn [pending visited minimum_bytes children];
      change (sum_bytes []) with 0; done || lia.
  - cbn [children] in *.
    destruct (v + 1 + Z.of_nat (length rest) + Z.of_nat (length l) <=? 200000) eqn:E4; zbool; simpl.
    + apply Hok; cbn [pending visited minimum_bytes children]; done || lia.
    + split; [done|]. rewrite (proj2 (Z.leb_gt (_ + sum_nodes rest.*1) 200000)) by lia.
      by rewrite !andb_false_r.
  - cbn [children] in *. pose proof (key_bytes_nonneg kvs). rewrite length_fmap in Hcn.
    destruct (v + 1 + Z.of_nat (length rest) + Z.of_nat (length kvs) <=? 200000) eqn:E4; zbool; simpl.
    + destruct (mb + 1 + key_bytes kvs <=? MAX_BYTES) eqn:E5; zbool.
      * rewrite key_bytes_bound by lia. simpl.
        apply Hok; cbn [pending visited minimum_bytes children]; done || lia.
      * destruct (forallb _ kvs); simpl; (split; [done|]);
          apply andb_false_iff; right; apply Z.leb_gt; cbn [item_bytes] in *; lia.
    + split; [done|]. rewrite (proj2 (Z.leb_gt (_ + sum_nodes rest.*1) 200000)) by lia.
      by rewrite !andb_false_r.
Qed.

Lemma walk_spec fuel w :
  (Z.to_nat (sum_nodes ((pending w).*1)) <= fuel)%nat →
  Forall (λ p, 0 <= snd p) (pending w) →
  visited w <= 200000 → 0 <= minimum_bytes w <= MAX_BYTES →
  walk fuel w = Some (if walk_verdict w then Ok () else Err ValueError).
Proof.
  revert w. induction fuel as [|fuel IH]; intros [[|[item d] rest] v mb] Hf Hd Hv Hm;
    cbn [pending visited minimum_bytes walk] in *;
    try change (sum_nodes (((item, d) :: rest).*1)) with (Z.of_nat (nodes item) + sum_nodes rest.*1) in Hf.
  1,3: unfold walk_verdict; simpl; rewrite !Z.add_0_r, (proj2 (Z.leb_le _ _) Hv),
         (proj2 (Z.leb_le mb _) (proj2 Hm)); done.
  - exfalso. pose proof (nodes_pos item). pose proof (sum_nodes_ge rest.*1). lia.
  - inversion Hd as [|?? Hd0 Hrest]; subst. simpl in Hd0.
    pose proof (walk_step_spec item d rest v mb Hd0 (proj1 Hm)) as Hstep.
    destruct (walk_step _ _ _ _) as [w'|e].
    + destruct Hstep as (<- & Hv' & Hmb' & Hp). apply IH; try done.
      * rewrite Hp, fmap_app, map_fst_push, sum_nodes_app, sum_nodes_rev.
        pose proof (nodes_children item). pose proof (sum_nodes_ge (children item)).
        pose proof (sum_nodes_ge rest.*1). lia.
      * rewrite Hp, Forall_app. split; [|done]. apply Forall_rev, Forall_fmap, Forall_true. simpl. lia.
    + by destruct Hstep as (-> & ->).
Qed.

(** The validator terminates on every value and is exactly [within_bounds]. *)
Lemma validate_json_tree_eq v :
  validate_json_tree v = if within_bounds v then Ok () else Err ValueError.
Proof.
  unfold validate_json_tree. rewrite walk_spec; simpl.
  - unfold walk_verdict, within_bounds, item_ok. simpl. rewrite !Z.add_0_r, andb_true_r.
    destruct (all_finite v); rewrite ?andb_false_r, ?andb_true_r; [|done].
    destruct (_ <=? 64); done.
  - lia.
  - by repeat constructor.
  - lia.
  - unfold MAX_BYTES. lia.
Qed.
