(* ===== verification/Merkle.v ===== *)
(** * RFC 6962 / 9162 Merkle trees ([unimem/transparency_log.py])

    The hash functions, the recursive tree hash, inclusion and consistency
    proofs with their verifiers, the Merkle frontier and the memoised range
    tree of [_Tree].  The second half proves them against the mathematical
    tree hash [mth]: completeness and soundness of both proof systems, the
    frontier against the recursive definition, and coherence of the memo. *)

From S2P Require Import Prelude Sha256 Wire.

(** ** Definitions *)

Definition MAX_TREE_LEAVES : Z := 1000000.
Definition EMPTY : string := sha256_hex "".

Definition zlen {A} (l : list A) : Z := Z.of_nat (length l).

(** [_hash]: canonical 32-byte lowercase hex or [ValueError]. *)
Definition _hash (value : string) : res pyexn string :=
  require (is_hash value) ValueError;; Ok value.

Definition prefix_byte (n : nat) : string := String (ascii_of_nat n) EmptyString.

Definition leaf_hash (statement : json) : res pyexn string :=
  w ← wire statement; Ok (sha256_hex (prefix_byte 0 +:+ w)).

(** The bytes [node_hash] feeds to SHA-256. *)
Definition node_input (left right : string) : string :=
  prefix_byte 1 +:+ default "" (unhex left) +:+ default "" (unhex right).

Definition node_hash (left right : string) : res pyexn string :=
  _ ← _hash left; _ ← _hash right;
  Ok (sha256_hex (node_input left right)).

(** [1 << ((size - 1).bit_length() - 1)]; every caller has [size >= 2]. *)
Definition _split (size : nat) : nat :=
  Z.to_nat (Z.shiftl 1 (bit_length (Z.of_nat size - 1) - 1)).

(** [tree_hash] recurses on the two halves; the length of the list is
    enough fuel because both halves of a list of two or more are shorter. *)
Fixpoint tree_hash_f (fuel : nat) (hashes : list string) : res pyexn string :=
  _ ← count (zlen hashes) 0 MAX_TREE_LEAVES;
  match hashes with
  | [] => Ok EMPTY
  | [h] => _hash h
  | _ =>
      match fuel with
      | O => Err RuntimeError
      | S fuel' =>
          let split := _split (length hashes) in
          l ← tree_hash_f fuel' (take split hashes);
          r ← tree_hash_f fuel' (drop split hashes);
          node_hash l r
      end
  end.
Definition tree_hash (hashes : list string) : res pyexn string :=
  tree_hash_f (length hashes) hashes.

(** *** Frontiers: one perfect-subtree root per set bit of the size *)

Definition frontier := (list (option string)).

(** [while level < len(result) and result[level] is not None]; [siblings]
    collects what [frontier_append_with_proof] does, in the same loop. *)
Fixpoint frontier_loop (fuel : nat) (result : list (option string)) (value : string)
    (level : nat) (siblings : list string)
    : res pyexn (list (option string) * string * nat * list string) :=
  match fuel, result !! level with
  | S fuel', Some (Some sibling) =>
      v ← node_hash sibling value;
      frontier_loop fuel' (<[level := None]> result) v (S level) (siblings ++ [sibling])
  | _, _ => Ok (result, value, level, siblings)
  end.

(** [if level == len(result): append(value) else: result[level] = value] *)
Definition frontier_store (result : list (option string)) (level : nat) (value : string)
    : list (option string) :=
  if (level =? length result)%nat then result ++ [Some value] else <[level := Some value]> result.

Definition frontier_append (f : list (option string)) (leaf : string)
    : res pyexn (list (option string)) :=
  '(result, value, level, _) ← frontier_loop (length f) f leaf 0 [];
  Ok (frontier_store result level value).

Definition frontier_append_with_proof (f : list (option string)) (leaf : string)
    : res pyexn (list (option string) * list string) :=
  '(result, value, level, siblings) ← frontier_loop (length f) f leaf 0 [];
  let result := frontier_store result level value in
  Ok (result, siblings ++ omap id (drop (S level) result)).

Definition frontier_root (f : list (option string)) : res pyexn string :=
  accumulator ← foldM (λ acc subtree,
      match subtree with
      | None => Ok acc
      | Some s => if String.eqb acc "" then Ok s else node_hash s acc
      end) ""%string f;
  Ok (if String.eqb accumulator "" then EMPTY else accumulator).

Definition frontier_size (f : list (option string)) : nat :=
  foldr Nat.add 0 (imap (λ level subtree, match subtree with
                     | Some _ => Nat.shiftl 1 level | None => 0 end) f).

Definition prefix_roots (hashes : list string) : res pyexn (list string) :=
  '(_, roots) ← foldM (λ '(f, roots) leaf,
      f' ← frontier_append f leaf;
      root ← frontier_root f';
      Ok (f', roots ++ [root])) ([], [EMPTY]) hashes;
  Ok roots.

(** *** Inclusion proofs *)

Fixpoint inclusion_f (fuel : nat) (hashes : list string) (index : Z) : res pyexn (list string) :=
  _ ← count index 0 (zlen hashes - 1);
  if (length hashes =? 1)%nat then Ok []
  else match fuel with
  | O => Err RuntimeError
  | S fuel' =>
      let split := _split (length hashes) in
      if (index <? Z.of_nat split)%Z then
        p ← inclusion_f fuel' (take split hashes) index;
        h ← tree_hash (drop split hashes);
        Ok (p ++ [h])
      else
        p ← inclusion_f fuel' (drop split hashes) (index - Z.of_nat split)%Z;
        h ← tree_hash (take split hashes);
        Ok (p ++ [h])
  end.
Definition inclusion (hashes : list string) (index : Z) : res pyexn (list string) :=
  inclusion_f (length hashes) hashes index.

(** The local function [fold] of [verify_inclusion]. *)
Fixpoint fold_proof (fuel : nat) (leaf : string) (index : nat) (proof : list string)
    (start len offset : nat) : res pyexn (string * nat) :=
  if (len =? 1)%nat then Ok (leaf, offset)
  else match fuel with
  | O => Err RuntimeError
  | S fuel' =>
      let split := _split len in
      if (index <? start + split)%nat then
        '(child, used) ← fold_proof fuel' leaf index proof start split offset;
        sibling ← get_or (proof !! used) IndexError;
        h ← node_hash child sibling;
        Ok (h, S used)
      else
        '(child, used) ← fold_proof fuel' leaf index proof (start + split) (len - split) offset;
        sibling ← get_or (proof !! used) IndexError;
        h ← node_hash sibling child;
        Ok (h, S used)
  end.

(** [except (ValueError, IndexError, TypeError): return False] *)
Definition catch_false (r : res pyexn bool) : bool :=
  match r with Ok b => b | Err _ => false end.

Definition verify_inclusion (leaf : string) (index size : Z) (proof : list string)
    (root_hash : string) : bool :=
  catch_false (
    _ ← count size 1 MAX_TREE_LEAVES;
    _ ← count index 0 (size - 1);
    _ ← _hash leaf;
    _ ← _hash root_hash;
    _ ← count (zlen proof) 0 32;
    _ ← mapR _hash proof;
    '(computed, used) ← fold_proof (Z.to_nat size) leaf (Z.to_nat index) proof 0 (Z.to_nat size) 0;
    Ok (String.eqb computed root_hash && (used =? length proof)%nat)).

(** *** Consistency proofs *)

Fixpoint subproof (fuel : nat) (items : list string) (size : nat) (complete : bool)
    : res pyexn (list string) :=
  if (size =? length items)%nat then
    if complete then Ok [] else h ← tree_hash items; Ok [h]
  else match fuel with
  | O => Err RuntimeError
  | S fuel' =>
      let split := _split (length items) in
      if (size <=? split)%nat then
        p ← subproof fuel' (take split items) size complete;
        h ← tree_hash (drop split items);
        Ok (p ++ [h])
      else
        p ← subproof fuel' (drop split items) (size - split) false;
        h ← tree_hash (take split items);
        Ok (p ++ [h])
  end.

Definition consistency (hashes : list string) (old_size : Z) : res pyexn (list string) :=
  _ ← count old_size 0 (zlen hashes);
  if (old_size =? 0)%Z then Ok []
  else subproof (length hashes) hashes (Z.to_nat old_size) true.

(** [while first & 1: first >>= 1; second >>= 1] *)
Fixpoint strip_ones (fuel first second : nat) : nat * nat :=
  match fuel with
  | S fuel' => if Nat.odd first then strip_ones fuel' (Nat.div2 first) (Nat.div2 second)
               else (first, second)
  | O => (first, second)
  end.

(** [while first and not first & 1: first >>= 1; second >>= 1] *)
Fixpoint strip_zeros (fuel first second : nat) : nat * nat :=
  match fuel with
  | S fuel' => if negb (first =? 0)%nat && Nat.even first
               then strip_zeros fuel' (Nat.div2 first) (Nat.div2 second)
               else (first, second)
  | O => (first, second)
  end.

Record walk_state := WalkState { first : nat; second : nat; old_acc : string; new_acc : string }.

(** One iteration of [for sibling in proof[offset:]]; [None] is the early
    [return False]. *)
Definition consistency_step (s : walk_state) (sibling : string) : res pyexn (option walk_state) :=
  if (second s =? 0)%nat then Ok None
  else if Nat.odd (first s) || (first s =? second s)%nat then
    old' ← node_hash sibling (old_acc s);
    new' ← node_hash sibling (new_acc s);
    let '(f, g) := strip_zeros (first s) (first s) (second s) in
    Ok (Some (WalkState (Nat.div2 f) (Nat.div2 g) old' new'))
  else
    new' ← node_hash (new_acc s) sibling;
    Ok (Some (WalkState (Nat.div2 (first s)) (Nat.div2 (second s)) (old_acc s) new')).

Fixpoint consistency_loop (s : walk_state) (siblings : list string) : res pyexn (option walk_state) :=
  match siblings with
  | [] => Ok (Some s)
  | x :: rest =>
      r ← consistency_step s x;
      match r with None => Ok None | Some s' => consistency_loop s' rest end
  end.

Definition verify_consistency (old_size size : Z) (old_root root_hash : string)
    (proof : list string) : bool :=
  catch_false (
    _ ← count size 0 MAX_TREE_LEAVES;
    _ ← count old_size 0 size;
    _ ← _hash old_root;
    _ ← _hash root_hash;
    _ ← count (zlen proof) 0 64;
    _ ← mapR _hash proof;
    if (old_size =? 0)%Z then
      Ok (String.eqb old_root EMPTY && bool_decide (proof = [])
          && (negb (size =? 0)%Z || String.eqb root_hash EMPTY))
    else if (old_size =? size)%Z then
      Ok (String.eqb old_root root_hash && bool_decide (proof = []))
    else
      let f0 := Z.to_nat old_size - 1 in
      let '(f, g) := strip_ones f0 f0 (Z.to_nat size - 1) in
      '(start, siblings) ← (if (f =? 0)%nat then Ok (old_root, proof)
                            else h ← get_or (head proof) IndexError; Ok (h, drop 1 proof));
      r ← consistency_loop (WalkState f g start start) siblings;
      Ok (match r with
          | None => false
          | Some s => (second s =? 0)%nat && String.eqb (old_acc s) old_root
                      && String.eqb (new_acc s) root_hash
          end)).

(** *** The memoised tree [_Tree] *)

Record tree := Tree {
  t_hashes : list string;
  t_roots : list string;
  t_nodes : gmap (nat * nat) string;
}.

(** [size & (size - 1) == 0] *)
Definition is_power_of_two (size : nat) : bool :=
  (Z.land (Z.of_nat size) (Z.of_nat size - 1) =? 0)%Z.

(** [_range(state, start, size)], threading the node cache. *)
Fixpoint range_f (fuel : nat) (hashes : list string) (nodes : gmap (nat * nat) string)
    (start size : nat) : res pyexn (string * gmap (nat * nat) string) :=
  if (size =? 0)%nat then Ok (EMPTY, nodes)
  else match nodes !! (start, size) with
  | Some cached => Ok (cached, nodes)
  | None =>
      '(result, nodes) ← (
        if (size =? 1)%nat then h ← get_or (hashes !! start) IndexError; Ok (h, nodes)
        else match fuel with
        | O => Err RuntimeError
        | S fuel' =>
            let split := _split size in
            '(l, nodes) ← range_f fuel' hashes nodes start split;
            '(r, nodes) ← range_f fuel' hashes nodes (start + split) (size - split);
            h ← node_hash l r;
            Ok (h, nodes)
        end);
      Ok (result, if is_power_of_two size then <[(start, size) := result]> nodes else nodes)
  end.

Definition _range (state : tree) (start size : nat) : res pyexn (string * tree) :=
  '(h, nodes) ← range_f size (t_hashes state) (t_nodes state) start size;
  Ok (h, Tree (t_hashes state) (t_roots state) nodes).

(** [_proof(state, index, start, size)] *)
Fixpoint proof_f (fuel : nat) (state : tree) (index start size : nat)
    : res pyexn (list string * tree) :=
  if (size =? 1)%nat then Ok ([], state)
  else match fuel with
  | O => Err RuntimeError
  | S fuel' =>
      let split := _split size in
      if (index <? start + split)%nat then
        '(p, state) ← proof_f fuel' state index start split;
        '(h, state) ← _range state (start + split) (size - split);
        Ok (p ++ [h], state)
      else
        '(p, state) ← proof_f fuel' state index (start + split) (size - split);
        '(h, state) ← _range state start split;
        Ok (p ++ [h], state)
  end.
Definition _proof (state : tree) (index : nat) : res pyexn (list string * tree) :=
  proof_f (length (t_hashes state)) state index 0 (length (t_hashes state)).

(** ** The mathematical tree hash *)

(** [node_hash] on valid children. *)
Definition nh (left right : string) : string := sha256_hex (node_input left right).

(** Recursion over the RFC 6962 tree shape; [node] also sees the leaves of
    its two halves. *)
Section tree_fold.
  Context {A : Type} (empty : A) (leaf : string → A)
          (node : list string → list string → A → A → A).

Fixpoint tree_fold_f (fuel : nat) (hashes : list string) : A :=
    match hashes with
    | [] => empty
    | [h] => leaf h
    | _ => match fuel with
           | O => empty
           | S fuel' =>
               let k := _split (length hashes) in
               node (take k hashes) (drop k hashes)
                    (tree_fold_f fuel' (take k hashes)) (tree_fold_f fuel' (drop k hashes))
           end
    end.

Definition tree_fold (hashes : list string) : A := tree_fold_f (length hashes) hashes.
End tree_fold.

(** RFC 6962 section 2.1: MTH(D[n]) over leaf hashes. *)
Definition mth (hashes : list string) : string :=
  tree_fold EMPTY (λ h, h) (λ _ _ l r, nh l r) hashes.

(** Every string hashed for an inner node of the tree. *)
Definition tree_inputs (hashes : list string) : list string :=
  tree_fold [] (λ _, []) (λ ls rs a b, node_input (mth ls) (mth rs) :: a ++ b) hashes.

Definition hashes_ok (hs : list string) : Prop := Forall (λ h, is_hash h = true) hs.

(** *** Facts about [_split] *)

Lemma _split_unique n k : (2 ^ k < n <= 2 ^ S k)%nat → _split n = (2 ^ k)%nat.
Proof.
  intros [Hl Hu]. unfold _split, bit_length.
  assert (Hpos : (0 < 2 ^ k)%nat) by (apply Nat.neq_0_lt_0, Nat.pow_nonzero; lia).
  rewrite (proj2 (Z.eqb_neq _ _)) by lia. rewrite Z.abs_eq by lia.
  assert (Hlog : Z.log2 (Z.of_nat n - 1) = Z.of_nat k).
  { apply Z.log2_unique; [lia|].
    replace (Z.succ (Z.of_nat k)) with (Z.of_nat (S k)) by lia.
    change 2%Z with (Z.of_nat 2). rewrite <- !Nat2Z.inj_pow. lia. }
  rewrite Hlog, Z.add_simpl_r, Z.shiftl_1_l.
  change 2%Z with (Z.of_nat 2). by rewrite <- Nat2Z.inj_pow, Nat2Z.id.
Qed.

Lemma pow2_bracket n : 2 ≤ n → ∃ k, 2 ^ k < n <= 2 ^ S k.
Proof.
  intros Hn. exists (Nat.log2 (n - 1)).
  pose proof (Nat.log2_spec (n - 1) ltac:(lia)). rewrite Nat.pow_succ_r'. 
  rewrite Nat.pow_succ_r' in H. lia.
Qed.

Lemma _split_bounds n : 2 ≤ n → 1 ≤ _split n < n ∧ n ≤ 2 * _split n.
Proof.
  intros Hn. destruct (pow2_bracket n Hn) as [k Hk].
  rewrite (_split_unique n k Hk). rewrite Nat.pow_succ_r' in Hk.
  assert (2 ^ k ≠ 0) by (apply Nat.pow_nonzero; lia). lia.
Qed.

(** *** Unfolding the tree recursion *)

Section tree_fold_lemmas.
  Context {A : Type} (empty : A) (leaf : string → A)
          (node : list string → list string → A → A → A).
  Local Abbreviation fold_f := (tree_fold_f empty leaf node).

Lemma tree_fold_f_fuel m fuel hs : length hs ≤ m → length hs ≤ fuel → fold_f fuel hs = fold_f m hs.
  Proof.
    revert fuel hs. induction m as [|m IH]; intros fuel hs Hm Hf.
    - destruct hs; [|simpl in Hm; lia]. by destruct fuel.
    - destruct hs as [|a [|b hs]]; [by destruct fuel..|].
      destruct fuel as [|fuel]; [simpl in Hf; lia|].
      set (l := a :: b :: hs) in *. assert (2 ≤ length l) by (simpl; lia).
      destruct (_split_bounds (length l)) as [Hs _]; [done|].
      set (k := _split (length l)) in *.
      change (node (take k l) (drop k l) (fold_f fuel (take k l)) (fold_f fuel (drop k l))
        = node (take k l) (drop k l) (fold_f m (take k l)) (fold_f m (drop k l))).
      rewrite !(IH fuel); rewrite ?length_take, ?length_drop; try lia. done.
  Qed.

Lemma tree_fold_split hs : 2 ≤ length hs →
    tree_fold empty leaf node hs =
      node (take (_split (length hs)) hs) (drop (_split (length hs)) hs)
        (tree_fold empty leaf node (take (_split (length hs)) hs))
        (tree_fold empty leaf node (drop (_split (length hs)) hs)).
  Proof.
    intros H. destruct (_split_bounds (length hs) H) as [Hs _].
    unfold tree_fold at 1. rewrite <- (tree_fold_f_fuel (length hs) (S (length hs))) by lia.
    destruct hs as [|a [|b hs]]; simpl in H; [lia..|].
    set (l := a :: b :: hs) in *. set (k := _split (length l)) in *.
    change (node (take k l) (drop k l) (fold_f (length l) (take k l)) (fold_f (length l) (drop k l))
      = node (take k l) (drop k l) (tree_fold empty leaf node (take k l))
          (tree_fold empty leaf node (drop k l))).
    unfold tree_fold. f_equal; apply tree_fold_f_fuel; rewrite ?length_take, ?length_drop; lia.
  Qed.
End tree_fold_lemmas.

Lemma mth_split hs : 2 ≤ length hs →
  mth hs = nh (mth (take (_split (length hs)) hs)) (mth (drop (_split (length hs)) hs)).
Proof. intros H. unfold mth. by rewrite tree_fold_split. Qed.

Lemma tree_inputs_split hs : 2 ≤ length hs →
  let ls := take (_split (length hs)) hs in let rs := drop (_split (length hs)) hs in
  tree_inputs hs = node_input (mth ls) (mth rs) :: tree_inputs ls ++ tree_inputs rs.
Proof. intros H. unfold tree_inputs. by rewrite tree_fold_split. Qed.

(** A full left half of [2 ^ k] leaves and a right part of at most as many. *)
Lemma mth_app k p q : length p = 2 ^ k → 1 ≤ length q ≤ 2 ^ k →
  mth (p ++ q) = nh (mth p) (mth q).
Proof.
  intros Hp Hq.
  assert (Hk : 2 ^ k ≠ 0) by (apply Nat.pow_nonzero; lia).
  assert (Hs : _split (length (p ++ q)) = 2 ^ k).
  { apply _split_unique. rewrite length_app, Nat.pow_succ_r'. lia. }
  rewrite mth_split by (rewrite length_app; lia). rewrite Hs, <- Hp.
  by rewrite take_app_length, drop_app_length.
Qed.

Lemma nh_is_hash l r : is_hash (nh l r) = true.
Proof. apply is_hash_sha256_hex. Qed.

Lemma mth_is_hash hs : hashes_ok hs → is_hash (mth hs) = true.
Proof.
  intros Hok. destruct hs as [|a [|b hs]].
  - apply is_hash_sha256_hex.
  - by inversion Hok.
  - rewrite mth_split by (simpl; lia). apply nh_is_hash.
Qed.

Lemma hashes_ok_take n hs : hashes_ok hs → hashes_ok (take n hs).
Proof. apply Forall_take. Qed.
Lemma hashes_ok_drop n hs : hashes_ok hs → hashes_ok (drop n hs).
Proof. apply Forall_drop. Qed.

#[export] Hint Resolve nh_is_hash mth_is_hash hashes_ok_take hashes_ok_drop : unimem.

Lemma _hash_Ok h v : _hash h = Ok v ↔ is_hash h = true ∧ v = h.
Proof. unfold _hash. destruct (is_hash h); simpl; naive_solver. Qed.

Lemma node_hash_Ok l r v :
  node_hash l r = Ok v ↔ is_hash l = true ∧ is_hash r = true ∧ v = nh l r.
Proof.
  unfold node_hash, _hash. destruct (is_hash l), (is_hash r); simpl; naive_solver.
Qed.

Lemma node_hash_nh l r : is_hash l = true → is_hash r = true → node_hash l r = Ok (nh l r).
Proof. intros. by apply node_hash_Ok. Qed.

Lemma count_Ok v lo hi w : count v lo hi = Ok w ↔ (lo ≤ v ≤ hi)%Z ∧ w = v.
Proof.
  unfold count. destruct (_ && _) eqn:E; simpl.
  - apply andb_true_iff in E as [? ?]; zbool. naive_solver lia.
  - split; [done|]. intros [H _]. apply andb_false_iff in E as [?|?]; zbool; lia.
Qed.

Lemma count_in v lo hi : (lo ≤ v ≤ hi)%Z → count v lo hi = Ok v.
Proof. intros. by apply count_Ok. Qed.

(** *** [tree_hash] computes [mth] and rejects everything else *)

Lemma tree_hash_f_Ok fuel hs v : length hs ≤ fuel →
  tree_hash_f fuel hs = Ok v ↔ hashes_ok hs ∧ (zlen hs ≤ MAX_TREE_LEAVES)%Z ∧ v = mth hs.
Proof.
  revert hs v. induction fuel as [|fuel IH]; intros hs v Hf.
  - destruct hs; [|simpl in Hf; lia]. simpl.
    split; [intros [= <-]; repeat split; [constructor|]|by intros (_ & _ & ->)].
    done.
  - assert (Hc : ∀ A (k : res pyexn A) w, (_ ← count (zlen hs) 0 MAX_TREE_LEAVES; k) = Ok w
                 ↔ (zlen hs ≤ MAX_TREE_LEAVES)%Z ∧ k = Ok w).
    { intros A k w. rewrite bind_Ok. setoid_rewrite count_Ok. split.
      - intros (? & [[_ ?] _] & ?). done.
      - intros [? ?]. exists (zlen hs). split; [|done]. split; [|done]. unfold zlen in *. lia. }
    simpl. rewrite Hc. clear Hc. destruct hs as [|a [|b hs]].
    + split; [intros (? & [= <-]); repeat split; [constructor|done]|by intros (_ & ? & ->)].
    + rewrite _hash_Ok. unfold hashes_ok. rewrite Forall_cons, Forall_nil. unfold mth. simpl. naive_solver.
    + set (l := a :: b :: hs) in *. assert (Hl : 2 ≤ length l) by (simpl; lia).
      destruct (_split_bounds (length l) Hl) as [Hs _].
      rewrite (mth_split l Hl). set (k := _split (length l)) in *.
      rewrite bind_Ok. setoid_rewrite bind_Ok. setoid_rewrite node_hash_Ok.
      setoid_rewrite IH; [|rewrite ?length_take, ?length_drop; lia..].
      assert (Hsplit : hashes_ok l ↔ hashes_ok (take k l) ∧ hashes_ok (drop k l)).
      { rewrite <- (take_drop k l) at 1. apply Forall_app. }
      rewrite Hsplit.
      assert ((zlen (take k l) ≤ zlen l)%Z ∧ (zlen (drop k l) ≤ zlen l)%Z) as [??]
        by (unfold zlen; rewrite length_take, length_drop; lia).
      split.
      * intros (Hmax & ? & (? & ? & ->) & ? & (? & ? & ->) & ? & ? & ->). done.
      * intros ([??] & ? & ->). split; [done|].
        exists (mth (take k l)). split; [split_and!; [done|lia|done]|].
        exists (mth (drop k l)). split; [split_and!; [done|lia|done]|].
        split_and!; [by apply mth_is_hash..|done].
Qed.

Lemma tree_hash_Ok hs v :
  tree_hash hs = Ok v ↔ hashes_ok hs ∧ (zlen hs ≤ MAX_TREE_LEAVES)%Z ∧ v = mth hs.
Proof. by apply tree_hash_f_Ok. Qed.

Lemma tree_hash_mth hs : hashes_ok hs → (zlen hs ≤ MAX_TREE_LEAVES)%Z → tree_hash hs = Ok (mth hs).
Proof. intros. by apply tree_hash_Ok. Qed.

(** ** Frontiers *)

(** [frep k f hs]: from level [k] up, [f] holds the roots of perfect blocks
    (larger blocks to the left) whose concatenation is [hs]. *)
Inductive frep : nat → list (option string) → list string → Prop :=
  | frep_nil k : frep k [] []
  | frep_none k f hs : frep (S k) f hs → frep k (None :: f) hs
  | frep_some k f hs p :
      frep (S k) f hs → length p = 2 ^ k → frep k (Some (mth p) :: f) (hs ++ p).

#[export] Hint Constructors frep : unimem.

(** Binary increment on a frontier, without the list indices. *)
Fixpoint carry (f : list (option string)) (v : string) : list (option string) :=
  match f with
  | [] => [Some v]
  | None :: f' => Some v :: f'
  | Some s :: f' => None :: carry f' (nh s v)
  end.

Definition roots_ok (f : list (option string)) : Prop :=
  Forall (λ o, match o with Some h => is_hash h = true | None => True end) f.

Lemma frep_roots_ok k f hs : frep k f hs → hashes_ok hs → roots_ok f.
Proof.
  induction 1 as [|k f hs _ IH|k f hs p _ IH Hp]; intros Hok.
  - constructor.
  - constructor; [done|by apply IH].
  - apply Forall_app in Hok as [??]. constructor; [by apply mth_is_hash|by apply IH].
Qed.

Lemma insert_mid {A} (pre : list A) x y f :
  <[length pre := y]> (pre ++ x :: f) = pre ++ y :: f.
Proof. by rewrite insert_app_r_alt, Nat.sub_diag. Qed.

Lemma lookup_mid {A} (pre : list A) x f : (pre ++ x :: f) !! length pre = Some x.
Proof. by rewrite lookup_app_r, Nat.sub_diag. Qed.

Lemma frontier_loop_carry f : ∀ fuel pre v sibs,
  length f ≤ fuel → roots_ok f → is_hash v = true →
  ∃ r v' lvl sibs',
    frontier_loop fuel (pre ++ f) v (length pre) sibs = Ok (r, v', lvl, sibs ++ sibs') ∧
    frontier_store r lvl v' = pre ++ carry f v ∧
    sibs' ++ omap id (drop (S lvl) (frontier_store r lvl v')) = omap id f.
Proof.
  induction f as [|[s|] f IH]; intros fuel pre v sibs Hfuel Hok Hv.
  - exists pre, v, (length pre), []. rewrite !app_nil_r. split_and!.
    + destruct fuel; [done|]. simpl. by rewrite lookup_ge_None_2 by lia.
    + unfold frontier_store. by rewrite Nat.eqb_refl.
    + unfold frontier_store. rewrite Nat.eqb_refl, drop_ge; [done|]. rewrite length_app. simpl. lia.
  - apply Forall_cons in Hok as [Hs Hok]. destruct fuel as [|fuel]; [simpl in Hfuel; lia|]. simpl.
    rewrite lookup_mid, node_hash_nh by done. simpl. rewrite insert_mid.
    destruct (IH fuel (pre ++ [None]) (nh s v) (sibs ++ [s])) as (r & v' & lvl & sibs' & Hr & Hst & Hsib);
      [simpl in Hfuel; lia|done|apply nh_is_hash|].
    rewrite <- !app_assoc, length_app, Nat.add_comm in Hr. simpl in Hr.
    exists r, v', lvl, (s :: sibs'). split_and!.
    + done.
    + by rewrite Hst, <- app_assoc.
    + simpl. by rewrite Hsib.
  - exists (pre ++ None :: f), v, (length pre), []. rewrite app_nil_r.
    assert (Hst : frontier_store (pre ++ None :: f) (length pre) v = pre ++ Some v :: f).
    { unfold frontier_store. rewrite insert_mid, length_app. simpl.
      rewrite (proj2 (Nat.eqb_neq _ _)) by lia. done. }
    split_and!.
    + destruct fuel; [done|]. simpl. by rewrite lookup_mid.
    + done.
    + rewrite Hst. simpl. f_equal.
      rewrite cons_middle, app_assoc. apply drop_app_length'. rewrite length_app. simpl. lia.
Qed.

Lemma carry_frep k f hs p :
  frep k f hs → length p = 2 ^ k → frep k (carry f (mth p)) (hs ++ p).
Proof.
  intros Hf. revert p. induction Hf as [k|k f hs Hf IH|k f hs q Hf IH Hq]; intros p Hp; simpl.
  - by apply (frep_some k [] []); [constructor|].
  - by constructor.
  - rewrite <- app_assoc.
    assert (Hk : 2 ^ k ≠ 0) by (apply Nat.pow_nonzero; lia).
    rewrite <- (mth_app k q p) by lia. constructor. apply IH.
    rewrite length_app, Nat.pow_succ_r'. lia.
Qed.

Lemma frontier_append_loop f hs leaf :
  frep 0 f hs → hashes_ok hs → is_hash leaf = true →
  ∃ f', frontier_append f leaf = Ok f' ∧ frep 0 f' (hs ++ [leaf]) ∧
        frontier_append_with_proof f leaf = Ok (f', omap id f).
Proof.
  intros Hf Hok Hleaf.
  destruct (frontier_loop_carry f (length f) [] leaf []) as (r & v & lvl & sibs & Hl & Hst & Hsib);
    [lia|by eapply frep_roots_ok|done|].
  simpl in Hl, Hst. exists (carry f leaf). unfold frontier_append, frontier_append_with_proof.
  rewrite Hl. simpl. rewrite Hsib, Hst. split_and!; [done| |done].
  apply (carry_frep 0 f hs [leaf]); done.
Qed.

Lemma is_hash_nonempty h : is_hash h = true → String.eqb h "" = false.
Proof. by destruct h. Qed.

Lemma frontier_fold k f hs : frep k f hs → hashes_ok hs → ∀ q,
  hashes_ok q → (q = [] ∨ 1 ≤ length q ≤ 2 ^ k) →
  foldM (λ acc subtree,
      match subtree with
      | None => Ok acc
      | Some s => if String.eqb acc "" then Ok s else node_hash s acc
      end) (if decide (q = []) then ""%string else mth q) f
  = Ok (if decide (hs ++ q = []) then ""%string else mth (hs ++ q)).
Proof.
  induction 1 as [k|k f hs Hf IH|k f hs p Hf IH Hp]; intros Hok q Hq Hlen; simpl.
  - done.
  - apply IH; [done..|]. rewrite Nat.pow_succ_r'. destruct Hlen; [by left|right; lia].
  - apply Forall_app in Hok as [Hokh Hokp].
    assert (Hk : 2 ^ k ≠ 0) by (apply Nat.pow_nonzero; lia).
    assert (Hpq : p ++ q ≠ []) by (intros [-> _]%app_eq_nil; simpl in Hp; lia).
    assert (Hstep : (if String.eqb (if decide (q = []) then ""%string else mth q) ""
                     then Ok (mth p) else node_hash (mth p) (if decide (q = []) then ""%string else mth q))
                    = Ok (E := pyexn) (mth (p ++ q))).
    { destruct (decide (q = [])) as [->|Hne]; simpl; [by rewrite app_nil_r|].
      rewrite is_hash_nonempty by (by apply mth_is_hash).
      rewrite node_hash_nh by (by apply mth_is_hash). f_equal. symmetry. apply (mth_app k); [done|].
      destruct Hlen; [done|lia]. }
    rewrite Hstep. simpl. rewrite <- app_assoc.
    specialize (IH Hokh (p ++ q)). rewrite decide_False in IH by done. apply IH.
    + by apply Forall_app.
    + right. rewrite length_app, Nat.pow_succ_r'. destruct Hlen as [->|]; simpl; lia.
Qed.

Lemma frontier_root_mth f hs : frep 0 f hs → hashes_ok hs → frontier_root f = Ok (mth hs).
Proof.
  intros Hf Hok. unfold frontier_root.
  pose proof (frontier_fold 0 f hs Hf Hok [] ltac:(constructor) ltac:(by left)) as H.
  rewrite decide_True in H by done. rewrite app_nil_r in H. rewrite H. simpl.
  destruct (decide (hs = [])) as [->|Hne]; [done|].
  by rewrite is_hash_nonempty by (by apply mth_is_hash).
Qed.

Lemma frontier_size_from k f hs : frep k f hs →
  foldr Nat.add 0 (imap (λ level subtree, match subtree with
     | Some _ => Nat.shiftl 1 (k + level) | None => 0 end) f) = length hs.
Proof.
  intros H.
  assert (Hshift : ∀ k (f : list (option string)),
    imap ((λ level subtree, match subtree with Some _ => Nat.shiftl 1 (k + level) | None => 0 end) ∘ S) f
    = imap (λ level subtree, match subtree with Some _ => Nat.shiftl 1 (S k + level) | None => 0 end) f).
  { clear. intros k f. apply imap_ext. intros i o _. unfold compose.
    by replace (k + S i) with (S k + i) by lia. }
  induction H as [|k f hs Hf IH|k f hs p Hf IH Hp]; [done|..]; rewrite imap_cons, Hshift; cbn [foldr].
  - by rewrite IH.
  - by rewrite IH, length_app, Hp, Nat.add_0_r, Nat.shiftl_1_l, Nat.add_comm.
Qed.

(** The frontier reached by appending leaves one by one. *)
Lemma prefix_roots_fold hs : hashes_ok hs → ∀ f done roots,
  frep 0 f done → hashes_ok done →
  ∃ f', foldM (λ '(f, roots) leaf,
      f' ← frontier_append f leaf;
      root ← frontier_root f';
      Ok (f', roots ++ [root])) (f, roots) hs
    = Ok (E := pyexn) (f', roots ++ map (λ i, mth (done ++ take i hs)) (seq 1 (length hs))).
Proof.
  induction hs as [|h hs IH]; intros Hok f dn roots Hf Hdn; simpl.
  - exists f. by rewrite app_nil_r.
  - apply Forall_cons in Hok as [Hh Hok].
    destruct (frontier_append_loop f dn h Hf Hdn Hh) as (f1 & Ha & Hf1 & _).
    assert (Hdn1 : hashes_ok (dn ++ [h])) by (apply Forall_app; auto).
    rewrite Ha. simpl. rewrite (frontier_root_mth _ _ Hf1 Hdn1). simpl.
    destruct (IH Hok f1 (dn ++ [h]) (roots ++ [mth (dn ++ [h])]) Hf1 Hdn1) as [f' Hf'].
    exists f'. rewrite Hf', <- app_assoc. simpl. rewrite <- (seq_shift (length hs) 1), map_map.
    assert (Heq : map (λ i, mth ((dn ++ [h]) ++ take i hs)) (seq 1 (length hs))
      = map (λ i, mth (dn ++ take (S i) (h :: hs))) (seq 1 (length hs)))
      by (apply map_ext; intros i; by rewrite <- app_assoc).
    by rewrite Heq.
Qed.

(** ** Inclusion proofs *)

(** [is_path hs i p]: [p] lists the sibling hashes of leaf [i], bottom-up. *)
Inductive is_path : list string → nat → list string → Prop :=
  | path_leaf h : is_path [h] 0 []
  | path_left hs i p :
      2 ≤ length hs → i < _split (length hs) →
      is_path (take (_split (length hs)) hs) i p →
      is_path hs i (p ++ [mth (drop (_split (length hs)) hs)])
  | path_right hs i p :
      2 ≤ length hs → _split (length hs) ≤ i →
      is_path (drop (_split (length hs)) hs) (i - _split (length hs)) p →
      is_path hs i (p ++ [mth (take (_split (length hs)) hs)]).

Lemma is_path_lt hs i p : is_path hs i p → i < length hs.
Proof.
  induction 1 as [|hs i p Hl Hi _ IH|hs i p Hl Hi _ IH]; [simpl; lia|..];
    rewrite ?length_take, ?length_drop in IH; pose proof (_split_bounds (length hs) Hl); lia.
Qed.

Lemma is_path_hashes hs i p : is_path hs i p → hashes_ok hs → hashes_ok p.
Proof.
  induction 1 as [|hs i p Hl Hi _ IH|hs i p Hl Hi _ IH]; intros Hok; [constructor|..];
    (apply Forall_app; split; [apply IH|repeat constructor]); auto with unimem.
Qed.

Lemma is_path_depth hs i p d : is_path hs i p → length hs ≤ 2 ^ d → length p ≤ d.
Proof.
  intros Hp. revert d. induction Hp as [|hs i p Hl Hi _ IH|hs i p Hl Hi _ IH]; intros d Hd;
    [simpl; lia|..]; rewrite length_app; simpl; (destruct d as [|d]; [simpl in Hd; lia|]);
    destruct (pow2_bracket (length hs) Hl) as [k Hk]; rewrite (_split_unique _ _ Hk) in *;
    (assert (k ≤ d) by (apply Nat.lt_succ_r, (Nat.pow_lt_mono_r_iff 2); lia));
    (assert (2 ^ k ≤ 2 ^ d) by (apply Nat.pow_le_mono_r; lia)); rewrite Nat.pow_succ_r' in Hk;
    (assert (length p ≤ d); [|lia]); apply IH; rewrite ?length_take, ?length_drop; lia.
Qed.

Lemma inclusion_f_path fuel hs i :
  length hs ≤ fuel → hashes_ok hs → (zlen hs ≤ MAX_TREE_LEAVES)%Z → i < length hs →
  ∃ p, inclusion_f fuel hs (Z.of_nat i) = Ok p ∧ is_path hs i p.
Proof.
  revert hs i. induction fuel as [|fuel IH]; intros hs i Hf Hok Hmax Hi; [lia|].
  simpl. rewrite count_in by (unfold zlen; lia). simpl.
  destruct (length hs =? 1)%nat eqn:E1; zbool.
  { destruct hs as [|h [|]]; simpl in *; try lia. exists []. split; [done|].
    replace i with 0 by lia. constructor. }
  assert (Hl : 2 ≤ length hs) by lia. destruct (_split_bounds _ Hl) as [Hs _].
  assert (zlen (take (_split (length hs)) hs) ≤ zlen hs ∧ zlen (drop (_split (length hs)) hs) ≤ zlen hs)%Z
    as [??] by (unfold zlen; rewrite length_take, length_drop; lia).
  destruct (_ <? _)%Z eqn:E2; zbool.
  - destruct (IH (take (_split (length hs)) hs) i) as (p & Hp & Hpath);
      rewrite ?length_take; auto with unimem; try lia.
    exists (p ++ [mth (drop (_split (length hs)) hs)]). rewrite Hp. simpl.
    rewrite tree_hash_mth by (auto with unimem; lia). split; [done|]. constructor; [done|lia|done].
  - replace (Z.of_nat i - Z.of_nat (_split (length hs)))%Z
      with (Z.of_nat (i - _split (length hs))) by lia.
    destruct (IH (drop (_split (length hs)) hs) (i - _split (length hs))) as (p & Hp & Hpath);
      rewrite ?length_drop; auto with unimem; try lia.
    exists (p ++ [mth (take (_split (length hs)) hs)]). rewrite Hp. simpl.
    rewrite tree_hash_mth by (auto with unimem; lia). split; [done|]. constructor; [done|lia|done].
Qed.

(** [fold] over a genuine path recomputes the subtree hash. *)
Lemma fold_proof_complete hs j p : is_path hs j p → hashes_ok hs →
  ∀ fuel leaf start pre post, length hs ≤ fuel → hs !! j = Some leaf →
  fold_proof fuel leaf (start + j) (pre ++ p ++ post) start (length hs) (length pre)
  = Ok (mth hs, length pre + length p).
Proof.
  induction 1 as [h|hs i p Hl Hi Hp IH|hs i p Hl Hi Hp IH]; intros Hok fuel leaf start pre post Hf Hleaf.
  - injection Hleaf as ->. destruct fuel; simpl; by rewrite Nat.add_0_r.
  - destruct (_split_bounds _ Hl) as [Hs _]. destruct fuel as [|fuel]; [lia|].
    simpl. rewrite (proj2 (Nat.eqb_neq _ _)), (proj2 (Nat.ltb_lt _ _)) by lia.
    specialize (IH ltac:(auto with unimem) fuel leaf start pre (mth (drop (_split (length hs)) hs) :: post)).
    rewrite length_take, Nat.min_l in IH by lia. rewrite <- (app_assoc p). simpl.
    rewrite IH by (try rewrite lookup_take_lt; done || lia). simpl.
    rewrite (app_assoc pre p), <- (length_app pre p), lookup_mid. simpl.
    rewrite node_hash_nh by auto with unimem. simpl. rewrite <- mth_split by done.
    rewrite !length_app. simpl. do 2 f_equal. lia.
  - destruct (_split_bounds _ Hl) as [Hs _]. destruct fuel as [|fuel]; [lia|].
    pose proof (lookup_lt_Some _ _ _ Hleaf) as Hlt.
    simpl. rewrite (proj2 (Nat.eqb_neq _ _)), (proj2 (Nat.ltb_ge _ _)) by lia.
    specialize (IH ltac:(auto with unimem) fuel leaf (start + _split (length hs)) pre
                  (mth (take (_split (length hs)) hs) :: post)).
    rewrite length_drop in IH. rewrite <- (app_assoc p). simpl.
    replace (start + _split (length hs) + (i - _split (length hs))) with (start + i) in IH by lia.
    rewrite IH by (try rewrite lookup_drop, Nat.add_comm, Nat.sub_add; done || lia). simpl.
    rewrite (app_assoc pre p), <- (length_app pre p), lookup_mid. simpl.
    rewrite node_hash_nh by auto with unimem. simpl. rewrite <- mth_split by done.
    rewrite !length_app. simpl. do 2 f_equal. lia.
Qed.

Lemma mapR_hash_ok proof : hashes_ok proof → mapR _hash proof = Ok proof.
Proof.
  intros H. apply mapR_Ok_Forall2. induction H as [|h l Hh Hl IH]; constructor; [|done].
  by apply _hash_Ok.
Qed.

Lemma mapR_hash_Ok proof out : mapR _hash proof = Ok out → hashes_ok proof ∧ out = proof.
Proof.
  intros H%mapR_Ok_Forall2. induction H as [|h o l k Hh Hl [IH1 IH2]]; [split; [constructor|done]|].
  apply _hash_Ok in Hh as [Hh ->]. split; [by constructor|by f_equal].
Qed.

(** What acceptance by [verify_inclusion] amounts to. *)
Lemma verify_inclusion_true leaf index size proof root :
  verify_inclusion leaf index size proof root = true ↔
  (1 ≤ size ≤ MAX_TREE_LEAVES)%Z ∧ (0 ≤ index < size)%Z ∧ is_hash leaf = true ∧ is_hash root = true ∧
  (zlen proof ≤ 32)%Z ∧ hashes_ok proof ∧
  fold_proof (Z.to_nat size) leaf (Z.to_nat index) proof 0 (Z.to_nat size) 0 = Ok (root, length proof).
Proof.
  unfold verify_inclusion, catch_false. split.
  - match goal with |- context [match ?r with _ => _ end] => destruct r as [b|e] eqn:E; [intros ->|done] end.
    apply bind_Ok in E as (? & [Hsz ->]%count_Ok & E).
    apply bind_Ok in E as (? & [Hix ->]%count_Ok & E).
    apply bind_Ok in E as (? & [Hlf ->]% _hash_Ok & E).
    apply bind_Ok in E as (? & [Hrt ->]% _hash_Ok & E).
    apply bind_Ok in E as (? & [Hpl ->]%count_Ok & E).
    apply bind_Ok in E as (? & [Hpr ->]%mapR_hash_Ok & E).
    apply bind_Ok in E as ([c u] & Hfold & E). injection E as E.
    apply andb_true_iff in E as [->%String.eqb_eq ->%Nat.eqb_eq]. split_and!; done || lia.
  - intros (Hsz & Hix & Hlf & Hrt & Hpl & Hpr & Hfold).
    rewrite !count_in by (unfold zlen in *; lia). simpl. unfold _hash. rewrite Hlf, Hrt. simpl.
    rewrite mapR_hash_ok by done. simpl. rewrite Hfold. simpl.
    by rewrite String.eqb_refl, Nat.eqb_refl.
Qed.

Lemma verify_inclusion_path hs i p leaf :
  hashes_ok hs → (zlen hs ≤ MAX_TREE_LEAVES)%Z → is_path hs i p → hs !! i = Some leaf →
  verify_inclusion leaf (Z.of_nat i) (zlen hs) p (mth hs) = true.
Proof.
  intros Hok Hmax Hp Hleaf. pose proof (is_path_lt _ _ _ Hp) as Hi.
  apply verify_inclusion_true. unfold zlen in *. rewrite !Nat2Z.id.
  assert (length p ≤ 20).
  { apply (is_path_depth _ _ _ _ Hp). unfold MAX_TREE_LEAVES in Hmax.
    enough (Z.of_nat (length hs) ≤ Z.of_nat (2 ^ 20))%Z by lia.
    rewrite Nat2Z.inj_pow. lia. }
  split_and!; try lia.
  - by apply (Forall_lookup_1 _ _ _ _ Hok Hleaf).
  - auto with unimem.
  - by eapply is_path_hashes.
  - pose proof (fold_proof_complete hs i p Hp Hok (length hs) leaf 0 [] [] ltac:(lia) Hleaf) as H'.
    simpl in H'. by rewrite app_nil_r in H'.
Qed.

(** ** Soundness of inclusion proofs

    Soundness is relative to SHA-256: it holds whenever no two of the
    strings hashed for the tree and by the verifier collide. *)

(** The strings hashed by [fold]. *)
Fixpoint fold_inputs (fuel : nat) (leaf : string) (index : nat) (proof : list string)
    (start len offset : nat) : list string :=
  if (len =? 1)%nat then []
  else match fuel with
  | O => []
  | S fuel' =>
      let split := _split len in
      let left := (index <? start + split)%nat in
      let start' := if left then start else start + split in
      let len' := if left then split else len - split in
      let sub := fold_inputs fuel' leaf index proof start' len' offset in
      match fold_proof fuel' leaf index proof start' len' offset with
      | Ok (child, used) =>
          match proof !! used with
          | Some s => (if left then node_input child s else node_input s child) :: sub
          | None => sub
          end
      | Err _ => sub
      end
  end.

(** Membership of a list built from [::] and [++]. *)
Ltac in_list := rewrite ?elem_of_app, ?elem_of_cons, ?elem_of_app; tauto.
Ltac shrink_collision_free H :=
  eapply collision_free_sub; [|exact H]; intros ? ?;
  rewrite ?elem_of_app, ?elem_of_cons, ?elem_of_app in *; tauto.

Lemma node_input_inj l r l' r' :
  is_hash l = true → is_hash r = true → is_hash l' = true → is_hash r' = true →
  node_input l r = node_input l' r' → l = l' ∧ r = r'.
Proof.
  intros (bl & Hl & Hll & El)%is_hash_unhex (br & Hr & Hlr & Er)%is_hash_unhex
         (bl' & Hl' & Hll' & El')%is_hash_unhex (br' & Hr' & Hlr' & Er')%is_hash_unhex.
  unfold node_input. rewrite Hl, Hr, Hl', Hr'. simpl. intros [= H].
  apply (f_equal str_bytes) in H. rewrite !str_bytes_app in H.
  assert (Hlen : length (str_bytes bl) = length (str_bytes bl'))
    by (by rewrite !length_str_bytes, Hll, Hll').
  destruct (app_inj_1 _ _ _ _ Hlen H) as [H1%str_bytes_inj H2%str_bytes_inj]. by subst.
Qed.

Lemma nh_inj S l r l' r' :
  collision_free S → node_input l r ∈ S → node_input l' r' ∈ S →
  is_hash l = true → is_hash r = true → is_hash l' = true → is_hash r' = true →
  nh l r = nh l' r' → l = l' ∧ r = r'.
Proof.
  intros Hcf HS HS' ???? H. apply node_input_inj; [done..|]. apply Hcf; [done..|]. by apply hex_inj.
Qed.

Lemma fold_proof_hash fuel leaf index proof start len offset v used :
  is_hash leaf = true →
  fold_proof fuel leaf index proof start len offset = Ok (v, used) → is_hash v = true.
Proof.
  intros Hl. destruct fuel; simpl; destruct (len =? 1)%nat; [naive_solver..|].
  destruct (index <? start + _split len)%nat; intros H;
    apply bind_Ok in H as ([c u] & _ & H); apply bind_Ok in H as (s & _ & H);
    apply bind_Ok in H as (h & (_ & _ & ->)%node_hash_Ok & [= <- <-]); apply nh_is_hash.
Qed.

(** Injectivity that does not look inside the hashes. *)
Lemma Ok_pair {A B} (a c : A) (b d : B) : Ok (E := pyexn) (a, b) = Ok (c, d) → a = c ∧ b = d.
Proof. intros H. by inversion H. Qed.

Lemma fold_proof_sound fuel : ∀ hs leaf index proof start offset used,
  hashes_ok hs → is_hash leaf = true → 1 ≤ length hs →
  start ≤ index < start + length hs →
  fold_proof fuel leaf index proof start (length hs) offset = Ok (mth hs, used) →
  collision_free (tree_inputs hs ++ fold_inputs fuel leaf index proof start (length hs) offset) →
  hs !! (index - start) = Some leaf.
Proof.
  induction fuel as [|fuel IH]; intros hs leaf index proof start offset used Hok Hleaf Hlen Hix Hfold Hcf;
    simpl in Hfold; simpl in Hcf;
    (destruct (length hs =? 1)%nat eqn:E1; zbool;
      [destruct hs as [|h [|]]; simpl in *; try lia; injection Hfold as -> _;
       by replace (index - start) with 0 by lia|]); [done|].
  assert (Hl : 2 ≤ length hs) by lia. destruct (_split_bounds _ Hl) as [Hs _].
  rewrite (mth_split hs Hl) in Hfold. rewrite (tree_inputs_split hs Hl) in Hcf.
  set (k := _split (length hs)) in *.
  destruct (index <? start + k)%nat eqn:E2; zbool.
  - apply bind_Ok in Hfold as ([c u] & Hsub & H). apply bind_Ok in H as (s & Hu%get_or_Ok & H).
    apply bind_Ok in H as (h & (Hc & Hss & ->)%node_hash_Ok & [Hnh <-]%Ok_pair).
    rewrite Hsub, Hu in Hcf.
    destruct (nh_inj _ c s _ _ Hcf ltac:(in_list) ltac:(in_list) Hc Hss
      ltac:(auto with unimem) ltac:(auto with unimem) Hnh) as [-> _].
    rewrite <- (lookup_take_lt _ k) by lia.
    assert (Hk : length (take k hs) = k) by (rewrite length_take; lia).
    apply (IH (take k hs) leaf index proof start offset u); rewrite ?Hk;
      [by apply hashes_ok_take|done|lia|lia|exact Hsub|shrink_collision_free Hcf].
  - apply bind_Ok in Hfold as ([c u] & Hsub & H). apply bind_Ok in H as (s & Hu%get_or_Ok & H).
    apply bind_Ok in H as (h & (Hss & Hc & ->)%node_hash_Ok & [Hnh <-]%Ok_pair).
    rewrite Hsub, Hu in Hcf.
    destruct (nh_inj _ s c _ _ Hcf ltac:(in_list) ltac:(in_list) Hss Hc
      ltac:(auto with unimem) ltac:(auto with unimem) Hnh) as [_ ->].
    replace (index - start) with (k + (index - (start + k))) by lia. rewrite <- lookup_drop.
    assert (Hk : length (drop k hs) = length hs - k) by apply length_drop.
    apply (IH (drop k hs) leaf index proof (start + k) offset u); rewrite ?Hk;
      [by apply hashes_ok_drop|done|lia|lia|exact Hsub|shrink_collision_free Hcf].
Qed.

