(* ===== verification/Consistency.v ===== *)
(** * Consistency proofs ([consistency], [verify_consistency])

    [subproof] walks the new tree top-down, the verifier folds the proof
    bottom-up over two shifted positions.  Both are related here to one
    description of the siblings, [sibs], level by level; completeness and
    soundness of the protocol follow. *)

From S2P Require Import Prelude Sha256 Wire Merkle.

(** ** Levels of the tree *)

(** Block [q] of level [i]: the leaves [q * 2^i .. (q+1) * 2^i - 1] that exist. *)
Definition blk (hs : list string) (i q : nat) : list string := take (2 ^ i) (drop (q * 2 ^ i) hs).
Definition node (hs : list string) (i q : nat) : string := mth (blk hs i q).

(** The sibling on one level, for a walk at position [f] of the old tree's
    last leaf and [s] of the new tree's. *)
Definition level_sib (hs : list string) (i f s : nat) : list string :=
  if Nat.odd f then [node hs i (f - 1)] else if (f <? s)%nat then [node hs i (f + 1)] else [].

Fixpoint sibs (hs : list string) (f s i k : nat) : list string :=
  match k with
  | O => []
  | S k' => level_sib hs i f s ++ sibs hs (Nat.div2 f) (Nat.div2 s) (S i) k'
  end.

(** The strings hashed by the verifier's loop for the new tree. *)
Fixpoint loop_inputs (s : walk_state) (siblings : list string) : list string :=
  match siblings with
  | [] => []
  | x :: rest =>
      match consistency_step s x with
      | Ok (Some s') =>
          (if Nat.odd (first s) || (first s =? second s)%nat
           then node_input x (new_acc s) else node_input (new_acc s) x) :: loop_inputs s' rest
      | _ => []
      end
  end.

Definition consistency_inputs (old_size size : nat) (old_root : string) (proof : list string)
    : list string :=
  let '(f, g) := strip_ones (old_size - 1) (old_size - 1) (size - 1) in
  if (f =? 0)%nat then loop_inputs (WalkState f g old_root old_root) proof
  else match proof with
       | [] => []
       | h :: siblings => loop_inputs (WalkState f g h h) siblings
       end.

Lemma pow2_pos k : 1 ≤ 2 ^ k.
Proof. pose proof (Nat.pow_nonzero 2 k ltac:(done)). lia. Qed.

Lemma length_blk hs i q : length (blk hs i q) = Nat.min (2 ^ i) (length hs - q * 2 ^ i).
Proof. unfold blk. by rewrite length_take, length_drop. Qed.

Lemma blk_top hs i : length hs ≤ 2 ^ i → blk hs i 0 = hs.
Proof. intros H. unfold blk. simpl. by rewrite drop_0, take_ge. Qed.

Lemma blk_take hs m i q : (q + 1) * 2 ^ i ≤ m → blk (take m hs) i q = blk hs i q.
Proof.
  intros H. unfold blk. rewrite skipn_firstn_comm, take_take. f_equal. nia.
Qed.

Lemma blk_promote hs i q : length hs ≤ (2 * q + 1) * 2 ^ i → blk hs (S i) q = blk hs i (2 * q).
Proof.
  intros H. unfold blk. rewrite Nat.pow_succ_r'. set (c := 2 ^ i) in *.
  replace (q * (2 * c)) with (2 * q * c) by lia.
  rewrite !take_ge; [done|rewrite length_drop; nia..].
Qed.

Lemma blk_split hs i q : (2 * q + 1) * 2 ^ i < length hs →
  let l := blk hs (S i) q in
  2 ^ i < length l ∧ _split (length l) = 2 ^ i ∧
  take (2 ^ i) l = blk hs i (2 * q) ∧ drop (2 ^ i) l = blk hs i (2 * q + 1).
Proof.
  intros H l. pose proof (pow2_pos i) as Hc.
  assert (Hl : 2 ^ i < length l).
  { unfold l. rewrite length_blk, Nat.pow_succ_r'. set (c := 2 ^ i) in *. nia. }
  split_and!; [done| | |].
  - apply _split_unique. split; [done|]. unfold l. rewrite length_blk. lia.
  - unfold l, blk. rewrite take_take, Nat.pow_succ_r'. set (c := 2 ^ i) in *.
    f_equal; [lia|]. f_equal. nia.
  - unfold l, blk. rewrite skipn_firstn_comm, drop_drop, Nat.pow_succ_r'. set (c := 2 ^ i) in *.
    f_equal; [lia|]. f_equal. nia.
Qed.

Lemma node_top hs i : length hs ≤ 2 ^ i → node hs i 0 = mth hs.
Proof. intros H. unfold node. by rewrite blk_top. Qed.

Lemma node_is_hash hs i q : hashes_ok hs → is_hash (node hs i q) = true.
Proof. intros. unfold node, blk. auto with unimem. Qed.

Lemma node_pair hs i q : (2 * q + 1) * 2 ^ i < length hs →
  node hs (S i) q = nh (node hs i (2 * q)) (node hs i (2 * q + 1)).
Proof.
  intros H. destruct (blk_split hs i q H) as (Hl & Hs & Ht & Hd).
  pose proof (pow2_pos i). unfold node. rewrite mth_split by lia. by rewrite Hs, Ht, Hd.
Qed.

Lemma node_promote hs i q : length hs ≤ (2 * q + 1) * 2 ^ i → node hs (S i) q = node hs i (2 * q).
Proof. intros H. unfold node. by rewrite blk_promote. Qed.

Lemma node_take hs m i q : (q + 1) * 2 ^ i ≤ m → node (take m hs) i q = node hs i q.
Proof. intros H. unfold node. by rewrite blk_take. Qed.

#[export] Hint Resolve node_is_hash : unimem.

(** Every inner node is hashed by the tree. *)
Lemma blk_inputs hs k i q x : length hs ≤ 2 ^ (i + k) → q * 2 ^ i < length hs →
  x ∈ tree_inputs (blk hs i q) → x ∈ tree_inputs hs.
Proof.
  revert i q. induction k as [|k IH]; intros i q Hk Hq Hx.
  - rewrite Nat.add_0_r in Hk. assert (q = 0) as -> by nia. by rewrite blk_top in Hx.
  - apply (IH (S i) (Nat.div2 q)); [by rewrite Nat.add_succ_comm| |].
    { rewrite Nat.pow_succ_r'. pose proof (Nat.div2_odd q). nia. }
    destruct (decide (length hs ≤ (2 * Nat.div2 q + 1) * 2 ^ i)) as [Hp|Hp].
    + rewrite blk_promote by done.
      assert (q = 2 * Nat.div2 q) as <-; [|done].
      pose proof (Nat.div2_odd q) as Hd. destruct (Nat.odd q); simpl in Hd; nia.
    + destruct (blk_split hs i (Nat.div2 q) ltac:(lia)) as (Hl & Hs & Ht & Hd).
      pose proof (pow2_pos i). rewrite tree_inputs_split by lia. rewrite Hs, Ht, Hd.
      pose proof (Nat.div2_odd q) as Ho. rewrite elem_of_cons, elem_of_app.
      destruct (Nat.odd q); simpl in Ho.
      * replace (2 * Nat.div2 q + 1) with q by lia. tauto.
      * replace (2 * Nat.div2 q) with q by lia. tauto.
Qed.

Lemma node_inputs hs i q : (2 * q + 1) * 2 ^ i < length hs →
  node_input (node hs i (2 * q)) (node hs i (2 * q + 1)) ∈ tree_inputs hs.
Proof.
  intros H. destruct (blk_split hs i q H) as (Hl & Hs & Ht & Hd). pose proof (pow2_pos i).
  apply (blk_inputs hs (length hs) (S i) q).
  - transitivity (2 ^ length hs); [|apply Nat.pow_le_mono_r; lia].
    apply Nat.lt_le_incl, Nat.pow_gt_lin_r. lia.
  - rewrite Nat.pow_succ_r'. nia.
  - rewrite tree_inputs_split by lia. rewrite Hs, Ht, Hd. by left.
Qed.

(** ** Siblings *)

Lemma div2_pow n k : Nat.div2 n / 2 ^ k = n / 2 ^ S k.
Proof. by rewrite Nat.div2_div, Nat.Div0.div_div, <- Nat.pow_succ_r'. Qed.

Lemma sibs_snoc hs f s i k :
  sibs hs f s i (S k) = sibs hs f s i k ++ level_sib hs (i + k) (f / 2 ^ k) (s / 2 ^ k).
Proof.
  revert f s i. induction k as [|k IH]; intros f s i.
  - change (2 ^ 0) with 1. rewrite !Nat.div_1_r, Nat.add_0_r. simpl. by rewrite app_nil_r.
  - change (sibs hs f s i (S (S k))) with
      (level_sib hs i f s ++ sibs hs (Nat.div2 f) (Nat.div2 s) (S i) (S k)).
    rewrite IH, !div2_pow, app_assoc, Nat.add_succ_comm. done.
Qed.

Lemma sibs_zero hs i k : sibs hs 0 0 i k = [].
Proof. revert i. induction k as [|k IH]; intros i; [done|]. apply (IH (S i)). Qed.

Lemma sibs_nonempty hs f s i k : f ≤ s → 0 < s < 2 ^ k → sibs hs f s i k ≠ [].
Proof.
  revert f s i. induction k as [|k IH]; intros f s i Hf Hs; [simpl in Hs; lia|]. simpl.
  unfold level_sib. destruct (Nat.odd f) eqn:Ho; [done|]. destruct (f <? s)%nat eqn:Hlt; [done|].
  zbool. assert (f = s) as -> by lia. simpl. pose proof (Nat.div2_odd s) as Hd.
  rewrite Ho in Hd. simpl in Hd. rewrite Nat.pow_succ_r' in Hs. apply IH; lia.
Qed.

Lemma hashes_ok_sibs hs f s i k : hashes_ok hs → hashes_ok (sibs hs f s i k).
Proof.
  intros Hok. revert f s i. induction k as [|k IH]; intros f s i; [constructor|].
  apply Forall_app. split; [|apply IH]. unfold level_sib.
  repeat case_match; repeat constructor; auto with unimem.
Qed.

Lemma length_sibs hs f s i k : length (sibs hs f s i k) ≤ k.
Proof.
  revert f s i. induction k as [|k IH]; intros f s i; [done|]. simpl. rewrite length_app.
  specialize (IH (Nat.div2 f) (Nat.div2 s) (S i)).
  assert (length (level_sib hs i f s) ≤ 1) by (unfold level_sib; repeat case_match; simpl; lia). lia.
Qed.

(** ** The verifier's loop *)

Lemma strip_zeros_fuel n fuel f s : f ≤ n → f ≤ fuel → strip_zeros fuel f s = strip_zeros n f s.
Proof.
  revert fuel f s. induction n as [|n IH]; intros fuel f s Hn Hf.
  - assert (f = 0) as -> by lia. by destruct fuel.
  - destruct fuel as [|fuel]; [by assert (f = 0) as -> by lia|]. simpl.
    destruct (f =? 0)%nat eqn:E; simpl; [done|]. zbool. destruct (Nat.even f); [|done].
    pose proof (Nat.div2_odd f) as Hd. destruct (Nat.odd f); simpl in Hd; apply IH; lia.
Qed.

Lemma strip_zeros_odd fuel f s : Nat.odd f = true → strip_zeros fuel f s = (f, s).
Proof.
  intros Ho. destruct fuel; simpl; [done|].
  by rewrite <- Nat.negb_odd, Ho, andb_false_r.
Qed.

Lemma strip_zeros_even f s : Nat.odd f = false → f ≠ 0 →
  strip_zeros f f s = strip_zeros (Nat.div2 f) (Nat.div2 f) (Nat.div2 s).
Proof.
  intros Ho Hf. destruct f as [|f]; [done|]. cbn [strip_zeros].
  rewrite <- Nat.negb_odd, Ho. simpl. pose proof (Nat.div2_odd (S f)) as Hd.
  rewrite Ho in Hd. simpl in Hd. apply strip_zeros_fuel; lia.
Qed.

(** A level without a sibling in the new tree is skipped by the next step. *)
Lemma consistency_step_skip s a b x : Nat.odd s = false → s ≠ 0 →
  consistency_step (WalkState s s a b) x = consistency_step (WalkState (Nat.div2 s) (Nat.div2 s) a b) x.
Proof.
  intros Ho Hs. pose proof (Nat.div2_odd s) as Hd. rewrite Ho in Hd. simpl in Hd.
  unfold consistency_step. cbn [first second old_acc new_acc].
  rewrite !(proj2 (Nat.eqb_neq _ 0)), !Nat.eqb_refl, !orb_true_r by lia.
  by rewrite strip_zeros_even.
Qed.

Lemma consistency_step_odd f s a b x : Nat.odd f = true → s ≠ 0 →
  is_hash x = true → is_hash a = true → is_hash b = true →
  consistency_step (WalkState f s a b) x
  = Ok (Some (WalkState (Nat.div2 f) (Nat.div2 s) (nh x a) (nh x b))).
Proof.
  intros Ho Hs Hx Ha Hb. unfold consistency_step. cbn [first second old_acc new_acc].
  rewrite (proj2 (Nat.eqb_neq _ 0)), Ho by done. simpl.
  rewrite !node_hash_nh by done. simpl. by rewrite strip_zeros_odd.
Qed.

Lemma consistency_step_even f s a b x : Nat.odd f = false → f < s →
  is_hash x = true → is_hash b = true →
  consistency_step (WalkState f s a b) x
  = Ok (Some (WalkState (Nat.div2 f) (Nat.div2 s) a (nh b x))).
Proof.
  intros Ho Hs Hx Hb. unfold consistency_step. cbn [first second old_acc new_acc].
  rewrite (proj2 (Nat.eqb_neq s 0)), Ho, (proj2 (Nat.eqb_neq f s)) by lia. simpl.
  by rewrite !node_hash_nh by done.
Qed.

(** What a successful step has checked. *)
Lemma consistency_step_Ok s x s' : consistency_step s x = Ok (Some s') →
  second s ≠ 0 ∧ is_hash x = true ∧ is_hash (new_acc s) = true ∧
  (Nat.odd (first s) || (first s =? second s)%nat = true → is_hash (old_acc s) = true).
Proof.
  unfold consistency_step. destruct (second s =? 0)%nat eqn:E; [done|]. zbool.
  destruct (_ || _).
  - intros (o & (Hx & Ho & ->)%node_hash_Ok & (n & (_ & Hn & ->)%node_hash_Ok & _)%bind_Ok)%bind_Ok. done.
  - intros (n & (Hn & Hx & ->)%node_hash_Ok & _)%bind_Ok. done.
Qed.

(** Positions of the last leaves, one level up. *)
Lemma last_leaf_up f i m : f * 2 ^ i < m ≤ (f + 1) * 2 ^ i →
  Nat.div2 f * 2 ^ S i < m ≤ (Nat.div2 f + 1) * 2 ^ S i.
Proof.
  rewrite Nat.pow_succ_r'. pose proof (Nat.div2_odd f). pose proof (pow2_pos i).
  destruct (Nat.odd f); simpl in *; nia.
Qed.

Lemma div2_mono f s : f ≤ s → Nat.div2 f ≤ Nat.div2 s.
Proof. intros. rewrite !Nat.div2_div. by apply Nat.Div0.div_le_mono. Qed.

Lemma div2_bound s k : s < 2 ^ S k → Nat.div2 s < 2 ^ k.
Proof. rewrite Nat.pow_succ_r'. pose proof (Nat.div2_odd s). intros. lia. Qed.

Section walk.
  Context (hs : list string) (m : nat).
  Hypothesis Hok : hashes_ok hs.
  Hypothesis Hm : m ≤ length hs.
  Local Abbreviation old := (take m hs).

Lemma length_old : length old = m.
  Proof. rewrite length_take. lia. Qed.

Lemma old_ok : hashes_ok old.
  Proof. by apply hashes_ok_take. Qed.

Lemma old_pair i f : Nat.odd f = true → f * 2 ^ i < m →
    node old (S i) (Nat.div2 f) = nh (node hs i (f - 1)) (node old i f) ∧
    node hs (S i) (Nat.div2 f) = nh (node hs i (f - 1)) (node hs i f) ∧
    node_input (node hs i (f - 1)) (node hs i f) ∈ tree_inputs hs.
  Proof.
    intros Ho Hf. pose proof (Nat.div2_odd f) as Hd. rewrite Ho in Hd. revert Hd.
    generalize (Nat.div2 f) as q. intros q ->. clear Ho. change (Nat.b2n true) with 1 in *.
    rewrite (Nat.add_sub (2 * q) 1). split_and!.
    - rewrite node_pair by (rewrite length_old; lia). f_equal. apply node_take. lia.
    - apply node_pair. lia.
    - apply node_inputs. lia.
  Qed.

Lemma new_pair i f : Nat.odd f = false → (f + 1) * 2 ^ i < length hs →
    m ≤ (f + 1) * 2 ^ i →
    node old (S i) (Nat.div2 f) = node old i f ∧
    node hs (S i) (Nat.div2 f) = nh (node hs i f) (node hs i (f + 1)) ∧
    node_input (node hs i f) (node hs i (f + 1)) ∈ tree_inputs hs.
  Proof.
    intros Ho Hf Hmf. pose proof (Nat.div2_odd f) as Hd. rewrite Ho in Hd. revert Hd.
    generalize (Nat.div2 f) as q. intros q ->. clear Ho. change (Nat.b2n false) with 0 in *.
    rewrite !Nat.add_0_r in *. split_and!.
    - apply node_promote. rewrite length_old. lia.
    - apply node_pair. lia.
    - apply node_inputs. lia.
  Qed.

  (** The two accumulators of a walk that is in step with both trees end in
      the two roots. *)
Lemma loop_complete k : ∀ i f s,
    f ≤ s → s < 2 ^ k → f * 2 ^ i < m ≤ (f + 1) * 2 ^ i →
    s * 2 ^ i < length hs ≤ (s + 1) * 2 ^ i →
    consistency_loop (WalkState f s (node old i f) (node hs i f)) (sibs hs f s i k)
    = Ok (Some (WalkState 0 0 (mth old) (mth hs))).
  Proof.
    induction k as [|k IH]; intros i f s Hfs Hs Hf Hl.
    - assert (s = 0 ∧ f = 0) as [-> ->] by (simpl in Hs; lia). simpl.
      rewrite !node_top by (rewrite ?length_old; lia). done.
    - pose proof (IH (S i) (Nat.div2 f) (Nat.div2 s) (div2_mono _ _ Hfs) (div2_bound _ _ Hs)
        (last_leaf_up _ _ _ Hf) (last_leaf_up _ _ _ Hl)) as IHn.
      simpl. unfold level_sib. destruct (Nat.odd f) eqn:Ho.
      + destruct (old_pair i f Ho ltac:(lia)) as (E1 & E2 & _). simpl.
        assert (s ≠ 0) by (intros ->; assert (f = 0) as -> by lia; done).
        rewrite consistency_step_odd; auto using old_ok with unimem. simpl. by rewrite <- E1, <- E2.
      + destruct (f <? s)%nat eqn:Hlt; zbool.
        * destruct (new_pair i f Ho ltac:(nia) ltac:(lia)) as (E1 & E2 & _). simpl.
          rewrite consistency_step_even; auto with unimem. simpl. by rewrite <- E1, <- E2.
        * assert (f = s) as -> by lia. simpl.
          pose proof (Nat.div2_odd s) as Hd. rewrite Ho in Hd. simpl in Hd.
          assert (E1 : node old (S i) (Nat.div2 s) = node old i s).
          { rewrite node_promote by (rewrite length_old; lia). f_equal. lia. }
          assert (E2 : node hs (S i) (Nat.div2 s) = node hs i s).
          { rewrite node_promote by lia. f_equal. lia. }
          rewrite E1, E2 in IHn. destruct (decide (s = 0)) as [->|Hs0]; [done|].
          rewrite <- IHn.
          pose proof (sibs_nonempty hs (Nat.div2 s) (Nat.div2 s) (S i) k ltac:(lia)
            ltac:(split; [lia|by apply div2_bound])) as Hne.
          destruct (sibs hs _ _ _ _) as [|x rest]; [done|]. cbn [consistency_loop].
          by rewrite consistency_step_skip.
  Qed.

  (** A walk that ends in the new root has followed the new tree all the
      way; if it also started on the old tree it ends in the old root. *)
Lemma loop_sound k : ∀ i f s a b siblings st,
    f ≤ s → s < 2 ^ k → f * 2 ^ i < m ≤ (f + 1) * 2 ^ i →
    s * 2 ^ i < length hs ≤ (s + 1) * 2 ^ i →
    consistency_loop (WalkState f s a b) siblings = Ok (Some st) →
    second st = 0 → new_acc st = mth hs →
    collision_free (tree_inputs hs ++ loop_inputs (WalkState f s a b) siblings) →
    b = node hs i f ∧ (a = node old i f → old_acc st = mth old).
  Proof.
    induction k as [|k IH]; intros i f s a b siblings st Hfs Hs Hf Hl Hloop Hst Hnew Hcf.
    - assert (s = 0 ∧ f = 0) as [-> ->] by (simpl in Hs; lia).
      rewrite !node_top by (rewrite ?length_old; lia).
      destruct siblings; simpl in Hloop; [|done]. injection Hloop as <-. done.
    - destruct (decide (s = 0)) as [->|Hs0].
      { assert (f = 0) as -> by lia. rewrite !node_top by (rewrite ?length_old; lia).
        destruct siblings; simpl in Hloop; [|done]. injection Hloop as <-. done. }
      destruct siblings as [|x rest].
      { simpl in Hloop. injection Hloop as <-. done. }
      pose proof (λ a' b' rest', IH (S i) (Nat.div2 f) (Nat.div2 s) a' b' rest' st (div2_mono _ _ Hfs)
        (div2_bound _ _ Hs) (last_leaf_up _ _ _ Hf) (last_leaf_up _ _ _ Hl)) as IHn.
      destruct (Nat.odd f) eqn:Ho; [|destruct (decide (f < s)) as [Hlt|Hge]].
      + destruct (old_pair i f Ho ltac:(lia)) as (E1 & E2 & Hin).
        cbn [consistency_loop] in Hloop. cbn [loop_inputs] in Hcf.
        apply bind_Ok in Hloop as ([s'|] & Hstep & Hloop); [|done]. rewrite Hstep in Hcf.
        destruct (consistency_step_Ok _ _ _ Hstep) as (_ & Hx & Hb & Ha). simpl in Hb, Ha, Hcf.
        rewrite Ho in *. simpl in Ha, Hcf. specialize (Ha eq_refl).
        rewrite consistency_step_odd in Hstep by done. injection Hstep as <-.
        destruct (IHn (nh x a) (nh x b) rest Hloop Hst Hnew) as [Eb Hold].
        { shrink_collision_free Hcf. }
        rewrite E2 in Eb. destruct (nh_inj _ x b (node hs i (f - 1)) (node hs i f) Hcf ltac:(in_list) ltac:(in_list) Hx Hb
          ltac:(auto with unimem) ltac:(auto with unimem) Eb) as [-> ->].
        split; [done|]. intros ->. apply Hold. by rewrite E1.
      + destruct (new_pair i f Ho ltac:(nia) ltac:(lia)) as (E1 & E2 & Hin).
        cbn [consistency_loop] in Hloop. cbn [loop_inputs] in Hcf.
        apply bind_Ok in Hloop as ([s'|] & Hstep & Hloop); [|done]. rewrite Hstep in Hcf.
        destruct (consistency_step_Ok _ _ _ Hstep) as (_ & Hx & Hb & _). simpl in Hb, Hcf.
        rewrite Ho, (proj2 (Nat.eqb_neq f s)) in Hcf by lia. simpl in Hcf.
        rewrite consistency_step_even in Hstep by done. injection Hstep as <-.
        destruct (IHn a (nh b x) rest Hloop Hst Hnew) as [Eb Hold].
        { shrink_collision_free Hcf. }
        rewrite E2 in Eb. destruct (nh_inj _ b x (node hs i f) (node hs i (f + 1)) Hcf ltac:(in_list) ltac:(in_list) Hb Hx
          ltac:(auto with unimem) ltac:(auto with unimem) Eb) as [-> ->].
        split; [done|]. intros ->. apply Hold. by rewrite E1.
      + assert (f = s) as -> by lia.
        pose proof (Nat.div2_odd s) as Hd. rewrite Ho in Hd. simpl in Hd.
        assert (E1 : node old (S i) (Nat.div2 s) = node old i s).
        { rewrite node_promote by (rewrite length_old; lia). f_equal. lia. }
        assert (E2 : node hs (S i) (Nat.div2 s) = node hs i s).
        { rewrite node_promote by lia. f_equal. lia. }
        rewrite <- E1, <- E2. apply (IHn a b (x :: rest)); [|done|done|].
        * rewrite <- Hloop. cbn [consistency_loop]. by rewrite (consistency_step_skip s).
        * eapply collision_free_sub; [|exact Hcf]. intros y. rewrite !elem_of_app.
          cbn [loop_inputs first second new_acc]. rewrite <- (consistency_step_skip s) by done.
          rewrite !Nat.eqb_refl, !orb_true_r. tauto.
  Qed.
End walk.

(** ** The prover *)

Lemma strip_ones_spec fuel : ∀ i f n, f ≤ fuel → ∃ i' f',
  (f + 1) * 2 ^ i = (f' + 1) * 2 ^ i' ∧ i ≤ i' ∧ Nat.odd f' = false ∧
  strip_ones fuel f (n / 2 ^ i) = (f', n / 2 ^ i').
Proof.
  induction fuel as [|fuel IH]; intros i f n Hf; simpl.
  - assert (f = 0) as -> by lia. by exists i, 0.
  - destruct (Nat.odd f) eqn:Ho; [|by exists i, f].
    pose proof (Nat.div2_odd f) as Hd. rewrite Ho in Hd. simpl in Hd.
    destruct (IH (S i) (Nat.div2 f) n ltac:(lia)) as (i' & f' & Hm & Hi & Hod & Hs).
    exists i', f'. split_and!; [|lia|done|].
    + rewrite <- Hm, Nat.pow_succ_r'. nia.
    + rewrite <- Hs. f_equal. by rewrite Nat.div2_div, Nat.Div0.div_div, Nat.mul_comm, <- Nat.pow_succ_r'.
Qed.

Section prover.
  Context (hs : list string) (m i f : nat).
  Hypothesis Hok : hashes_ok hs.
  Hypothesis Hmax : (zlen hs ≤ MAX_TREE_LEAVES)%Z.
  Hypothesis Hm : m = (f + 1) * 2 ^ i.
  Hypothesis Hlt : m < length hs.
  Hypothesis Hf : Nat.odd f = false.
  Local Abbreviation s := ((length hs - 1) / 2 ^ i).

Lemma tree_hash_blk d q : tree_hash (blk hs d q) = Ok (node hs d q).
  Proof.
    apply tree_hash_mth; [by apply hashes_ok_take, hashes_ok_drop|].
    pose proof (length_blk hs d q). unfold zlen in *. lia.
  Qed.

Lemma level_sib_none d g : Nat.odd g = false → (length hs - 1) / 2 ^ d ≤ g →
    level_sib hs d g ((length hs - 1) / 2 ^ d) = [].
  Proof. intros Ho Hg. unfold level_sib. by rewrite Ho, (proj2 (Nat.ltb_ge _ _)). Qed.

Lemma level_sib_right d t : (2 * t + 1) * 2 ^ d < length hs →
    level_sib hs d (2 * t) ((length hs - 1) / 2 ^ d) = [node hs d (2 * t + 1)].
  Proof.
    intros Hp. unfold level_sib. rewrite Nat.odd_mul. simpl.
    rewrite (proj2 (Nat.ltb_lt _ _)); [done|].
    apply (Nat.lt_le_trans _ (2 * t + 1)); [lia|].
    apply Nat.div_le_lower_bound; [pose proof (pow2_pos d)|]; lia.
  Qed.

Lemma level_sib_left d t x : level_sib hs d (2 * t + 1) x = [node hs d (2 * t)].
  Proof.
    unfold level_sib. rewrite Nat.odd_add, Nat.odd_mul. simpl. do 2 f_equal. lia.
  Qed.

  (** [m] ends no block above level [i]. *)
Lemma size_not_block k t : m ≠ (t + 1) * (2 * 2 ^ (i + k)).
  Proof.
    rewrite Hm, Nat.pow_add_r. intros H.
    assert (f + 1 = (t + 1) * 2 ^ k * 2) as E.
    { apply (Nat.mul_cancel_r _ _ (2 ^ i)); [pose proof (pow2_pos i); lia|]. rewrite H. lia. }
    pose proof (Nat.div2_odd f) as Hd. rewrite Hf in Hd. simpl in Hd. lia.
  Qed.

  (** The proof for block [t] of level [i + k], the block [m] falls into. *)
Lemma subproof_sibs k : ∀ t fuel,
    f / 2 ^ k = t → length (blk hs (i + k) t) ≤ fuel →
    subproof fuel (blk hs (i + k) t) (m - t * 2 ^ (i + k)) (t =? 0)%nat
    = Ok ((if (f =? 0)%nat then [] else [node hs i f]) ++ sibs hs f s i k).
  Proof.
    induction k as [|k IH]; intros t fuel Ht Hfuel.
    - change (2 ^ 0) with 1 in Ht. rewrite Nat.div_1_r in Ht. subst t.
      rewrite Nat.add_0_r in Hfuel |- *. pose proof (pow2_pos i).
      assert (Hlen : length (blk hs i f) = 2 ^ i) by (rewrite length_blk; nia).
      replace (m - f * 2 ^ i) with (2 ^ i) by nia. destruct fuel; [lia|].
      simpl. rewrite Hlen, Nat.eqb_refl, app_nil_r. destruct (f =? 0)%nat; [done|].
      by rewrite tree_hash_blk.
    - rewrite sibs_snoc, app_assoc. rewrite Nat.add_succ_r in Hfuel |- *.
      assert (Hpow : f / 2 ^ k * 2 ^ k ≤ f < (f / 2 ^ k + 1) * 2 ^ k).
      { pose proof (Nat.div_mod_eq f (2 ^ k)). pose proof (pow2_pos k).
        pose proof (Nat.mod_upper_bound f (2 ^ k) ltac:(lia)). lia. }
      set (g := f / 2 ^ k) in *. set (d := i + k) in *.
      assert (Hg : Nat.div2 g = t).
      { unfold g. by rewrite Nat.div2_div, Nat.Div0.div_div, Nat.mul_comm, <- Nat.pow_succ_r'. }
      assert (Hsd : s / 2 ^ k = (length hs - 1) / 2 ^ d)
        by (unfold d; by rewrite Nat.Div0.div_div, <- Nat.pow_add_r).
      rewrite Hsd. clear Hsd.
      assert (Hd2 : 2 ^ d = 2 ^ i * 2 ^ k) by apply Nat.pow_add_r.
      assert (Hmg : g * 2 ^ d < m ≤ (g + 1) * 2 ^ d) by (pose proof (pow2_pos i); nia).
      assert (Hg2 : g = 2 * t ∨ g = 2 * t + 1)
        by (pose proof (Nat.div2_odd g); destruct (Nat.odd g); simpl in *; lia).
      clearbody g. clear Ht Hg. pose proof (pow2_pos d) as Hdp.
      replace (t * 2 ^ S d) with (2 * t * 2 ^ d) by (rewrite Nat.pow_succ_r'; lia).
      destruct (decide (length hs ≤ (2 * t + 1) * 2 ^ d)) as [Hp|Hp].
      + rewrite blk_promote in Hfuel |- * by done.
        assert (g = 2 * t) as -> by (destruct Hg2; [done|subst g; nia]).
        rewrite level_sib_none, app_nil_r.
        * replace (t =? 0)%nat with (2 * t =? 0)%nat by (by destruct t). by apply IH.
        * by rewrite Nat.odd_mul.
        * apply Nat.lt_succ_r, Nat.Div0.div_lt_upper_bound. lia.
      + destruct (blk_split hs d t ltac:(lia)) as (Hl & Hs & Htk & Hdr).
        assert (Hne : m - 2 * t * 2 ^ d ≠ length (blk hs (S d) t)).
        { rewrite length_blk, Nat.pow_succ_r'. pose proof (size_not_block k t) as Hx.
          fold d in Hx. nia. }
        destruct fuel as [|fuel]; [lia|]. cbn [subproof].
        rewrite (proj2 (Nat.eqb_neq _ _) Hne), Hs, Htk, Hdr.
        assert (Hfu : length (blk hs d g) ≤ fuel).
        { destruct Hg2 as [-> | ->]; [rewrite <- Htk, length_take|rewrite <- Hdr, length_drop]; lia. }
        specialize (IH g fuel eq_refl Hfu).
        destruct Hg2 as [-> | ->].
        * rewrite (proj2 (Nat.leb_le _ _)) by lia.
          replace (t =? 0)%nat with (2 * t =? 0)%nat by (by destruct t). rewrite IH, level_sib_right by lia. simpl.
          by rewrite tree_hash_blk.
        * rewrite (proj2 (Nat.leb_gt _ _)) by lia.
          replace (m - 2 * t * 2 ^ d - 2 ^ d) with (m - (2 * t + 1) * 2 ^ d) by lia.
          replace false with (2 * t + 1 =? 0)%nat by (apply Nat.eqb_neq; lia). rewrite IH, level_sib_left. simpl.
          by rewrite tree_hash_blk.
  Qed.
End prover.
