(* ===== verification/MerkleSpec.v ===== *)
(** * What the Merkle proofs guarantee

    Completeness and soundness of inclusion and consistency proofs, the
    frontier against the recursive tree hash, and coherence of the memoised
    range tree.  Soundness is stated for inputs on which SHA-256 does not
    collide: the strings hashed for the tree and those the verifier hashes. *)

From S2P Require Import Prelude Sha256 Wire Merkle Consistency.

(** ** Acceptance, spelled out *)

(** The part of [verify_consistency] after the argument checks, for
    [0 < old_size < size]. *)
Definition consistency_run (old_size size : nat) (old_root root_hash : string) (proof : list string)
    : res pyexn bool :=
  let '(f, g) := strip_ones (old_size - 1) (old_size - 1) (size - 1) in
  '(start, siblings) ← (if (f =? 0)%nat then Ok (old_root, proof)
                        else h ← get_or (head proof) IndexError; Ok (h, drop 1 proof));
  r ← consistency_loop (WalkState f g start start) siblings;
  Ok (match r with
      | None => false
      | Some s => (second s =? 0)%nat && String.eqb (old_acc s) old_root
                  && String.eqb (new_acc s) root_hash
      end).

Definition consistency_case (m n : nat) (old_root root : string) (proof : list string) : Prop :=
  if decide (m = 0) then old_root = EMPTY ∧ proof = [] ∧ (n = 0 → root = EMPTY)
  else if decide (m = n) then old_root = root ∧ proof = []
  else consistency_run m n old_root root proof = Ok true.

Lemma consistency_case_eq m n old_root root proof :
  (if (Z.of_nat m =? 0)%Z then
     Ok (String.eqb old_root EMPTY && bool_decide (proof = [])
         && (negb (Z.of_nat n =? 0)%Z || String.eqb root EMPTY))
   else if (Z.of_nat m =? Z.of_nat n)%Z then Ok (String.eqb old_root root && bool_decide (proof = []))
   else consistency_run m n old_root root proof) = Ok true ↔
  consistency_case m n old_root root proof.
Proof.
  unfold consistency_case.
  destruct (Z.of_nat m =? 0)%Z eqn:E0; zbool;
    [rewrite decide_True by lia|rewrite decide_False by lia;
     destruct (Z.of_nat m =? Z.of_nat n)%Z eqn:E1; zbool;
       [rewrite decide_True by lia|rewrite decide_False by lia; done]];
    split; intros H.
  - injection H as [[->%String.eqb_eq ->%bool_decide_eq_true]%andb_true_iff Hz]%andb_true_iff.
    split_and!; [done..|]. intros ->. by apply String.eqb_eq in Hz.
  - destruct H as (-> & -> & Hn). rewrite String.eqb_refl, bool_decide_true by done. simpl. f_equal.
    destruct n; [by rewrite Hn, String.eqb_refl|done].
  - by injection H as [->%String.eqb_eq ->%bool_decide_eq_true]%andb_true_iff.
  - destruct H as [-> ->]. by rewrite String.eqb_refl, bool_decide_true.
Qed.

Lemma verify_consistency_true m n old_root root proof :
  verify_consistency (Z.of_nat m) (Z.of_nat n) old_root root proof = true ↔
  m ≤ n ∧ (Z.of_nat n ≤ MAX_TREE_LEAVES)%Z ∧ is_hash old_root = true ∧ is_hash root = true ∧
  (zlen proof ≤ 64)%Z ∧ hashes_ok proof ∧ consistency_case m n old_root root proof.
Proof.
  assert (Hcatch : ∀ r : res pyexn bool, catch_false r = true ↔ r = Ok true)
    by (intros [[|]|]; simpl; split; congruence).
  unfold verify_consistency. rewrite Hcatch, !Nat2Z.id. rewrite <- consistency_case_eq. split.
  - intros (? & [Hn ->]%count_Ok & H)%bind_Ok.
    apply bind_Ok in H as (? & [Hm ->]%count_Ok & H).
    apply bind_Ok in H as (? & [Ho ->]% _hash_Ok & H).
    apply bind_Ok in H as (? & [Hr ->]% _hash_Ok & H).
    apply bind_Ok in H as (? & [Hl ->]%count_Ok & H).
    apply bind_Ok in H as (? & [Hp ->]%mapR_hash_Ok & H). split_and!; done || lia.
  - intros (Hm & Hn & Ho & Hr & Hl & Hp & H).
    rewrite !count_in by (unfold zlen in *; lia). simpl. unfold _hash. rewrite Ho, Hr. simpl.
    rewrite mapR_hash_ok by done. exact H.
Qed.

(** Positions of the last leaf of a tree of [n] leaves. *)
Lemma last_position n i : 1 ≤ n → (n - 1) / 2 ^ i * 2 ^ i < n ≤ ((n - 1) / 2 ^ i + 1) * 2 ^ i.
Proof.
  intros Hn. pose proof (pow2_pos i). pose proof (Nat.div_mod_eq (n - 1) (2 ^ i)).
  pose proof (Nat.mod_upper_bound (n - 1) (2 ^ i) ltac:(lia)). nia.
Qed.

Lemma leaves_bits (hs : list string) : (zlen hs ≤ MAX_TREE_LEAVES)%Z → length hs ≤ 2 ^ 20.
Proof.
  unfold zlen, MAX_TREE_LEAVES. intros H. enough (Z.of_nat (length hs) ≤ Z.of_nat (2 ^ 20))%Z by lia.
  rewrite Nat2Z.inj_pow. lia.
Qed.

(** Where both parties start: the largest complete block that ends the old tree. *)
Lemma consistency_start (hs : list string) m : 0 < m < length hs → (zlen hs ≤ MAX_TREE_LEAVES)%Z →
  ∃ i f, m = (f + 1) * 2 ^ i ∧ Nat.odd f = false ∧ i ≤ 20 ∧
    strip_ones (m - 1) (m - 1) (length hs - 1) = (f, (length hs - 1) / 2 ^ i) ∧
    f ≤ (length hs - 1) / 2 ^ i < 2 ^ (20 - i).
Proof.
  intros Hm Hmax. apply leaves_bits in Hmax.
  destruct (strip_ones_spec (m - 1) 0 (m - 1) (length hs - 1) ltac:(lia)) as (i & f & Hmf & _ & Ho & Hs).
  change (2 ^ 0) with 1 in *. rewrite Nat.div_1_r in Hs. exists i, f.
  assert (Hi : i ≤ 20).
  { apply Nat.lt_le_incl, (Nat.pow_lt_mono_r_iff 2); [lia|]. pose proof (pow2_pos i). nia. }
  split_and!; [lia|done|done|done| |].
  - apply Nat.div_le_lower_bound; [pose proof (pow2_pos i)|]; lia.
  - apply Nat.Div0.div_lt_upper_bound. rewrite <- Nat.pow_add_r, Nat.add_comm, Nat.sub_add by done. lia.
Qed.

Lemma consistency_case_complete hs m : hashes_ok hs → (zlen hs ≤ MAX_TREE_LEAVES)%Z →
  0 < m < length hs →
  ∃ p, subproof (length hs) hs m true = Ok p ∧ hashes_ok p ∧ length p ≤ 21 ∧
       consistency_run m (length hs) (mth (take m hs)) (mth hs) p = Ok true.
Proof.
  intros Hok Hmax Hm.
  destruct (consistency_start hs m Hm Hmax) as (i & f & Hmf & Ho & Hi & Hs & Hfs & Hs20).
  exists ((if (f =? 0)%nat then [] else [node hs i f]) ++ sibs hs f ((length hs - 1) / 2 ^ i) i (20 - i)).
  assert (Hpos : f * 2 ^ i < m ≤ (f + 1) * 2 ^ i) by (pose proof (pow2_pos i); lia).
  split_and!.
  - pose proof (leaves_bits hs Hmax) as H20.
    pose proof (subproof_sibs hs m i f Hok Hmax Hmf ltac:(lia) Ho (20 - i) 0 (length hs)) as H.
    rewrite Nat.add_comm, Nat.sub_add, blk_top in H by done. simpl in H. rewrite Nat.sub_0_r in H.
    apply H; [|done]. apply Nat.div_small. lia.
  - apply Forall_app. split; [|by apply hashes_ok_sibs].
    destruct (f =? 0)%nat; repeat constructor. by apply node_is_hash.
  - rewrite length_app. pose proof (length_sibs hs f ((length hs - 1) / 2 ^ i) i (20 - i)).
    destruct (f =? 0)%nat; simpl; lia.
  - pose proof (loop_complete hs m Hok ltac:(lia) (20 - i) i f _ Hfs Hs20 Hpos
      (last_position (length hs) i ltac:(lia))) as Hloop.
    rewrite node_take in Hloop by lia.
    unfold consistency_run. rewrite Hs.
    destruct (f =? 0)%nat eqn:E0; zbool; simpl.
    + subst f. assert (Hnode : node hs i 0 = mth (take m hs)).
      { rewrite <- (node_take hs m) by lia. apply node_top. rewrite length_take. lia. }
      rewrite Hnode in Hloop. rewrite Hloop. simpl. by rewrite !String.eqb_refl.
    + rewrite drop_0, Hloop. simpl. by rewrite !String.eqb_refl.
Qed.

Lemma consistency_case_sound hs m old_root proof : hashes_ok hs → (zlen hs ≤ MAX_TREE_LEAVES)%Z →
  0 < m < length hs →
  consistency_run m (length hs) old_root (mth hs) proof = Ok true →
  collision_free (tree_inputs hs ++ consistency_inputs m (length hs) old_root proof) →
  old_root = mth (take m hs).
Proof.
  intros Hok Hmax Hm Hrun Hcf.
  destruct (consistency_start hs m Hm Hmax) as (i & f & Hmf & Ho & Hi & Hs & Hfs & Hs20).
  assert (Hpos : f * 2 ^ i < m ≤ (f + 1) * 2 ^ i) by (pose proof (pow2_pos i); lia).
  unfold consistency_run in Hrun. unfold consistency_inputs in Hcf. rewrite Hs in Hrun, Hcf.
  assert (Hwalk : ∀ start siblings,
    collision_free (tree_inputs hs ++ loop_inputs (WalkState f ((length hs - 1) / 2 ^ i) start start) siblings) →
    (r ← consistency_loop (WalkState f ((length hs - 1) / 2 ^ i) start start) siblings;
     Ok (match r with
         | None => false
         | Some s => (second s =? 0)%nat && String.eqb (old_acc s) old_root
                     && String.eqb (new_acc s) (mth hs)
         end)) = Ok true →
    start = node hs i f ∧ old_root = mth (take m hs)).
  { intros start siblings Hcf' ([st|] & Hloop & H)%bind_Ok; [|done].
    injection H as [[Hst%Nat.eqb_eq Hold%String.eqb_eq]%andb_true_iff Hnew%String.eqb_eq]%andb_true_iff.
    destruct (loop_sound hs m Hok ltac:(lia) (20 - i) i f _ start start siblings st Hfs Hs20 Hpos
      (last_position (length hs) i ltac:(lia)) Hloop Hst Hnew Hcf') as [-> Hacc].
    split; [done|]. rewrite <- Hold. apply Hacc. symmetry. apply node_take. lia. }
  destruct (f =? 0)%nat eqn:E0; simpl in Hrun.
  - by apply (Hwalk old_root proof).
  - destruct proof as [|h siblings]; [done|]. simpl in Hrun. rewrite drop_0 in Hrun.
    by apply (Hwalk h siblings).
Qed.

(** ** The memoised tree *)

(** Every cached node is the hash of the slice of leaves it is keyed by. *)
Definition cache_ok (hs : list string) (nodes : gmap (nat * nat) string) : Prop :=
  ∀ start size h, nodes !! (start, size) = Some h →
    start + size ≤ length hs ∧ h = mth (take size (drop start hs)).

Lemma cache_ok_empty hs : cache_ok hs ∅.
Proof. intros ??? H. by rewrite lookup_empty in H. Qed.

(** Appending a leaf moves no slice, so the cache survives it. *)
Lemma cache_ok_append hs nodes x : cache_ok hs nodes → cache_ok (hs ++ [x]) nodes.
Proof.
  intros Hc st sz h H. destruct (Hc _ _ _ H) as [Hle ->]. rewrite length_app. split; [lia|].
  rewrite drop_app_le, take_app_le by (rewrite ?length_drop; lia). done.
Qed.

Lemma range_f_spec hs : hashes_ok hs → ∀ fuel nodes start size,
  cache_ok hs nodes → size ≤ fuel → start + size ≤ length hs →
  ∃ nodes', range_f fuel hs nodes start size = Ok (mth (take size (drop start hs)), nodes') ∧
            cache_ok hs nodes'.
Proof.
  intros Hok. induction fuel as [|fuel IH]; intros nodes start size Hc Hf Hle.
  { assert (size = 0) as -> by lia. by exists nodes. }
  simpl. destruct (size =? 0)%nat eqn:E0; zbool; [subst; by exists nodes|].
  destruct (nodes !! (start, size)) as [h|] eqn:Hn.
  { destruct (Hc _ _ _ Hn) as [_ ->]. by exists nodes. }
  assert (Hstore : ∀ nodes', cache_ok hs nodes' → cache_ok hs
    (if is_power_of_two size then <[(start, size) := mth (take size (drop start hs))]> nodes' else nodes')).
  { intros nodes' Hc'. destruct (is_power_of_two size); [|done]. intros st sz h.
    rewrite lookup_insert_Some. intros [[[= <- <-] <-]|[_ H]]; [done|by apply Hc']. }
  destruct (size =? 1)%nat eqn:E1; zbool.
  { subst size. destruct (lookup_lt_is_Some_2 hs start ltac:(lia)) as [h Hh]. rewrite Hh. simpl.
    rewrite (drop_S _ _ _ Hh) in Hstore |- *. simpl in Hstore |- *. rewrite take_0 in Hstore |- *.
    exists (<[(start, 1):=h]> nodes). split; [done|]. by apply (Hstore nodes). }
  destruct (_split_bounds size ltac:(lia)) as [Hs _].
  destruct (IH nodes start (_split size) Hc ltac:(lia) ltac:(lia)) as (n1 & Hr1 & Hc1).
  destruct (IH n1 (start + _split size) (size - _split size) Hc1 ltac:(lia) ltac:(lia)) as (n2 & Hr2 & Hc2).
  rewrite Hr1. simpl. rewrite Hr2. simpl. rewrite node_hash_nh by auto with unimem. simpl.
  assert (Hsplit : nh (mth (take (_split size) (drop start hs)))
    (mth (take (size - _split size) (drop (start + _split size) hs))) = mth (take size (drop start hs))).
  { rewrite (mth_split (take size (drop start hs))); rewrite ?length_take, ?length_drop; [|lia].
    rewrite (Nat.min_l size) by lia. rewrite take_take, Nat.min_l by lia.
    by rewrite skipn_firstn_comm, drop_drop. }
  rewrite Hsplit. eexists. split; [done|]. by apply Hstore.
Qed.

Definition tree_ok (t : tree) : Prop := hashes_ok (t_hashes t) ∧ cache_ok (t_hashes t) (t_nodes t).

Lemma _range_spec t start size : tree_ok t → start + size ≤ length (t_hashes t) →
  ∃ t', _range t start size = Ok (mth (take size (drop start (t_hashes t))), t') ∧
        t_hashes t' = t_hashes t ∧ t_roots t' = t_roots t ∧ tree_ok t'.
Proof.
  intros [Hok Hc] Hle. unfold _range.
  destruct (range_f_spec (t_hashes t) Hok size (t_nodes t) start size Hc (le_n _) Hle) as (n & Hr & Hc').
  rewrite Hr. simpl. by eexists.
Qed.

Lemma proof_f_path fuel : ∀ t index start size, tree_ok t → size ≤ fuel →
  start + size ≤ length (t_hashes t) → start ≤ index < start + size →
  ∃ p t', proof_f fuel t index start size = Ok (p, t') ∧
    is_path (take size (drop start (t_hashes t))) (index - start) p ∧
    t_hashes t' = t_hashes t ∧ t_roots t' = t_roots t ∧ tree_ok t'.
Proof.
  induction fuel as [|fuel IH]; intros t index start size Hok Hf Hle Hix; [lia|]. simpl.
  assert (Hlen : length (take size (drop start (t_hashes t))) = size)
    by (rewrite length_take, length_drop; lia).
  destruct (size =? 1)%nat eqn:E1; zbool.
  { subst size. exists [], t. split_and!; try done.
    destruct (lookup_lt_is_Some_2 (t_hashes t) start ltac:(lia)) as [h Hh].
    rewrite (drop_S _ _ _ Hh). simpl. rewrite take_0. replace (index - start) with 0 by lia. constructor. }
  destruct (_split_bounds size ltac:(lia)) as [Hs _].
  destruct (index <? start + _split size)%nat eqn:Elt; zbool.
  - destruct (IH t index start (_split size) Hok ltac:(lia) ltac:(lia) ltac:(lia))
      as (p & t1 & Hp & Hpath & Hh & Hr & Ht1). rewrite Hp. simpl.
    destruct (_range_spec t1 (start + _split size) (size - _split size) Ht1 ltac:(rewrite Hh; lia))
      as (t2 & Hr2 & Hh2 & Hrr2 & Ht2). rewrite Hr2. simpl. eexists _, _. split; [done|].
    rewrite Hh2, Hrr2, Hh, Hr. split_and!; [|done..].
    replace (take (size - _split size) (drop (start + _split size) (t_hashes t)))
      with (drop (_split (length (take size (drop start (t_hashes t))))) (take size (drop start (t_hashes t))))
      by (by rewrite Hlen, skipn_firstn_comm, drop_drop).
    constructor; rewrite Hlen; [lia|lia|]. by rewrite take_take, Nat.min_l by lia.
  - destruct (IH t index (start + _split size) (size - _split size) Hok ltac:(lia) ltac:(lia) ltac:(lia))
      as (p & t1 & Hp & Hpath & Hh & Hr & Ht1). rewrite Hp. simpl.
    destruct (_range_spec t1 start (_split size) Ht1 ltac:(rewrite Hh; lia))
      as (t2 & Hr2 & Hh2 & Hrr2 & Ht2). rewrite Hr2. simpl. eexists _, _. split; [done|].
    rewrite Hh2, Hrr2, Hh, Hr. split_and!; [|done..].
    replace (take (_split size) (drop start (t_hashes t)))
      with (take (_split (length (take size (drop start (t_hashes t))))) (take size (drop start (t_hashes t))))
      by (by rewrite Hlen, take_take, Nat.min_l by lia).
    constructor; rewrite Hlen; [lia|lia|].
    rewrite skipn_firstn_comm, drop_drop. by replace (index - start - _split size) with (index - (start + _split size)) by lia.
Qed.

Lemma _proof_path t index : tree_ok t → index < length (t_hashes t) →
  ∃ p t', _proof t index = Ok (p, t') ∧ is_path (t_hashes t) index p ∧
    t_hashes t' = t_hashes t ∧ t_roots t' = t_roots t ∧ tree_ok t'.
Proof.
  intros Hok Hix.
  destruct (proof_f_path _ t index 0 _ Hok (le_n _) (le_n _) ltac:(lia)) as (p & t' & H).
  rewrite drop_0, take_ge, Nat.sub_0_r in H by done. by exists p, t'.
Qed.

(** ** The frontier *)

Lemma frep_last_path k f hs : frep k f hs → ∀ q path,
  1 ≤ length q ≤ 2 ^ k → is_path q (length q - 1) path →
  is_path (hs ++ q) (length (hs ++ q) - 1) (path ++ omap id f).
Proof.
  induction 1 as [k|k f hs Hf IH|k f hs p Hf IH Hp]; intros q path Hq Hpath; simpl.
  - by rewrite app_nil_r.
  - apply IH; [|done]. rewrite Nat.pow_succ_r'. lia.
  - rewrite <- (app_assoc hs), (cons_middle (mth p) path), (app_assoc path). pose proof (pow2_pos k).
    assert (Hs : _split (length (p ++ q)) = 2 ^ k)
      by (apply _split_unique; rewrite length_app, Nat.pow_succ_r'; lia).
    apply IH; [rewrite length_app, Nat.pow_succ_r'; lia|].
    replace (mth p) with (mth (take (_split (length (p ++ q))) (p ++ q)))
      by (by rewrite Hs, <- Hp, take_app_length).
    constructor; rewrite ?Hs, ?length_app; [lia|lia|].
    rewrite <- Hp, drop_app_length. by replace (length p + length q - 1 - length p) with (length q - 1) by lia.
Qed.

Lemma frontier_of hs : hashes_ok hs → ∃ f, foldM frontier_append [] hs = Ok f ∧ frep 0 f hs.
Proof.
  induction hs as [|h hs IH] using rev_ind; intros Hok; [exists []; split; [done|constructor]|].
  apply Forall_app in Hok as [Hok Hh]. apply Forall_cons in Hh as [Hh _].
  destruct (IH Hok) as (f & Hf & Hrep).
  destruct (frontier_append_loop f hs h Hrep Hok Hh) as (f' & Ha & Hrep' & _).
  exists f'. rewrite foldM_app, Hf. simpl. by rewrite Ha.
Qed.

(** The proof [consistency] produces is accepted for the two roots. *)
Lemma consistency_accepted (hs : list string) (m : nat) :
  hashes_ok hs → (zlen hs ≤ MAX_TREE_LEAVES)%Z → m ≤ length hs →
  ∃ p, consistency hs (Z.of_nat m) = Ok p ∧
    verify_consistency (Z.of_nat m) (zlen hs) (mth (take m hs)) (mth hs) p = true.
Proof.
  intros Hok Hmax Hm.
  assert (Hgoal : ∃ p, consistency hs (Z.of_nat m) = Ok p ∧ hashes_ok p ∧ length p ≤ 21 ∧
                       consistency_case m (length hs) (mth (take m hs)) (mth hs) p).
  { unfold consistency, consistency_case. rewrite count_in by (unfold zlen; lia). simpl.
    rewrite Nat2Z.id. destruct (Z.of_nat m =? 0)%Z eqn:E0; zbool.
    - assert (m = 0) as -> by lia. exists []. split_and!; [done|constructor|simpl; lia|].
      rewrite decide_True by done. split_and!; [done..|]. by intros ->%length_zero_iff_nil.
    - destruct (decide (m = length hs)) as [->|Hne].
      + exists []. rewrite take_ge, decide_False by lia.
        split_and!; [|by apply Forall_nil_2|simpl; lia|done|done].
        destruct hs; [done|]. cbn [subproof length]. by rewrite Nat.eqb_refl.
      + destruct (consistency_case_complete hs m Hok Hmax ltac:(lia)) as (p & Hp & Hpok & Hl & Hrun).
        exists p. by rewrite decide_False by lia. }
  destruct Hgoal as (p & Hp & Hpok & Hl & Hcase). exists p. split; [done|].
  apply verify_consistency_true. split_and!; auto with unimem. unfold zlen. lia.
Qed.

(** ** Properties *)

(** the consistency proof of any earlier size of a log is produced, and
    the verifier accepts it for the roots of the two trees. *)
Theorem consistency_complete (hs : list string) (m : nat) :
  hashes_ok hs → (zlen hs ≤ MAX_TREE_LEAVES)%Z → m ≤ length hs →
  ∃ p old_root root, consistency hs (Z.of_nat m) = Ok p ∧
    tree_hash (take m hs) = Ok old_root ∧ tree_hash hs = Ok root ∧
    verify_consistency (Z.of_nat m) (zlen hs) old_root root p = true.
Proof.
  intros Hok Hmax Hm. destruct (consistency_accepted hs m Hok Hmax Hm) as (p & Hp & Hv).
  exists p, (mth (take m hs)), (mth hs). split_and!; [done| | |done]; apply tree_hash_mth; auto with unimem.
  unfold zlen in *. rewrite length_take. lia.
Qed.

(** C1: a verifier that accepts a proof against the root of a log learns
    that the old root is the root of a prefix of that very log: history
    cannot be rewritten between two checkpoints without a SHA-256 collision
    among the strings hashed. *)
Theorem consistency_sound (hs : list string) (m : nat) (old_root : string) (proof : list string) :
  hashes_ok hs →
  verify_consistency (Z.of_nat m) (zlen hs) old_root (mth hs) proof = true →
  collision_free (tree_inputs hs ++ consistency_inputs m (length hs) old_root proof) →
  tree_hash (take m hs) = Ok old_root.
Proof.
  intros Hok (Hm & Hmax & Ho & _ & _ & _ & Hcase)%verify_consistency_true Hcf.
  assert (old_root = mth (take m hs)) as ->.
  { unfold consistency_case in Hcase. destruct (decide (m = 0)) as [->|]; [by destruct Hcase|].
    destruct (decide (m = length hs)) as [->|]; [by rewrite take_ge; destruct Hcase|].
    eapply consistency_case_sound; [done|done|lia|done|done]. }
  apply tree_hash_mth; auto with unimem. unfold zlen in *. rewrite length_take. lia.
Qed.

(** every leaf of a log has an inclusion proof, and the memoised
    [_proof] of a coherent tree yields one too, whatever its cache holds. *)
Theorem inclusion_complete (t : tree) (i : nat) (leaf : string) :
  tree_ok t → (zlen (t_hashes t) ≤ MAX_TREE_LEAVES)%Z → t_hashes t !! i = Some leaf →
  ∃ p q t' root, inclusion (t_hashes t) (Z.of_nat i) = Ok p ∧ _proof t i = Ok (q, t') ∧ tree_ok t' ∧
    tree_hash (t_hashes t) = Ok root ∧
    verify_inclusion leaf (Z.of_nat i) (zlen (t_hashes t)) p root = true ∧
    verify_inclusion leaf (Z.of_nat i) (zlen (t_hashes t)) q root = true.
Proof.
  intros Ht Hmax Hleaf. pose proof (lookup_lt_Some _ _ _ Hleaf) as Hi. pose proof (proj1 Ht) as Hok.
  destruct (inclusion_f_path _ _ i (le_n _) Hok Hmax Hi) as (p & Hp & Hpath).
  destruct (_proof_path t i Ht Hi) as (q & t' & Hq & Hqpath & _ & _ & Ht').
  exists p, q, t', (mth (t_hashes t)).
  split_and!; auto using verify_inclusion_path, tree_hash_mth.
Qed.

(** C2: a verifier that accepts an inclusion proof against the root of a log
    knows that exactly that leaf stands at exactly that index. *)
Theorem inclusion_sound (hs : list string) (i : nat) (leaf : string) (proof : list string) :
  hashes_ok hs → verify_inclusion leaf (Z.of_nat i) (zlen hs) proof (mth hs) = true →
  collision_free (tree_inputs hs ++ fold_inputs (length hs) leaf i proof 0 (length hs) 0) →
  hs !! i = Some leaf.
Proof.
  intros Hok (Hsz & Hix & Hl & _ & _ & _ & Hfold)%verify_inclusion_true Hcf.
  unfold zlen in *. rewrite !Nat2Z.id in Hfold.
  rewrite <- (Nat.sub_0_r i). eapply fold_proof_sound; [done|done|lia|lia|done|done].
Qed.

(** C3: the frontier kept by appending leaves one by one has the size and
    root of the recursive tree, and the path it emits for a new leaf is an
    inclusion proof of that leaf in the grown tree. *)
Theorem frontier_refines_tree (hs : list string) (leaf : string) :
  hashes_ok hs → is_hash leaf = true → (zlen hs < MAX_TREE_LEAVES)%Z →
  ∃ f f' p root', foldM frontier_append [] hs = Ok f ∧ frontier_size f = length hs ∧
    frontier_root f = tree_hash hs ∧
    frontier_append f leaf = Ok f' ∧ frontier_append_with_proof f leaf = Ok (f', p) ∧
    frontier_root f' = Ok root' ∧ tree_hash (hs ++ [leaf]) = Ok root' ∧
    verify_inclusion leaf (zlen hs) (zlen (hs ++ [leaf])) p root' = true.
Proof.
  intros Hok Hleaf Hmax. destruct (frontier_of hs Hok) as (f & Hf & Hrep).
  destruct (frontier_append_loop f hs leaf Hrep Hok Hleaf) as (f' & Ha & Hrep' & Hp).
  assert (Hok' : hashes_ok (hs ++ [leaf])) by (apply Forall_app; auto with unimem).
  assert (Hmax' : (zlen (hs ++ [leaf]) ≤ MAX_TREE_LEAVES)%Z)
    by (unfold zlen in *; rewrite length_app; simpl; lia).
  exists f, f', (omap id f), (mth (hs ++ [leaf])). split_and!; try done.
  - apply (frontier_size_from 0 f hs Hrep).
  - rewrite tree_hash_mth by (done || lia). by apply frontier_root_mth.
  - by apply frontier_root_mth.
  - by apply tree_hash_mth.
  - apply verify_inclusion_path; [done|done| |by rewrite lookup_app_r, Nat.sub_diag].
    replace (length hs) with (length (hs ++ [leaf]) - 1) by (rewrite length_app; simpl; lia).
    apply (frep_last_path 0 f hs Hrep [leaf] []); [simpl; lia|constructor].
Qed.

(** [prefix_roots] lists the tree hash of every prefix, in order. *)
Theorem prefix_roots_are_tree_hashes (hs : list string) :
  hashes_ok hs → (zlen hs ≤ MAX_TREE_LEAVES)%Z →
  ∃ roots, prefix_roots hs = Ok roots ∧ length roots = S (length hs) ∧
    ∀ i root, roots !! i = Some root → tree_hash (take i hs) = Ok root.
Proof.
  intros Hok Hmax.
  destruct (prefix_roots_fold hs Hok [] [] [EMPTY] ltac:(constructor) ltac:(constructor)) as [f Hf].
  exists (EMPTY :: map (λ i, mth (take i hs)) (seq 1 (length hs))).
  unfold prefix_roots. rewrite Hf. split_and!; [done|by simpl; rewrite length_map, length_seq|].
  assert (Hth : ∀ i, tree_hash (take i hs) = Ok (mth (take i hs))).
  { intros i. apply tree_hash_mth; auto with unimem. unfold zlen in *. rewrite length_take. lia. }
  intros [|i] root Hi; [by injection Hi as <-|]. rewrite Hth. f_equal. simpl in Hi.
  rewrite list_lookup_fmap in Hi.
  apply fmap_Some in Hi as (j & [-> _]%lookup_seq & ->). done.
Qed.

(** ** Witnesses: a log of three leaves *)

Definition demo : list string := map sha256_hex ["a"; "b"; "c"]%string.
Definition demo_tree : tree := Tree demo [] ∅.

Lemma hashes_okb hs : forallb is_hash hs = true → hashes_ok hs.
Proof. by intros H%forallb_Forall. Qed.

Lemma consistency_complete_witness : ∃ p old_root root, consistency demo 2 = Ok p ∧
  tree_hash (take 2 demo) = Ok old_root ∧ tree_hash demo = Ok root ∧
  verify_consistency 2 (zlen demo) old_root root p = true.
Proof.
  apply (consistency_complete demo 2); [apply hashes_okb; vm_compute; reflexivity|vm_compute; discriminate|].
  simpl. lia.
Defined.

Lemma consistency_sound_witness : tree_hash (take 2 demo) = Ok (mth (take 2 demo)).
Proof.
  apply (consistency_sound demo 2 (mth (take 2 demo)) (ok_or [] (consistency demo 2)));
    [apply hashes_okb|..|apply collision_freeb_true]; vm_compute; reflexivity.
Defined.

Lemma inclusion_complete_witness : ∃ p q t' root,
  inclusion demo 1 = Ok p ∧ _proof demo_tree 1 = Ok (q, t') ∧ tree_ok t' ∧ tree_hash demo = Ok root ∧
  verify_inclusion (sha256_hex "b") 1 (zlen demo) p root = true ∧
  verify_inclusion (sha256_hex "b") 1 (zlen demo) q root = true.
Proof.
  apply (inclusion_complete demo_tree 1 (sha256_hex "b")); [|vm_compute; discriminate|reflexivity].
  split; [apply hashes_okb; vm_compute; reflexivity|apply cache_ok_empty].
Defined.

Lemma inclusion_sound_witness : demo !! 1 = Some (sha256_hex "b").
Proof.
  apply (inclusion_sound demo 1 (sha256_hex "b") (ok_or [] (inclusion demo 1)));
    [apply hashes_okb|..|apply collision_freeb_true]; vm_compute; reflexivity.
Defined.

Lemma frontier_refines_tree_witness : ∃ f f' p root', foldM frontier_append [] demo = Ok f ∧
  frontier_size f = 3 ∧ frontier_root f = tree_hash demo ∧
  frontier_append f (sha256_hex "d") = Ok f' ∧
  frontier_append_with_proof f (sha256_hex "d") = Ok (f', p) ∧
  frontier_root f' = Ok root' ∧ tree_hash (demo ++ [sha256_hex "d"]) = Ok root' ∧
  verify_inclusion (sha256_hex "d") (zlen demo) (zlen (demo ++ [sha256_hex "d"])) p root' = true.
Proof.
  apply (frontier_refines_tree demo (sha256_hex "d"));
    [apply hashes_okb; vm_compute; reflexivity|vm_compute; reflexivity|vm_compute; reflexivity].
Defined.

Lemma prefix_roots_witness : ∃ roots, prefix_roots demo = Ok roots ∧ length roots = 4 ∧
  ∀ i root, roots !! i = Some root → tree_hash (take i demo) = Ok root.
Proof.
  apply (prefix_roots_are_tree_hashes demo);
    [apply hashes_okb; vm_compute; reflexivity|vm_compute; discriminate].
Defined.
