(* ===== verification/Base64.v ===== *)
(** * Base64 text

    [base64.b64encode] and [base64.b64decode(s, validate=True)] of the
    Python standard library, on byte strings, with their round trip. *)

From S2P Require Import Prelude Sha256.
Local Open Scope Z_scope.

(** ** Definitions *)

Definition b64_char (n : Z) : ascii :=
  if n <? 26 then chr (65 + n)
  else if n <? 52 then chr (71 + n)
  else if n <? 62 then chr (n - 4)
  else if n =? 62 then chr 43 else chr 47.

Definition b64_value (c : ascii) : option Z :=
  let n := byte_of c in
  if (65 <=? n) && (n <=? 90) then Some (n - 65)
  else if (97 <=? n) && (n <=? 122) then Some (n - 71)
  else if (48 <=? n) && (n <=? 57) then Some (n + 4)
  else if n =? 43 then Some 62
  else if n =? 47 then Some 63 else None.

Definition pad_char : ascii := chr 61.

Fixpoint b64_encode_bytes (l : list ascii) : list ascii :=
  match l with
  | a :: b :: c :: l' =>
      let n := byte_of a * 65536 + byte_of b * 256 + byte_of c in
      b64_char (n / 262144) :: b64_char (n / 4096 mod 64) :: b64_char (n / 64 mod 64)
      :: b64_char (n mod 64) :: b64_encode_bytes l'
  | [a; b] =>
      let n := byte_of a * 65536 + byte_of b * 256 in
      [b64_char (n / 262144); b64_char (n / 4096 mod 64); b64_char (n / 64 mod 64); pad_char]
  | [a] =>
      let n := byte_of a * 65536 in
      [b64_char (n / 262144); b64_char (n / 4096 mod 64); pad_char; pad_char]
  | [] => []
  end.

Definition b64encode (s : string) : string := of_bytes (b64_encode_bytes (str_bytes s)).

(** Decoding of a text of alphabet characters, [pads] being the number of
    [=] that follow it: with [validate=True] at most two, and an incomplete
    last group needs its padding. *)
Fixpoint b64_decode_body (l : list ascii) (pads : nat) : option (list ascii) :=
  match l with
  | a :: b :: c :: d :: l' =>
      x ← b64_value a; y ← b64_value b; z ← b64_value c; w ← b64_value d;
      rest ← b64_decode_body l' pads;
      let n := x * 262144 + y * 4096 + z * 64 + w in
      Some (chr (n / 65536) :: chr (n / 256) :: chr n :: rest)
  | [a; b; c] =>
      x ← b64_value a; y ← b64_value b; z ← b64_value c;
      let n := x * 262144 + y * 4096 + z * 64 in
      if (1 <=? pads)%nat then Some [chr (n / 65536); chr (n / 256)] else None
  | [a; b] =>
      x ← b64_value a; y ← b64_value b;
      let n := x * 262144 + y * 4096 in
      if (2 <=? pads)%nat then Some [chr (n / 65536)] else None
  | [_] => None
  | [] => Some []
  end.

Fixpoint split_pads (l : list ascii) : list ascii * nat :=
  match l with
  | [] => ([], 0%nat)
  | c :: l' =>
      let '(body, pads) := split_pads l' in
      match body with
      | [] => if Ascii.eqb c pad_char then ([], S pads) else ([c], pads)
      | _ => (c :: body, pads)
      end
  end.

Definition b64decode (s : string) : option string :=
  let '(body, pads) := split_pads (str_bytes s) in
  if (2 <? pads)%nat then None else of_bytes <$> b64_decode_body body pads.

(** ** Round trip *)

Lemma range_forallb (P : Z → Prop) (p : Z → bool) (n : nat) :
  (∀ x, p x = true → P x) → forallb p (map Z.of_nat (seq 0 n)) = true →
  ∀ x, 0 <= x < Z.of_nat n → P x.
Proof.
  intros HP H x Hx. apply HP. rewrite forallb_Forall, Forall_map, Forall_forall in H.
  specialize (H (Z.to_nat x)). simpl in H. rewrite Z2Nat.id in H by lia. apply H.
  apply elem_of_seq. lia.
Qed.

Lemma b64_value_char n : 0 <= n < 64 →
  b64_value (b64_char n) = Some n ∧ Ascii.eqb (b64_char n) pad_char = false.
Proof.
  revert n. apply (range_forallb (λ n, b64_value (b64_char n) = Some n ∧
    Ascii.eqb (b64_char n) pad_char = false) (λ n, bool_decide (b64_value (b64_char n) = Some n)
    && negb (Ascii.eqb (b64_char n) pad_char)) 64); [|vm_compute; reflexivity].
  intros x H. by res_inv.
Qed.

Lemma b64_value_ok n : 0 <= n < 64 → b64_value (b64_char n) = Some n.
Proof. apply b64_value_char. Qed.

Lemma split_pads_body l k : Forall (λ c, Ascii.eqb c pad_char = false) l →
  split_pads (l ++ replicate k pad_char) = (l, k).
Proof.
  induction 1 as [|c l Hc Hl IH]; simpl.
  - induction k as [|k IH]; [done|]. simpl. by rewrite IH.
  - rewrite IH, Hc. by destruct l.
Qed.

Lemma three_ind {A} (P : list A → Prop) :
  P [] → (∀ a, P [a]) → (∀ a b, P [a; b]) → (∀ a b c l, P l → P (a :: b :: c :: l)) → ∀ l, P l.
Proof.
  intros H0 H1 H2 H3 l. assert (P l ∧ (∀ a, P (a :: l)) ∧ ∀ a b, P (a :: b :: l)) as [? _]; [|done].
  induction l as [|c l (IH1 & IH2 & IH3)]; split_and!; auto.
Qed.

Lemma chr_eq z c : z mod 256 = byte_of c → chr z = c.
Proof.
  intros H. rewrite <- (chr_byte_of c), <- H. unfold chr.
  change 255 with (Z.ones 8). rewrite !Z.land_ones by lia. by rewrite Z.mod_mod.
Qed.

Ltac b64_arith := Z.to_euclidean_division_equations; lia.
Ltac b64_alphabet := repeat (constructor; [apply b64_value_char; b64_arith|]); done.

Lemma b64_round_bytes l : ∃ body pads,
  b64_encode_bytes l = body ++ replicate pads pad_char ∧ (pads <= 2)%nat ∧
  Forall (λ c, Ascii.eqb c pad_char = false) body ∧ b64_decode_body body pads = Some l.
Proof.
  induction l as [|a|a b|a b c l (body & pads & He & Hp & Hb & Hd)] using three_ind;
    try pose proof (byte_of_range a); try pose proof (byte_of_range b); try pose proof (byte_of_range c).
  - exists [], 0%nat. split_and!; try done. lia.
  - eexists [_; _], 2%nat. split_and!; [reflexivity|lia|b64_alphabet|].
    simpl. rewrite !b64_value_ok by b64_arith. simpl.
    rewrite (chr_eq _ a) by b64_arith. done.
  - eexists [_; _; _], 1%nat. split_and!; [reflexivity|lia|b64_alphabet|].
    simpl. rewrite !b64_value_ok by b64_arith. simpl.
    rewrite (chr_eq _ a), (chr_eq _ b) by b64_arith. done.
  - eexists (_ :: _ :: _ :: _ :: body), pads. split_and!;
      [simpl; rewrite He; reflexivity|done| |].
    + constructor; [apply b64_value_char; b64_arith|]. constructor; [apply b64_value_char; b64_arith|].
      constructor; [apply b64_value_char; b64_arith|]. by constructor; [apply b64_value_char; b64_arith|].
    + simpl. rewrite !b64_value_ok by b64_arith. simpl. rewrite Hd. simpl.
      rewrite (chr_eq _ a), (chr_eq _ b), (chr_eq _ c) by b64_arith. done.
Qed.

Lemma b64decode_encode s : b64decode (b64encode s) = Some s.
Proof.
  unfold b64decode, b64encode. rewrite str_bytes_of_bytes.
  destruct (b64_round_bytes (str_bytes s)) as (body & pads & -> & Hp & Hb & Hd).
  rewrite split_pads_body by done. rewrite (proj2 (Nat.ltb_ge _ _)) by lia. rewrite Hd. simpl.
  by rewrite of_bytes_str_bytes.
Qed.

Lemma b64_demo : b64encode "any carnal pleas" = "YW55IGNhcm5hbCBwbGVhcw=="%string ∧
  b64decode "YQ" = None ∧ b64decode "YQ==" = Some "a"%string.
Proof. vm_compute. done. Qed.
