(* ===== verification/Strings.v ===== *)
(** * Sets and orders of strings

    Python's [set] and [sorted] on strings, as lists: membership, inclusion,
    the sorted list of a set, and the lexicographic order of [str]. *)

From S2P Require Import Prelude.

Definition mem (x : string) (l : list string) : bool := existsb (String.eqb x) l.
Definition included (l k : list string) : bool := forallb (λ x, mem x k) l.

(** [len(set(l)) == len(l)] *)
Fixpoint distinct (l : list string) : bool :=
  match l with [] => true | x :: l' => negb (mem x l') && distinct l' end.

(** [sorted({...})] *)
Fixpoint insert_string (s : string) (l : list string) : list string :=
  match l with
  | [] => [s]
  | t :: l' => if String.eqb s t then l else if str_ltb s t then s :: l else t :: insert_string s l'
  end.
Definition sorted_set (l : list string) : list string := foldr insert_string [] l.

(** [sorted(l)] with an order [before], stable. *)
Section sorting.
Context {A : Type} (before : A → A → bool).
Fixpoint insert_by (x : A) (l : list A) : list A :=
  match l with
  | [] => [x]
  | y :: l' => if before y x then y :: insert_by x l' else x :: l
  end.
Definition sort_by (l : list A) : list A := foldr insert_by [] l.

Lemma insert_by_Permutation x l : insert_by x l ≡ₚ x :: l.
Proof. induction l as [|y l IH]; simpl; [done|]. destruct (before y x); [|done]. rewrite IH. by constructor. Qed.

Lemma sort_by_Permutation l : sort_by l ≡ₚ l.
Proof. induction l as [|x l IH]; simpl; [done|]. by rewrite insert_by_Permutation, IH. Qed.
End sorting.

Definition sort_strings : list string → list string := sort_by str_ltb.

Lemma mem_elem x l : mem x l = true ↔ x ∈ l.
Proof.
  unfold mem. rewrite existsb_exists. setoid_rewrite String.eqb_eq. split.
  - intros (y & Hy & ->). by apply list_elem_of_In.
  - intros H. exists x. split; [by apply list_elem_of_In|done].
Qed.

Lemma included_spec l k : included l k = true ↔ ∀ x, x ∈ l → x ∈ k.
Proof.
  unfold included. rewrite forallb_Forall, Forall_forall. by setoid_rewrite mem_elem.
Qed.

Lemma elem_insert_string x s l : x ∈ insert_string s l ↔ x = s ∨ x ∈ l.
Proof.
  induction l as [|t l IH]; simpl.
  - rewrite list_elem_of_singleton, elem_of_nil. tauto.
  - destruct (String.eqb_spec s t) as [->|].
    + rewrite elem_of_cons. tauto.
    + destruct (str_ltb s t); rewrite !elem_of_cons; [done|]. rewrite IH. tauto.
Qed.

Lemma elem_sorted_set x l : x ∈ sorted_set l ↔ x ∈ l.
Proof.
  induction l as [|s l IH]; simpl; [done|]. by rewrite elem_insert_string, elem_of_cons, IH.
Qed.


Lemma distinct_NoDup l : distinct l = true → NoDup l.
Proof.
  induction l as [|s l IH]; simpl; [constructor|]. intros [Hs Hl]%andb_true_iff. constructor; [|auto].
  rewrite <- mem_elem. by destruct (mem s l).
Qed.

(** ** The order of strings *)

Lemma str_ltb_antisym s t : str_ltb s t = false → str_ltb t s = false → s = t.
Proof.
  unfold str_ltb. rewrite (String.compare_antisym t s). intros H1 H2. apply String.compare_eq_iff.
  by destruct (String.compare s t).
Qed.

Lemma str_ltb_asym s t : str_ltb s t = true → str_ltb t s = false.
Proof. unfold str_ltb. rewrite (String.compare_antisym t s). by destruct (String.compare s t). Qed.

Lemma str_ltb_irrefl s : str_ltb s s = false.
Proof. destruct (str_ltb s s) eqn:E; [|done]. by rewrite (str_ltb_asym _ _ E) in E. Qed.

Lemma str_ltb_trans s t u : str_ltb s t = true → str_ltb t u = true → str_ltb s u = true.
Proof.
  unfold str_ltb. revert t u. induction s as [|a s IH]; intros [|b t] [|c u]; simpl; try done.
  specialize (IH t u). unfold Ascii.compare.
  destruct (N.compare_spec (N_of_ascii a) (N_of_ascii b)) as [E1|E1|E1],
    (N.compare_spec (N_of_ascii b) (N_of_ascii c)) as [E2|E2|E2],
    (N.compare_spec (N_of_ascii a) (N_of_ascii c)) as [E3|E3|E3]; try done; lia || auto.
Qed.

(** [<=] of strings is transitive. *)
Lemma str_geb_trans s t u : str_ltb t s = false → str_ltb u t = false → str_ltb u s = false.
Proof.
  intros H1 H2. destruct (str_ltb u s) eqn:E; [|done]. destruct (str_ltb s t) eqn:E1.
  - by rewrite (str_ltb_trans _ _ _ E E1) in H2.
  - rewrite (str_ltb_antisym _ _ E1 H1) in E. congruence.
Qed.

(** Sorting with a strict weak order does not depend on the order of the
    input when tied elements are equal. *)
Section sort_unique.
Context {A : Type} (before : A → A → bool).
Hypothesis before_asym : ∀ x y, before x y = true → before y x = false.
Hypothesis before_trans : ∀ x y z, before y x = false → before z y = false → before z x = false.

Lemma sort_by_sorted l : StronglySorted (λ x y, before y x = false) (sort_by before l).
Proof.
  induction l as [|x l IH]; simpl; [constructor|].
  induction IH as [|y k Hk IHk Hy]; simpl; [repeat constructor|].
  destruct (before y x) eqn:E.
  - constructor; [done|]. apply Forall_forall. intros z Hz. rewrite insert_by_Permutation in Hz.
    apply elem_of_cons in Hz as [->|Hz]; [by apply before_asym|]. rewrite Forall_forall in Hy. auto.
  - constructor; [by constructor|]. constructor; [done|]. rewrite Forall_forall in *. eauto.
Qed.

Lemma sort_by_perm l k : l ≡ₚ k →
  (∀ x y, x ∈ l → y ∈ l → before x y = false → before y x = false → x = y) →
  sort_by before l = sort_by before k.
Proof.
  intros Hp Heq. apply (StronglySorted_unique_strong (λ x y, before y x = false)).
  - intros x y Hx Hy ??. apply Heq; [|rewrite Hp|done..]; by rewrite <- (sort_by_Permutation before).
  - apply sort_by_sorted.
  - apply sort_by_sorted.
  - by rewrite !sort_by_Permutation.
Qed.
End sort_unique.

Lemma sort_by_map {A B} (p : A → A → bool) (q : B → B → bool) (f : A → B) l :
  (∀ x y, q (f x) (f y) = p x y) → map f (sort_by p l) = sort_by q (map f l).
Proof.
  intros H. induction l as [|x l IH]; simpl; [done|]. rewrite <- IH. clear IH.
  induction (sort_by p l) as [|y k IH]; simpl; [done|]. rewrite H. destruct (p y x); simpl; [by rewrite IH|done].
Qed.

(** The sorted list of a set depends on its elements alone. *)
Lemma sorted_set_sorted l : StronglySorted (λ x y, str_ltb x y = true) (sorted_set l).
Proof.
  induction l as [|x l IH]; simpl; [constructor|].
  induction IH as [|y k Hk IHk Hy]; simpl; [repeat constructor|].
  destruct (String.eqb_spec x y) as [->|Hne]; [by constructor|].
  destruct (str_ltb x y) eqn:E.
  - constructor; [by constructor|]. constructor; [done|]. eapply Forall_impl; [exact Hy|].
    intros z Hz. by eapply str_ltb_trans.
  - constructor; [done|]. apply Forall_forall. intros z [->|Hz]%elem_insert_string.
    + destruct (str_ltb y x) eqn:E'; [done|]. by destruct Hne; apply str_ltb_antisym.
    + rewrite Forall_forall in Hy. auto.
Qed.

Lemma sorted_unique {A} (R : A → A → Prop) (l k : list A) :
  (∀ x, ¬ R x x) → (∀ x y z, R x y → R y z → R x z) →
  StronglySorted R l → StronglySorted R k → (∀ x, x ∈ l ↔ x ∈ k) → l = k.
Proof.
  intros Hirr Htr Hl Hk Heq. apply (StronglySorted_unique_strong R); try done.
  - intros x y _ _ H1 H2. destruct (Hirr x). eauto.
  - assert (Hnd : ∀ m, StronglySorted R m → NoDup m).
    { induction 1 as [|x m _ IH Hx]; constructor; [|done]. rewrite Forall_forall in Hx. intros Hin. by apply (Hirr x), Hx. }
    apply NoDup_Permutation; auto.
Qed.

Lemma sorted_set_NoDup l : NoDup (sorted_set l).
Proof.
  pose proof (sorted_set_sorted l) as H. induction H as [|x k Hk IH Hx]; constructor; [|done].
  intros Hin. rewrite Forall_forall in Hx. apply Hx in Hin. by rewrite str_ltb_irrefl in Hin.
Qed.

Lemma sorted_set_ext l k : (∀ x, x ∈ l ↔ x ∈ k) → sorted_set l = sorted_set k.
Proof.
  intros H. apply (sorted_unique (λ x y, str_ltb x y = true)).
  - intros x. by rewrite str_ltb_irrefl.
  - apply str_ltb_trans.
  - apply sorted_set_sorted.
  - apply sorted_set_sorted.
  - intros x. by rewrite !elem_sorted_set.
Qed.
