(* ===== verification/Rows.v ===== *)
(** * Ordered dictionaries

    Python's [dict] and [OrderedDict] over keys with decidable equality, as
    lists of rows in insertion order. *)

From S2P Require Import Prelude.

Section rows.
Context {K A : Type} `{EqDecision K}.
Implicit Types (l : list (K * A)) (k : K).

(** [d.get(key)] *)
Fixpoint row_get k l : option A :=
  match l with
  | [] => None
  | (k', a) :: l' => if decide (k = k') then Some a else row_get k l'
  end.

(** [d.pop(key, None)] *)
Definition row_drop k l : list (K * A) := List.filter (λ row, negb (bool_decide (row.1 = k))) l.

(** [d[key] = value] *)
Fixpoint row_set k (a : A) l : list (K * A) :=
  match l with
  | [] => [(k, a)]
  | (k', b) :: l' => if decide (k = k') then (k', a) :: l' else (k', b) :: row_set k a l'
  end.

Definition has_row k l : bool := match row_get k l with Some _ => true | None => false end.

Lemma row_get_drop k k' l : row_get k' (row_drop k l) = if decide (k = k') then None else row_get k' l.
Proof.
  unfold row_drop. induction l as [|[j a] l IH]; simpl; [by destruct (decide _)|].
  case_bool_decide as Hj; simpl; rewrite IH; repeat destruct (decide _); congruence.
Qed.

Lemma row_get_set k k' a l : row_get k' (row_set k a l) = if decide (k = k') then Some a else row_get k' l.
Proof.
  induction l as [|[j b] l IH]; simpl; [by repeat destruct (decide _)|].
  destruct (decide (k = j)); simpl; rewrite ?IH; repeat destruct (decide _); congruence.
Qed.

Lemma row_get_app k l l' : row_get k (l ++ l') = match row_get k l with Some a => Some a | None => row_get k l' end.
Proof. induction l as [|[j a] l IH]; simpl; [done|]. by destruct (decide _). Qed.

Lemma row_get_None k l : row_get k l = None ↔ k ∉ map fst l.
Proof.
  induction l as [|[j a] l IH]; simpl; [split; [intros _; by apply not_elem_of_nil|done]|].
  rewrite not_elem_of_cons, <- IH. destruct (decide (k = j)); naive_solver.
Qed.

Lemma row_get_elem k a l : row_get k l = Some a → (k, a) ∈ l.
Proof.
  induction l as [|[j b] l IH]; simpl; [done|]. destruct (decide (k = j)) as [->|]; [intros [= ->]; by left|].
  intros H. right. auto.
Qed.

Lemma row_elem_get k a l : NoDup (map fst l) → (k, a) ∈ l → row_get k l = Some a.
Proof.
  induction l as [|[j b] l IH]; simpl; intros Hnd H; [by apply elem_of_nil in H|].
  apply NoDup_cons in Hnd as [Hj Hnd]. apply elem_of_cons in H as [[= -> ->]|H]; [by rewrite decide_True|].
  destruct (decide (k = j)) as [->|]; [|auto]. exfalso. apply Hj. apply list_elem_of_fmap. by exists (j, a).
Qed.

Lemma row_set_new k a l : row_get k l = None → row_set k a l = l ++ [(k, a)].
Proof.
  induction l as [|[j b] l IH]; simpl; [done|]. destruct (decide (k = j)); [done|]. intros H. by rewrite IH.
Qed.

Lemma row_set_elem k a l row : row ∈ row_set k a l → row = (k, a) ∨ row ∈ l.
Proof.
  induction l as [|[j b] l IH]; simpl; [rewrite list_elem_of_singleton; auto|].
  destruct (decide (k = j)) as [->|]; rewrite !elem_of_cons; naive_solver.
Qed.

Lemma NoDup_drop k l : NoDup (map fst l) → NoDup (map fst (row_drop k l)).
Proof. apply NoDup_map_filter. Qed.

Lemma NoDup_snoc k a l : NoDup (map fst l) → row_get k l = None → NoDup (map fst (l ++ [(k, a)])).
Proof.
  rewrite row_get_None, map_app. intros Hnd Hk. apply NoDup_app. repeat split; [done| |apply NoDup_singleton].
  intros j Hj ->%list_elem_of_singleton. done.
Qed.

Lemma drop_subseteq k l row : row ∈ row_drop k l → row ∈ l.
Proof. unfold row_drop. rewrite !list_elem_of_In, filter_In. tauto. Qed.

Lemma length_drop_row k l : (length (row_drop k l) <= length l)%nat.
Proof. unfold row_drop. induction l as [|row l IH]; simpl; [done|]. destruct (negb _); simpl; lia. Qed.
Lemma row_get_suffix k (e : A) gone l : NoDup (map fst (gone ++ l)) → row_get k l = Some e → row_get k (gone ++ l) = Some e.
Proof.
  intros Hnd He. apply row_elem_get; [done|]. apply elem_of_app. right. by apply row_get_elem.
Qed.

Lemma has_row_true k l : has_row k l = true ↔ is_Some (row_get k l).
Proof. unfold has_row. destruct (row_get k l); split; intros; [by eexists|done|done|]. by destruct H. Qed.
End rows.
#[export] Hint Resolve NoDup_drop drop_subseteq : unimem.
