(* ===== verification/Moment.v ===== *)
(** * Timestamps ([frontier_protocol.moment], [datetime.fromisoformat])

    Aware datetimes as microseconds since 0001-01-01T00:00:00Z, the text
    [isoformat] prints for them, and the extended ISO 8601 spellings
    [fromisoformat] reads (the basic and week-date spellings are not
    covered). *)

From S2P Require Import Prelude Sha256 Base64 Wire.
Local Open Scope Z_scope.

(** ** The proleptic Gregorian calendar *)

Definition is_leap (y : Z) : bool :=
  (y mod 4 =? 0) && (negb (y mod 100 =? 0) || (y mod 400 =? 0)).

Definition year_days (y : Z) : Z := if is_leap y then 366 else 365.

Definition month_days (y m : Z) : Z :=
  if m =? 2 then if is_leap y then 29 else 28
  else if (m =? 4) || (m =? 6) || (m =? 9) || (m =? 11) then 30 else 31.

Fixpoint days_before_month (fuel : nat) (y m : Z) : Z :=
  match fuel with
  | O => 0
  | S f => if m <=? 1 then 0 else month_days y (m - 1) + days_before_month f y (m - 1)
  end.

(** Days before January 1st of [y]. *)
Definition days_before_year (y : Z) : Z :=
  let k := y - 1 in 365 * k + k / 4 - k / 100 + k / 400.

Definition ordinal (y m d : Z) : Z := days_before_year y + days_before_month 12 y m + (d - 1).

Fixpoint find_year (fuel : nat) (y rest : Z) : Z * Z :=
  match fuel with
  | O => (y, rest)
  | S f => if rest <? year_days y then (y, rest) else find_year f (y + 1) (rest - year_days y)
  end.

Fixpoint find_month (fuel : nat) (y m rest : Z) : Z * Z :=
  match fuel with
  | O => (m, rest)
  | S f => if rest <? month_days y m then (m, rest) else find_month f y (m + 1) (rest - month_days y m)
  end.

Definition MAX_INSTANT : Z := 3652059 * 86400000000.

(** ** Printing *)

Fixpoint digits (k : nat) (n : Z) : list ascii :=
  match k with
  | O => []
  | S k' => digits k' (n / 10) ++ [chr (48 + n mod 10)]
  end.

Definition isoformat (t : Z) : string :=
  let day := t / 86400000000 in
  let us := t mod 86400000000 in
  let '(y, rest) := find_year (Z.to_nat 10010) 1 day in
  let '(m, d) := find_month 12 y 1 rest in
  let sec := us / 1000000 in
  let frac := us mod 1000000 in
  of_bytes (digits 4 y ++ ["-"%char] ++ digits 2 m ++ ["-"%char] ++ digits 2 (d + 1) ++ ["T"%char]
    ++ digits 2 (sec / 3600) ++ [":"%char] ++ digits 2 (sec / 60 mod 60) ++ [":"%char] ++ digits 2 (sec mod 60)
    ++ (if frac =? 0 then [] else "."%char :: digits 6 frac) ++ str_bytes "+00:00").

(** ** Reading *)

Definition digit_value (c : ascii) : option Z :=
  let n := byte_of c in if (48 <=? n) && (n <=? 57) then Some (n - 48) else None.

(** Exactly [k] digits. *)
Fixpoint read_digits (k : nat) (acc : Z) (l : list ascii) : option (Z * list ascii) :=
  match k, l with
  | O, _ => Some (acc, l)
  | S k', c :: l' => d ← digit_value c; read_digits k' (10 * acc + d) l'
  | S _, [] => None
  end.

Definition read_char (c : ascii) (l : list ascii) : option (list ascii) :=
  match l with d :: l' => if Ascii.eqb c d then Some l' else None | [] => None end.

(** [HH[:MM[:SS[.fff[fff]]]]], as microseconds. *)
Definition read_fraction (l : list ascii) : option (Z * list ascii) :=
  match read_char "." l with
  | None => Some (0, l)
  | Some l => match read_digits 6 0 l with
              | Some r => Some r
              | None => '(ms, l) ← read_digits 3 0 l; Some (ms * 1000, l)
              end
  end.

Definition read_time (l : list ascii) : option (Z * list ascii) :=
  '(h, l) ← read_digits 2 0 l;
  match read_char ":" l with
  | None => if h <? 24 then Some (h * 3600000000, l) else None
  | Some l =>
      '(mi, l) ← read_digits 2 0 l;
      match read_char ":" l with
      | None => if (h <? 24) && (mi <? 60) then Some ((h * 60 + mi) * 60000000, l) else None
      | Some l =>
          '(s, l) ← read_digits 2 0 l;
          '(us, l) ← read_fraction l;
          if (h <? 24) && (mi <? 60) && (s <? 60)
          then Some (((h * 60 + mi) * 60 + s) * 1000000 + us, l) else None
      end
  end.

(** The offset: [None] for a naive datetime. *)
Definition read_offset (l : list ascii) : option (option Z) :=
  match l with
  | [] => Some None
  | "+"%char :: l => '(off, l) ← read_time l; if bool_decide (l = []) then Some (Some off) else None
  | "-"%char :: l => '(off, l) ← read_time l; if bool_decide (l = []) then Some (Some (- off)) else None
  | _ => None
  end.

(** [datetime.fromisoformat]: local time and offset. *)
Definition fromisoformat (s : string) : option (Z * option Z) :=
  '(y, l) ← read_digits 4 0 (str_bytes s);
  l ← read_char "-" l;
  '(m, l) ← read_digits 2 0 l;
  l ← read_char "-" l;
  '(d, l) ← read_digits 2 0 l;
  if (1 <=? y) && (1 <=? m) && (m <=? 12) && (1 <=? d) && (d <=? month_days y m) then
    let day := ordinal y m d * 86400000000 in
    match l with
    | [] => Some (day, None)
    | _ :: l => '(us, l) ← read_time l; off ← read_offset l; Some (day + us, off)
    end
  else None.

(** [value.replace("Z", "+00:00")] *)
Fixpoint replace_z (l : list ascii) : list ascii :=
  match l with
  | [] => []
  | c :: l' => if Ascii.eqb c "Z" then str_bytes "+00:00" ++ replace_z l' else c :: replace_z l'
  end.

(** The instant a timestamp denotes: [datetime.fromisoformat(fp.moment(value))]. *)
Definition instant (value : string) : res pyexn Z :=
  _ ← text value 64;
  '(local, off) ← get_or (fromisoformat (of_bytes (replace_z (str_bytes value)))) ValueError;
  off ← get_or off ValueError;
  require ((0 <=? local - off) && (local - off <? MAX_INSTANT)) OverflowError;;
  Ok (local - off).

(** [fp.moment]: the canonical UTC text. *)
Definition moment (value : string) : res pyexn string := isoformat <$> instant value.

(** ** Round trip *)

Lemma find_year_spec fuel : ∀ y rest y' rest',
  0 <= rest → find_year fuel y rest = (y', rest') →
  0 <= rest' ∧ y <= y' ∧ days_before_year y + rest = days_before_year y' + rest' ∧
  (rest < 365 * Z.of_nat fuel → rest' < year_days y').
Proof.
  assert (Hstep : ∀ y, days_before_year (y + 1) = days_before_year y + year_days y).
  { intros y. unfold days_before_year, year_days, is_leap. rewrite Z.add_simpl_r.
    destruct (y mod 4 =? 0) eqn:E4, (y mod 100 =? 0) eqn:E100, (y mod 400 =? 0) eqn:E400; zbool; simpl;
      Z.to_euclidean_division_equations; lia. }
  assert (Hpos : ∀ y, 365 <= year_days y) by (intros y; unfold year_days; destruct (is_leap y); lia).
  induction fuel as [|fuel IH]; intros y rest y' rest' Hr H; simpl in H.
  - injection H as <- <-. split_and!; try lia.
  - destruct (rest <? year_days y) eqn:E; zbool.
    + injection H as <- <-. split_and!; try lia.
    + apply IH in H as (H1 & H2 & H3 & H4); [|lia]. rewrite Hstep in H3. specialize (Hpos y).
      split_and!; lia.
Qed.

(** Evaluate the closed integer operations of the goal. *)
Ltac zground :=
  repeat (match goal with
  | |- context [Zpos ?a + Zpos ?b] => let r := eval vm_compute in (Zpos a + Zpos b) in change (Zpos a + Zpos b) with r
  | |- context [Zpos ?a - Zpos ?b] => let r := eval vm_compute in (Zpos a - Zpos b) in change (Zpos a - Zpos b) with r
  | |- context [Zpos ?a =? Zpos ?b] => let r := eval vm_compute in (Zpos a =? Zpos b) in change (Zpos a =? Zpos b) with r
  | |- context [Zpos ?a <=? Zpos ?b] => let r := eval vm_compute in (Zpos a <=? Zpos b) in change (Zpos a <=? Zpos b) with r
  end; cbn iota beta; cbn [orb]).

Lemma find_month_spec y rest m d : 0 <= rest < year_days y → find_month 12 y 1 rest = (m, d) →
  1 <= m <= 12 ∧ 0 <= d < month_days y m ∧ days_before_month 12 y m + d = rest.
Proof.
  unfold year_days. intros Hr. cbn [find_month]. unfold month_days. zground.
  destruct (is_leap y) eqn:El;
    repeat match goal with
    | |- (if ?b then _ else _) = _ → _ => destruct b eqn:?; zbool
    end; intros [= <- <-]; cbn [days_before_month]; unfold month_days; rewrite ?El; zground; lia.
Qed.

Lemma digit_value_chr n : 0 <= n < 10 → digit_value (chr (48 + n)) = Some n.
Proof.
  revert n. apply (range_forallb (λ n, digit_value (chr (48 + n)) = Some n)
    (λ n, bool_decide (digit_value (chr (48 + n)) = Some n)) 10); [|vm_compute; reflexivity].
  intros x H. by res_inv.
Qed.

Lemma read_digits_app k : ∀ j acc l a rest, read_digits k acc l = Some (a, []) →
  read_digits (k + j) acc (l ++ rest) = read_digits j a rest.
Proof.
  induction k as [|k IH]; intros j acc l a rest H; simpl in H.
  - by injection H as -> ->.
  - destruct l as [|c l]; [done|]. simpl. destruct (digit_value c); [|done]. simpl in *. by apply IH.
Qed.

Lemma read_digits_digits k : ∀ n acc, 0 <= n < 10 ^ Z.of_nat k →
  read_digits k acc (digits k n) = Some (acc * 10 ^ Z.of_nat k + n, []).
Proof.
  induction k as [|k IH]; intros n acc Hn; simpl digits.
  - simpl. do 2 f_equal. change (10 ^ Z.of_nat 0) with 1 in *. lia.
  - replace (S k) with (k + 1)%nat at 1 by lia.
    assert (Hp : 10 ^ Z.of_nat (S k) = 10 * 10 ^ Z.of_nat k) by (rewrite Nat2Z.inj_succ, Z.pow_succ_r; lia).
    rewrite (read_digits_app k 1 _ _ (acc * 10 ^ Z.of_nat k + n / 10)).
    + cbn [read_digits]. rewrite digit_value_chr by (apply Z.mod_pos_bound; lia). simpl. do 2 f_equal.
      rewrite Hp. pose proof (Z.div_mod n 10 ltac:(lia)). nia.
    + apply IH. rewrite Hp in Hn. split; [apply Z.div_pos; lia|apply Z.div_lt_upper_bound; lia].
Qed.

Lemma read_digits_print k n rest : 0 <= n < 10 ^ Z.of_nat k →
  read_digits k 0 (digits k n ++ rest) = Some (n, rest).
Proof.
  intros Hn. pose proof (read_digits_app k 0 0 (digits k n) n rest) as H.
  rewrite Nat.add_0_r in H. rewrite H; [done|]. by rewrite read_digits_digits.
Qed.

Definition iso_char (c : ascii) : bool := existsb (Ascii.eqb c) (str_bytes "0123456789-T:.+").

Lemma length_digits k n : length (digits k n) = k.
Proof. revert n. induction k as [|k IH]; intros n; [done|]. simpl. rewrite length_app, IH. simpl. lia. Qed.

Lemma digits_iso k n : Forall (λ c, iso_char c = true) (digits k n).
Proof.
  revert n. induction k as [|k IH]; intros n; [constructor|]. apply Forall_app. split; [apply IH|].
  constructor; [|constructor]. pose proof (Z.mod_pos_bound n 10 ltac:(lia)) as H. revert H.
  generalize (n mod 10). apply (range_forallb (λ n, iso_char (chr (48 + n)) = true)
    (λ n, iso_char (chr (48 + n))) 10); [done|]. vm_compute. reflexivity.
Qed.

Lemma replace_z_iso l : Forall (λ c, iso_char c = true) l → replace_z l = l.
Proof.
  induction 1 as [|c l Hc _ IH]; [done|]. simpl. destruct (Ascii.eqb_spec c "Z"); [by subst|]. by rewrite IH.
Qed.

Lemma iso_not_nul l : Forall (λ c, iso_char c = true) l → existsb (Ascii.eqb "000") l = false.
Proof.
  induction 1 as [|c l Hc _ IH]; [done|]. cbn [existsb]. rewrite IH, orb_false_r.
  destruct (Ascii.eqb_spec "000" c) as [<-|]; [by vm_compute in Hc|done].
Qed.

(** The parts [isoformat] prints, and their ranges. *)
Record parts := Parts { p_y : Z; p_m : Z; p_d : Z; p_h : Z; p_mi : Z; p_s : Z; p_us : Z }.

Definition parts_ok (p : parts) : Prop :=
  1 <= p_y p <= 9999 ∧ 1 <= p_m p <= 12 ∧ 1 <= p_d p <= month_days (p_y p) (p_m p) ∧
  0 <= p_h p < 24 ∧ 0 <= p_mi p < 60 ∧ 0 <= p_s p < 60 ∧ 0 <= p_us p < 1000000.

Definition parts_bytes (p : parts) : list ascii :=
  digits 4 (p_y p) ++ ["-"%char] ++ digits 2 (p_m p) ++ ["-"%char] ++ digits 2 (p_d p) ++ ["T"%char]
  ++ digits 2 (p_h p) ++ [":"%char] ++ digits 2 (p_mi p) ++ [":"%char] ++ digits 2 (p_s p)
  ++ (if p_us p =? 0 then [] else "."%char :: digits 6 (p_us p)) ++ str_bytes "+00:00".

Definition parts_instant (p : parts) : Z :=
  ordinal (p_y p) (p_m p) (p_d p) * 86400000000 + (((p_h p * 60 + p_mi p) * 60 + p_s p) * 1000000 + p_us p).

Lemma isoformat_parts t : 0 <= t < MAX_INSTANT → ∃ p,
  isoformat t = of_bytes (parts_bytes p) ∧ parts_ok p ∧ parts_instant p = t.
Proof.
  intros Ht. unfold isoformat, MAX_INSTANT in *.
  set (day := t / 86400000000). set (us := t mod 86400000000).
  assert (Hday : 0 <= day < 3652059) by (unfold day; Z.to_euclidean_division_equations; lia).
  assert (Hus : 0 <= us < 86400000000) by (apply Z.mod_pos_bound; lia).
  assert (Hsum : t = day * 86400000000 + us) by (unfold day, us; Z.to_euclidean_division_equations; lia).
  destruct (find_year (Z.to_nat 10010) 1 day) as [y rest] eqn:Ey.
  apply find_year_spec in Ey as (Hrest & Hy1 & Hsumy & Hbound); [|lia].
  specialize (Hbound ltac:(lia)).
  destruct (find_month 12 y 1 rest) as [m d] eqn:Em.
  apply find_month_spec in Em as (Hm & Hd & Hsumd); [|lia].
  assert (Hy : y <= 9999).
  { change (days_before_year 1) with 0 in Hsumy. unfold days_before_year in Hsumy.
    Z.to_euclidean_division_equations; lia. }
  exists (Parts y m (d + 1) (us / 1000000 / 3600) (us / 1000000 / 60 mod 60) (us / 1000000 mod 60) (us mod 1000000)).
  split_and!; [done| |].
  - unfold parts_ok. cbn [p_y p_m p_d p_h p_mi p_s p_us]. split_and!; try lia; Z.to_euclidean_division_equations; lia.
  - unfold parts_instant, ordinal. cbn [p_y p_m p_d p_h p_mi p_s p_us].
    change (days_before_year 1) with 0 in Hsumy. rewrite Hsum.
    assert (us = ((us / 1000000 / 3600 * 60 + us / 1000000 / 60 mod 60) * 60 + us / 1000000 mod 60) * 1000000
                 + us mod 1000000) as <- by (Z.to_euclidean_division_equations; lia).
    lia.
Qed.

Lemma parts_iso p : Forall (λ c, iso_char c = true) (parts_bytes p).
Proof.
  unfold parts_bytes. rewrite !Forall_app. split_and!; try apply digits_iso; try (by repeat constructor).
  destruct (p_us p =? 0); [constructor|]. constructor; [done|apply digits_iso].
Qed.

Lemma parts_length p : (length (parts_bytes p) <= 32)%nat.
Proof.
  unfold parts_bytes. rewrite !length_app, !length_digits.
  destruct (p_us p =? 0); simpl length; rewrite ?length_digits; lia.
Qed.

Lemma read_char_cons c l : read_char c (c :: l) = Some l.
Proof. simpl. by rewrite Ascii.eqb_refl. Qed.

Lemma fromisoformat_parts p : parts_ok p →
  fromisoformat (of_bytes (parts_bytes p)) = Some (parts_instant p, Some 0).
Proof.
  intros (Hy & Hm & Hd & Hh & Hmi & Hs & Hus).
  assert (month_days (p_y p) (p_m p) <= 31).
  { unfold month_days. repeat case_match; lia. }
  unfold fromisoformat. rewrite str_bytes_of_bytes. unfold parts_bytes.
  assert (Hb : ∀ (o : list ascii), ["-"%char] ++ o = "-"%char :: o) by done.
  assert (Hc : ∀ (o : list ascii), [":"%char] ++ o = ":"%char :: o) by done.
  assert (Ht : ∀ (o : list ascii), ["T"%char] ++ o = "T"%char :: o) by done.
  rewrite !Hb, !Hc, Ht.
  rewrite read_digits_print by (simpl; lia). cbn [mbind option_bind]. rewrite read_char_cons. cbn [mbind option_bind].
  rewrite read_digits_print by (simpl; lia). cbn [mbind option_bind]. rewrite read_char_cons. cbn [mbind option_bind].
  rewrite read_digits_print by (simpl; lia). cbn [mbind option_bind].
  rewrite !(proj2 (Z.leb_le _ _)) by lia. cbn [andb].
  unfold read_time. rewrite read_digits_print by (simpl; lia). cbn [mbind option_bind]. rewrite read_char_cons.
  rewrite read_digits_print by (simpl; lia). cbn [mbind option_bind]. rewrite read_char_cons.
  rewrite read_digits_print by (simpl; lia). cbn [mbind option_bind].
  rewrite !(proj2 (Z.ltb_lt _ _)) by lia. cbn [andb].
  destruct (p_us p =? 0) eqn:E0; zbool.
  - simpl. unfold parts_instant. rewrite E0. done.
  - unfold read_fraction. rewrite <- app_comm_cons, read_char_cons.
    rewrite read_digits_print by (simpl; lia). cbn [mbind option_bind]. done.
Qed.

Lemma instant_isoformat t : 0 <= t < MAX_INSTANT → instant (isoformat t) = Ok t.
Proof.
  intros Ht. destruct (isoformat_parts t Ht) as (p & -> & Hp & <-).
  unfold instant. pose proof (parts_iso p) as Hiso. pose proof (parts_length p) as Hlen.
  assert (Htext : text (of_bytes (parts_bytes p)) 64 = Ok (of_bytes (parts_bytes p))).
  { unfold text. rewrite (proj2 (Z.leb_le (str_len _) 64)), (proj2 (Z.leb_le (byte_len _) 64)).
    - unfold has_char. rewrite str_bytes_of_bytes, iso_not_nul by done. rewrite !andb_true_r.
      assert (parts_bytes p ≠ []).
      { intros E%(f_equal length). unfold parts_bytes in E. rewrite length_app, length_digits in E. done. }
      by destruct (parts_bytes p).
    - unfold byte_len. rewrite <- length_str_bytes, str_bytes_of_bytes. lia.
    - etransitivity; [apply str_len_le_byte_len|]. unfold byte_len.
      rewrite <- length_str_bytes, str_bytes_of_bytes. lia. }
  rewrite Htext. cbn [mbind res_bind]. rewrite str_bytes_of_bytes, replace_z_iso by done.
  rewrite fromisoformat_parts by done. cbn [mbind res_bind get_or]. rewrite Z.sub_0_r.
  rewrite (proj2 (Z.leb_le 0 _)), (proj2 (Z.ltb_lt _ MAX_INSTANT)) by lia. done.
Qed.

Lemma instant_range s t : instant s = Ok t → 0 <= t < MAX_INSTANT.
Proof.
  unfold instant. intros (_ & _ & H)%bind_Ok. apply bind_Ok in H as ([l o] & _ & H).
  apply bind_Ok in H as (off & _ & H). apply bind_Ok in H as ([] & Hr%require_Ok & [= <-]).
  apply andb_true_iff in Hr as [? ?]. zbool. lia.
Qed.

Lemma moment_demo : moment "2024-02-29T23:59:59.5-01:00" = Err ValueError ∧
  moment "2024-02-29T23:59:59.500-01:00" = Ok "2024-03-01T00:59:59.500000+00:00"%string ∧
  moment "2023-02-29T00:00:00Z" = Err ValueError ∧
  moment "1970-01-01" = Err ValueError ∧
  instant "1970-01-01T00:00:00Z" = Ok (719162 * 86400000000).
Proof. vm_compute. done. Qed.
