(* ===== verification/Origin.v ===== *)
(** * Origin-bound receipts ([unimem/origin.py], signing half of [unimem/memory_authority.py])

    Binding a record to a configured principal, verifying a receipt, and the
    store's signing identity.  HMAC-SHA256 is executable; Ed25519 is the
    [cryptography] package, an interface with the law its documentation
    states. *)

From S2P Require Import Prelude Sha256 Base64 Wire.
Local Open Scope Z_scope.

(** The Ed25519 functions of the [cryptography] package, over raw bytes:
    [Ed25519PrivateKey.from_private_bytes(k).sign], [.public_key()] and
    [Ed25519PublicKey.from_public_bytes(p).verify]. *)
Class Ed25519 := {
  ed_sign : string → string → string;
  ed_public : string → string;
  ed_verify : string → string → string → bool;
}.

(** Documented behaviour: a signature verifies under its own public key. *)
Class Ed25519Laws `{Ed25519} := {
  ed_verify_sign : ∀ key message, ed_verify (ed_public key) message (ed_sign key message) = true;
  ed_public_length : ∀ key, String.length (ed_public key) = 32%nat;
}.

(** ** [origin.py] *)

(** [_bytes]: [allow_nan=False] raises on a non-finite float. *)
Definition _bytes (value : json) : res pyexn string :=
  require (all_finite value) ValueError;; Ok (dumps value).

Record Principal := mkPrincipal {
  id : string;
  organization : string;
  authority : string;
  key : string;
  algorithm : string;
  public_key : string;
}.

(** [json.loads(_bytes(record))]: the same tree with its keys sorted. *)
Fixpoint canonical (v : json) : json :=
  match v with
  | JList l => JList (map canonical l)
  | JObj kvs => JObj (sort_keys (map (λ '(k, x), (k, canonical x)) kvs))
  | _ => v
  end.

Section origin.
Context `{Ed25519}.

Definition bind (record : json) (principal : Principal) (_detached : bool) : res pyexn json :=
  require (32 <=? byte_len (key principal)) ValueError;;
  raw ← _bytes record;
  let body := [("record", if _detached then record else canonical record);
               ("principal", JStr (id principal)); ("organization", JStr (organization principal));
               ("authority", JStr (authority principal)); ("digest", JStr (sha256_hex raw))]%string in
  if String.eqb (algorithm principal) "ed25519" then
    let body := body ++ [("algorithm", JStr "ed25519")]%string in
    b ← _bytes (JObj body);
    Ok (JObj (body ++ [("signature", JStr (b64encode (ed_sign (key principal) b)))]%string))
  else
    require (String.eqb (algorithm principal) "hmac-sha256") ValueError;;
    b ← _bytes (JObj body);
    Ok (JObj (body ++ [("signature", JStr (hmac_hex (key principal) b))]%string)).

(** [str(value)]; a [bool], [None], [list] or [dict] prints as text that is
    no hexadecimal digest. *)
Definition py_str (v : json) : string :=
  match v with
  | JStr s => s
  | JInt n => pretty.pretty n
  | JFloat r => r
  | JBool b => if b then "True" else "False"
  | JNull => "None"
  | JList _ => "["
  | JObj _ => "{"
  end.

Definition jstr_eqb (v : json) (s : string) : bool :=
  match v with JStr t => String.eqb t s | _ => false end.

(** The signature part of [verify], for [receipt["signature"]]. *)
Definition signature_valid (signature : json) (body : string) (principal : Principal) : bool :=
  if String.eqb (algorithm principal) "ed25519" then
    match signature with
    | JStr s => match b64decode s with
                | Some raw => ed_verify (public_key principal) body raw
                | None => false
                end
    | _ => false
    end
  else String.eqb (hmac_hex (key principal) body) (py_str signature).

Definition receipt_body (receipt : json) : json :=
  match receipt with JObj kvs => JObj (assoc_del "signature" kvs) | v => v end.

(** [verify] after the lookup of the principal, before its
    [except (KeyError, TypeError, ValueError, ImportError)]. *)
Definition verify_with (receipt : json) (principal : Principal) (required : option string)
    : res pyexn bool :=
  if negb (jstr_eqb (default (JStr "hmac-sha256") (jget "algorithm" receipt)) (algorithm principal))
  then Ok false
  else
    body ← _bytes (receipt_body receipt);
    signature ← (if String.eqb (algorithm principal) "ed25519"
                 then Ok (default JNull (jget "signature" receipt))
                 else get_or (jget "signature" receipt) KeyError);
    if negb (signature_valid signature body principal) then Ok false
    else
      org ← get_or (jget "organization" receipt) KeyError;
      if negb (jstr_eqb org (organization principal)) then Ok false
      else
        auth ← get_or (jget "authority" receipt) KeyError;
        if negb (jstr_eqb auth (authority principal)) then Ok false
        else if negb (match required with None => true | Some a => String.eqb a (authority principal) end)
        then Ok false
        else
          d ← get_or (jget "digest" receipt) KeyError;
          record ← get_or (jget "record" receipt) KeyError;
          raw ← _bytes record;
          Ok (jstr_eqb d (sha256_hex raw)).

Definition verify_run (receipt : json) (principals : gmap string Principal) (required : option string)
    : res pyexn bool :=
  name ← get_or (jget "principal" receipt) KeyError;
  name ← (match name with JStr s => Ok s | JList _ | JObj _ => Err TypeError | _ => Err KeyError end);
  principal ← get_or (principals !! name) KeyError;
  verify_with receipt principal required.

Definition verify (receipt : json) (principals : gmap string Principal) (required : option string) : bool :=
  match verify_run receipt principals required with Ok b => b | Err _ => false end.

(** [len({r["organization"] for r in receipts if ...})], organizations being strings. *)
Definition corroboration (receipts : list json) (principals : gmap string Principal) (digest : string) : nat :=
  size (list_to_set (C := gset string) (omap (λ r,
    if jstr_eqb (default JNull (jget "digest" r)) digest && verify r principals None
    then match jget "organization" r with Some (JStr o) => Some o | _ => None end
    else None) receipts)).

(** ** The store's signing identity ([memory_authority.py]) *)

(** [bytes.fromhex]: pairs of digits, white space allowed between them. *)
Definition is_space (c : ascii) : bool :=
  let n := byte_of c in (n =? 32) || ((9 <=? n) && (n <=? 13)).

Fixpoint fromhex_bytes (l : list ascii) : option (list ascii) :=
  match l with
  | [] => Some []
  | c :: l' =>
      if is_space c then fromhex_bytes l'
      else match l' with
           | d :: l'' => x ← hex_value c; y ← hex_value d; r ← fromhex_bytes l''; Some (chr (16 * x + y) :: r)
           | [] => None
           end
  end.

Definition fromhex (s : string) : option string := of_bytes <$> fromhex_bytes (str_bytes s).

(** [TRUST] *)
Definition TRUST (authority : string) : option Z :=
  if String.eqb authority "external" then Some 0
  else if String.eqb authority "tool" then Some 1
  else if String.eqb authority "agent" then Some 1
  else if String.eqb authority "user" then Some 2
  else if String.eqb authority "operator" then Some 3
  else None.

(** The key files of a store: [.origin-key], [.origin-ed25519-key] and
    [origin-signing.json]. *)
Record identity := Identity {
  hmac_file : option string;
  ed_file : option string;
  config_file : option json;
}.

(** [signing_config]: a pinned public key must be 32 bytes of hexadecimal. *)
Definition signing_config (i : identity) : res pyexn json :=
  match config_file i with
  | None => Ok (JObj [("algorithm", JStr "hmac-sha256")])%string
  | Some config =>
      let a := default JNull (jget "algorithm" config) in
      require (is_obj config && (jstr_eqb a "ed25519" || jstr_eqb a "hmac-sha256")) ValueError;;
      match jget "public_key" config with
      | None => Ok config
      | Some (JStr h) =>
          raw ← get_or (fromhex h) ValueError;
          require (byte_len raw =? 32) ValueError;; Ok config
      | Some _ => Err TypeError
      end
  end.

(** [_key]: [fresh] is what [secrets.token_bytes(32)] returns when the file
    has to be created. *)
Definition _key (i : identity) (create : bool) (algorithm fresh : string)
    : res pyexn (option string * identity) :=
  let ed := String.eqb algorithm "ed25519" in
  let i := if create then
             if ed then match ed_file i with None => Identity (hmac_file i) (Some fresh) (config_file i) | _ => i end
             else match hmac_file i with None => Identity (Some fresh) (ed_file i) (config_file i) | _ => i end
           else i in
  match (if ed then ed_file i else hmac_file i) with
  | None => Ok (None, i)
  | Some k => require (byte_len k =? 32) ValueError;; Ok (Some k, i)
  end.

(** The principal [memory_authority.verify] builds carries the receipt's own
    name and authority, so the lookup in [origin.verify] succeeds whenever
    the receipt has a (hashable) name. *)
Definition verify_named (receipt : json) (principal : Principal) : res pyexn bool :=
  match jget "principal" receipt with
  | None => Ok false
  | Some (JList _) | Some (JObj _) => Err TypeError
  | Some _ => Ok (match verify_with receipt principal None with Ok b => b | Err _ => false end)
  end.

(** [memory_authority.verify(root, receipt)] without an expected record. *)
Definition store_verify (i : identity) (receipt : json) : res pyexn bool :=
  match jget "authority" receipt with
  | Some (JStr a) =>
      match TRUST a with
      | None => Ok false
      | Some _ =>
          if jstr_eqb (default (JStr "hmac-sha256") (jget "algorithm" receipt)) "ed25519" then
            match signing_config i with
            | Err ValueError => Ok false
            | Err e => Err e
            | Ok config =>
                match jget "public_key" config with
                | Some (JStr h) =>
                    match fromhex h with
                    | Some public => verify_named receipt (mkPrincipal "" "local-store" a "" "ed25519" public)
                    | None => Ok false
                    end
                | Some _ => Err TypeError
                | None => Ok false
                end
            end
          else
            '(key, _) ← _key i false "hmac-sha256" "";
            match key with
            | None => Ok false
            | Some k => verify_named receipt (mkPrincipal "" "local-store" a k "hmac-sha256" "")
            end
      end
  | Some (JList _) | Some (JObj _) => Err TypeError
  | _ => Ok false
  end.

(** [frontier_protocol.sign]: [writer] is [bound_writer()], [fresh] the key
    material should the key file not exist yet. *)
Definition sign (i : identity) (record : json) (writer : string * string) (fresh : string)
    : res pyexn (json * identity) :=
  _ ← wire record;
  config ← signing_config i;
  algorithm ← get_or (jget "algorithm" config) KeyError;
  let a := py_str algorithm in
  '(key, i) ← _key i (String.eqb a "hmac-sha256") a fresh;
  key ← get_or key PermissionError;
  signed ← bind record (mkPrincipal writer.1 "local-store" writer.2 key a "") true;
  Ok (signed, i).
End origin.

(** ** What verification guarantees *)

Lemma canonical_strings l : map canonical (map JStr l) = map JStr l.
Proof. rewrite map_map. by apply map_ext. Qed.

Lemma within_bounds_finite v : within_bounds v = true → all_finite v = true.
Proof. unfold within_bounds. intros H. by res_inv. Qed.

Lemma wire_Ok v w : wire v = Ok w ↔ within_bounds v = true ∧ byte_len (dumps v) <= MAX_BYTES ∧ w = dumps v.
Proof.
  unfold wire. rewrite validate_json_tree_eq. destruct (within_bounds v); simpl; [|naive_solver].
  destruct (byte_len (dumps v) <=? MAX_BYTES) eqn:E; simpl; zbool; naive_solver lia.
Qed.

Lemma _bytes_Ok v w : _bytes v = Ok w ↔ all_finite v = true ∧ w = dumps v.
Proof. unfold _bytes. destruct (all_finite v); simpl; naive_solver. Qed.

Lemma jstr_eqb_eq v s : jstr_eqb v s = true ↔ v = JStr s.
Proof. destruct v; simpl; try (split; [discriminate|congruence]). rewrite String.eqb_eq. naive_solver. Qed.

(** Every value accepted by [verify_with] carries a signature over its own
    canonical body, by that principal, and the digest of its record. *)
Lemma verify_with_true `{ED : Ed25519} receipt p req :
  verify_with receipt p req = Ok true ↔
  jstr_eqb (default (JStr "hmac-sha256") (jget "algorithm" receipt)) (algorithm p) = true ∧
  all_finite (receipt_body receipt) = true ∧
  (∃ s, (jget "signature" receipt = Some s ∨
         algorithm p = "ed25519"%string ∧ jget "signature" receipt = None ∧ s = JNull) ∧
        signature_valid s (dumps (receipt_body receipt)) p = true) ∧
  jget "organization" receipt = Some (JStr (organization p)) ∧
  jget "authority" receipt = Some (JStr (authority p)) ∧
  (∀ a, req = Some a → a = authority p) ∧
  ∃ record, jget "record" receipt = Some record ∧ all_finite record = true ∧
            jget "digest" receipt = Some (JStr (sha256_hex (dumps record))).
Proof.
  unfold verify_with. destruct (jstr_eqb _ (algorithm p)) eqn:Ha; simpl; [|naive_solver].
  split.
  - intros (body & (Hf & ->)% _bytes_Ok & H)%bind_Ok.
    apply bind_Ok in H as (s & Hs & H).
    destruct (signature_valid s _ p) eqn:Hv; simpl in H; [|done].
    apply bind_Ok in H as (org & Ho%get_or_Ok & H).
    destruct (jstr_eqb org _) eqn:Eo; simpl in H; [|done]. apply jstr_eqb_eq in Eo as ->.
    apply bind_Ok in H as (au & Hau%get_or_Ok & H).
    destruct (jstr_eqb au _) eqn:Eau; simpl in H; [|done]. apply jstr_eqb_eq in Eau as ->.
    destruct (match req with None => true | Some a => _ end) eqn:Er; simpl in H; [|done].
    apply bind_Ok in H as (d & Hd%get_or_Ok & H). apply bind_Ok in H as (r & Hr%get_or_Ok & H).
    apply bind_Ok in H as (raw & (Hrf & ->)% _bytes_Ok & H). injection H as H%jstr_eqb_eq. subst d.
    split_and!; try done.
    + exists s. split; [|done]. destruct (String.eqb (algorithm p) "ed25519") eqn:Ee.
      * apply String.eqb_eq in Ee. injection Hs as <-. destruct (jget "signature" receipt); simpl; auto.
      * left. by apply get_or_Ok in Hs.
    + intros a ->. by apply String.eqb_eq in Er.
    + exists r. done.
  - intros (_ & Hf & (s & Hs & Hv) & Ho & Hau & Hreq & r & Hr & Hrf & Hd).
    unfold _bytes. rewrite Hf. simpl.
    assert ((if String.eqb (algorithm p) "ed25519" then Ok (default JNull (jget "signature" receipt))
             else get_or (jget "signature" receipt) KeyError) = Ok (E := pyexn) s) as ->.
    { destruct Hs as [-> | (-> & -> & ->)]; [by destruct (String.eqb _ _)|done]. }
    simpl. rewrite Hv. simpl. rewrite Ho. simpl. rewrite String.eqb_refl. simpl.
    rewrite Hau. simpl. rewrite String.eqb_refl. simpl.
    assert (match req with None => true | Some a => String.eqb a (authority p) end = true) as ->.
    { destruct req as [a|]; [|done]. apply String.eqb_eq. by apply Hreq. }
    simpl. rewrite Hd. simpl. rewrite Hr. simpl. rewrite Hrf. simpl. by rewrite String.eqb_refl.
Qed.

(** The signed form of a record. *)
Lemma bind_shape `{ED : Ed25519} record p det signed : bind record p det = Ok signed →
  ∃ sig, let d := if String.eqb (algorithm p) "ed25519" then [("algorithm", JStr "ed25519")]%string else [] in
    let body := [("record", if det then record else canonical record);
               ("principal", JStr (id p)); ("organization", JStr (organization p));
               ("authority", JStr (authority p)); ("digest", JStr (sha256_hex (dumps record)))]%string ++ d in
    signed = JObj (body ++ [("signature", JStr sig)]%string) ∧ all_finite record = true ∧
    all_finite (JObj body) = true ∧ 32 <= byte_len (key p) ∧
    ((algorithm p = "ed25519" ∧ sig = b64encode (ed_sign (key p) (dumps (JObj body)))) ∨
     (algorithm p = "hmac-sha256" ∧ sig = hmac_hex (key p) (dumps (JObj body))))%string.
Proof.
  unfold bind. intros H. apply bind_Ok in H as (? & Hk%require_Ok & H).
  apply bind_Ok in H as (raw & (Hf & ->)% _bytes_Ok & H). zbool.
  destruct (String.eqb (algorithm p) "ed25519") eqn:Ea.
  - apply String.eqb_eq in Ea. apply bind_Ok in H as (b & (Hb & ->)% _bytes_Ok & H). injection H as <-.
    eexists. split_and!; try reflexivity; try done. left. done.
  - apply bind_Ok in H as (? & Hh%require_Ok & H). apply String.eqb_eq in Hh.
    apply bind_Ok in H as (b & (Hb & ->)% _bytes_Ok & H). injection H as <-.
    eexists. rewrite app_nil_r. split_and!; try reflexivity; try done. right. done.
Qed.

Lemma py_str_JStr s : py_str (JStr s) = s.
Proof. done. Qed.

(** A detached receipt verifies under the principal that bound it. *)
Lemma bind_verify `{ED : Ed25519, EDL : !Ed25519Laws} record p signed pub :
  bind record p true = Ok signed → (algorithm p = "ed25519"%string → pub = ed_public (key p)) →
  verify_with signed (mkPrincipal "" (organization p) (authority p) (key p) (algorithm p) pub) None = Ok true
  ∧ jget "record" signed = Some record ∧ jget "principal" signed = Some (JStr (id p))
  ∧ jget "authority" signed = Some (JStr (authority p))
  ∧ jget "algorithm" signed = (if String.eqb (algorithm p) "ed25519" then Some (JStr "ed25519") else None).
Proof.
  intros (sig & Hs & Hf & Hb & Hk & Hsig)%bind_shape Hpub.
  destruct Hsig as [[Ea ->]|[Ea ->]]; rewrite Ea in *; simpl in Hs, Hb; subst signed.
  - split_and!; try done. apply verify_with_true. simpl. split_and!; try done.
    + eexists. split; [by left|]. unfold signature_valid. simpl.
      rewrite b64decode_encode. rewrite Hpub by done. apply ed_verify_sign.
    + by exists record.
  - split_and!; try done. apply verify_with_true. simpl. split_and!; try done.
    + eexists. split; [by left|]. unfold signature_valid. simpl. apply String.eqb_refl.
    + by exists record.
Qed.

(** The signing identity is complete: its algorithm is HMAC, or Ed25519
    with the pinned public key of its private key. *)
Definition identity_ok `{ED : Ed25519} (i : identity) : Prop :=
  (∀ k, hmac_file i = Some k → byte_len k = 32) ∧
  ∃ config, signing_config i = Ok config ∧
    (jget "algorithm" config = Some (JStr "hmac-sha256") ∨
     jget "algorithm" config = Some (JStr "ed25519") ∧
     ∃ k h, ed_file i = Some k ∧ byte_len k = 32 ∧ jget "public_key" config = Some (JStr h) ∧
            fromhex h = Some (ed_public k))%string.

Lemma _key_hmac i c fresh k i' : _key i c "hmac-sha256" fresh = Ok (Some k, i') →
  hmac_file i' = Some k ∧ byte_len k = 32 ∧ ed_file i' = ed_file i ∧ config_file i' = config_file i ∧
  (hmac_file i = Some k ∨ hmac_file i = None ∧ k = fresh ∧ c = true).
Proof.
  unfold _key. simpl. destruct c, (hmac_file i) as [k0|] eqn:Ek; simpl; rewrite ?Ek; try done;
    (destruct (_ =? 32) eqn:E; simpl; [|done]); intros [= <- <-]; zbool; simpl; rewrite ?Ek; split_and!; auto.
Qed.

Lemma _key_ed i k i' : _key i false "ed25519" "" = Ok (Some k, i') →
  ed_file i = Some k ∧ i' = i.
Proof.
  unfold _key. simpl. destruct (ed_file i) as [k0|] eqn:Ek; [|done].
  destruct (_ =? 32) eqn:E; simpl; [|done]. by intros [= <- <-].
Qed.

(** What [sign] returns is accepted by [verify] of the same store. *)
Lemma sign_verifies `{ED : Ed25519, EDL : !Ed25519Laws} i record writer fresh signed i' :
  identity_ok i → is_Some (TRUST writer.2) → byte_len fresh = 32 →
  sign i record writer fresh = Ok (signed, i') →
  store_verify i' signed = Ok true ∧ identity_ok i' ∧ jget "record" signed = Some record ∧
  is_obj signed = true.
Proof.
  intros [Hhm (config & Hc & Hcase)] [t Ht] Hfresh Hsign. unfold sign in Hsign.
  apply bind_Ok in Hsign as (w & Hw & Hsign). rewrite Hc in Hsign. simpl in Hsign.
  assert (Hobj : ∀ p s, bind record p true = Ok s → is_obj s = true).
  { intros p s (sig & -> & _)%bind_shape. done. }
  assert (Hconf : ∀ i', config_file i' = config_file i → signing_config i' = Ok config)
    by (intros ? E; unfold signing_config in *; by rewrite E).
  destruct Hcase as [Ea|(Ea & k & h & Hk & Hkl & Hp & Hh)]; rewrite Ea in Hsign; simpl in Hsign.
  - apply bind_Ok in Hsign as ([[k|] i1] & Hkey & Hsign); [|done]. simpl in Hsign.
    apply bind_Ok in Hsign as (s & Hb & Hsign). injection Hsign as <- <-.
    apply _key_hmac in Hkey as (Hf & Hl & Hed & Hcf & _).
    destruct (bind_verify _ _ _ "" Hb ltac:(done)) as (Hv & Hr & Hpr & Hau & Hal). simpl in *.
    split_and!; [|split; [|by exists config; split; [apply Hconf|left]]|done|by eapply Hobj].
    + unfold store_verify. rewrite Hau, Ht, Hal. simpl. unfold _key. simpl. rewrite Hf.
      rewrite (proj2 (Z.eqb_eq _ _) Hl). simpl. unfold verify_named. rewrite Hpr. by rewrite Hv.
    + intros k0 Hk0. rewrite Hf in Hk0. by injection Hk0 as <-.
  - apply bind_Ok in Hsign as ([[k0|] i1] & Hkey & Hsign); [|done]. simpl in Hsign.
    apply bind_Ok in Hsign as (s & Hb & Hsign). injection Hsign as <- <-.
    change (_key i false "ed25519" fresh) with (_key i false "ed25519" "") in Hkey.
    apply _key_ed in Hkey as [Hf ->]. rewrite Hk in Hf. injection Hf as <-.
    destruct (bind_verify _ _ _ (ed_public k) Hb ltac:(done)) as (Hv & Hr & Hpr & Hau & Hal). simpl in *.
    split_and!; [|split; [done|exists config; split; [done|right; eauto 8]]|done|by eapply Hobj].
    unfold store_verify. rewrite Hau, Ht, Hal. simpl. rewrite Hc, Hp, Hh. unfold verify_named. rewrite Hpr.
    match goal with |- Ok (match ?r with _ => _ end) = _ => assert (r = Ok true) as -> by exact Hv end.
    done.
Qed.
