(* ===== verification/Journal.v ===== *)
(** * Signed journals ([unimem/frontier_protocol.py], second half)

    An append-only file of signed rows, each naming its position and the
    digest of the row before it; the retained verification state of a file;
    append, rotation and the readers.  A file keeps its parsed lines with
    their lengths, and a version number that stands for the inode and the
    time stamps of [os.stat]: every write gives it a fresh one. *)

From S2P Require Import Prelude Sha256 Base64 Wire Origin.
Local Open Scope Z_scope.

(** ** Definitions *)

(** A line of the file: [None] when it is not a JSON document in UTF-8
    without duplicate keys or non-finite constants. *)
Record line := Line { l_value : option json; l_bytes : Z; l_newline : bool }.

Record file := File { f_lines : list line; f_version : Z; f_symlink : bool }.

Definition Stamp := option (Z * Z).

Record journal_state := Journal {
  stamp : Stamp;
  pins : Z;
  signed : list json;
  tip : string;
  weight : Z;
}.

(** A store directory as one process sees it: the journal files, the signing
    identity and its [_pins], and the process's [_CACHE], oldest first. *)
Record store := Store {
  s_files : gmap string file;
  s_identity : identity;
  s_pins : Z;
  s_cache : list (string * journal_state);
  s_clock : Z;
}.

Definition file_size (f : file) : Z := fold_right (λ l n, l_bytes l + n) 0 (f_lines f).

Definition _stamp (st : store) (name : string) : Stamp :=
  (λ f, (f_version f, file_size f)) <$> s_files st !! name.

Definition set_cache (st : store) (c : list (string * journal_state)) : store :=
  Store (s_files st) (s_identity st) (s_pins st) c (s_clock st).

(** [json.dumps(row, ensure_ascii=False)] with the default separators, in
    insertion order: what is written to the file. *)
Fixpoint dumps_plain (v : json) : string :=
  match v with
  | JNull => "null"
  | JBool b => if b then "true" else "false"
  | JInt n => pretty.pretty n
  | JFloat r => r
  | JStr s => quote s
  | JList l => "[" +:+ join ", " (map dumps_plain l) +:+ "]"
  | JObj kvs => "{" +:+ join ", " (map (λ '(k, x), quote k +:+ ": " +:+ dumps_plain x) kvs) +:+ "}"
  end.

(** [loads(line)] on a complete line, newline included. *)
Definition loads_line (l : line) : res pyexn json :=
  require (l_bytes l <=? MAX_BYTES) ValueError;;
  value ← get_or (l_value l) ValueError;
  _ ← validate_json_tree value;
  Ok value.

Fixpoint rows_loop (total : Z) (n : Z) (lines : list line) : res pyexn (list json) :=
  match lines with
  | [] => Ok []
  | l :: rest =>
      let total := total + l_bytes l in
      require (total <=? 64 * MAX_BYTES) ValueError;;
      require (negb ((MAX_ROWS <=? n) || (MAX_BYTES + 1 <? l_bytes l) || negb (l_newline l))) ValueError;;
      value ← loads_line l;
      require (is_obj value) ValueError;;
      _ ← wire value;
      values ← rows_loop total (n + 1) rest;
      Ok (value :: values)
  end.

Definition rows (f : option file) : res pyexn (list json) :=
  match f with None => Ok [] | Some f => rows_loop 0 0 (f_lines f) end.

(** [value == n] for a JSON value and an [int]: [True], [1] and [1.0] are equal. *)
Definition json_eq_int (v : json) (n : Z) : bool :=
  match v with
  | JInt m => m =? n
  | JBool b => Z.b2z b =? n
  | JFloat r => String.eqb r (pretty.pretty n +:+ ".0") || (String.eqb r "-0.0" && (n =? 0))
  | _ => false
  end.

(** [filename]: a plain name, not hidden, not a symbolic link. *)
Definition filename (st : store) (name : string) : res pyexn string :=
  require (negb (has_char "/" name) && negb (String.prefix "." name)) ValueError;;
  require (negb (match s_files st !! name with Some f => f_symlink f | None => false end)) ValueError;;
  Ok name.

Section journal.
Context `{ED : Ed25519}.
(** [frontmatter._retained_size]: an estimate of the memory a value takes. *)
Variable retained_size : list json → Z.

(** The loop of [_state] over the rows of the file; the result is the tip. *)
Fixpoint check_chain (i : identity) (index : Z) (previous : string) (rows : list json) : res pyexn string :=
  match rows with
  | [] => Ok previous
  | row :: rest =>
      let record := default (JObj []) (jget "record" row) in
      ok ← store_verify i row;
      require ok ValueError;;
      require (is_obj record) AttributeError;;
      require (json_eq_int (default JNull (jget "sequence" record)) index) ValueError;;
      require (jstr_eqb (default JNull (jget "previous" record)) previous) ValueError;;
      d ← digest row;
      check_chain i (index + 1) d rest
  end.

Fixpoint cache_get (name : string) (c : list (string * journal_state)) : option journal_state :=
  match c with
  | [] => None
  | (n, j) :: c' => if String.eqb n name then Some j else cache_get name c'
  end.

Definition cache_del (name : string) (c : list (string * journal_state)) : list (string * journal_state) :=
  List.filter (λ e, negb (String.eqb e.1 name)) c.

(** [while len(_CACHE) > 32 or sum(weights) > 64 MiB: popitem(last=False)] *)
Fixpoint evict (c : list (string * journal_state)) : list (string * journal_state) :=
  match c with
  | [] => []
  | _ :: c' =>
      if (32 <? length c)%nat || (64 * MAX_BYTES <? fold_right (λ e n, weight e.2 + n) 0 c)
      then evict c' else c
  end.

Definition _remember (st : store) (name : string) (j : journal_state) : store :=
  set_cache st (evict (cache_del name (s_cache st) ++ [(name, j)])).

(** [link.get("kind") == "rotation" and ...] *)
Definition rotation_accepted (rows : list json) (cached : journal_state) : bool :=
  match rows with
  | [] => false
  | row :: _ =>
      let link := default (JObj []) (jget "record" row) in
      jstr_eqb (default JNull (jget "kind" link)) "rotation"
      && match jget "previous_count" link with
         | Some (JInt n) => Z.of_nat (length (signed cached)) <=? n
         | _ => false
         end
      && match jget "previous_tip" link with
         | Some (JStr s) => negb (String.eqb s "")
         | _ => false
         end
  end.

Definition anchored (rows : list json) (cached : journal_state) : bool :=
  match last (take (length (signed cached)) rows) with
  | Some row => (length (signed cached) <=? length rows)%nat
                && match digest row with Ok d => String.eqb d (tip cached) | Err _ => false end
  | None => false
  end.

(** [_state].  The caller holds the file lock, so the second [_stamp] and
    [_pins] agree with the first. *)
Definition _state (st : store) (name : string) : res pyexn (journal_state * store) :=
  name ← filename st name;
  let cached := cache_get name (s_cache st) in
  match cached with
  | Some c =>
      if bool_decide (stamp c = _stamp st name) && (pins c =? s_pins st) then
        Ok (c, set_cache st (cache_del name (s_cache st) ++ [(name, c)]))
      else
        signed_rows ← rows (s_files st !! name);
        previous ← check_chain (s_identity st) 0 "" signed_rows;
        require (bool_decide (signed c = []) || rotation_accepted signed_rows c
                 || anchored signed_rows c) ValueError;;
        let j := Journal (_stamp st name) (s_pins st) signed_rows previous (retained_size signed_rows) in
        Ok (j, _remember st name j)
  | None =>
      signed_rows ← rows (s_files st !! name);
      previous ← check_chain (s_identity st) 0 "" signed_rows;
      let j := Journal (_stamp st name) (s_pins st) signed_rows previous (retained_size signed_rows) in
      Ok (j, _remember st name j)
  end.

(** [_pins] changes when [sign] created the key file. *)
Definition set_identity (st : store) (i : identity) : store :=
  Store (s_files st) i
    (if bool_decide (hmac_file i = hmac_file (s_identity st) ∧ ed_file i = ed_file (s_identity st))
     then s_pins st else s_pins st + 1) (s_cache st) (s_clock st).

(** [_jsonl.append_row] and [_jsonl.write_rows] of encoded rows. *)
Definition write_lines (st : store) (name : string) (lines : list line) : store :=
  Store (<[name := File lines (s_clock st) false]> (s_files st)) (s_identity st) (s_pins st)
        (s_cache st) (s_clock st + 1).

Definition encoded_line (row : json) : line := Line (Some row) (byte_len (dumps_plain row) + 1) true.

Definition file_lines (st : store) (name : string) : list line :=
  match s_files st !! name with Some f => f_lines f | None => [] end.

(** [append]: [writer] and [fresh] are the arguments of [sign], [now] the
    clock reading. *)
Definition append (st : store) (name : string) (record : json) (writer : string * string)
    (fresh now : string) : res pyexn (json * store) :=
  name ← filename st name;
  '(state, st) ← _state st name;
  n ← count (Z.of_nat (length (signed state))) 0 (MAX_ROWS - 1);
  let body := jupdate record [("sequence", JInt n); ("previous", JStr (tip state));
                              ("recorded_at", JStr now)]%string in
  '(row, i) ← sign (s_identity st) body writer fresh;
  let st := set_identity st i in
  _ ← wire row;
  let encoded := dumps_plain row in
  require (byte_len encoded <=? MAX_BYTES) ValueError;;
  require (match stamp state with Some (_, size) => size | None => 0 end + byte_len encoded + 1
           <=? 64 * MAX_BYTES) ValueError;;
  let st := write_lines st name (file_lines st name ++ [encoded_line row]) in
  d ← digest row;
  let state := Journal (_stamp st name) (s_pins st) (signed state ++ [row]) d
                       (weight state + retained_size [row] + 64) in
  Ok (row, _remember st name state).

(** The loop of [rotate]. *)
Fixpoint rotate_rows (i : identity) (index : Z) (previous : string) (total : Z) (records : list json)
    (writer : string * string) (fresh now : string) : res pyexn (list json * identity) :=
  match records with
  | [] => Ok ([], i)
  | record :: rest =>
      '(row, i) ← sign i (jupdate record [("sequence", JInt index); ("previous", JStr previous);
                                          ("recorded_at", JStr now)]%string) writer fresh;
      _ ← wire row;
      let size := byte_len (dumps_plain row) in
      require (size <=? MAX_BYTES) ValueError;;
      let total := total + (size + 1) in
      require (total <=? 64 * MAX_BYTES) ValueError;;
      d ← digest row;
      '(out, i) ← rotate_rows i (index + 1) d total rest writer fresh now;
      Ok (row :: out, i)
  end.

Definition rotate (st : store) (name : string) (carry : list json) (writer : string * string)
    (fresh now : string) : res pyexn store :=
  _ ← count (Z.of_nat (length carry)) 0 (MAX_ROWS - 1);
  name ← filename st name;
  '(state, st) ← _state st name;
  let previous_count := Z.of_nat (length (signed state)) +
    match signed state with
    | row :: _ =>
        let prior := default (JObj []) (jget "record" row) in
        if jstr_eqb (default JNull (jget "kind" prior)) "rotation" then
          match jget "previous_count" prior with Some (JInt n) => n | _ => 0 end
        else 0
    | [] => 0
    end in
  let link := JObj [("kind", JStr "rotation"); ("previous_tip", JStr (tip state));
                    ("previous_count", JInt previous_count)]%string in
  '(out, i) ← rotate_rows (s_identity st) 0 "" 0 (link :: carry) writer fresh now;
  let st := write_lines (set_identity st i) name (map encoded_line out) in
  Ok (set_cache st (cache_del name (s_cache st))).

Definition event_snapshot (st : store) (name : string) (offset : Z)
    : res pyexn (Z * string * list json * store) :=
  '(state, st) ← _state st name;
  _ ← count offset 0 (Z.of_nat (length (signed state)));
  records ← mapR (λ row, get_or (jget "record" row) KeyError) (drop (Z.to_nat offset) (signed state));
  Ok (Z.of_nat (length (signed state)), tip state, records, st).

Definition events_since (st : store) (name : string) (offset : Z) : res pyexn (list json * store) :=
  '(_, _, records, st) ← event_snapshot st name offset; Ok (records, st).

Definition journal (st : store) (name : string) : res pyexn (list json * store) :=
  events_since st name 0.

Definition checkpoint (st : store) (name : string) : res pyexn (Z * string * store) :=
  '(state, st) ← _state st name; Ok (Z.of_nat (length (signed state)), tip state, st).

Definition signed_at (st : store) (name : string) (index : Z) : res pyexn (json * store) :=
  '(state, st) ← _state st name;
  _ ← count index 0 (Z.of_nat (length (signed state)) - 1);
  row ← get_or (signed state !! Z.to_nat index) IndexError;
  Ok (row, st).
End journal.
