(* ===== verification/Canon.v ===== *)
(** * The canonical encoding is injective

    [dumps] (sorted keys, no spaces) prints the value with its keys sorted,
    and no two values with sorted keys print alike, whatever follows them:
    a digest determines its value up to key order. *)

From stdpp Require Import pretty.
From S2P Require Import Prelude Sha256 Base64 Wire Origin Strings.
Local Open Scope Z_scope.

(** ** Printing without sorting *)

Fixpoint print (v : json) : list ascii :=
  match v with
  | JNull => str_bytes "null"
  | JBool b => str_bytes (if b then "true" else "false")
  | JInt n => str_bytes (pretty n)
  | JFloat r => str_bytes r
  | JStr s => str_bytes (quote s)
  | JList l => str_bytes "[" ++ (fix items l := match l with
      | [] => str_bytes "]"
      | x :: l' => print x ++ match l' with [] => str_bytes "]" | _ => str_bytes "," ++ items l' end
      end) l
  | JObj kvs => str_bytes "{" ++ (fix items l := match l with
      | [] => str_bytes "}"
      | (k, x) :: l' => str_bytes (quote k) ++ str_bytes ":" ++ print x
          ++ match l' with [] => str_bytes "}" | _ => str_bytes "," ++ items l' end
      end) kvs
  end.

Fixpoint print_items (l : list json) : list ascii :=
  match l with
  | [] => str_bytes "]"
  | x :: l' => print x ++ match l' with [] => str_bytes "]" | _ => str_bytes "," ++ print_items l' end
  end.

Fixpoint print_pairs (l : list (string * json)) : list ascii :=
  match l with
  | [] => str_bytes "}"
  | (k, x) :: l' => str_bytes (quote k) ++ str_bytes ":" ++ print x
      ++ match l' with [] => str_bytes "}" | _ => str_bytes "," ++ print_pairs l' end
  end.

Lemma print_list l : print (JList l) = str_bytes "[" ++ print_items l.
Proof. reflexivity. Qed.

Lemma print_obj l : print (JObj l) = str_bytes "{" ++ print_pairs l.
Proof. reflexivity. Qed.

(** ** [dumps] prints the canonical form *)

Lemma insert_key_map {A B} (f : A → B) k x l :
  insert_key (k, f x) (map (λ kv, (kv.1, f kv.2)) l) = map (λ kv, (kv.1, f kv.2)) (insert_key (k, x) l).
Proof.
  induction l as [|[k' y] l IH]; simpl; [done|]. destruct (str_leb k k'); simpl; [done|]. by rewrite IH.
Qed.

Lemma sort_keys_map {A B} (f : A → B) l :
  sort_keys (map (λ kv, (kv.1, f kv.2)) l) = map (λ kv, (kv.1, f kv.2)) (sort_keys l).
Proof.
  induction l as [|[k x] l IH]; simpl; [done|]. by rewrite IH, insert_key_map.
Qed.

Lemma join_bytes (l : list string) : str_bytes (join "," l) =
  match l with [] => [] | s :: l' => str_bytes s ++ foldr (λ t acc, str_bytes "," ++ str_bytes t ++ acc) [] l' end.
Proof.
  induction l as [|s l IH]; [done|]. destruct l as [|s' l]; [simpl; by rewrite app_nil_r|].
  change (join "," (s :: s' :: l)) with (s +:+ "," +:+ join "," (s' :: l)).
  by rewrite !str_bytes_app, IH.
Qed.

Lemma print_items_join l : print_items l =
  match l with [] => [] | x :: l' => print x ++ foldr (λ y acc, str_bytes "," ++ print y ++ acc) [] l' end
  ++ str_bytes "]".
Proof.
  induction l as [|x l IH]; [done|]. cbn [print_items]. rewrite <- app_assoc. f_equal.
  destruct l as [|y l]; [done|]. rewrite IH. cbn [foldr]. by rewrite <- !app_assoc.
Qed.

Lemma print_pairs_join l :
  let pr := λ kv : string * json, str_bytes (quote kv.1) ++ str_bytes ":" ++ print kv.2 in
  print_pairs l =
  match l with [] => [] | x :: l' => pr x ++ foldr (λ y acc, str_bytes "," ++ pr y ++ acc) [] l' end
  ++ str_bytes "}".
Proof.
  intros pr. induction l as [|[k x] l IH]; [done|]. cbn [print_pairs].
  assert (Hpr : ∀ T, str_bytes (quote k) ++ str_bytes ":" ++ print x ++ T = pr (k, x) ++ T)
    by (intros; unfold pr; by rewrite <- !app_assoc).
  rewrite Hpr, <- app_assoc. f_equal.
  destruct l as [|y l]; [done|]. rewrite IH. cbn [foldr]. by rewrite <- !app_assoc.
Qed.

Lemma join_bytes_map {A} (f : A → string) (g : A → list ascii) l :
  Forall (λ x, str_bytes (f x) = g x) l →
  str_bytes (join "," (map f l)) =
  match l with [] => [] | x :: l' => g x ++ foldr (λ y acc, str_bytes "," ++ g y ++ acc) [] l' end.
Proof.
  rewrite join_bytes. destruct 1 as [|x l Hx Hl]; [done|]. cbn [map]. rewrite Hx. f_equal.
  induction Hl as [|y l Hy Hl IH]; [done|]. cbn [map foldr]. by rewrite Hy, IH.
Qed.

Lemma sort_keys_Permutation {A} (l : list (string * A)) : sort_keys l ≡ₚ l.
Proof.
  assert (Hins : ∀ kv (l : list (string * A)), insert_key kv l ≡ₚ kv :: l).
  { intros kv k. induction k as [|kv' k IH]; simpl; [done|]. destruct (str_leb _ _); [done|].
    rewrite IH. by constructor. }
  induction l as [|kv l IH]; simpl; [done|]. by rewrite Hins, IH.
Qed.

Lemma dumps_print v : str_bytes (dumps v) = print (canonical v).
Proof.
  induction v as [|b|n|r|s|l IH|kvs IH] using json_rect'; try done.
  - change (dumps (JList l)) with ("[" +:+ join "," (map dumps l) +:+ "]"). cbn [canonical].
    rewrite !str_bytes_app, print_list, print_items_join. f_equal. f_equal.
    rewrite (join_bytes_map dumps (λ x, print (canonical x)) l IH).
    destruct l as [|x l]; [done|]. cbn [map]. f_equal. clear IH.
    induction l as [|y l IHl]; [done|]. cbn [map foldr]. by rewrite IHl.
  - change (dumps (JObj kvs)) with ("{" +:+ join "," (map (λ kv, quote (fst kv) +:+ ":" +:+ snd kv)
      (sort_keys (map (λ '(k, x), (k, dumps x)) kvs))) +:+ "}"). cbn [canonical].
    assert (Hm : ∀ {B} (f : json → B), map (λ '(k, x), (k, f x)) kvs = map (λ kv, (kv.1, f kv.2)) kvs)
      by (intros; apply map_ext; by intros []).
    rewrite !Hm, !sort_keys_map, !str_bytes_app, print_obj, print_pairs_join. f_equal. f_equal.
    rewrite map_map. cbn [fst snd].
    rewrite (join_bytes_map _ (λ kv, str_bytes (quote kv.1) ++ str_bytes ":" ++ print (canonical kv.2))).
    + destruct (sort_keys kvs) as [|x l]; [done|]. cbn [map fst snd]. f_equal.
      induction l as [|y l IHl]; [done|]. cbn [map foldr fst snd]. by rewrite IHl.
    + rewrite sort_keys_Permutation. apply Forall_map in IH. eapply Forall_impl; [exact IH|].
      intros [k x] Hx. simpl in Hx |- *. by rewrite !str_bytes_app, <- Hx.
Qed.

(** ** Tokens *)

(** What may follow a value: nothing, a comma or a closing bracket. *)
Definition delim (r : list ascii) : Prop :=
  match r with [] => True | c :: _ => c = ","%char ∨ c = "]"%char ∨ c = "}"%char end.

Definition num_char (c : ascii) : bool :=
  existsb (Ascii.eqb c) (str_bytes "0123456789-+.e").

Lemma token_split (p : ascii → bool) (a b r r' : list ascii) :
  Forall (λ c, p c = true) a → Forall (λ c, p c = true) b →
  match r with [] => True | c :: _ => p c = false end →
  match r' with [] => True | c :: _ => p c = false end →
  a ++ r = b ++ r' → a = b ∧ r = r'.
Proof.
  intros Ha. revert b. induction Ha as [|c a Hc Ha IH]; intros [|d b] Hb Hr Hr'; simpl.
  - done.
  - intros ->. apply Forall_cons in Hb as [Hd _]. congruence.
  - intros <-. congruence.
  - intros [= -> H]. apply Forall_cons in Hb as [_ Hb]. by destruct (IH b Hb Hr Hr' H) as [-> ->].
Qed.

(** A float as [repr] prints it: number characters, one of them [.] or [e]. *)
Definition float_repr (r : string) : bool :=
  forallb num_char (str_bytes r) && existsb (λ c, Ascii.eqb c "." || Ascii.eqb c "e") (str_bytes r).

Fixpoint floats_ok (v : json) : bool :=
  match v with
  | JFloat r => float_repr r
  | JList l => forallb floats_ok l
  | JObj kvs => forallb (λ '(_, x), floats_ok x) kvs
  | _ => true
  end.

Definition int_char (c : ascii) : bool := existsb (Ascii.eqb c) (str_bytes "0123456789-").

Lemma pretty_N_go_chars x : ∀ s, Forall (λ c, int_char c = true) (str_bytes s) →
  Forall (λ c, int_char c = true) (str_bytes (pretty_N_go x s)).
Proof.
  induction (N.lt_wf_0 x) as [x _ IH]. intros s Hs. destruct (decide (x = 0%N)) as [->|Hx].
  - by rewrite pretty_N_go_0.
  - rewrite pretty_N_go_step by lia. apply IH; [apply N.div_lt; lia|]. simpl. constructor; [|done].
    unfold pretty_N_char. repeat case_match; reflexivity.
Qed.

Lemma pretty_chars (n : Z) : Forall (λ c, int_char c = true) (str_bytes (pretty n)) ∧ str_bytes (pretty n) ≠ [].
Proof.
  assert (HN : ∀ x : N, Forall (λ c, int_char c = true) (str_bytes (pretty x))).
  { intros x. unfold pretty, pretty_N. case_match; [by repeat constructor|]. by apply pretty_N_go_chars. }
  assert (Hne : ∀ x : N, str_bytes (pretty x) ≠ []).
  { intros x H. assert (pretty x = ""%string) as E by (by apply str_bytes_inj).
    unfold pretty, pretty_N in E. case_match eqn:Ex; [done|].
    rewrite pretty_N_go_step in E by lia. revert E. generalize (x `div` 10)%N.
    intros y. assert (∀ y s, s ≠ ""%string → pretty_N_go y s ≠ ""%string) as Hgo; [|by apply Hgo].
    clear. intros y. induction (N.lt_wf_0 y) as [y _ IH]. intros s Hs.
    destruct (decide (y = 0%N)) as [->|]; [by rewrite pretty_N_go_0|].
    rewrite pretty_N_go_step by lia. apply IH; [apply N.div_lt; lia|done]. }
  unfold pretty, pretty_Z. destruct n; [split; [by repeat constructor|done]|split; [apply HN|apply Hne]|].
  split; [|done]. simpl. constructor; [done|]. apply HN.
Qed.

Lemma int_num c : int_char c = true → num_char c = true.
Proof.
  unfold int_char, num_char. rewrite !existsb_exists. intros (d & Hd & E). exists d. split; [|done].
  simpl in *. naive_solver.
Qed.

(** ** Strings *)

Definition all_ascii : list ascii := map ascii_of_nat (seq 0 256).

Lemma elem_of_all_ascii c : c ∈ all_ascii.
Proof.
  apply list_elem_of_fmap. exists (nat_of_ascii c). split; [by rewrite ascii_nat_embedding|].
  apply elem_of_seq. pose proof (nat_ascii_bounded c). lia.
Qed.

Lemma all_ascii_spec (p : ascii → bool) c : forallb p all_ascii = true → p c = true.
Proof.
  intros H. rewrite forallb_Forall, Forall_forall in H. apply H, elem_of_all_ascii.
Qed.

Fixpoint prefixb (l k : list ascii) : bool :=
  match l, k with
  | [], _ => true
  | c :: l', d :: k' => Ascii.eqb c d && prefixb l' k'
  | _, [] => false
  end.

Lemma prefixb_app l k : prefixb l (l ++ k) = true.
Proof. induction l as [|c l IH]; simpl; [done|]. by rewrite Ascii.eqb_refl. Qed.

Local Abbreviation esc c := (str_bytes (escape_char c)).

(** No escape sequence is a prefix of another, and none starts with a quote. *)
Lemma esc_prefix_free c d : prefixb (esc c) (esc d) = true → c = d.
Proof.
  intros H. apply Ascii.eqb_eq.
  assert (Hall : forallb (λ c, forallb (λ d, negb (prefixb (esc c) (esc d)) || Ascii.eqb c d) all_ascii)
                   all_ascii = true) by (vm_compute; reflexivity).
  apply (all_ascii_spec _ c) in Hall. cbn beta in Hall. apply (all_ascii_spec _ d) in Hall. cbn beta in Hall.
  rewrite H in Hall. done.
Qed.

Lemma esc_not_quote c : ∃ d l, esc c = d :: l ∧ d ≠ dquote.
Proof.
  assert (Hall : forallb (λ c, match esc c with d :: _ => negb (Ascii.eqb d dquote) | [] => false end)
                   all_ascii = true) by (vm_compute; reflexivity).
  apply (all_ascii_spec _ c) in Hall. cbn beta in Hall. destruct (esc c) as [|d l]; [done|].
  exists d, l. split; [done|]. intros ->. by rewrite Ascii.eqb_refl in Hall.
Qed.

Lemma esc_inj c d u u' : esc c ++ u = esc d ++ u' → c = d ∧ u = u'.
Proof.
  intros H. assert (c = d) as ->; [|by apply app_inv_head in H].
  destruct (app_eq_app _ _ _ _ H) as (m & [[E _]|[E _]]).
  - symmetry. apply esc_prefix_free. rewrite E. apply prefixb_app.
  - apply esc_prefix_free. rewrite E. apply prefixb_app.
Qed.

Lemma escape_inj s t r r' :
  str_bytes (escape s) ++ dquote :: r = str_bytes (escape t) ++ dquote :: r' → s = t ∧ r = r'.
Proof.
  revert t. induction s as [|c s IH]; intros [|d t]; cbn [escape]; rewrite ?str_bytes_app, <- ?app_assoc.
  - intros [= ->]. done.
  - destruct (esc_not_quote d) as (d' & l & -> & Hd). intros [= <-]. done.
  - destruct (esc_not_quote c) as (c' & l & -> & Hd). intros [= ->]. done.
  - intros [-> H]%esc_inj. by destruct (IH t H) as [-> ->].
Qed.

Lemma quote_bytes s : str_bytes (quote s) = dquote :: str_bytes (escape s) ++ [dquote].
Proof. unfold quote. by rewrite !str_bytes_app. Qed.

Lemma quote_inj s t r r' : str_bytes (quote s) ++ r = str_bytes (quote t) ++ r' → s = t ∧ r = r'.
Proof.
  rewrite !quote_bytes. simpl. rewrite <- !app_assoc. intros [= H]. by apply escape_inj.
Qed.

(** ** Values *)

(** The first character tells the kind of a value. *)
Definition tag (c : ascii) : nat :=
  if num_char c then 2
  else if Ascii.eqb c "n" then 0 else if Ascii.eqb c "t" then 10 else if Ascii.eqb c "f" then 11
  else if Ascii.eqb c dquote then 3 else if Ascii.eqb c "[" then 4
  else if Ascii.eqb c "{" then 5 else 9.

Definition vtag (v : json) : nat :=
  match v with
  | JNull => 0 | JBool b => if b then 10 else 11 | JInt _ | JFloat _ => 2 | JStr _ => 3 | JList _ => 4 | JObj _ => 5
  end.

Lemma num_tag c : num_char c = true → tag c = 2%nat.
Proof.
  intros H. assert (Hall : forallb (λ c, negb (num_char c) || (tag c =? 2)%nat) all_ascii = true)
    by (vm_compute; reflexivity).
  apply (all_ascii_spec _ c) in Hall. cbn beta in Hall. rewrite H in Hall. by apply Nat.eqb_eq in Hall.
Qed.

Lemma float_chars r : float_repr r = true →
  Forall (λ c, num_char c = true) (str_bytes r) ∧ str_bytes r ≠ [] ∧
  ∃ c, c ∈ str_bytes r ∧ int_char c = false.
Proof.
  intros [Hn He]%andb_true_iff. apply forallb_Forall in Hn. apply existsb_exists in He as (c & Hc & Hdot).
  apply list_elem_of_In in Hc. split_and!; [done|by intros E; rewrite E in Hc; inversion Hc|].
  exists c. split; [done|]. apply orb_true_iff in Hdot as [->%Ascii.eqb_eq| ->%Ascii.eqb_eq]; done.
Qed.

Lemma print_head v : floats_ok v = true → ∃ c t, print v = c :: t ∧ tag c = vtag v.
Proof.
  destruct v as [|[]|n|r|s|l|kvs]; intros Hf; try (by eexists _, _).
  - destruct (pretty_chars n) as [Hc Hne]. simpl. destruct (str_bytes (pretty n)) as [|c t]; [done|].
    apply Forall_cons in Hc as [Hc _]. exists c, t. split; [done|]. by apply num_tag, int_num.
  - destruct (float_chars r Hf) as (Hc & Hne & _). simpl. destruct (str_bytes r) as [|c t]; [done|].
    apply Forall_cons in Hc as [Hc _]. exists c, t. split; [done|]. by apply num_tag.
Qed.

Lemma delim_num r : delim r → match r with [] => True | c :: _ => num_char c = false end.
Proof. destruct r as [|c r]; [done|]. by intros [-> |[-> | ->]]. Qed.

Lemma tags_agree v w r r' : floats_ok v = true → floats_ok w = true →
  print v ++ r = print w ++ r' → vtag v = vtag w.
Proof.
  intros Hv Hw. destruct (print_head v Hv) as (c & t & -> & <-).
  destruct (print_head w Hw) as (c' & t' & -> & <-). by intros [= ->].
Qed.

Definition injective_at (v : json) : Prop := ∀ w r r',
  floats_ok v = true → floats_ok w = true → delim r → delim r' →
  print v ++ r = print w ++ r' → v = w ∧ r = r'.

Lemma print_num_inj v w r r' : vtag v = 2%nat → vtag w = 2%nat →
  floats_ok v = true → floats_ok w = true → delim r → delim r' →
  print v ++ r = print w ++ r' → v = w ∧ r = r'.
Proof.
  intros Tv Tw Hv Hw Hr Hr' H.
  assert (Hnum : ∀ v, vtag v = 2%nat → floats_ok v = true → Forall (λ c, num_char c = true) (print v)).
  { intros [|[]|n|s|s|l|l] T Hf; try done; simpl.
    - destruct (pretty_chars n) as [Hc _]. eapply Forall_impl; [exact Hc|]. intros c. apply int_num.
    - by apply float_chars. }
  destruct (token_split _ _ _ _ _ (Hnum v Tv Hv) (Hnum w Tw Hw) (delim_num _ Hr) (delim_num _ Hr') H) as [E ->].
  split; [|done].
  assert (Hmix : ∀ (n : Z) s, float_repr s = true → str_bytes (pretty n) = str_bytes s → False).
  { intros n s Hs Es. destruct (float_chars s Hs) as (_ & _ & c & Hc & Hi). rewrite <- Es in Hc.
    destruct (pretty_chars n) as [Hp _]. rewrite Forall_forall in Hp. rewrite (Hp c Hc) in Hi. done. }
  destruct v as [|[]|n|s|s|l|l], w as [|[]|m|t|t|k|k]; try done; simpl in E.
  - by apply str_bytes_inj, (inj pretty) in E as ->.
  - by destruct (Hmix n t Hw E).
  - by destruct (Hmix m s Hv (eq_sym E)).
  - by apply str_bytes_inj in E as ->.
Qed.

Lemma print_items_inj l : Forall injective_at l → ∀ k r r',
  forallb floats_ok l = true → forallb floats_ok k = true →
  print_items l ++ r = print_items k ++ r' → l = k ∧ r = r'.
Proof.
  assert (Hhead : ∀ x (s : list ascii) r r', floats_ok x = true →
    str_bytes "]" ++ r = (print x ++ s) ++ r' → False).
  { intros x s r r' Hx H. destruct (print_head x Hx) as (c & t & E & T). rewrite E in H. injection H as <- _.
    destruct x as [|[]| | | | |]; done. }
  assert (Htail : ∀ (l : list json) r, delim (match l with [] => str_bytes "]" | _ => str_bytes "," ++ print_items l end ++ r))
    by (intros [|] ?; simpl; auto).
  induction 1 as [|x l Hx Hl IH]; intros [|y k] r r' Fl Fk H; cbn [print_items forallb] in *.
  - by injection H as ->.
  - apply andb_true_iff in Fk as [Fy _]. by destruct (Hhead y _ _ _ Fy H).
  - apply andb_true_iff in Fl as [Fx _]. by destruct (Hhead x _ _ _ Fx (eq_sym H)).
  - apply andb_true_iff in Fk as [Fy Fk]. apply andb_true_iff in Fl as [Fx Fl].
    rewrite <- !app_assoc in H.
    destruct (Hx y _ _ Fx Fy (Htail l r) (Htail k r') H) as [-> E].
    destruct l as [|x' l], k as [|y' k]; try done.
    + by injection E as ->.
    + injection E as E. by destruct (IH _ _ _ Fl Fk E) as [-> ->].
Qed.

Lemma print_pairs_inj l : Forall injective_at l.*2 → ∀ k r r',
  forallb (λ '(_, x), floats_ok x) l = true → forallb (λ '(_, x), floats_ok x) k = true →
  print_pairs l ++ r = print_pairs k ++ r' → l = k ∧ r = r'.
Proof.
  assert (Htail : ∀ (l : list (string * json)) r,
    delim (match l with [] => str_bytes "}" | _ => str_bytes "," ++ print_pairs l end ++ r))
    by (intros [|] ?; simpl; auto).
  induction l as [|[a x] l IH]; intros Hall [|[b y] k] r r' Fl Fk H; cbn [print_pairs forallb] in *.
  - by injection H as ->.
  - rewrite quote_bytes in H. done.
  - rewrite quote_bytes in H. done.
  - apply andb_true_iff in Fk as [Fy Fk]. apply andb_true_iff in Fl as [Fx Fl].
    apply Forall_cons in Hall as [Hx Hall]. rewrite <- !app_assoc in H.
    apply quote_inj in H as [-> H]. injection H as H.
    destruct (Hx y _ _ Fx Fy (Htail l r) (Htail k r') H) as [E1 E]. simpl in E1. subst y.
    destruct l as [|x' l], k as [|y' k]; try done.
    + by injection E as ->.
    + injection E as E. by destruct (IH Hall _ _ _ Fl Fk E) as [-> ->].
Qed.

Lemma print_inj v : injective_at v.
Proof.
  induction v as [|b|n|f|s|l IH|kvs IH] using json_rect'; intros w r r' Hv Hw Hr Hr' H;
    pose proof (tags_agree _ w _ _ Hv Hw H) as T;
    try (by apply print_num_inj; try done; by symmetry).
  - destruct w as [|[]| | | | |]; try done. by injection H as ->.
  - destruct b, w as [|[]| | | | |]; try done; by injection H as ->.
  - destruct w as [|[]| | |t| |]; try done. simpl in H. by apply quote_inj in H as [-> ->].
  - destruct w as [|[]| | | |k|]; try done. rewrite !print_list, <- !app_assoc in H.
    apply app_inv_head in H. by destruct (print_items_inj l IH k r r' Hv Hw H) as [-> ->].
  - destruct w as [|[]| | | | |k]; try done. rewrite !print_obj, <- !app_assoc in H.
    apply app_inv_head in H. by destruct (print_pairs_inj kvs IH k r r' Hv Hw H) as [-> ->].
Qed.

Lemma floats_ok_canonical v : floats_ok (canonical v) = floats_ok v.
Proof.
  induction v as [|b|n|f|s|l IH|kvs IH] using json_rect'; try done; cbn [canonical floats_ok].
  - induction IH as [|x l Hx _ IHl]; [done|]. simpl. by rewrite Hx, IHl.
  - assert (Hp : ∀ l k : list (string * json), l ≡ₚ k →
      forallb (λ '(_, x), floats_ok x) l = forallb (λ '(_, x), floats_ok x) k).
    { induction 1 as [|[] ??? IHp|[] [] ?|???????]; simpl; [done|by rewrite IHp| |congruence].
      by rewrite !andb_assoc, (andb_comm (floats_ok j)). }
    rewrite (Hp _ _ (sort_keys_Permutation _)).
    induction kvs as [|[k x] kvs IHl]; [done|]. apply Forall_cons in IH as [Hx IH]. simpl in *.
    by rewrite Hx, IHl.
Qed.

Lemma dumps_inj v w : floats_ok v = true → floats_ok w = true →
  dumps v = dumps w → canonical v = canonical w.
Proof.
  intros Hv Hw H. apply (f_equal str_bytes) in H. rewrite !dumps_print in H.
  destruct (print_inj (canonical v) (canonical w) [] []) as [E _]; rewrite ?floats_ok_canonical; try done.
  by rewrite !app_nil_r.
Qed.

(** A dictionary looked up through its sorted form. *)
Lemma assoc_insert_key {A} k kv (l : list (string * A)) : kv.1 ∉ l.*1 →
  assoc k (insert_key kv l) = if String.eqb k kv.1 then Some kv.2 else assoc k l.
Proof.
  destruct kv as [k0 x0]. induction l as [|[k1 x1] l IH]; simpl; intros Hn; [done|].
  apply not_elem_of_cons in Hn as [Hne Hn]. destruct (str_leb k0 k1); simpl; [done|]. rewrite IH by done. simpl.
  destruct (String.eqb k k1) eqn:E1, (String.eqb k k0) eqn:E0; try done.
  apply String.eqb_eq in E1, E0. congruence.
Qed.

Lemma assoc_sort_keys {A} k (l : list (string * A)) : NoDup l.*1 → assoc k (sort_keys l) = assoc k l.
Proof.
  induction l as [|[k0 x0] l IH]; simpl; intros Hnd; [done|]. apply NoDup_cons in Hnd as [Hn Hnd].
  rewrite assoc_insert_key by (by rewrite sort_keys_Permutation). simpl. by rewrite IH.
Qed.

Lemma jget_canonical k v : NoDup (jkeys v) → jget k (canonical v) = canonical <$> jget k v.
Proof.
  destruct v as [| | | | | |kvs]; try done. simpl. intros Hnd. rewrite assoc_sort_keys.
  - clear Hnd. induction kvs as [|[k0 x0] l IH]; simpl; [done|]. by destruct (String.eqb k k0).
  - replace (map (λ '(k, x), (k, canonical x)) kvs).*1 with kvs.*1; [done|].
    rewrite <- list_fmap_compose. apply list_fmap_ext. intros ? [] ?. done.
Qed.

Lemma digest_Ok v d : digest v = Ok d → d = sha256_hex (dumps v).
Proof.
  unfold digest. destruct (wire v) as [w|] eqn:E; simpl; [|done]. intros [= <-].
  by apply wire_Ok in E as (_ & _ & ->).
Qed.

(** Documents with one digest are one document, among collision-free texts. *)
Lemma digest_canonical v w d texts : digest v = Ok d → digest w = Ok d →
  floats_ok v = true → floats_ok w = true → collision_free texts → dumps v ∈ texts → dumps w ∈ texts →
  canonical v = canonical w.
Proof.
  intros Hv%digest_Ok Hw%digest_Ok Fv Fw Hc Iv Iw. apply dumps_inj; try done.
  apply Hc; try done. apply hex_inj. unfold sha256_hex in *. congruence.
Qed.

(** ** Sorting the keys changes no encoding *)

Lemma str_leb_ltb a b : str_leb a b = negb (str_ltb b a).
Proof. unfold str_leb, str_ltb. rewrite (String.compare_antisym b a). by destruct (String.compare a b). Qed.

Lemma sort_keys_sorted {A} (l : list (string * A)) :
  StronglySorted (λ a b : string * A, str_leb a.1 b.1 = true) (sort_keys l).
Proof.
  assert (Htr : ∀ a b c, str_leb a b = true → str_leb b c = true → str_leb a c = true).
  { intros a b c. rewrite !str_leb_ltb, !negb_true_iff. intros. by eapply str_geb_trans. }
  induction l as [|kv l IH]; simpl; [constructor|]. revert IH. generalize (sort_keys l). clear l. intros l Hl.
  induction Hl as [|x l Hl IH Hx]; simpl; [by repeat constructor|].
  destruct (str_leb kv.1 x.1) eqn:E.
  - constructor; [by constructor|]. constructor; [done|]. eapply Forall_impl; [exact Hx|]. intros y. by apply Htr.
  - constructor; [done|]. assert (Hp : insert_key kv l ≡ₚ kv :: l).
    { clear. induction l as [|z l IH]; simpl; [done|]. destruct (str_leb _ _); [done|]. rewrite IH. by constructor. }
    rewrite Hp. constructor; [|done]. rewrite str_leb_ltb, negb_false_iff in E. rewrite str_leb_ltb, negb_true_iff.
    by apply str_ltb_asym.
Qed.

Lemma sort_keys_id {A} (l : list (string * A)) :
  StronglySorted (λ a b : string * A, str_leb a.1 b.1 = true) l → sort_keys l = l.
Proof.
  induction 1 as [|x l Hl IH Hx]; simpl; [done|]. rewrite IH. destruct l as [|y l]; simpl; [done|].
  by apply Forall_cons in Hx as [-> _].
Qed.

Lemma canonical_pair (kvs : list (string * json)) :
  map (λ '(k, x), (k, canonical x)) kvs = map (λ kv, (kv.1, canonical kv.2)) kvs.
Proof. apply map_ext. by intros []. Qed.

Lemma canonical_canonical v : canonical (canonical v) = canonical v.
Proof.
  induction v as [|b|n|f|s|l IH|kvs IH] using json_rect'; try done; cbn [canonical]; f_equal.
  - rewrite map_map. induction IH as [|x l Hx _ IHl]; simpl; [done|]. by rewrite Hx, IHl.
  - rewrite !canonical_pair, !sort_keys_map. rewrite (sort_keys_id (sort_keys kvs)) by apply sort_keys_sorted.
    rewrite map_map. apply Forall_map in IH. rewrite <- (sort_keys_Permutation kvs) in IH.
    apply map_ext_in. intros [k x] Hx%list_elem_of_In. rewrite Forall_forall in IH. simpl. f_equal. by apply (IH _ Hx).
Qed.

Lemma dumps_canonical v : dumps (canonical v) = dumps v.
Proof.
  apply str_bytes_inj. by rewrite !dumps_print, canonical_canonical.
Qed.

(** A measure that folds a commutative operation over the members of an object
    does not see their order. *)
Section measure.
Context {N : Type} (op : N → N → N) (unit : N) (f : string → json → N).
Hypothesis op_swap : ∀ a b c, op a (op b c) = op b (op a c).
Lemma fold_members (l k : list (string * json)) : l ≡ₚ k →
  fold_right (λ '(k, x) n, op (f k x) n) unit l = fold_right (λ '(k, x) n, op (f k x) n) unit k.
Proof. induction 1 as [|[] ??? IH|[] [] ?|]; simpl; [done|by rewrite IH|apply op_swap|congruence]. Qed.
End measure.

Lemma forallb_members (p : string * json → bool) (l k : list (string * json)) : l ≡ₚ k → forallb p l = forallb p k.
Proof.
  induction 1 as [|???? IH|x y l|]; simpl; [done|by rewrite IH| |congruence].
  by rewrite !andb_assoc, (andb_comm (p y)).
Qed.

Lemma within_bounds_canonical v : within_bounds (canonical v) = within_bounds v.
Proof.
  assert (depth_of (canonical v) = depth_of v ∧ nodes (canonical v) = nodes v ∧
    tree_bytes (canonical v) = tree_bytes v ∧ all_finite (canonical v) = all_finite v) as (Hd & Hn & Ht & Hf).
  2:{ unfold within_bounds. by rewrite Hd, Hn, Ht, Hf. }
  induction v as [|b|n|r|s|l IH|kvs IH] using json_rect'; try done; cbn [canonical depth_of nodes tree_bytes all_finite].
  - induction IH as [|x l (Hd & Hn & Ht & Hf) _ IHl]; simpl; [done|]. destruct IHl as (Hd' & Hn' & Ht' & Hf').
    split_and!; [congruence|lia|lia|congruence].
  - pose proof (sort_keys_Permutation (map (λ '(k, x), (k, canonical x)) kvs)) as Hp.
    rewrite (fold_members Nat.max 0%nat (λ _ x, S (depth_of x)) ltac:(lia) _ _ Hp).
    rewrite (fold_members Nat.add 0%nat (λ _ x, nodes x) ltac:(lia) _ _ Hp).
    rewrite (fold_members Z.add 0 (λ k x, str_len k + tree_bytes x) ltac:(lia) _ _ Hp).
    rewrite (forallb_members _ _ _ Hp). clear Hp. apply Forall_map in IH.
    induction IH as [|[k x] l (Hd & Hn & Ht & Hf) _ IHl]; simpl in *; [done|]. destruct IHl as (Hd' & Hn' & Ht' & Hf').
    split_and!; [congruence|lia|lia|congruence].
Qed.

(** [digest(json.loads(wire(value))) == digest(value)] *)
Lemma wire_canonical v : wire (canonical v) = wire v.
Proof.
  unfold wire. rewrite !validate_json_tree_eq, within_bounds_canonical. by rewrite dumps_canonical.
Qed.
Lemma digest_of_canonical v : digest (canonical v) = digest v.
Proof. unfold digest. by rewrite wire_canonical. Qed.
