(* ===== verification/JournalSpec.v ===== *)
(** * What the signed journal guarantees

    An append extends the history by exactly one verifiable row, a retained
    checkpoint accepts only extensions and signed rotations, and the tip of a
    chain determines its rows. *)

From S2P Require Import Prelude Sha256 Base64 Wire Origin Journal Canon.
Local Open Scope Z_scope.

(** ** Dictionaries *)

Lemma jget_jset_same k x v : is_obj v = true → jget k (jset k x v) = Some x.
Proof. destruct v; [done..|]. intros _. apply assoc_set_same. Qed.

Lemma jget_jset_other k k' x v : String.eqb k' k = false → jget k' (jset k x v) = jget k' v.
Proof. destruct v; [done..|]. intros H. by apply assoc_set_other, String.eqb_neq. Qed.

Lemma is_obj_jset k x v : is_obj (jset k x v) = is_obj v.
Proof. by destruct v. Qed.

Lemma count_Ok' v lo hi w : count v lo hi = Ok w ↔ lo <= v <= hi ∧ w = v.
Proof.
  unfold count. destruct (_ && _) eqn:E; simpl.
  - apply andb_true_iff in E as [? ?]; zbool. naive_solver lia.
  - split; [done|]. intros [H _]. apply andb_false_iff in E as [?|?]; zbool; lia.
Qed.

(** ** The reader *)

Definition line_ok (l : line) (v : json) : Prop :=
  l_value l = Some v ∧ l_bytes l <= MAX_BYTES ∧ l_newline l = true ∧ is_obj v = true ∧
  is_ok (wire v) = true.

Lemma wire_is_ok v : is_ok (wire v) = true → ∃ w, wire v = Ok w.
Proof. destruct (wire v) as [w|]; [by exists w|done]. Qed.

Lemma loads_line_ok l v : line_ok l v → loads_line l = Ok v.
Proof.
  intros (Hv & Hb & _ & _ & (w & (Hw & _)%wire_Ok)%wire_is_ok). unfold loads_line.
  rewrite (proj2 (Z.leb_le _ _) Hb), Hv. simpl. by rewrite validate_json_tree_eq, Hw.
Qed.

Lemma rows_loop_snoc lines : ∀ total n vs l v,
  rows_loop total n lines = Ok vs → line_ok l v →
  total + fold_right (λ l n, l_bytes l + n) 0 lines + l_bytes l <= 64 * MAX_BYTES →
  n + Z.of_nat (length lines) < MAX_ROWS →
  rows_loop total n (lines ++ [l]) = Ok (vs ++ [v]).
Proof.
  induction lines as [|l0 lines IH]; intros total n vs l v Hr Hl Hsz Hn; simpl in *.
  - injection Hr as <-. destruct (Hl) as (Hv & Hb & Hnl & Ho & (w & Hw)%wire_is_ok).
    rewrite (proj2 (Z.leb_le (total + l_bytes l) _)) by lia. simpl.
    rewrite (proj2 (Z.leb_gt MAX_ROWS n)), (proj2 (Z.ltb_ge _ (l_bytes l))), Hnl by lia. simpl.
    rewrite (loads_line_ok _ _ Hl). simpl. rewrite Ho. simpl. by rewrite Hw.
  - apply bind_Ok in Hr as ([] & Ht%require_Ok & Hr). apply bind_Ok in Hr as ([] & Hc%require_Ok & Hr).
    apply bind_Ok in Hr as (v0 & Hv0 & Hr). apply bind_Ok in Hr as ([] & Ho%require_Ok & Hr).
    apply bind_Ok in Hr as (w & Hw & Hr). apply bind_Ok in Hr as (vs0 & Hvs & Hr). injection Hr as <-.
    rewrite Ht, Hc. simpl. rewrite Hv0. simpl. rewrite Ho. simpl. rewrite Hw. simpl.
    rewrite (IH _ _ vs0 l v); [done|done|done|lia|lia].
Qed.

Lemma rows_loop_length total n lines vs : rows_loop total n lines = Ok vs → length vs = length lines.
Proof.
  revert total n vs. induction lines as [|l lines IH]; simpl; intros total n vs H; [by injection H as <-|].
  apply bind_Ok in H as (_ & _ & H). apply bind_Ok in H as (_ & _ & H). apply bind_Ok in H as (v & _ & H).
  apply bind_Ok in H as (_ & _ & H). apply bind_Ok in H as (w & _ & H). apply bind_Ok in H as (vs' & Hv & H).
  injection H as <-. simpl. by rewrite (IH _ _ _ Hv).
Qed.

(** ** The chain *)

Section spec.
Context `{ED : Ed25519, EDL : !Ed25519Laws}.
Variable retained_size : list json → Z.

(** Row [index] of a chain, after digest [previous], with its own digest. *)
Definition row_ok (i : identity) (index : Z) (previous : string) (row : json) (d : string) : Prop :=
  ∃ record, jget "record" row = Some record ∧ store_verify i row = Ok true ∧ is_obj record = true ∧
    json_eq_int (default JNull (jget "sequence" record)) index = true ∧
    jget "previous" record = Some (JStr previous) ∧ digest row = Ok d.

Lemma check_chain_cons i index previous row rest t :
  check_chain i index previous (row :: rest) = Ok t ↔
  ∃ d, (row_ok i index previous row d) ∧ check_chain i (index + 1) d rest = Ok t.
Proof.
  simpl. split.
  - intros H. apply bind_Ok in H as (ok & Hok & H). apply bind_Ok in H as ([] & ->%require_Ok & H).
    apply bind_Ok in H as ([] & Ho%require_Ok & H). apply bind_Ok in H as ([] & Hs%require_Ok & H).
    apply bind_Ok in H as ([] & Hp%require_Ok & H). apply bind_Ok in H as (d & Hd & H).
    apply jstr_eqb_eq in Hp. exists d. split; [|done].
    destruct (jget "record" row) as [record|] eqn:Er; simpl in *; [|done].
    exists record. split_and!; try done. destruct (jget "previous" record); simpl in Hp; [by subst|done].
  - intros (d & (record & Er & Hv & Ho & Hs & Hp & Hd) & H). rewrite Hv, Er. simpl. rewrite Ho. simpl.
    rewrite Hs. simpl. rewrite Hp. simpl. rewrite String.eqb_refl. simpl. by rewrite Hd.
Qed.

Lemma check_chain_snoc i rows : ∀ index previous t row d,
  check_chain i index previous rows = Ok t → row_ok i (index + Z.of_nat (length rows)) t row d →
  check_chain i index previous (rows ++ [row]) = Ok d.
Proof.
  induction rows as [|r rows IH]; intros index previous t row d Hc Hr.
  - injection Hc as <-. simpl length in Hr. rewrite Z.add_0_r in Hr. apply check_chain_cons. by exists d.
  - apply check_chain_cons in Hc as (d0 & Hr0 & Hc). apply check_chain_cons. exists d0. split; [done|].
    apply (IH _ _ t); [done|]. simpl length in Hr.
    replace (index + 1 + Z.of_nat (length rows)) with (index + Z.of_nat (S (length rows))) by lia. done.
Qed.

(** Verification only grows when [sign] creates the HMAC key. *)
Lemma store_verify_extends i i' row :
  config_file i' = config_file i → ed_file i' = ed_file i →
  (hmac_file i' = hmac_file i ∨ hmac_file i = None) →
  store_verify i row = Ok true → store_verify i' row = Ok true.
Proof.
  intros Hc He Hh. unfold store_verify. destruct (jget "authority" row) as [[]|]; try done.
  destruct (TRUST s); [|done]. destruct (jstr_eqb _ "ed25519").
  - unfold signing_config. by rewrite Hc.
  - unfold _key. simpl. intros Hv. destruct Hh as [E|E].
    + rewrite E. destruct (hmac_file i); simpl in *; [|done]. by destruct (_ =? 32).
    + by rewrite E in Hv.
Qed.

Lemma check_chain_extends i i' rows :
  config_file i' = config_file i → ed_file i' = ed_file i →
  (hmac_file i' = hmac_file i ∨ hmac_file i = None) →
  ∀ index previous t, check_chain i index previous rows = Ok t → check_chain i' index previous rows = Ok t.
Proof.
  intros Hc He Hh. induction rows as [|r rows IH]; intros index previous t; [done|].
  rewrite !check_chain_cons. intros (d & (rec & Hr & Hv & Ho & Hs & Hp & Hd) & H).
  exists d. split; [|by apply IH]. exists rec. split_and!; try done. by eapply store_verify_extends.
Qed.

Lemma sign_extends i record writer fresh signed i' : sign i record writer fresh = Ok (signed, i') →
  config_file i' = config_file i ∧ ed_file i' = ed_file i ∧
  (hmac_file i' = hmac_file i ∨ hmac_file i = None).
Proof.
  unfold sign. intros H. apply bind_Ok in H as (w & _ & H). apply bind_Ok in H as (config & Hc & H).
  apply bind_Ok in H as (a & _ & H). apply bind_Ok in H as ([k i1] & Hk & H).
  apply bind_Ok in H as (k' & _ & H). apply bind_Ok in H as (s & _ & H). injection H as _ <-.
  unfold _key in Hk. destruct (String.eqb (py_str a) "hmac-sha256") eqn:Eh.
  - apply String.eqb_eq in Eh. rewrite Eh in Hk. simpl in Hk.
    destruct (hmac_file i) eqn:Ef; simpl in Hk; rewrite ?Ef in Hk;
      (destruct (_ =? 32); simpl in Hk; [|done]); injection Hk as _ <-; auto.
  - destruct (if String.eqb (py_str a) "ed25519" then ed_file i else hmac_file i);
      [destruct (_ =? 32); simpl in Hk; [|done]|]; injection Hk as _ <-; auto.
Qed.

(** ** The retained state *)

Definition journal_valid (st : store) (name : string) (vs : list json) (t : string) : Prop :=
  rows (s_files st !! name) = Ok vs ∧ check_chain (s_identity st) 0 "" vs = Ok t.

(** A cache entry whose stamps are current holds the verified rows; every
    stamp was given out before the present clock. *)
Definition cache_ok (st : store) (name : string) (vs : list json) (t : string) : Prop :=
  (∀ f, s_files st !! name = Some f → f_version f < s_clock st) ∧
  ∀ c, cache_get name (s_cache st) = Some c →
    (∀ v size, stamp c = Some (v, size) → v < s_clock st) ∧ pins c <= s_pins st ∧
    (stamp c = _stamp st name → pins c = s_pins st → signed c = vs ∧ tip c = t).

Lemma cache_get_last name c j : cache_get name (cache_del name c ++ [(name, j)]) = Some j.
Proof.
  induction c as [|[n c0] c IH]; simpl; [by rewrite String.eqb_refl|].
  destruct (String.eqb n name) eqn:E; simpl; [done|]. by rewrite E.
Qed.

Lemma cache_get_evict name c j x :
  cache_get name (evict (cache_del name c ++ [(name, j)])) = Some x → x = j.
Proof.
  induction c as [|[n c0] c IH]; simpl.
  - case_match; simpl; [done|]. rewrite String.eqb_refl. by intros [= <-].
  - destruct (String.eqb n name) eqn:E; simpl; [done|].
    case_match; [done|]. simpl. rewrite E. intros Hx. rewrite cache_get_last in Hx. by injection Hx.
Qed.

Lemma filename_Ok st name n : filename st name = Ok n → n = name ∧
  (∀ f, s_files st !! name = Some f → f_symlink f = false).
Proof.
  unfold filename. intros H. apply bind_Ok in H as ([] & _ & H).
  apply bind_Ok in H as ([] & Hs%require_Ok & [= <-]). split; [done|].
  intros f Hf. rewrite Hf in Hs. by destruct (f_symlink f).
Qed.

(** What [_state] returns, and that it touches nothing but the cache. *)
Lemma _state_spec st name vs t j st' :
  journal_valid st name vs t → cache_ok st name vs t →
  _state retained_size st name = Ok (j, st') →
  signed j = vs ∧ tip j = t ∧ stamp j = _stamp st name ∧
  (∃ c, st' = set_cache st c) ∧ cache_ok st' name vs t.
Proof.
  intros [Hrows Hchain] [Hver Hcache] H. unfold _state in H.
  apply bind_Ok in H as (n & [-> _]%filename_Ok & H).
  assert (Hfresh : ∀ w, stamp (Journal (_stamp st name) (s_pins st) vs t w) = _stamp st name ∧
    cache_ok (_remember st name (Journal (_stamp st name) (s_pins st) vs t w)) name vs t).
  { intros w. split; [done|]. split; [done|]. intros c Hc. simpl in Hc.
    apply cache_get_evict in Hc as ->. simpl. split_and!; [|lia|done].
    unfold _stamp. intros v size Hs. destruct (s_files st !! name) as [f|] eqn:Ef; [|done].
    injection Hs as <- _. by apply (Hver f). }
  destruct (cache_get name (s_cache st)) as [c|] eqn:Ec.
  - destruct (Hcache c eq_refl) as (Hv & Hp & Hcur).
    destruct (bool_decide (stamp c = _stamp st name) && (pins c =? s_pins st)) eqn:Eb.
    + injection H as <- <-. apply andb_true_iff in Eb as [Es%bool_decide_eq_true Ep]. zbool.
      destruct (Hcur Es Ep) as [Hs Ht]. split_and!; try done; [by eexists|].
      split; [done|]. intros c' Hc'. simpl in Hc'. rewrite cache_get_last in Hc'. injection Hc' as <-. done.
    + rewrite Hrows in H. simpl in H. rewrite Hchain in H. simpl in H.
      apply bind_Ok in H as (_ & _ & H). injection H as <- <-.
      destruct (Hfresh (retained_size vs)). split_and!; try done. by eexists.
  - rewrite Hrows in H. simpl in H. rewrite Hchain in H. simpl in H. injection H as <- <-.
    destruct (Hfresh (retained_size vs)). split_and!; try done. by eexists.
Qed.

Lemma chained_body record n t now : is_obj record = true →
  let body := jupdate record [("sequence", JInt n); ("previous", JStr t); ("recorded_at", JStr now)]%string in
  is_obj body = true ∧ jget "sequence" body = Some (JInt n) ∧ jget "previous" body = Some (JStr t) ∧
  ∀ k, k ∉ ["sequence"; "previous"; "recorded_at"]%string → jget k body = jget k record.
Proof.
  intros Ho. simpl. split_and!.
  - by rewrite !is_obj_jset.
  - rewrite jget_jset_other, jget_jset_other, jget_jset_same; done.
  - rewrite jget_jset_other, jget_jset_same; rewrite ?is_obj_jset; done.
  - intros k Hk. rewrite !jget_jset_other; [done|..]; apply String.eqb_neq; intros ->; apply Hk; set_solver.
Qed.

Lemma json_eq_int_refl n : json_eq_int (JInt n) n = true.
Proof. apply Z.eqb_refl. Qed.

Lemma is_ok_Ok {A} (r : res pyexn A) a : r = Ok a → is_ok r = true.
Proof. by intros ->. Qed.

(** The row [append] writes is the next row of the chain. *)
Lemma sign_row_ok i i' record n t now writer fresh row d :
  identity_ok i → is_Some (TRUST writer.2) → byte_len fresh = 32 → is_obj record = true →
  sign i (jupdate record [("sequence", JInt n); ("previous", JStr t); ("recorded_at", JStr now)]%string)
       writer fresh = Ok (row, i') →
  digest row = Ok d →
  row_ok i' n t row d ∧ is_obj row = true ∧ identity_ok i'.
Proof.
  intros Hi Ht Hf Ho Hs Hd. destruct (chained_body record n t now Ho) as (Hbo & Hseq & Hprev & _).
  destruct (sign_verifies _ _ _ _ _ _ Hi Ht Hf Hs) as (Hv & Hi' & Hr & Hro).
  split_and!; [|done|done]. eexists. split_and!; [exact Hr|exact Hv|exact Hbo| |exact Hprev|done].
  rewrite Hseq. apply json_eq_int_refl.
Qed.

Lemma append_aux st name record writer fresh now vs t row st' :
  identity_ok (s_identity st) → is_Some (TRUST writer.2) → byte_len fresh = 32 → is_obj record = true →
  journal_valid st name vs t → cache_ok st name vs t →
  append retained_size st name record writer fresh now = Ok (row, st') →
  byte_len (dumps_plain row) < MAX_BYTES →
  ∃ t', journal_valid st' name (vs ++ [row]) t' ∧ cache_ok st' name (vs ++ [row]) t' ∧
    identity_ok (s_identity st') ∧
    jget "record" row = Some (jupdate record [("sequence", JInt (Z.of_nat (length vs)));
                                ("previous", JStr t); ("recorded_at", JStr now)]%string) ∧
    (∀ other, other ≠ name → s_files st' !! other = s_files st !! other).
Proof.
  intros Hi Ht Hf Ho Hj Hc H Hlen. unfold append in H.
  apply bind_Ok in H as (n & [-> Hlink]%filename_Ok & H).
  apply bind_Ok in H as ([j st1] & Hst & H).
  destruct (_state_spec _ _ _ _ _ _ Hj Hc Hst) as (Hjs & Hjt & Hjst & (c & ->) & Hc1).
  apply bind_Ok in H as (n & [Hn ->]%count_Ok' & H). rewrite Hjs, Hjt in *.
  apply bind_Ok in H as ([row' i] & Hsign & H). apply bind_Ok in H as (w & Hw & H).
  apply bind_Ok in H as ([] & Hb%require_Ok & H). apply bind_Ok in H as ([] & Hsz%require_Ok & H).
  apply bind_Ok in H as (d & Hd & H). injection H as -> <-. zbool. simpl in Hsign.
  destruct (sign_extends _ _ _ _ _ _ Hsign) as (Hcf & Hed & Hhm).
  destruct (sign_row_ok _ _ _ _ _ _ _ _ _ _ Hi Ht Hf Ho Hsign Hd) as (Hrow & Hro & Hi').
  destruct Hj as [Hrows Hchain]. destruct Hc as [Hver _].
  assert (Hrows' : rows_loop 0 0 (file_lines st name ++ [encoded_line row]) = Ok (vs ++ [row])).
  { unfold file_lines, rows in *. rewrite Hjst in Hsz. unfold _stamp, file_size in Hsz.
    assert (Hlo : line_ok (encoded_line row) row)
      by (split_and!; simpl; try done; [lia|by eapply is_ok_Ok]).
    destruct (s_files st !! name) as [f|]; simpl in *.
    - pose proof (rows_loop_length _ _ _ _ Hrows).
      apply rows_loop_snoc; [done|done|simpl; lia|]. unfold MAX_ROWS in *. lia.
    - injection Hrows as <-. exact (rows_loop_snoc [] 0 0 [] _ _ eq_refl Hlo ltac:(simpl; lia)
        ltac:(unfold MAX_ROWS; simpl; lia)). }
  exists d. split_and!.
  - split; simpl.
    + unfold file_lines in *. by rewrite lookup_insert_eq.
    + apply (check_chain_snoc _ _ _ _ t); [by eapply check_chain_extends|done].
  - split; simpl.
    + intros f. rewrite lookup_insert_eq. intros [= <-]. simpl. lia.
    + intros c' Hc'%cache_get_evict. subst c'. simpl. split_and!; [|lia|done].
      unfold _stamp. simpl. rewrite lookup_insert_eq. simpl. intros v size [= <- <-]. lia.
  - done.
  - by destruct (sign_verifies _ _ _ _ _ _ Hi Ht Hf Hsign) as (_ & _ & Hr & _).
  - intros other Hne. simpl. by rewrite lookup_insert_ne.
Qed.

(** A process without retained state verifies the file from its bytes. *)
Lemma _state_fresh st name vs t :
  journal_valid st name vs t → is_ok (filename st name) = true →
  ∃ j st', _state retained_size (set_cache st []) name = Ok (j, st') ∧ signed j = vs ∧ tip j = t.
Proof.
  intros [Hr Hc] Hf. unfold _state. change (filename (set_cache st []) name) with (filename st name).
  destruct (filename st name) as [n|] eqn:E; [|done]. apply filename_Ok in E as [-> _].
  simpl. rewrite Hr. simpl. rewrite Hc. simpl. eexists _, _. split_and!; done.
Qed.

(** ** Rotation *)

Lemma rotate_rows_spec records : ∀ i index t total writer fresh now out i' lines n,
  identity_ok i → is_Some (TRUST writer.2) → byte_len fresh = 32 →
  Forall (λ r, is_obj r = true) records →
  rotate_rows i index t total records writer fresh now = Ok (out, i') →
  Forall (λ r, byte_len (dumps_plain r) < MAX_BYTES) out →
  n + Z.of_nat (length records) <= MAX_ROWS →
  lines = map encoded_line out →
  (∃ t', check_chain i' index t out = Ok t') ∧ rows_loop total n lines = Ok out ∧
  length out = length records ∧ identity_ok i' ∧
  config_file i' = config_file i ∧ ed_file i' = ed_file i ∧
  (hmac_file i' = hmac_file i ∨ hmac_file i = None).
Proof.
  induction records as [|r records IH]; intros i index t total writer fresh now out i' lines n
    Hi Ht Hf Ho H Hlen Hn ->; cbn [rotate_rows] in H.
  - injection H as <- <-. split_and!; eauto.
  - apply Forall_cons in Ho as [Hor Ho].
    apply bind_Ok in H as ([row i1] & Hsign & H). apply bind_Ok in H as (w & Hw & H).
    apply bind_Ok in H as ([] & Hb%require_Ok & H). apply bind_Ok in H as ([] & Hsz%require_Ok & H).
    apply bind_Ok in H as (d & Hd & H). apply bind_Ok in H as ([out' i2] & Hrest & H). injection H as <- <-.
    apply Forall_cons in Hlen as [Hl Hlen]. zbool. simpl length in *.
    destruct (sign_row_ok _ _ _ _ _ _ _ _ _ _ Hi Ht Hf Hor Hsign Hd) as (Hrow & Hro & Hi1).
    destruct (sign_extends _ _ _ _ _ _ Hsign) as (Hcf & Hed & Hhm).
    destruct (IH _ _ _ _ _ _ _ _ _ _ (n + 1) Hi1 Ht Hf Ho Hrest Hlen ltac:(lia) eq_refl)
      as ((t' & Hc) & Hrl & Hll & Hi2 & Hcf2 & Hed2 & Hhm2).
    split_and!.
    + exists t'. apply check_chain_cons. exists d. split; [|done].
      destruct Hrow as (rec & Hr1 & Hv & Hr2 & Hr3 & Hr4 & Hr5). exists rec. split_and!; try assumption.
      by eapply store_verify_extends.
    + cbn [map rows_loop encoded_line l_bytes l_newline].
      rewrite (proj2 (Z.leb_le (total + (byte_len (dumps_plain row) + 1)) _)) by lia. simpl.
      rewrite (proj2 (Z.leb_gt MAX_ROWS n)), (proj2 (Z.ltb_ge _ (byte_len (dumps_plain row) + 1))) by lia. simpl.
      rewrite (loads_line_ok _ row) by (split_and!; simpl; try done; [lia|by eapply is_ok_Ok]). simpl.
      rewrite Hro. simpl. rewrite Hw. simpl. by rewrite Hrl.
    + lia.
    + done.
    + congruence.
    + congruence.
    + destruct Hhm2 as [->|E]; [done|]. destruct Hhm as [<-|]; auto.
Qed.

(** ** The tip determines the history *)

Lemma check_chain_snoc_inv i rows : ∀ index previous row d,
  check_chain i index previous (rows ++ [row]) = Ok d →
  ∃ t, check_chain i index previous rows = Ok t ∧ row_ok i (index + Z.of_nat (length rows)) t row d.
Proof.
  induction rows as [|r rows IH]; intros index previous row d H.
  - apply check_chain_cons in H as (d' & Hr & [= <-]). exists previous. simpl length. by rewrite Z.add_0_r.
  - apply check_chain_cons in H as (d0 & Hr0 & H). apply IH in H as (t & Ht & Hr). exists t. split.
    + apply check_chain_cons. by exists d0.
    + simpl length. by replace (index + Z.of_nat (S (length rows))) with (index + 1 + Z.of_nat (length rows)) by lia.
Qed.

(** Parsed rows: floats as [repr] prints them, no duplicate keys. *)
Definition parsed (row : json) : Prop :=
  floats_ok row = true ∧ NoDup (jkeys row) ∧ ∀ record, jget "record" row = Some record → NoDup (jkeys record).

Lemma canonical_JStr v s : canonical v = JStr s → v = JStr s.
Proof. by destruct v. Qed.

Lemma previous_determined i i' n m t t' row row' d : parsed row → parsed row' →
  canonical row = canonical row' → row_ok i n t row d → row_ok i' m t' row' d → t = t'.
Proof.
  intros (_ & Hk & Hrk) (_ & Hk' & Hrk') E (rec & Hr & _ & _ & _ & Hp & _) (rec' & Hr' & _ & _ & _ & Hp' & _).
  pose proof (jget_canonical "record" row Hk) as E1. pose proof (jget_canonical "record" row' Hk') as E2.
  rewrite E, E2, Hr, Hr' in E1. simpl in E1. injection E1 as E1.
  pose proof (jget_canonical "previous" rec (Hrk _ Hr)) as F1.
  pose proof (jget_canonical "previous" rec' (Hrk' _ Hr')) as F2.
  rewrite <- E1, F2, Hp, Hp' in F1. simpl in F1. by injection F1.
Qed.

Lemma chain_determined i i' rows : ∀ rows' t,
  check_chain i 0 "" rows = Ok t → check_chain i' 0 "" rows' = Ok t →
  Forall parsed rows → Forall parsed rows' → collision_free (map dumps (rows ++ rows')) →
  map canonical rows = map canonical rows'.
Proof using Type.
  clear retained_size.
  assert (Hne : ∀ i n row, row_ok i n "" row "" → False).
  { intros j n row (_ & _ & _ & _ & _ & _ & H%digest_Ok). pose proof (is_hash_sha256_hex (dumps row)) as Hh.
    rewrite <- H in Hh. done. }
  assert (Hempty : ∀ j n t row, row_ok j n t row "" → False).
  { intros j n t row (_ & _ & _ & _ & _ & _ & H%digest_Ok). pose proof (is_hash_sha256_hex (dumps row)) as Hh.
    rewrite <- H in Hh. done. }
  induction rows as [|row rows IH] using rev_ind; intros rows' t Hc Hc' Hp Hp' Hcf.
  - injection Hc as <-. destruct rows' as [|row' rows' _] using rev_ind; [done|].
    apply check_chain_snoc_inv in Hc' as (t' & _ & Hr). by destruct (Hempty _ _ _ _ Hr).
  - apply check_chain_snoc_inv in Hc as (t0 & Hc & Hr).
    destruct rows' as [|row' rows' _] using rev_ind.
    { injection Hc' as <-. by destruct (Hempty _ _ _ _ Hr). }
    apply check_chain_snoc_inv in Hc' as (t0' & Hc' & Hr').
    apply Forall_app in Hp as [Hp Hrp]. apply Forall_app in Hp' as [Hp' Hrp'].
    apply Forall_cons in Hrp as [Hrp _]. apply Forall_cons in Hrp' as [Hrp' _].
    assert (E : canonical row = canonical row').
    { apply dumps_inj; [apply Hrp|apply Hrp'|]. apply Hcf; [..|apply hex_inj].
      - apply list_elem_of_fmap. exists row. split; [done|]. rewrite !elem_of_app, !list_elem_of_singleton. auto.
      - apply list_elem_of_fmap. exists row'. split; [done|]. rewrite !elem_of_app, !list_elem_of_singleton. auto.
      - destruct Hr as (_ & _ & _ & _ & _ & _ & H%digest_Ok), Hr' as (_ & _ & _ & _ & _ & _ & H'%digest_Ok).
        by rewrite H in H'. }
    assert (t0 = t0') as <- by (by eapply (previous_determined i i' _ _ _ _ row row' t)).
    rewrite !map_app. simpl. rewrite E. f_equal. apply (IH _ t0); try done.
    eapply collision_free_sub; [|exact Hcf]. intros x.
    rewrite !map_app, !elem_of_app. tauto.
Qed.

(** ** Properties *)

(** appending to a valid journal extends its history by exactly one row.
    The row carries the record with its position, the previous tip and the
    clock; the grown file verifies again, also from its bytes by a process
    without retained state, and no other file changes. *)
Theorem append_extends st name record writer fresh now vs t row st' :
  identity_ok (s_identity st) → is_Some (TRUST writer.2) → byte_len fresh = 32 → is_obj record = true →
  journal_valid st name vs t → cache_ok st name vs t →
  append retained_size st name record writer fresh now = Ok (row, st') →
  byte_len (dumps_plain row) < MAX_BYTES →
  ∃ t', journal_valid st' name (vs ++ [row]) t' ∧ cache_ok st' name (vs ++ [row]) t' ∧
    jget "record" row = Some (jupdate record [("sequence", JInt (Z.of_nat (length vs)));
                                ("previous", JStr t); ("recorded_at", JStr now)]%string) ∧
    (∀ other, other ≠ name → s_files st' !! other = s_files st !! other) ∧
    ∃ j st'', _state retained_size (set_cache st' []) name = Ok (j, st'') ∧ signed j = vs ++ [row] ∧ tip j = t'.
Proof.
  intros Hi Ht Hf Ho Hj Hc H Hlen.
  destruct (append_aux _ _ _ _ _ _ _ _ _ _ Hi Ht Hf Ho Hj Hc H Hlen) as (t' & Hj' & Hc' & _ & Hr & Hfr).
  exists t'. split_and!; [done..|]. apply (_state_fresh _ _ _ _ Hj').
  unfold append in H. apply bind_Ok in H as (n & Hn & H).
  pose proof (filename_Ok _ _ _ Hn) as [-> _]. unfold filename in Hn.
  apply bind_Ok in Hn as ([] & Hname%require_Ok & _).
  unfold filename. rewrite Hname. simpl.
  apply bind_Ok in H as ([j st1] & Hst & H). apply bind_Ok in H as (n & _ & H).
  apply bind_Ok in H as ([row' i] & _ & H). apply bind_Ok in H as (_ & _ & H).
  apply bind_Ok in H as (_ & _ & H). apply bind_Ok in H as (_ & _ & H). apply bind_Ok in H as (d & _ & H).
  injection H as _ <-. simpl. by rewrite lookup_insert_eq.
Qed.

(** a retained checkpoint is append-only. When the file changed under a
    process that had verified a chain, [_state] accepts it only when its
    first row is a signed rotation link or when the retained rows are,
    up to key order, the first rows of the new chain; truncated and
    rewritten files are refused. *)
Theorem retained_history_is_prefix st name c i0 j st' :
  cache_get name (s_cache st) = Some c → signed c ≠ [] →
  check_chain i0 0 "" (signed c) = Ok (tip c) → Forall parsed (signed c) →
  _state retained_size st name = Ok (j, st') →
  Forall parsed (signed j) → collision_free (map dumps (signed c ++ signed j)) →
  signed j = signed c ∨ rotation_accepted (signed j) c = true ∨
  map canonical (take (length (signed c)) (signed j)) = map canonical (signed c).
Proof.
  intros Hget Hne Hchain Hparsed H Hpj Hcf. unfold _state in H.
  apply bind_Ok in H as (n & [-> _]%filename_Ok & H). rewrite Hget in H.
  destruct (_ && _); [injection H as <- _; by left|].
  apply bind_Ok in H as (vs & Hrows & H). apply bind_Ok in H as (t & Ht & H).
  apply bind_Ok in H as ([] & Hacc%require_Ok & H). injection H as <- _. simpl in *. right.
  rewrite bool_decide_eq_false_2 in Hacc by done. simpl in Hacc.
  apply orb_true_iff in Hacc as [->|Hanc]; [by left|right].
  unfold anchored in Hanc. destruct (last (take _ vs)) as [row|] eqn:El; [|done].
  apply andb_true_iff in Hanc as [Hlen Hd]. zbool.
  destruct (digest row) as [d|] eqn:Ed; [|done]. apply String.eqb_eq in Hd as ->.
  apply last_Some in El as [pre Hpre]. symmetry.
  rewrite <- (take_drop (length (signed c)) vs) in Ht. rewrite Hpre in Ht |- *.
  assert (Hsub : Forall parsed (pre ++ [row])) by (rewrite <- Hpre; by apply Forall_take).
  assert (Htake : check_chain (s_identity st) 0 "" (pre ++ [row]) = Ok (tip c)).
  { clear - Ht Ed. revert Ht. generalize 0, ""%string.
    induction pre as [|r pre IH]; intros k p Ht; simpl app in Ht |- *.
    - apply check_chain_cons in Ht as (d & Hr & _). apply check_chain_cons. exists d. split; [done|].
      destruct Hr as (_ & _ & _ & _ & _ & _ & Hd). rewrite Ed in Hd. by injection Hd as <-.
    - apply check_chain_cons in Ht as (d & Hr & Ht). apply check_chain_cons. exists d. split; [done|].
      by apply IH. }
  eapply chain_determined; [done|exact Htake|done|done|].
  eapply collision_free_sub; [|exact Hcf]. intros x. rewrite <- Hpre, !map_app, !elem_of_app.
  intros [?|Hx]; [by left|right]. apply list_elem_of_fmap in Hx as (y & -> & Hy).
  apply list_elem_of_fmap. exists y. split; [done|]. apply elem_of_take in Hy as (k & Hk & _).
  by apply (list_elem_of_lookup_2 _ k).
Qed.

(** C4: two chains with the same tip are the same history, up to key order,
    whatever identities verified them: the digest of the last row commits
    to every row before it. *)
Theorem tip_determines_history i i' vs vs' t :
  check_chain i 0 "" vs = Ok t → check_chain i' 0 "" vs' = Ok t →
  Forall parsed vs → Forall parsed vs' → collision_free (map dumps (vs ++ vs')) →
  map canonical vs = map canonical vs'.
Proof. apply chain_determined. Qed.

(** rotation replaces a valid journal by a fresh valid chain: a signed
    link naming the retired tip and length, then the carried records in
    order.  A process that still holds the retired checkpoint accepts the
    new file. *)
Theorem rotate_accepted st name carry writer fresh now vs t st' c :
  identity_ok (s_identity st) → is_Some (TRUST writer.2) → byte_len fresh = 32 →
  Forall (λ r, is_obj r = true) carry → Z.of_nat (length carry) < MAX_ROWS →
  journal_valid st name vs t → cache_ok st name vs t → vs ≠ [] → t ≠ ""%string →
  rotate retained_size st name carry writer fresh now = Ok st' →
  (∀ r, r ∈ file_lines st' name → l_bytes r <= MAX_BYTES) →
  signed c = vs →
  (∀ row n, head vs = Some row → jget "previous_count" (default (JObj []) (jget "record" row)) = Some (JInt n) → 0 <= n) →
  ∃ out t', journal_valid st' name out t' ∧ length out = S (length carry) ∧ rotation_accepted out c = true ∧
    ∀ st2, s_files st2 = s_files st' → s_identity st2 = s_identity st' → cache_get name (s_cache st2) = Some c →
      stamp c ≠ _stamp st2 name → filename st2 name = Ok name →
      ∃ j st3, _state retained_size st2 name = Ok (j, st3) ∧ signed j = out ∧ tip j = t'.
Proof.
  intros Hi Ht Hf Ho Hlen Hj Hc Hne Htip H Hsize Hcs Hpc. unfold rotate in H.
  apply bind_Ok in H as (n & _ & H). apply bind_Ok in H as (n' & [-> _]%filename_Ok & H).
  apply bind_Ok in H as ([j st1] & Hst & H).
  destruct (_state_spec _ _ _ _ _ _ Hj Hc Hst) as (Hjs & Hjt & _ & (c0 & ->) & _).
  rewrite Hjs, Hjt in H. cbv zeta in H. set (count := Z.of_nat (length vs) + _) in H.
  assert (Hcount : Z.of_nat (length vs) <= count).
  { unfold count. destruct vs as [|row vs']; [done|].
    destruct (jstr_eqb _ "rotation"); [|lia].
    destruct (jget "previous_count" _) as [[]|] eqn:E; try lia.
    specialize (Hpc row n0 eq_refl E). lia. }
  apply bind_Ok in H as ([out i] & Hrot & H). injection H as <-. cbn [set_cache s_identity] in Hrot.
  assert (Hbytes : Forall (λ r, byte_len (dumps_plain r) < MAX_BYTES) out).
  { apply Forall_forall. intros r Hr. unfold file_lines in Hsize. simpl in Hsize.
    rewrite lookup_insert_eq in Hsize. simpl in Hsize.
    specialize (Hsize (encoded_line r)). simpl in Hsize.
    assert (byte_len (dumps_plain r) + 1 <= MAX_BYTES); [|lia]. apply Hsize.
    apply list_elem_of_fmap. by exists r. }
  match type of Hrot with rotate_rows _ _ _ _ (?l :: _) _ _ _ = _ => set (link := l) in * end.
  assert (Hlo : Forall (λ r, is_obj r = true) (link :: carry)) by (by constructor).
  assert (Hn : 0 + Z.of_nat (length (link :: carry)) <= MAX_ROWS) by (rewrite length_cons; lia).
  destruct (rotate_rows_spec _ _ _ _ _ _ _ _ _ _ _ 0 Hi Ht Hf Hlo Hrot Hbytes Hn eq_refl)
    as ((t' & Hchain) & Hrl & Hll & Hi' & _).
  exists out, t'.
  assert (Hacc : rotation_accepted out c = true).
  { destruct out as [|row out]; [done|].
    cbn [rotate_rows] in Hrot. apply bind_Ok in Hrot as ([row' i1] & Hsign & Hrot).
    apply bind_Ok in Hrot as (w & _ & Hrot). apply bind_Ok in Hrot as (w' & _ & Hrot).
    apply bind_Ok in Hrot as (w'' & _ & Hrot). apply bind_Ok in Hrot as (d & _ & Hrot).
    apply bind_Ok in Hrot as ([out' i2] & _ & Hrot). injection Hrot as -> _ _.
    destruct (sign_verifies _ _ _ _ _ _ Hi Ht Hf Hsign) as (_ & _ & Hr & _).
    unfold rotation_accepted. rewrite Hr, Hcs. simpl.
    rewrite (proj2 (Z.leb_le _ _) Hcount). simpl.
    by destruct (String.eqb_spec t ""). }
  split_and!; [|done|done|].
  - split; simpl; [by rewrite lookup_insert_eq|done].
  - intros st2 Hfiles Hid Hget Hstamp Hname. unfold _state. rewrite Hname. simpl.
    rewrite Hget, bool_decide_eq_false_2 by done. simpl. rewrite Hfiles, Hid. simpl.
    rewrite lookup_insert_eq. simpl. rewrite Hrl. simpl. rewrite Hchain. simpl.
    rewrite Hacc, orb_true_r. simpl. by eexists _, _.
Qed.

(** a row whose serialization is exactly [MAX_BYTES] long passes the
    size check of [append], but its line, newline included, is refused by
    [loads]: the journal can no longer be read. *)
Theorem append_limit_unreadable st name row lines :
  byte_len (dumps_plain row) = MAX_BYTES →
  (byte_len (dumps_plain row) <=? MAX_BYTES) = true ∧
  is_ok (rows (s_files (write_lines st name (lines ++ [encoded_line row])) !! name)) = false.
Proof.
  intros Hb. rewrite Hb, Z.leb_refl. split; [done|]. simpl. rewrite lookup_insert_eq. simpl.
  assert (Hgen : ∀ total n, is_ok (rows_loop total n (lines ++ [encoded_line row])) = false); [|apply Hgen].
  induction lines as [|l lines IH]; intros total n; cbn [app rows_loop].
  - destruct (_ <=? 64 * MAX_BYTES); [|done]. destruct (negb _); [|done].
    unfold loads_line. simpl. rewrite Hb. simpl. done.
  - destruct (_ <=? 64 * MAX_BYTES); simpl; [|done]. destruct (negb _); simpl; [|done].
    destruct (loads_line l) as [v|]; simpl; [|done]. destruct (is_obj v); simpl; [|done].
    destruct (wire v); simpl; [|done]. specialize (IH (total + l_bytes l) (n + 1)).
    by destruct (rows_loop _ _ (lines ++ _)).
Qed.
End spec.

(** ** Witnesses: a store with an HMAC key and one journal *)

(** A signature scheme that satisfies the interface (keyed by the public
    half, so not a secure one). *)
#[export] Instance toy_ed25519 : Ed25519 := {|
  ed_sign := λ k m, hmac_sha256 (sha256 k) m;
  ed_public := sha256;
  ed_verify := λ p m s, String.eqb s (hmac_sha256 p m);
|}.

#[export] Instance toy_ed25519_laws : Ed25519Laws.
Proof. split; [intros; apply String.eqb_refl|apply length_sha256]. Qed.

Definition demo_key : string := of_bytes (replicate 32 "k"%char).
Definition demo_identity : identity := Identity (Some demo_key) None None.
Definition demo_store : store := Store ∅ demo_identity 0 [] 0.
Definition demo_writer : string * string := ("local", "operator")%string.
Definition demo_record : json := JObj [("kind", JStr "note")]%string.
Definition demo_append (st : store) : res pyexn (json * store) :=
  append (λ _, 0) st "notes.jsonl" demo_record demo_writer demo_key "2025-01-01T00:00:00+00:00".
Definition demo_step1 : json * store := ok_or (JNull, demo_store) (demo_append demo_store).

Lemma demo_identity_ok : identity_ok demo_identity.
Proof.
  split; [by intros k [= <-]|]. eexists. split; [reflexivity|left; reflexivity].
Qed.

Lemma demo_step1_ok : demo_append demo_store = Ok demo_step1.
Proof. apply is_ok_or. vm_compute. reflexivity. Qed.

#[local] Opaque demo_step1.

Lemma demo_empty_valid : journal_valid demo_store "notes.jsonl" [] "" ∧ cache_ok demo_store "notes.jsonl" [] "".
Proof. split; [done|]. split; intros ? H; discriminate H. Qed.

Lemma demo_step1_valid : ∃ t, journal_valid demo_step1.2 "notes.jsonl" [demo_step1.1] t ∧
  cache_ok demo_step1.2 "notes.jsonl" [demo_step1.1] t ∧ identity_ok (s_identity demo_step1.2).
Proof.
  destruct demo_empty_valid as [Hj Hc]. pose proof demo_step1_ok as H. unfold demo_append in H.
  rewrite (surjective_pairing demo_step1) in H.
  destruct (append_aux _ demo_store "notes.jsonl" demo_record demo_writer demo_key _ [] "" _ _ demo_identity_ok
    (ltac:(eexists; reflexivity) : is_Some (TRUST demo_writer.2)) eq_refl eq_refl Hj Hc H)
    as (t & Ht & Hct & Hi & _); [vm_compute; reflexivity|].
  exists t. split_and!; [exact Ht|exact Hct|exact Hi].
Qed.

Lemma append_extends_witness : ∃ t',
  journal_valid demo_step1.2 "notes.jsonl" [demo_step1.1] t' ∧
  cache_ok demo_step1.2 "notes.jsonl" [demo_step1.1] t' ∧
  jget "record" demo_step1.1 = Some (jupdate demo_record [("sequence", JInt 0);
      ("previous", JStr ""); ("recorded_at", JStr "2025-01-01T00:00:00+00:00")]%string) ∧
  (∀ other, other ≠ "notes.jsonl"%string → s_files demo_step1.2 !! other = s_files demo_store !! other) ∧
  ∃ j st'', _state (λ _, 0) (set_cache demo_step1.2 []) "notes.jsonl" = Ok (j, st'') ∧
    signed j = [demo_step1.1] ∧ tip j = t'.
Proof.
  destruct demo_empty_valid as [Hj Hc].
  apply (append_extends (λ _, 0) demo_store "notes.jsonl" demo_record demo_writer demo_key
           "2025-01-01T00:00:00+00:00" [] "" demo_step1.1 demo_step1.2);
    [apply demo_identity_ok|eexists; reflexivity|reflexivity|reflexivity|exact Hj|exact Hc| |].
  - rewrite <- surjective_pairing. apply demo_step1_ok.
  - vm_compute. reflexivity.
Defined.

Definition demo_row : json := demo_step1.1.
Definition demo_tip : string := ok_or ""%string (digest demo_row).
Lemma demo_chain : check_chain demo_identity 0 "" [demo_row] = Ok demo_tip.
Proof. vm_compute. reflexivity. Qed.

Lemma demo_parsed : Forall parsed [demo_row].
Proof.
  constructor; [|constructor]. split_and!; [vm_compute; reflexivity| |].
  - apply (bool_decide_unpack _). vm_compute. reflexivity.
  - intros record H. assert (jget "record" demo_row = Some (jupdate demo_record [("sequence", JInt 0);
      ("previous", JStr ""); ("recorded_at", JStr "2025-01-01T00:00:00+00:00")]%string)) as E
      by (vm_compute; reflexivity).
    rewrite E in H. injection H as <-. apply (bool_decide_unpack _). vm_compute. reflexivity.
Qed.

Lemma tip_determines_history_witness : map canonical [demo_row] = map canonical [demo_row].
Proof.
  apply (tip_determines_history demo_identity demo_identity [demo_row] [demo_row] demo_tip);
    [apply demo_chain|apply demo_chain|apply demo_parsed|apply demo_parsed|].
  intros x y Hx Hy _. apply elem_of_cons in Hx as [->|Hx]; apply elem_of_cons in Hy as [->|Hy];
    try apply list_elem_of_singleton in Hx as ->; try apply list_elem_of_singleton in Hy as ->; reflexivity.
Defined.

(** A process that verified the row before the file was touched. *)
Definition demo_cached : journal_state := Journal None 0 [demo_row] demo_tip 0.
Definition demo_store2 : store :=
  Store (s_files demo_step1.2) demo_identity 0 [("notes.jsonl"%string, demo_cached)] 5.
Definition demo_state2 : journal_state * store :=
  ok_or (demo_cached, demo_store2) (_state (λ _, 0) demo_store2 "notes.jsonl").

Lemma retained_history_witness : signed demo_state2.1 = signed demo_cached ∨
  rotation_accepted (signed demo_state2.1) demo_cached = true ∨
  map canonical (take 1 (signed demo_state2.1)) = map canonical (signed demo_cached).
Proof.
  assert (Hs : signed demo_state2.1 = [demo_row]) by (vm_compute; reflexivity).
  apply (retained_history_is_prefix (λ _, 0) demo_store2 "notes.jsonl" demo_cached demo_identity
           demo_state2.1 demo_state2.2);
    [reflexivity|discriminate|apply demo_chain|apply demo_parsed| |rewrite Hs; apply demo_parsed|].
  - rewrite <- surjective_pairing. apply is_ok_or. vm_compute. reflexivity.
  - rewrite Hs. intros x y Hx Hy _.
    apply elem_of_cons in Hx as [->|Hx]; apply elem_of_cons in Hy as [->|Hy];
    try apply list_elem_of_singleton in Hx as ->; try apply list_elem_of_singleton in Hy as ->; reflexivity.
Defined.

(** The journal is rotated, carrying one record over. *)
Definition demo_rotate : res pyexn store :=
  rotate (λ _, 0) demo_step1.2 "notes.jsonl" [demo_record] demo_writer demo_key "2025-01-02T00:00:00+00:00".
Definition demo_rotated : store := ok_or demo_store demo_rotate.

Lemma rotate_accepted_witness : ∃ out t', journal_valid demo_rotated "notes.jsonl" out t' ∧
  length out = 2%nat ∧ rotation_accepted out demo_cached = true ∧
  ∀ st2, s_files st2 = s_files demo_rotated → s_identity st2 = s_identity demo_rotated →
    cache_get "notes.jsonl" (s_cache st2) = Some demo_cached → stamp demo_cached ≠ _stamp st2 "notes.jsonl" →
    filename st2 "notes.jsonl" = Ok "notes.jsonl"%string →
    ∃ j st3, _state (λ _, 0) st2 "notes.jsonl" = Ok (j, st3) ∧ signed j = out ∧ tip j = t'.
Proof.
  destruct demo_step1_valid as (t & Hj & Hc & Hi).
  assert (Ht : t = demo_tip).
  { destruct Hj as [_ Hch]. assert (s_identity demo_step1.2 = demo_identity) as E by (vm_compute; reflexivity).
    change demo_step1.1 with demo_row in Hch. rewrite E, demo_chain in Hch. congruence. }
  apply (rotate_accepted (λ _, 0) demo_step1.2 "notes.jsonl" [demo_record] demo_writer demo_key
           "2025-01-02T00:00:00+00:00" [demo_row] t demo_rotated demo_cached); try assumption.
  - eexists. reflexivity.
  - reflexivity.
  - repeat constructor.
  - reflexivity.
  - discriminate.
  - rewrite Ht. intros E. assert (String.eqb demo_tip "" = false) as E' by (vm_compute; reflexivity).
    rewrite E in E'. discriminate E'.
  - apply is_ok_or. vm_compute. reflexivity.
  - intros r Hr. assert (forallb (λ l, l_bytes l <=? MAX_BYTES) (file_lines demo_rotated "notes.jsonl") = true)
      as Hb by (vm_compute; reflexivity).
    rewrite forallb_Forall, Forall_forall in Hb. apply Z.leb_le. by apply Hb.
  - reflexivity.
  - intros row n Hrow. apply (inj Some) in Hrow. rewrite <- Hrow. assert (jget "previous_count" (default (JObj []) (jget "record" demo_row)) = None)
      as -> by (vm_compute; reflexivity). discriminate.
Defined.

Definition demo_long : string := of_bytes (replicate (Z.to_nat 1048574) "a"%char).

Lemma escape_letters n : escape (of_bytes (replicate n "a"%char)) = of_bytes (replicate n "a"%char).
Proof. induction n as [|n IH]; [done|]. cbn [replicate of_bytes escape]. by rewrite IH. Qed.

Lemma demo_long_length : byte_len (dumps_plain (JStr demo_long)) = MAX_BYTES.
Proof.
  cbn [dumps_plain]. unfold byte_len, quote, demo_long. rewrite escape_letters, <- length_str_bytes.
  rewrite !str_bytes_app, str_bytes_of_bytes, !length_app, length_replicate.
  rewrite !Nat2Z.inj_add, Z2Nat.id by lia. reflexivity.
Qed.

Lemma append_limit_witness :
  (byte_len (dumps_plain (JStr demo_long)) <=? MAX_BYTES) = true ∧
  is_ok (rows (s_files (write_lines demo_store "notes.jsonl" ([] ++ [encoded_line (JStr demo_long)]))
               !! "notes.jsonl"%string)) = false.
Proof. apply (append_limit_unreadable demo_store "notes.jsonl" (JStr demo_long) []), demo_long_length. Defined.
