(* ===== verification/Jobs.v ===== *)
(** * The durable job queue ([unimem/jobs.py])

    The [jobs] table as the list of its rows in insertion order, each public
    operation as one write transaction on it, the worker loop and the batch
    helper.  Times are microseconds; the clock, the generated identifiers
    and the JSON texts are arguments. *)

From S2P Require Import Prelude.
Local Open Scope Z_scope.

(** ** Definitions *)

Inductive job_exn := JobError | LeaseLost | IntegrityError | HandlerError (message : string).

#[export] Instance job_exn_eq_dec : EqDecision job_exn.
Proof. solve_decision. Defined.

Inductive status := queued | running | done_ | failed | dead.

#[export] Instance status_eq_dec : EqDecision status.
Proof. solve_decision. Defined.

Record Job := mkJob {
  id : string;
  kind : string;
  payload : string;
  job_status : status;
  attempts : Z;
  max_attempts : Z;
  priority : Z;
  run_after : Z;
  created : Z;
  updated : Z;
  result : option string;
  error : option string;
  dedupe_key : option string;
  lease_token : option string;
  lease_until : option Z;
}.

Definition DEFAULT_LEASE : Z := 600000000.
Definition BACKOFF_BASE : Z := 5000000.
Definition BACKOFF_MAX : Z := 3600000000.

Definition table := list Job.

(** [status IN ('queued', 'running', 'failed')] *)
Definition pending (j : Job) : bool :=
  match job_status j with queued | running | failed => true | _ => false end.

(** The unique index [jobs_dedupe]. *)
Definition dedupe_ok (t : table) : bool :=
  bool_decide (NoDup (omap (λ j, if pending j then dedupe_key j else None) t)).

(** [UPDATE jobs SET f WHERE p], checked against the unique index; the
    number of changed rows. *)
Definition update_where (p : Job → bool) (f : Job → Job) (t : table) : res job_exn (Z * table) :=
  let t' := map (λ j, if p j then f j else j) t in
  require (dedupe_ok t') IntegrityError;;
  Ok (Z.of_nat (length (List.filter p t)), t').

Definition has_id (job_id : string) (j : Job) : bool := String.eqb (id j) job_id.

(** [SELECT * FROM jobs WHERE id = ?] *)
Definition find_job (job_id : string) (t : table) : option Job := List.find (has_id job_id) t.

Definition set_status (s : status) (j : Job) : Job :=
  mkJob (id j) (kind j) (payload j) s (attempts j) (max_attempts j) (priority j) (run_after j)
        (created j) (updated j) (result j) (error j) (dedupe_key j) (lease_token j) (lease_until j).

Section jobs.
(** The keys of [HANDLERS]. *)
Variable HANDLERS : list string.

(** [enqueue]: [body] is the JSON text of the payload, [uuid] the new id. *)
Definition enqueue (t : table) (knd body : string) (dedupe : option string)
    (delay max_att prio now : Z) (uuid : string) : res job_exn (Job * table) :=
  require (existsb (String.eqb knd) HANDLERS) JobError;;
  require (str_len body <=? 256000) JobError;;
  let truthy := match dedupe with Some k => negb (String.eqb k "") | None => false end in
  match (if truthy then List.find (λ j, bool_decide (dedupe_key j = dedupe) && pending j) t else None) with
  | Some row => Ok (row, t)
  | None =>
      let row := mkJob uuid knd body queued 0 (Z.max 1 (Z.min max_att 20)) prio (now + Z.max 0 delay)
                       now now None None dedupe None None in
      require (negb (existsb (has_id uuid) t)) IntegrityError;;
      require (dedupe_ok (t ++ [row])) IntegrityError;;
      Ok (row, t ++ [row])
  end.

Definition expired (now : Z) (j : Job) : bool :=
  match lease_until j with Some u => u <=? now | None => false end.

(** The first statement of [claim]: workers that died on their last attempt. *)
Definition reap (now : Z) (t : table) : table :=
  map (λ j, if bool_decide (job_status j = running) && expired now j && (max_attempts j <=? attempts j)
            then mkJob (id j) (kind j) (payload j) dead (attempts j) (max_attempts j) (priority j)
                       (run_after j) (created j) now (result j)
                       (Some "worker lease expired after maximum attempts"%string) (dedupe_key j) None None
            else j) t.

Definition ready (now : Z) (kinds : list string) (j : Job) : bool :=
  ((bool_decide (job_status j = queued ∨ job_status j = failed) && (run_after j <=? now))
   || (bool_decide (job_status j = running) && expired now j))
  && (attempts j <? max_attempts j)
  && (bool_decide (kinds = []) || existsb (String.eqb (kind j)) kinds).

(** [ORDER BY priority DESC, run_after, created] *)
Definition before (a b : Job) : bool :=
  (priority b <? priority a)
  || ((priority a =? priority b) && ((run_after a <? run_after b)
      || ((run_after a =? run_after b) && (created a <=? created b)))).

(** [LIMIT 1] of the ordered rows; of equal ones the oldest. *)
Fixpoint first_by (l : list Job) : option Job :=
  match l with
  | [] => None
  | j :: l' => match first_by l' with
               | Some k => if before j k then Some j else Some k
               | None => Some j
               end
  end.

Definition take_claim (lease now : Z) (token : string) (j : Job) : Job :=
  mkJob (id j) (kind j) (payload j) running (attempts j + 1) (max_attempts j) (priority j) (run_after j)
        (created j) now (result j) (error j) (dedupe_key j) (Some token) (Some (now + lease)).

Definition claim (t : table) (kinds : list string) (lease now : Z) (token : string)
    : res job_exn (option Job * table) :=
  let t := reap now t in
  match first_by (List.filter (ready now kinds) t) with
  | None => Ok (None, t)
  | Some row =>
      '(_, t') ← update_where (has_id (id row)) (take_claim lease now token) t;
      Ok (find_job (id row) t', t')
  end.

(** A claim that is still live: [status = 'running' AND lease_token = ? AND lease_until > ?]. *)
Definition live (now : Z) (token : string) (j : Job) : bool :=
  bool_decide (job_status j = running) && bool_decide (lease_token j = Some token)
  && match lease_until j with Some u => now <? u | None => false end.

Definition fenced (now : Z) (token : option string) (j : Job) : bool :=
  match token with None => true | Some k => live now k j end.

Definition set_done (body : string) (now : Z) (j : Job) : Job :=
  mkJob (id j) (kind j) (payload j) done_ (attempts j) (max_attempts j) (priority j) (run_after j)
        (created j) now (Some body) None (dedupe_key j) None None.

(** [complete]: [body] is the JSON text of the result. *)
Definition complete (t : table) (job_id body : string) (token : option string) (now : Z)
    : res job_exn table :=
  require (str_len body <=? 64000) JobError;;
  '(changed, t') ← update_where (λ j, has_id job_id j && fenced now token j) (set_done body now) t;
  require (match token with Some _ => negb (changed =? 0) | None => true end) LeaseLost;;
  Ok t'.

(** [min(BACKOFF_MAX, BACKOFF_BASE * 2 ** max(0, attempts - 1))] *)
Definition backoff (att : Z) : Z := Z.min BACKOFF_MAX (BACKOFF_BASE * 2 ^ Z.max 0 (att - 1)).

Definition set_failed (s : status) (err : string) (delay now : Z) (j : Job) : Job :=
  mkJob (id j) (kind j) (payload j) s (attempts j) (max_attempts j) (priority j) (now + delay)
        (created j) now (result j) (Some (str_take 4000 err)) (dedupe_key j) None None.

Definition fail (t : table) (job_id err : string) (token : option string) (now : Z)
    : res job_exn (status * table) :=
  row ← get_or (find_job job_id t) JobError;
  require (match token with
           | None => true
           | Some k => bool_decide (job_status row = running) && bool_decide (lease_token row = Some k)
                       && negb (default 0 (lease_until row) <=? now)
           end) LeaseLost;;
  let s := if max_attempts row <=? attempts row then dead else failed in
  '(_, t') ← update_where (has_id job_id) (set_failed s err (backoff (attempts row)) now) t;
  Ok (s, t').

Definition renew (t : table) (job_id token : string) (lease now : Z) : res job_exn table :=
  require (negb (String.eqb token "") && (0 <? lease)) JobError;;
  '(changed, t') ← update_where (λ j, has_id job_id j && live now token j)
    (λ j, mkJob (id j) (kind j) (payload j) (job_status j) (attempts j) (max_attempts j) (priority j)
                (run_after j) (created j) now (result j) (error j) (dedupe_key j) (lease_token j)
                (Z.max (now + lease) <$> lease_until j)) t;
  require (negb (changed =? 0)) LeaseLost;;
  Ok t'.

Definition requeue (now : Z) (j : Job) : Job :=
  mkJob (id j) (kind j) (payload j) queued 0 (max_attempts j) (priority j) now
        (created j) now (result j) (error j) (dedupe_key j) None None.

Definition retry (t : table) (job_id : option string) (now : Z) : res job_exn (Z * table) :=
  match job_id with
  | Some i =>
      if String.eqb i "" then update_where (λ j, bool_decide (job_status j = dead)) (requeue now) t
      else update_where (λ j, has_id i j && bool_decide (job_status j = dead ∨ job_status j = failed))
                        (requeue now) t
  | None => update_where (λ j, bool_decide (job_status j = dead)) (requeue now) t
  end.

Definition get (t : table) (job_id : string) : option Job := find_job job_id t.

(** [ORDER BY updated DESC] *)
Fixpoint insert_updated (j : Job) (l : list Job) : list Job :=
  match l with
  | [] => [j]
  | k :: l' => if updated k <=? updated j then j :: l else k :: insert_updated j l'
  end.

Definition list_jobs (t : table) (s : option status) (limit : Z) : list Job :=
  take (Z.to_nat (Z.max 1 limit))
    (foldr insert_updated [] (List.filter (λ j, match s with
                                                | None => true
                                                | Some s => bool_decide (job_status j = s) end) t)).

Definition counts (t : table) (s : status) : Z :=
  Z.of_nat (length (List.filter (λ j, bool_decide (job_status j = s)) t)).

Definition purge (t : table) (older_than now : Z) : Z * table :=
  let old j := bool_decide (job_status j = done_) && (updated j <? now - older_than) in
  (Z.of_nat (length (List.filter old t)), List.filter (λ j, negb (old j)) t).

(** ** The worker *)

(** What the environment does during one turn of [run_pending]: the clock
    when the job is claimed and when its handler ends, the token drawn, what
    other processes and the heartbeat do to the table meanwhile, and the
    handler's outcome (the JSON text of its result, or its error line). *)
Record turn := Turn {
  t_over_budget : bool;
  t_claim : Z;
  t_token : string;
  t_others : table → table;
  t_outcome : res string string;
  t_finish : Z;
}.

(** The part of a turn after the claim: [Some true] when the job is done,
    [Some false] when it failed, [None] when the lease was lost. *)
Definition finish_job (t : table) (job : Job) (outcome : res string string) (now : Z)
    : res job_exn (option bool * table) :=
  let failing err := match fail t (id job) err (lease_token job) now with
                     | Ok (_, t') => Ok (Some false, t')
                     | Err LeaseLost => Ok (None, t)
                     | Err e => Err e
                     end in
  if existsb (String.eqb (kind job)) HANDLERS then
    match outcome with
    | Ok body =>
        match complete t (id job) body (lease_token job) now with
        | Ok t' => Ok (Some true, t')
        | Err LeaseLost => Ok (None, t)
        | Err _ => failing "unimem.jobs.JobError: job result is larger than 64 kB; save an artifact and return its path"%string
        end
    | Err err => failing err
    end
  else failing ("unimem.jobs.JobError: no handler for job kind '" +:+ kind job +:+ "'").

Fixpoint run_loop (t : table) (turns : list turn) (kinds : list string) (lease : Z) (ndone nfailed : Z)
    : res job_exn (Z * Z * table) :=
  match turns with
  | [] => Ok (ndone, nfailed, t)
  | e :: rest =>
      if t_over_budget e then Ok (ndone, nfailed, t)
      else
        '(job, t) ← claim t kinds lease (t_claim e) (t_token e);
        match job with
        | None => Ok (ndone, nfailed, t)
        | Some job =>
            '(outcome, t) ← finish_job (t_others e t) job (t_outcome e) (t_finish e);
            match outcome with
            | Some true => run_loop t rest kinds lease (ndone + 1) nfailed
            | Some false => run_loop t rest kinds lease ndone (nfailed + 1)
            | None => run_loop t rest kinds lease ndone nfailed
            end
        end
  end.

(** [run_pending]: the loop runs at most [limit] turns. *)
Definition run_pending (t : table) (turns : list turn) (limit : Z) (kinds : list string) (lease : Z)
    : res job_exn (Z * Z * Z * table) :=
  require (0 <? lease) JobError;;
  '(ndone, nfailed, t) ← run_loop t (take (Z.to_nat (Z.max 0 limit)) turns) kinds lease 0 0;
  Ok (ndone, nfailed, counts t queued, t).
End jobs.

(** ** [run_batch] *)

Inductive item_result (R : Type) :=
  | ItemOk (r : R) (batched : bool)
  | ItemError (message : string).
Arguments ItemOk {R} r batched.
Arguments ItemError {R} message.

Section batch.
Context {A R : Type}.
Variable single : A → res string R.
Variable batch : option (list A → res string (list R)).

Definition run_single (item : A) : item_result R :=
  match single item with Ok r => ItemOk r false | Err e => ItemError e end.

Definition run_chunk (part : list A) : list (item_result R) :=
  match batch with
  | Some b =>
      match b part with
      | Ok results => if (length results =? length part)%nat then map (λ r, ItemOk r true) results
                      else map run_single part
      | Err _ => map run_single part
      end
  | None => map run_single part
  end.

(** [range(0, len(items), max(1, chunk))]; every round takes at least one item. *)
Fixpoint run_batch_f (fuel : nat) (items : list A) (chunk : nat) : list (item_result R) :=
  match fuel, items with
  | S fuel', _ :: _ => run_chunk (take (Nat.max 1 chunk) items) ++ run_batch_f fuel' (drop (Nat.max 1 chunk) items) chunk
  | _, _ => []
  end.
Definition run_batch (items : list A) (chunk : nat) : list (item_result R) :=
  run_batch_f (length items) items chunk.
End batch.

(** ** The table invariant *)

Definition job_ok (j : Job) : Prop :=
  1 <= max_attempts j <= 20 ∧ 0 <= attempts j <= max_attempts j ∧
  (job_status j = running ↔ is_Some (lease_token j)) ∧ (is_Some (lease_token j) ↔ is_Some (lease_until j)) ∧
  (job_status j = queued ∨ job_status j = failed → attempts j < max_attempts j).

Definition table_ok (t : table) : Prop :=
  NoDup (map id t) ∧ dedupe_ok t = true ∧ Forall job_ok t.

Lemma table_ok_nil : table_ok [].
Proof. split_and!; [constructor|done|constructor]. Qed.

Lemma update_where_Ok p f t n t' : update_where p f t = Ok (n, t') →
  t' = map (λ j, if p j then f j else j) t ∧ n = Z.of_nat (length (List.filter p t)) ∧ dedupe_ok t' = true.
Proof.
  unfold update_where. intros H. apply bind_Ok in H as ([] & Hd%require_Ok & [= <- <-]). done.
Qed.

Lemma update_where_ok p f t n t' : table_ok t → update_where p f t = Ok (n, t') →
  (∀ j, j ∈ t → p j = true → id (f j) = id j ∧ job_ok (f j)) → table_ok t'.
Proof.
  intros (Hid & _ & Hall) (-> & _ & Hd)%update_where_Ok Hf. split_and!; [|done|].
  - rewrite map_map.
    replace (map (λ j, id (if p j then f j else j)) t) with (map id t); [done|].
    apply map_ext_in. intros j Hj%list_elem_of_In. destruct (p j) eqn:E; [|done]. symmetry. by apply Hf.
  - apply Forall_map, Forall_forall. intros j Hj. rewrite Forall_forall in Hall. specialize (Hall j Hj).
    simpl. destruct (p j) eqn:E; [by apply Hf|done].
Qed.

Lemma omap_sublist (f g : Job → option string) t :
  (∀ j, j ∈ t → g j = f j ∨ g j = None) → omap g t `sublist_of` omap f t.
Proof.
  induction t as [|j t IH]; intros H; [constructor|]. simpl.
  assert (IH' : omap g t `sublist_of` omap f t) by (apply IH; intros; apply H; by right).
  destruct (H j ltac:(by left)) as [-> | ->].
  - destruct (f j); [by constructor|done].
  - destruct (f j); [by apply sublist_cons|done].
Qed.

Lemma dedupe_ok_map (f : Job → Job) t : dedupe_ok t = true →
  (∀ j, j ∈ t → f j = j ∨ pending (f j) = false ∨ pending (f j) = pending j ∧ dedupe_key (f j) = dedupe_key j) →
  dedupe_ok (map f t) = true.
Proof.
  unfold dedupe_ok. rewrite !bool_decide_eq_true. intros Hnd Hf.
  eapply sublist_NoDup; [exact Hnd|].
  replace (omap (λ j, if pending j then dedupe_key j else None) (map f t))
    with (omap (λ j, if pending (f j) then dedupe_key (f j) else None) t).
  - apply omap_sublist. intros j Hj. destruct (Hf j Hj) as [-> |[-> |[-> ->]]]; auto.
  - clear. induction t as [|j t IH]; [done|]. cbn.
    destruct (if pending (f j) then _ else _); [f_equal|]; exact IH.
Qed.

Lemma reap_ok now t : table_ok t → table_ok (reap now t).
Proof.
  intros (Hid & Hd & Hall). unfold reap. split_and!.
  - rewrite map_map. erewrite map_ext; [exact Hid|]. intros j. by case_match.
  - apply dedupe_ok_map; [done|]. intros j _. case_match; auto.
  - apply Forall_map. eapply Forall_impl; [exact Hall|]. intros j (H1 & H2 & H3 & H4 & H5). simpl.
    case_match; [|done]. split_and!; simpl; try done; try lia.
    by intros [|].
Qed.

Lemma find_job_Some job_id t j : find_job job_id t = Some j → j ∈ t ∧ id j = job_id.
Proof.
  unfold find_job. intros [Hin Hp]%find_some. split; [by apply list_elem_of_In|by apply String.eqb_eq].
Qed.

Lemma find_job_unique t j : NoDup (map id t) → j ∈ t → find_job (id j) t = Some j.
Proof.
  induction t as [|k t IH]; intros Hnd Hin; [by apply elem_of_nil in Hin|]. simpl in Hnd.
  apply NoDup_cons in Hnd as [Hk Hnd]. unfold find_job. simpl. unfold has_id.
  apply elem_of_cons in Hin as [->|Hin]; [by rewrite String.eqb_refl|].
  destruct (String.eqb (id k) (id j)) eqn:E; [|by apply IH]. apply String.eqb_eq in E.
  exfalso. apply Hk. rewrite E. apply list_elem_of_fmap. by exists j.
Qed.

Lemma first_by_spec l j : first_by l = Some j → j ∈ l ∧ ∀ k, k ∈ l → before j k = true.
Proof.
  assert (Htrans : ∀ a b c, before a b = true → before b c = true → before a c = true).
  { intros a b c. unfold before. rewrite !orb_true_iff, !andb_true_iff, !orb_true_iff, !andb_true_iff.
    rewrite !Z.ltb_lt, !Z.eqb_eq, !Z.leb_le. lia. }
  assert (Htotal : ∀ a b, before a b = false → before b a = true).
  { intros a b. unfold before. rewrite !orb_false_iff, !andb_false_iff, !orb_false_iff, !andb_false_iff.
    rewrite !orb_true_iff, !andb_true_iff, !orb_true_iff, !andb_true_iff.
    rewrite !Z.ltb_lt, !Z.ltb_ge, !Z.eqb_eq, !Z.eqb_neq, !Z.leb_le, !Z.leb_gt. lia. }
  assert (Hrefl : ∀ a, before a a = true).
  { intros a. unfold before. rewrite !Z.eqb_refl, Z.leb_refl. by rewrite !orb_true_r. }
  revert j. induction l as [|a l IH]; intros j H; simpl in H; [done|].
  destruct (first_by l) as [k|] eqn:E.
  - destruct (IH k eq_refl) as [Hk Hall]. destruct (before a k) eqn:Eb; injection H as <-.
    + split; [by left|]. intros x [->|Hx]%elem_of_cons; [done|]. eapply Htrans; [exact Eb|by apply Hall].
    + split; [by right|]. intros x [->|Hx]%elem_of_cons; [by apply Htotal|by apply Hall].
  - injection H as <-. destruct l as [|b l]; [|simpl in E; by repeat case_match].
    split; [by left|]. by intros x ->%list_elem_of_singleton.
Qed.

Lemma elem_of_filter_b (p : Job → bool) l j : j ∈ List.filter p l ↔ j ∈ l ∧ p j = true.
Proof. by rewrite !list_elem_of_In, filter_In. Qed.
