(* ===== verification/JobsSpec.v ===== *)
(** * What the job queue guarantees

    The table invariant over every reachable state, the choice of [claim],
    fencing of stale workers, the worker loop and the batch helper. *)

From S2P Require Import Prelude Jobs.
Local Open Scope Z_scope.

Section spec.
Variable HANDLERS : list string.

(** ** Each operation preserves the invariant *)

Ltac job_fields := intros j Hj Hp; split; [done|];
  match goal with Hall : Forall job_ok _ |- _ => rewrite Forall_forall in Hall; destruct (Hall j Hj) as (?&?&?&?&?) end;
  split_and!; simpl; try done; try lia; try (by intros [|]); try (split; intros; by eexists).

Lemma enqueue_ok t knd body dedupe delay ma prio now uuid row t' :
  table_ok t → enqueue HANDLERS t knd body dedupe delay ma prio now uuid = Ok (row, t') → table_ok t'.
Proof.
  intros Ht H. unfold enqueue in H. apply bind_Ok in H as ([] & _ & H). apply bind_Ok in H as ([] & _ & H).
  match type of H with match ?x with Some _ => _ | None => _ end = _ => destruct x as [r|] end;
    [by injection H as <- <-|].
  apply bind_Ok in H as ([] & Hid%require_Ok & H). apply bind_Ok in H as ([] & Hd%require_Ok & [= <- <-]).
  destruct Ht as (Hnd & _ & Hall). split_and!; [|done|].
  - rewrite map_app. simpl. apply NoDup_app. split_and!; [done| |apply NoDup_singleton].
    intros x Hx ->%list_elem_of_singleton. apply list_elem_of_fmap in Hx as (j & Hj & Hin).
    apply negb_true_iff, existsb_false_Forall in Hid. rewrite Forall_forall in Hid. specialize (Hid j Hin).
    unfold has_id in Hid. by rewrite <- Hj, String.eqb_refl in Hid.
  - apply Forall_app. split; [done|]. constructor; [|constructor].
    split_and!; simpl; try lia; try done.
Qed.

Lemma claim_ok t kinds lease now token r t' :
  table_ok t → claim t kinds lease now token = Ok (r, t') → table_ok t'.
Proof.
  intros Ht%(reap_ok now) H. unfold claim in H. set (u := reap now t) in *.
  destruct (first_by _) as [row|] eqn:E; [|by injection H as _ <-].
  apply bind_Ok in H as ([n t1] & Hu & [= _ <-]).
  apply first_by_spec in E as [[Hin Hr]%elem_of_filter_b _].
  eapply update_where_ok; [exact Ht|exact Hu|].
  intros j Hj Hp. split; [done|]. unfold has_id in Hp. apply String.eqb_eq in Hp.
  assert (j = row) as ->.
  { pose proof (find_job_unique u j (proj1 Ht) Hj) as E1. rewrite Hp in E1.
    rewrite (find_job_unique u row (proj1 Ht) Hin) in E1. by injection E1. }
  destruct Ht as (_ & _ & Hall). rewrite Forall_forall in Hall. destruct (Hall row Hj) as (H1&H2&_&_&_).
  unfold ready in Hr. apply andb_true_iff in Hr as [[_ Hlt]%andb_true_iff _]. zbool.
  split_and!; simpl; try lia; try done. by intros [|].
Qed.

Lemma complete_ok t jid body token now t' : table_ok t → complete t jid body token now = Ok t' → table_ok t'.
Proof.
  intros Ht H. unfold complete in H. apply bind_Ok in H as ([] & _ & H).
  apply bind_Ok in H as ([n t1] & Hu & H). apply bind_Ok in H as ([] & _ & [= <-]).
  eapply update_where_ok; [exact Ht|exact Hu|]. destruct Ht as (_ & _ & Hall). job_fields.
Qed.

Lemma fail_ok t jid err token now s t' : table_ok t → fail t jid err token now = Ok (s, t') → table_ok t'.
Proof.
  intros Ht H. unfold fail in H. apply bind_Ok in H as (row & Hrow%get_or_Ok & H).
  apply bind_Ok in H as ([] & _ & H). apply bind_Ok in H as ([n t1] & Hu & [= _ <-]).
  eapply update_where_ok; [exact Ht|exact Hu|].
  intros j Hj Hp. split; [done|]. unfold has_id in Hp. apply String.eqb_eq in Hp.
  assert (j = row) as ->.
  { pose proof (find_job_unique t j (proj1 Ht) Hj) as E. rewrite Hp, Hrow in E. by injection E. }
  destruct Ht as (_ & _ & Hall). rewrite Forall_forall in Hall. destruct (Hall row Hj) as (H1&H2&_&_&_).
  split_and!; simpl; try done; try lia; destruct (max_attempts row <=? attempts row) eqn:E; zbool; try done.
  by intros [|].
Qed.

Lemma renew_ok t jid token lease now t' : table_ok t → renew t jid token lease now = Ok t' → table_ok t'.
Proof.
  intros Ht H. unfold renew in H. apply bind_Ok in H as ([] & _ & H).
  apply bind_Ok in H as ([n t1] & Hu & H). apply bind_Ok in H as ([] & _ & [= <-]).
  eapply update_where_ok; [exact Ht|exact Hu|]. destruct Ht as (_ & _ & Hall).
  intros j Hj Hp. split; [done|]. rewrite Forall_forall in Hall. destruct (Hall j Hj) as (H1&H2&H3&H4&H5).
  split_and!; simpl; try done; try lia. by rewrite fmap_is_Some.
Qed.

Lemma requeue_ok p t now n t' : table_ok t → update_where p (requeue now) t = Ok (n, t') → table_ok t'.
Proof.
  intros Ht Hu. eapply update_where_ok; [exact Ht|exact Hu|]. destruct Ht as (_ & _ & Hall). job_fields.
Qed.

Lemma retry_ok t jid now n t' : table_ok t → retry t jid now = Ok (n, t') → table_ok t'.
Proof.
  intros Ht. unfold retry. destruct jid as [i|]; [destruct (String.eqb i "")|]; by apply requeue_ok.
Qed.

Lemma omap_mono {A B} (f : A → option B) l k : l `sublist_of` k → omap f l `sublist_of` omap f k.
Proof.
  induction 1 as [|x l k _ IH|x l k _ IH]; [constructor|..]; simpl; destruct (f x);
    try done; try by constructor.
Qed.

Lemma purge_ok t older now : table_ok t → table_ok (purge t older now).2.
Proof.
  intros (Hid & Hd & Hall). unfold purge. simpl. set (p := λ j : Job, negb _).
  assert (Hsub : List.filter p t `sublist_of` t).
  { clear. induction t as [|j t IH]; [constructor|]. simpl. destruct (p j); by constructor. }
  split_and!.
  - eapply sublist_NoDup; [exact Hid|]. by apply (fmap_sublist id).
  - unfold dedupe_ok in *. rewrite bool_decide_eq_true in *. eapply sublist_NoDup; [exact Hd|].
    by apply omap_mono.
  - rewrite Forall_forall in *. intros j [Hj _]%elem_of_filter_b. by apply Hall.
Qed.

(** ** Fencing *)

Lemma filter_nil (p : Job → bool) t : (∀ j, j ∈ t → p j = false) → List.filter p t = [].
Proof.
  induction t as [|j t IH]; intros H; [done|]. simpl. rewrite (H j) by by left. apply IH.
  intros k Hk. apply H. by right.
Qed.

Lemma update_none p f t : dedupe_ok t = true → (∀ j, j ∈ t → p j = false) → update_where p f t = Ok (0, t).
Proof.
  intros Hd Hp. unfold update_where. rewrite (filter_nil _ _ Hp).
  assert (map (λ j, if p j then f j else j) t = t) as ->.
  { clear Hd. induction t as [|j t IH]; [done|]. simpl. rewrite (Hp j) by by left. f_equal.
    apply IH. intros k Hk. apply Hp. by right. }
  by rewrite Hd.
Qed.

(** The job is not leased under the token. *)
Definition unheld (job_id token : string) (t : table) : Prop := ∀ j, j ∈ t → id j = job_id → lease_token j ≠ Some token.

(** A token that does not hold the job changes nothing. *)
Lemma stale_rejected t jid token now body err lease : table_ok t → unheld jid token t →
  complete t jid body (Some token) now = Err (if str_len body <=? 64000 then LeaseLost else JobError) ∧
  fail t jid err (Some token) now = Err (match find_job jid t with Some _ => LeaseLost | None => JobError end) ∧
  renew t jid token lease now = Err (if negb (String.eqb token "") && (0 <? lease) then LeaseLost else JobError).
Proof.
  intros (Hid & Hd & Hall) Hun.
  assert (Hp : ∀ j, j ∈ t → has_id jid j && live now token j = false).
  { intros j Hj. destruct (has_id jid j) eqn:E; [|done]. unfold live.
    rewrite (bool_decide_eq_false_2 (lease_token j = Some token)); [by rewrite andb_false_r|]. by apply Hun, String.eqb_eq. }
  split_and!.
  - unfold complete. destruct (str_len body <=? 64000); [|done]. simpl. by rewrite (update_none _ _ t Hd Hp).
  - unfold fail. destruct (find_job jid t) as [row|] eqn:Hrow; [|done]. simpl. destruct (find_job_Some _ _ _ Hrow) as [Hin Hi].
    by rewrite (bool_decide_eq_false_2 (lease_token row = Some token)), andb_false_r by by apply Hun.
  - unfold renew. destruct (negb (String.eqb token "") && (0 <? lease)); [|done]. simpl. by rewrite (update_none _ _ t Hd Hp).
Qed.

(** ** Reachable tables *)

(** One committed transaction of some process. *)
Inductive job_step : table → table → Prop :=
  | step_enqueue t knd body dk delay ma prio now uuid row t' :
      enqueue HANDLERS t knd body dk delay ma prio now uuid = Ok (row, t') → job_step t t'
  | step_claim t kinds lease now token r t' : claim t kinds lease now token = Ok (r, t') → job_step t t'
  | step_complete t jid body token now t' : complete t jid body token now = Ok t' → job_step t t'
  | step_fail t jid err token now s t' : fail t jid err token now = Ok (s, t') → job_step t t'
  | step_renew t jid token lease now t' : renew t jid token lease now = Ok t' → job_step t t'
  | step_retry t jid now n t' : retry t jid now = Ok (n, t') → job_step t t'
  | step_purge t older now : job_step t (purge t older now).2.

Lemma job_step_ok t t' : table_ok t → job_step t t' → table_ok t'.
Proof.
  intros Ht Hs. destruct Hs;
    [by eapply enqueue_ok|by eapply claim_ok|by eapply complete_ok|by eapply fail_ok
    |by eapply renew_ok|by eapply retry_ok|by apply purge_ok].
Qed.

(** *** Operations as data *)

Inductive operation :=
  | Enqueue (knd body : string) (dedupe : option string) (delay max_att prio now : Z) (uuid : string)
  | Claim (kinds : list string) (lease now : Z) (token : string)
  | Complete (job_id body : string) (token : option string) (now : Z)
  | Fail (job_id err : string) (token : option string) (now : Z)
  | Renew (job_id token : string) (lease now : Z)
  | Retry (job_id : option string) (now : Z)
  | Purge (older_than now : Z).

(** The table after a call; one that raises rolls back. *)
Definition act (t : table) (o : operation) : table :=
  match o with
  | Enqueue knd body dedupe delay max_att prio now uuid =>
      ok_or t (snd <$> enqueue HANDLERS t knd body dedupe delay max_att prio now uuid)
  | Claim kinds lease now token => ok_or t (snd <$> claim t kinds lease now token)
  | Complete job_id body token now => ok_or t (complete t job_id body token now)
  | Fail job_id err token now => ok_or t (snd <$> fail t job_id err token now)
  | Renew job_id token lease now => ok_or t (renew t job_id token lease now)
  | Retry job_id now => ok_or t (snd <$> retry t job_id now)
  | Purge older now => (purge t older now).2
  end.

Definition run_all (ops : list operation) (t : table) : table := fold_left act ops t.

(** The token a call puts on the job it takes. *)
Definition issues (o : operation) : option string := match o with Claim _ _ _ token => Some token | _ => None end.

Lemma act_step t o : act t o = t ∨ job_step t (act t o).
Proof.
  assert (Hr : ∀ {A} (r : res job_exn (A * table)), (∀ a t', r = Ok (a, t') → job_step t t') →
    ok_or t (snd <$> r) = t ∨ job_step t (ok_or t (snd <$> r))) by (intros A [[a t']|e] H; [right; by eapply H|by left]).
  destruct o; simpl; [apply Hr; intros; by eapply step_enqueue|apply Hr; intros; by eapply step_claim| |
    apply Hr; intros; by eapply step_fail| |apply Hr; intros; by eapply step_retry|right; apply step_purge].
  - destruct (complete _ _ _ _ _) as [t'|] eqn:E; [right|by left]. by eapply step_complete.
  - destruct (renew _ _ _ _ _) as [t'|] eqn:E; [right|by left]. by eapply step_renew.
Qed.

Lemma act_ok t o : table_ok t → table_ok (act t o).
Proof. intros Ht. destruct (act_step t o) as [->|H]; [done|by eapply job_step_ok]. Qed.

Lemma unheld_update i k p f t n t' : update_where p f t = Ok (n, t') → unheld i k t →
  (∀ j, id (f j) = id j) → (∀ j, lease_token (f j) = Some k → lease_token j = Some k) → unheld i k t'.
Proof.
  intros (-> & _ & _)%update_where_Ok Hu Hid Hf j (j0 & -> & Hj)%list_elem_of_fmap. destruct (p j0); [|by apply Hu].
  rewrite Hid. intros Hi Hk%Hf. by apply (Hu j0).
Qed.

Lemma unheld_reap i k now t : unheld i k t → unheld i k (reap now t).
Proof.
  intros Hu j (j0 & -> & Hj)%list_elem_of_fmap. destruct (_ && _); [done|]. by apply Hu.
Qed.

(** A token that is not drawn again does not come back to the job. *)
Lemma unheld_act i k t o : issues o ≠ Some k → unheld i k t → unheld i k (act t o).
Proof.
  intros Hi Hu. destruct o as [knd body dk delay ma prio now uuid|kinds lease now token|j body token now|j err token now|j token lease now|j now|older now];
    simpl in *.
  - destruct (enqueue _ _ _ _ _ _ _ _ _ _) as [[row t']|] eqn:E; [simpl|done]. unfold enqueue in E.
    apply bind_Ok in E as ([] & _ & E). apply bind_Ok in E as ([] & _ & E).
    match type of E with match ?x with Some _ => _ | None => _ end = _ => destruct x end; [by injection E as _ <-|].
    apply bind_Ok in E as ([] & _ & E). apply bind_Ok in E as ([] & _ & [= _ <-]).
    intros j [Hj|Hj]%elem_of_app; [by apply Hu|]. apply list_elem_of_singleton in Hj as ->. done.
  - destruct (claim _ _ _ _ _) as [[r t']|] eqn:E; [simpl|done]. unfold claim in E.
    apply (unheld_reap i k now) in Hu. destruct (first_by _); [|by injection E as _ <-].
    apply bind_Ok in E as ([n t1] & E & [= _ <-]). eapply unheld_update; [exact E|done|done|]. simpl. congruence.
  - destruct (complete _ _ _ _ _) as [t'|] eqn:E; [simpl|done]. unfold complete in E. apply bind_Ok in E as ([] & _ & E).
    apply bind_Ok in E as ([n t1] & E & H). apply bind_Ok in H as ([] & _ & [= <-]). by eapply unheld_update.
  - destruct (fail _ _ _ _ _) as [[st t']|] eqn:E; [simpl|done]. unfold fail in E. apply bind_Ok in E as (row & _ & E).
    apply bind_Ok in E as ([] & _ & E). apply bind_Ok in E as ([n t1] & E & [= _ <-]). by eapply unheld_update.
  - destruct (renew _ _ _ _ _) as [t'|] eqn:E; [simpl|done]. unfold renew in E. apply bind_Ok in E as ([] & _ & E).
    apply bind_Ok in E as ([n t1] & E & H). apply bind_Ok in H as ([] & _ & [= <-]). by eapply unheld_update.
  - destruct (retry _ _ _) as [[n t']|] eqn:E; [simpl|done]. unfold retry in E.
    destruct j as [i0|]; [destruct (String.eqb i0 "")|]; by eapply unheld_update.
  - intros j [Hj _]%elem_of_filter_b. by apply Hu.
Qed.

Lemma run_all_unheld i k ops t : Forall (λ o, issues o ≠ Some k) ops → table_ok t → unheld i k t →
  table_ok (run_all ops t) ∧ unheld i k (run_all ops t).
Proof.
  intros Ho. revert t. induction Ho as [|o ops Hi _ IH]; intros t Ht Hu; [done|].
  apply IH; [by apply act_ok|by apply unheld_act].
Qed.

Lemma find_update p f t n t' jid : update_where p f t = Ok (n, t') → (∀ j, id (f j) = id j) →
  find_job jid t' = (λ j, if p j then f j else j) <$> find_job jid t.
Proof.
  intros (-> & _ & _)%update_where_Ok Hf. unfold find_job. induction t as [|j t IH]; [done|]. simpl.
  assert (has_id jid (if p j then f j else j) = has_id jid j) as ->.
  { unfold has_id. destruct (p j); [by rewrite Hf|done]. }
  by destruct (has_id jid j).
Qed.

(** What [claim] hands out. *)
Lemma claim_spec t kinds lease now token job t' :
  table_ok t → claim t kinds lease now token = Ok (Some job, t') →
  ∃ old, old ∈ reap now t ∧ ready now kinds old = true ∧
    (∀ k, k ∈ reap now t → ready now kinds k = true → before old k = true) ∧
    job = take_claim lease now token old ∧ find_job (id job) t' = Some job.
Proof.
  intros Ht%(reap_ok now) H. unfold claim in H.
  destruct (first_by _) as [row|] eqn:E; [|done].
  apply bind_Ok in H as ([n t1] & Hu & H). injection H as Hf ->.
  apply first_by_spec in E as [[Hin Hr]%elem_of_filter_b Hbest].
  rewrite (find_update _ _ _ _ _ _ Hu ltac:(done)) in Hf.
  pose proof (find_job_unique _ _ (proj1 Ht) Hin) as Hrow. rewrite Hrow in Hf. simpl in Hf.
  unfold has_id in Hf. rewrite String.eqb_refl in Hf. injection Hf as <-.
  exists row. split_and!; try done.
  - intros k Hk Hrk. apply Hbest. by apply elem_of_filter_b.
  - rewrite (find_update _ _ _ _ _ _ Hu ltac:(done)). simpl. rewrite Hrow. simpl.
    unfold has_id. by rewrite String.eqb_refl.
Qed.

(** ** Properties *)

(** C19: in every table reachable from the empty one by any interleaving of
    enqueue, claim, complete, fail, renew, retry and purge transactions, ids
    are unique, at most one pending job has a given dedupe key, no job has
    used more than its attempts, jobs waiting for a worker have an attempt
    left, and exactly the running jobs carry a lease and its token. *)
Theorem reachable_table_ok t t' : table_ok t → rtc job_step t t' →
  NoDup (map id t') ∧ dedupe_ok t' = true ∧
  (∀ j, j ∈ t' → 0 <= attempts j <= max_attempts j ∧ max_attempts j <= 20 ∧
     (job_status j = running ↔ is_Some (lease_token j)) ∧ (is_Some (lease_token j) ↔ is_Some (lease_until j)) ∧
     (job_status j = queued ∨ job_status j = failed → attempts j < max_attempts j)).
Proof.
  intros Ht Hr. assert (table_ok t') as (Hid & Hd & Hall) by (induction Hr; eauto using job_step_ok).
  split_and!; [done..|]. intros j Hj. rewrite Forall_forall in Hall.
  destruct (Hall j Hj) as ([? ?] & ? & ? & ? & ?). done.
Qed.

(** [claim] hands out a job that was ready, that no ready job precedes
    in the order (priority, due time, age), with one more attempt counted and
    within its limit, and with the caller's token on a lease of the requested
    length. *)
Theorem claim_takes_best t kinds lease now token job t' :
  table_ok t → claim t kinds lease now token = Ok (Some job, t') →
  table_ok t' ∧ find_job (id job) t' = Some job ∧ job_status job = running ∧
  lease_token job = Some token ∧ lease_until job = Some (now + lease) ∧ attempts job <= max_attempts job ∧
  ∃ old, old ∈ reap now t ∧ ready now kinds old = true ∧ attempts job = attempts old + 1 ∧ id job = id old ∧
    ∀ k, k ∈ reap now t → ready now kinds k = true → before old k = true.
Proof.
  intros Ht H. pose proof (claim_ok _ _ _ _ _ _ _ Ht H) as Ht'.
  destruct (claim_spec _ _ _ _ _ _ _ Ht H) as (old & Hin & Hr & Hbest & -> & Hf).
  split_and!; try done.
  - destruct (find_job_Some _ _ _ Hf) as [Hj _]. destruct Ht' as (_ & _ & Hall).
    rewrite Forall_forall in Hall. by destruct (Hall _ Hj) as (_ & [_ ?] & _).
  - by exists old.
Qed.

(** C20: a worker whose claim was replaced is fenced for good.  Once [claim]
    gave the job to another token, and whatever calls by whatever processes
    follow, as long as none of them draws the old token again, completing,
    failing or renewing the job with it raises and changes nothing, at any
    time: [LeaseLost], unless the call is refused as such ([JobError] for a
    result over 64000 characters, for failing a job that has been purged, and
    for renewing with an empty token or no time). *)
Theorem replaced_worker_fenced t kinds lease now token job t' ops stale later body err more :
  table_ok t → claim t kinds lease now token = Ok (Some job, t') →
  stale ≠ token → Forall (λ o, issues o ≠ Some stale) ops →
  complete (run_all ops t') (id job) body (Some stale) later = Err (if str_len body <=? 64000 then LeaseLost else JobError) ∧
  fail (run_all ops t') (id job) err (Some stale) later = Err (match find_job (id job) (run_all ops t') with Some _ => LeaseLost | None => JobError end) ∧
  renew (run_all ops t') (id job) stale more later = Err (if negb (String.eqb stale "") && (0 <? more) then LeaseLost else JobError).
Proof.
  intros Ht H Hne Hops. pose proof (claim_ok _ _ _ _ _ _ _ Ht H) as Ht'.
  destruct (claim_spec _ _ _ _ _ _ _ Ht H) as (old & _ & _ & _ & Hjob & Hf).
  destruct (run_all_unheld (id job) stale ops t' Hops Ht') as [HT Hu]; [|by apply stale_rejected].
  intros j Hj Hid. pose proof (find_job_unique _ _ (proj1 Ht') Hj) as E. rewrite Hid, Hf in E. injection E as <-.
  rewrite Hjob. simpl. congruence.
Qed.

(** a live claim can finish its job: [complete] with its token stores
    the result and releases the lease of that job, and of no other. *)
Theorem live_claim_completes t job body token now :
  table_ok t → find_job (id job) t = Some job → live now token job = true → str_len body <= 64000 →
  ∃ t', complete t (id job) body (Some token) now = Ok t' ∧
    find_job (id job) t' = Some (set_done body now job) ∧
    ∀ other, other ≠ id job → find_job other t' = find_job other t.
Proof.
  intros Ht Hf Hlive Hb. destruct (find_job_Some _ _ _ Hf) as [Hin _].
  set (p := λ j, has_id (id job) j && fenced now (Some token) j).
  assert (Hpj : p job = true) by (unfold p, has_id; simpl; by rewrite String.eqb_refl, Hlive).
  assert (Hu : ∃ n t', update_where p (set_done body now) t = Ok (n, t') ∧ n ≠ 0).
  { unfold update_where. rewrite dedupe_ok_map; [|apply Ht|].
    - simpl. eexists _, _. split; [done|].
      assert (job ∈ List.filter p t) as Hin' by (by apply elem_of_filter_b).
      destruct (List.filter p t); [by apply elem_of_nil in Hin'|]. simpl. lia.
    - intros j _. destruct (p j); auto. }
  destruct Hu as (n & t' & Hu & Hn). exists t'. split_and!.
  - unfold complete. rewrite (proj2 (Z.leb_le _ _) Hb). cbn [require mbind res_bind].
    fold p. rewrite Hu. simpl.
    by rewrite (proj2 (Z.eqb_neq n 0)).
  - rewrite (find_update _ _ _ _ _ _ Hu ltac:(done)), Hf. simpl. by rewrite Hpj.
  - intros other Hne. rewrite (find_update _ _ _ _ _ _ Hu ltac:(done)).
    destruct (find_job other t) as [k|] eqn:Ek; [|done]. simpl.
    destruct (find_job_Some _ _ _ Ek) as [_ Hid]. unfold p, has_id.
    by rewrite (proj2 (String.eqb_neq (id k) (id job))) by congruence.
Qed.
End spec.

Section batch_spec.
Context {A R : Type}.

Lemma run_chunk_length (single : A → res string R) batch part :
  length (run_chunk single batch part) = length part.
Proof.
  unfold run_chunk. destruct batch as [b|]; [|by rewrite length_map].
  destruct (b part) as [rs|]; [|by rewrite length_map].
  destruct (length rs =? length part)%nat eqn:E; zbool; by rewrite length_map.
Qed.

(** [run_batch] reports every item exactly once, in order: item by item
    the report is that of the single call, or the result at its place in a
    batch call that covered it and returned as many results as items. *)
Theorem run_batch_reports (single : A → res string R) batch items chunk :
  Forall2 (λ x r, r = run_single single x ∨
    ∃ b part rs k v, batch = Some b ∧ b part = Ok rs ∧ length rs = length part ∧
      part !! k = Some x ∧ rs !! k = Some v ∧ r = ItemOk v true)
    items (run_batch single batch items chunk).
Proof.
  assert (Hsingle : ∀ part, Forall2 (λ x r, r = run_single single x ∨
    ∃ b part rs k v, batch = Some b ∧ b part = Ok rs ∧ length rs = length part ∧
      part !! k = Some x ∧ rs !! k = Some v ∧ r = ItemOk v true) part (map (run_single single) part)).
  { intros part. induction part; constructor; auto. }
  assert (Hchunk : ∀ part, Forall2 (λ x r, r = run_single single x ∨
    ∃ b part rs k v, batch = Some b ∧ b part = Ok rs ∧ length rs = length part ∧
      part !! k = Some x ∧ rs !! k = Some v ∧ r = ItemOk v true) part (run_chunk single batch part)).
  { intros part. unfold run_chunk. destruct batch as [b|]; [|apply Hsingle].
    destruct (b part) as [rs|] eqn:Eb; [|apply Hsingle].
    destruct (length rs =? length part)%nat eqn:El; [|apply Hsingle]. zbool.
    apply Forall2_same_length_lookup_2; [by rewrite length_map|].
    intros k x r Hx Hr. right. rewrite list_lookup_fmap in Hr. apply fmap_Some in Hr as (v & Hv & ->).
    by exists b, part, rs, k, v. }
  unfold run_batch. assert (Hlen : (length items <= length items)%nat) by lia. revert Hlen.
  generalize (length items) at 2 3. intros fuel. revert items.
  induction fuel as [|fuel IH]; intros items Hlen.
  - destruct items; [constructor|simpl in Hlen; lia].
  - destruct items as [|x items]; [constructor|]. cbn [run_batch_f].
    rewrite <- (take_drop (Nat.max 1 chunk) (x :: items)) at 1.
    apply Forall2_app; [apply Hchunk|]. apply IH. rewrite length_drop. simpl length in *. lia.
Qed.
End batch_spec.

(** ** Witnesses *)

Definition demo_handlers : list string := ["ingest"]%string.
Definition demo_table : table :=
  ok_or [] (snd <$> enqueue demo_handlers [] "ingest" "{}" (Some "k"%string) 0 3 0 100 "job1").
Definition demo_claim (t : table) (now : Z) (token : string) : option Job * table :=
  ok_or (None, []) (claim t [] 50 now token).
Definition demo_job (t : table) (now : Z) (token : string) : Job :=
  default (mkJob "" "" "" queued 0 1 0 0 0 0 None None None None None) (demo_claim t now token).1.
Definition demo_running : table := (demo_claim demo_table 200 "a").2.

Lemma demo_table_ok : table_ok demo_table.
Proof.
  eapply (enqueue_ok demo_handlers [] "ingest" "{}" (Some "k"%string) 0 3 0 100 "job1"); [apply table_ok_nil|].
  reflexivity.
Qed.

Lemma demo_running_ok : table_ok demo_running.
Proof.
  apply (claim_ok demo_table [] 50 200 "a" (demo_claim demo_table 200 "a").1); [apply demo_table_ok|reflexivity].
Qed.

Lemma reachable_table_ok_witness : NoDup (map id demo_running) ∧ dedupe_ok demo_running = true ∧
  (∀ j, j ∈ demo_running → 0 <= attempts j <= max_attempts j ∧ max_attempts j <= 20 ∧
     (job_status j = running ↔ is_Some (lease_token j)) ∧ (is_Some (lease_token j) ↔ is_Some (lease_until j)) ∧
     (job_status j = queued ∨ job_status j = failed → attempts j < max_attempts j)).
Proof.
  apply (reachable_table_ok demo_handlers []); [apply table_ok_nil|].
  eapply rtc_l; [|apply rtc_once].
  - apply (step_enqueue demo_handlers [] "ingest" "{}" (Some "k"%string) 0 3 0 100 "job1"
             (default (demo_job [] 0 "") (head demo_table)) demo_table). reflexivity.
  - apply (step_claim demo_handlers demo_table [] 50 200 "a" (demo_claim demo_table 200 "a").1). reflexivity.
Defined.

(** The lease of ["a"] ran out at 250; ["b"] takes the job over. *)
Lemma claim_takes_best_witness :
  let job := demo_job demo_running 300 "b" in let t' := (demo_claim demo_running 300 "b").2 in
  table_ok t' ∧ find_job (id job) t' = Some job ∧ job_status job = running ∧
  lease_token job = Some "b"%string ∧ lease_until job = Some (300 + 50) ∧ attempts job <= max_attempts job ∧
  ∃ old, old ∈ reap 300 demo_running ∧ ready 300 [] old = true ∧ attempts job = attempts old + 1 ∧
    id job = id old ∧
    ∀ k, k ∈ reap 300 demo_running → ready 300 [] k = true → before old k = true.
Proof. apply (claim_takes_best demo_running [] 50 300 "b"); [apply demo_running_ok|reflexivity]. Defined.

(** The second worker's lease runs out too, a third one takes the job over,
    renews it and completes it. *)
Definition demo_later : list operation :=
  [Claim [] 50 400 "c"; Renew "job1" "c" 50 420; Complete "job1" "null" (Some "c"%string) 430; Retry None 440].

Lemma replaced_worker_fenced_witness :
  let t' := run_all demo_handlers demo_later (demo_claim demo_running 300 "b").2 in
  job_status <$> find_job "job1" t' = Some done_ ∧
  complete t' "job1" "null" (Some "a"%string) 450 = Err LeaseLost ∧
  fail t' "job1" "boom" (Some "a"%string) 450 = Err LeaseLost ∧
  renew t' "job1" "a" 50 450 = Err LeaseLost.
Proof.
  split; [vm_compute; reflexivity|].
  refine (replaced_worker_fenced demo_handlers demo_running [] 50 300 "b" (demo_job demo_running 300 "b")
    (demo_claim demo_running 300 "b").2 demo_later "a" 450 "null" "boom" 50 _ _ _ _);
    [apply demo_running_ok|reflexivity|discriminate|]. repeat constructor; discriminate.
Defined.

Lemma live_claim_completes_witness : let job := demo_job demo_table 200 "a" in
  ∃ t', complete demo_running "job1" "null" (Some "a"%string) 210 = Ok t' ∧
    find_job "job1" t' = Some (set_done "null" 210 job) ∧
    ∀ other, other ≠ "job1"%string → find_job other t' = find_job other demo_running.
Proof.
  apply (live_claim_completes demo_running (demo_job demo_table 200 "a") "null" "a" 210);
    [apply demo_running_ok|reflexivity|reflexivity|vm_compute; discriminate].
Defined.
