(* ===== verification/Capabilities.v ===== *)
(** * Attenuating capabilities ([unimem/capabilities.py])

    Caveat policies, the no-widening relation, token construction and chain
    verification, and proofs of possession.  [moment] values are instants in
    microseconds; [holder_key] is the caller's key lookup. *)

From S2P Require Import Prelude Sha256 Base64 Wire Origin Moment Strings.
Local Open Scope Z_scope.

(** ** Definitions *)

Definition OPERATIONS : list string := ["read"; "write"; "forget"; "export"]%string.
Definition ALGORITHMS : list string := ["hmac-sha256"; "ed25519"]%string.
Definition SET_FIELDS : list string :=
  ["namespaces"; "operations"; "classes"; "purposes"; "labels"; "delegates"]%string.
Definition FIELDS : list string := SET_FIELDS ++ ["ceiling"; "audience"; "expires_at"]%string.


(** The white space [str.strip] removes that is not a control character. *)
Definition wide_spaces : list string :=
  " "%string :: map (λ l, of_bytes (map ascii_of_nat l))
    [[194; 133]; [194; 160]; [225; 154; 128]; [226; 128; 128]; [226; 128; 129]; [226; 128; 130];
     [226; 128; 131]; [226; 128; 132]; [226; 128; 133]; [226; 128; 134]; [226; 128; 135];
     [226; 128; 136]; [226; 128; 137]; [226; 128; 138]; [226; 128; 168]; [226; 128; 169];
     [226; 128; 175]; [226; 129; 159]; [227; 128; 128]]%nat.

Definition rev_string (s : string) : string := of_bytes (rev (str_bytes s)).

(** [label == label.strip()] for a label without control characters. *)
Definition stripped (s : string) : bool :=
  negb (existsb (λ w, String.prefix w s || String.prefix (rev_string w) (rev_string s)) wide_spaces).

Definition _label (value : json) : res pyexn string :=
  label ← text_json value 256;
  require (stripped label
           && negb (existsb (λ c, (byte_of c <? 32) || (byte_of c =? 127)) (str_bytes label))
           && negb (has_char "*" label)) ValueError;;
  Ok label.

(** A cleaned policy: the dictionary [policy] returns. *)
Record caveats := Caveats {
  set_field : string → list string;
  ceiling : Z;
  audience : string;
  expires : Z;
}.

Definition label_field (value : json) (field : string) : res pyexn (list string) :=
  items ← get_or (jget field value) KeyError;
  match items with
  | JList items =>
      require ((Z.of_nat (length items) <=? 128)
               && (negb (bool_decide (items = [])) || mem field ["labels"; "delegates"]%string)) ValueError;;
      labels ← mapR _label items;
      let cleaned := sorted_set labels in
      require (length cleaned =? length items)%nat ValueError;;
      Ok cleaned
  | _ => Err ValueError
  end.

Definition text_field (value : json) (field : string) : res pyexn string :=
  v ← get_or (jget field value) KeyError;
  match v with JStr s => Ok s | _ => Err ValueError end.

Definition policy (value : json) : res pyexn caveats :=
  require (has_exact_keys FIELDS value) ValueError;;
  sets ← mapR (λ f, l ← label_field value f; Ok (f, l)) SET_FIELDS;
  let field f := default [] (assoc f sets) in
  require (included (field "operations"%string) OPERATIONS) ValueError;;
  c ← get_or (jget "ceiling" value) KeyError;
  c ← count_json c 0 3;
  a ← get_or (jget "audience" value) KeyError;
  a ← _label a;
  e ← text_field value "expires_at";
  e ← instant e;
  Ok (Caveats field c a e).

(** The dictionary itself, as it is signed. *)
Definition caveats_json (c : caveats) : json :=
  JObj (map (λ f, (f, JList (map JStr (set_field c f)))) SET_FIELDS
        ++ [("ceiling", JInt (ceiling c)); ("audience", JStr (audience c));
            ("expires_at", JStr (isoformat (expires c)))]%string).

(** [subset] on cleaned policies. *)
Definition narrows (before after : caveats) : bool :=
  forallb (λ f, included (set_field after f) (set_field before f)) SET_FIELDS
  && negb (ceiling before <? ceiling after) && negb (expires before <? expires after)
  && (String.eqb (audience after) (audience before) || mem (audience after) (set_field before "delegates")).

Definition subset (parent child : json) : res pyexn () :=
  before ← policy parent;
  after ← policy child;
  require (narrows before after) PermissionError.

Definition _bytes (domain : string) (record : json) : res pyexn string :=
  w ← wire record; Ok (domain +:+ String "000" EmptyString +:+ w).

Section capabilities.
Context `{ED : Ed25519}.

Definition _sign (algorithm key data : string) : res pyexn string :=
  require (mem algorithm ALGORITHMS && (byte_len key =? 32)) ValueError;;
  Ok (if String.eqb algorithm "hmac-sha256" then hmac_hex key data else hex (ed_sign key data)).

Definition is_ascii (s : string) : bool := forallb (λ c, byte_of c <? 128) (str_bytes s).

(** [hmac.compare_digest] of two [str] raises [TypeError] on non-ASCII text. *)
Definition _verify (algorithm key data : string) (signature : json) : res pyexn () :=
  match signature with
  | JStr s =>
      require (mem algorithm ALGORITHMS && (byte_len key =? 32)) PermissionError;;
      if String.eqb algorithm "hmac-sha256" then
        require (str_len s =? 64) PermissionError;;
        require (is_ascii s) TypeError;;
        require (String.eqb (hmac_hex key data) s) PermissionError
      else
        raw ← get_or (fromhex s) PermissionError;
        require (ed_verify key data raw) PermissionError
  | _ => Err PermissionError
  end.

(** [value in ALGORITHMS], a frozenset of strings. *)
Definition hashable (v : json) : bool := match v with JList _ | JObj _ => false | _ => true end.
Definition jmem (v : json) (l : list string) : bool := match v with JStr s => mem s l | _ => false end.

Definition _token (token : json) : res pyexn (list json) :=
  require (has_exact_keys ["version"; "algorithm"; "links"]%string token) ValueError;;
  version ← get_or (jget "version" token) KeyError;
  require (bool_decide (version = JInt 1)) ValueError;;
  a ← get_or (jget "algorithm" token) KeyError;
  require (hashable a) TypeError;;
  require (jmem a ALGORITHMS) ValueError;;
  links ← get_or (jget "links" token) KeyError;
  match links with
  | JList links =>
      require ((1 <=? length links)%nat && (length links <=? 16)%nat) ValueError;;
      w ← wire token;
      require (byte_len w <=? 65536) ValueError;;
      require (forallb (λ node, has_exact_keys ["record"; "signature"; "authorization"]%string node
                                && match jget "record" node with Some r => is_obj r | None => false end) links)
              ValueError;;
      Ok links
  | _ => Err ValueError
  end.

Definition envelope (algorithm : json) (links : list json) : json :=
  JObj [("version", JInt 1); ("algorithm", algorithm); ("links", JList links)]%string.

Definition _prefix (token : json) (n : nat) : res pyexn json :=
  a ← get_or (jget "algorithm" token) KeyError;
  links ← get_or (jget "links" token) KeyError;
  match links with JList l => Ok (envelope a (take n l)) | _ => Err TypeError end.

Definition days7 : Z := 7 * 86400000000.
Definition ROOT_TYPE : string := "unimem.capability.root.v1".
Definition CHILD_TYPE : string := "unimem.capability.child.v1".
Definition HOLDER_DOMAIN : string := "unimem.capability.parent-holder.v1".
Definition POSSESSION_TYPE : string := "unimem.capability.possession.v1".

Definition link (record : json) (signature authorization : string) : json :=
  JObj [("record", record); ("signature", JStr signature); ("authorization", JStr authorization)]%string.

Definition grant (value : json) (issuer tenant nonce : json) (now algorithm key : string) : res pyexn json :=
  c ← policy value;
  issued ← instant now;
  require ((issued <? expires c) && (expires c <=? issued + days7)) ValueError;;
  issuer ← _label issuer; tenant ← _label tenant; nonce ← _label nonce;
  let record := JObj [("type", JStr ROOT_TYPE); ("issuer", JStr issuer); ("tenant", JStr tenant);
                      ("nonce", JStr nonce); ("issued_at", JStr (isoformat issued));
                      ("caveats", caveats_json c)]%string in
  data ← _bytes ROOT_TYPE record;
  signature ← _sign algorithm key data;
  Ok (envelope (JStr algorithm) [link record signature ""]).

(** [d[k1][k2]...] with [KeyError], [TypeError] on a non-dict. *)
Definition field (k : string) (v : json) : res pyexn json :=
  if is_obj v then get_or (jget k v) KeyError else Err TypeError.

Definition attenuate (token value : json) (key : string) : res pyexn json :=
  links ← _token token;
  require (length links <? 16)%nat ValueError;;
  c ← policy value;
  leaf ← get_or (last links) IndexError;
  parent ← (r ← field "record" leaf; field "caveats" r);
  _ ← subset parent (caveats_json c);
  digest_ ← digest token;
  let record := JObj [("type", JStr CHILD_TYPE); ("parent", JStr digest_); ("caveats", caveats_json c)]%string in
  data ← _bytes CHILD_TYPE record;
  a ← field "algorithm" token;
  '(signature, authorization) ← (
    if bool_decide (a = JStr "hmac-sha256") then
      s ← field "signature" leaf;
      mac ← (match s with JStr h => get_or (fromhex h) ValueError | _ => Err TypeError end);
      signature ← _sign "hmac-sha256" mac data;
      hold ← _bytes HOLDER_DOMAIN (JObj [("record", record); ("signature", JStr signature)]%string);
      authorization ← _sign "hmac-sha256" key hold;
      Ok (signature, authorization)
    else
      signature ← _sign "ed25519" key data;
      Ok (signature, ""%string));
  let result := jset "links" (JList (links ++ [link record signature authorization])) token in
  _ ← _token result;
  Ok result.

(** One iteration of the chain loop of [verify]; [before] is the previous
    node, [None] for the root. *)
Definition verify_node (token : json) (algorithm : string) (holder_key : string → res pyexn string)
    (stamp : Z) (revoked : list string) (index : nat) (before : option json) (node : json)
    : res pyexn string :=
  record ← field "record" node;
  cj ← field "caveats" record;
  current ← policy cj;
  require (negb (expires current <=? stamp)) PermissionError;;
  _ ← (match before with
       | None => Ok ()
       | Some prev =>
           require (has_exact_keys ["type"; "parent"; "caveats"]%string record
                    && bool_decide (jget "type" record = Some (JStr CHILD_TYPE))) ValueError;;
           p ← _prefix token index;
           d ← digest p;
           require (bool_decide (jget "parent" record = Some (JStr d))) PermissionError;;
           prev_record ← field "record" prev;
           pj ← field "caveats" prev_record;
           parent ← policy pj;
           _ ← subset (caveats_json parent) (caveats_json current);
           data ← _bytes CHILD_TYPE record;
           holder ← holder_key (audience parent);
           sig ← field "signature" node;
           auth ← field "authorization" node;
           if String.eqb algorithm "hmac-sha256" then
             prev_sig ← field "signature" prev;
             mac ← (match prev_sig with JStr h => get_or (fromhex h) ValueError | _ => Err TypeError end);
             _ ← _verify algorithm mac data sig;
             hold ← _bytes HOLDER_DOMAIN (JObj [("record", record); ("signature", sig)]%string);
             _verify algorithm holder hold auth
           else
             require (bool_decide (auth = JStr "")) ValueError;;
             _verify algorithm holder data sig
       end);
  p ← _prefix token (S index);
  chain_id ← digest p;
  require (negb (mem chain_id revoked)) PermissionError;;
  Ok chain_id.

Fixpoint verify_links (token : json) (algorithm : string) (holder_key : string → res pyexn string)
    (stamp : Z) (revoked : list string) (index : nat) (before : option json) (links : list json)
    : res pyexn (list string) :=
  match links with
  | [] => Ok []
  | node :: rest =>
      c ← verify_node token algorithm holder_key stamp revoked index before node;
      cs ← verify_links token algorithm holder_key stamp revoked (S index) (Some node) rest;
      Ok (c :: cs)
  end.

Record verified := Verified {
  v_tenant : string;
  v_issuer : string;
  v_caveats : caveats;
  v_chain_ids : list string;
  v_chain_digest : string;
}.

Definition verify (token : json) (issuer tenant algorithm key : string)
    (holder_key : string → res pyexn string) (now : string) (revoked : list string) : res pyexn verified :=
  links ← _token token;
  require (bool_decide (jget "algorithm" token = Some (JStr algorithm))) PermissionError;;
  node ← get_or (head links) IndexError;
  root ← field "record" node;
  require (has_exact_keys ["type"; "issuer"; "tenant"; "nonce"; "issued_at"; "caveats"]%string root
           && bool_decide (jget "type" root = Some (JStr ROOT_TYPE))
           && bool_decide (jget "issuer" root = Some (JStr issuer))
           && bool_decide (jget "tenant" root = Some (JStr tenant))) PermissionError;;
  issued ← (s ← text_field root "issued_at"; instant s);
  stamp ← instant now;
  cj ← field "caveats" root;
  root_policy ← policy cj;
  require (negb (stamp <? issued) && (issued <? expires root_policy)
           && (expires root_policy <=? issued + days7)) PermissionError;;
  nonce ← field "nonce" root;
  _ ← _label nonce;
  auth ← field "authorization" node;
  require (bool_decide (auth = JStr "")) ValueError;;
  data ← _bytes ROOT_TYPE root;
  sig ← field "signature" node;
  _ ← _verify algorithm key data sig;
  chain_ids ← verify_links token algorithm holder_key stamp revoked 0 None links;
  leaf ← get_or (last links) IndexError;
  leaf_caveats ← (r ← field "record" leaf; cj ← field "caveats" r; policy cj);
  d ← digest token;
  Ok (Verified tenant issuer leaf_caveats chain_ids d).

Definition permits_policy (rules : caveats) (namespace operation memory_class purpose : string)
    (labels : list string) : bool :=
  mem namespace (set_field rules "namespaces") && mem operation (set_field rules "operations")
  && mem memory_class (set_field rules "classes") && mem purpose (set_field rules "purposes")
  && included labels (set_field rules "labels").

Definition permits (value : json) (namespace operation memory_class purpose : string)
    (labels : list string) : res pyexn bool :=
  rules ← policy value;
  Ok (permits_policy rules namespace operation memory_class purpose labels).

Definition request_digest (method target : json) (raw : string) (purpose : json) : res pyexn string :=
  m ← _label method;
  t ← text_json target 8192;
  p ← _label purpose;
  digest (JObj [("method", JStr m); ("target", JStr t); ("body_sha256", JStr (sha256_hex raw));
                ("purpose", JStr p)]%string).

Definition seconds30 : Z := 30000000.

Definition prove (token : json) (key algorithm : string) (audience_ tenant request nonce : json) (now : string)
    : res pyexn json :=
  _ ← _token token;
  issued ← instant now;
  d ← digest token;
  a ← _label audience_; t ← _label tenant; r ← _label request; n ← _label nonce;
  let record := JObj [("type", JStr POSSESSION_TYPE); ("chain_digest", JStr d); ("audience", JStr a);
                      ("tenant", JStr t); ("request_digest", JStr r); ("nonce", JStr n);
                      ("issued_at", JStr (isoformat issued));
                      ("expires_at", JStr (isoformat (issued + seconds30)))]%string in
  data ← _bytes POSSESSION_TYPE record;
  signature ← _sign algorithm key data;
  Ok (JObj [("record", record); ("signature", JStr signature)]%string).

Definition verify_proof (token : json) (v : verified) (proof : json) (key algorithm request now : string)
    : res pyexn string :=
  require (has_exact_keys ["record"; "signature"]%string proof) ValueError;;
  record ← field "record" proof;
  require (has_exact_keys ["type"; "chain_digest"; "audience"; "tenant"; "request_digest"; "nonce";
                           "issued_at"; "expires_at"]%string record) ValueError;;
  w ← wire proof;
  require (byte_len w <=? 4096) ValueError;;
  issued ← (s ← text_field record "issued_at"; instant s);
  expiry ← (s ← text_field record "expires_at"; instant s);
  stamp ← instant now;
  require (bool_decide (jget "type" record = Some (JStr POSSESSION_TYPE))
           && ((issued <=? stamp) && (stamp <? expiry)) && negb (issued + seconds30 <? expiry)) PermissionError;;
  d ← digest token;
  require (bool_decide (jget "chain_digest" record = Some (JStr d))
           && bool_decide (jget "audience" record = Some (JStr (audience (v_caveats v))))
           && bool_decide (jget "tenant" record = Some (JStr (v_tenant v)))
           && bool_decide (jget "request_digest" record = Some (JStr request))) PermissionError;;
  data ← _bytes POSSESSION_TYPE record;
  sig ← field "signature" proof;
  _ ← _verify algorithm key data sig;
  nonce ← field "nonce" record;
  _label nonce.
End capabilities.
