(* ===== verification/CapabilitiesSpec.v ===== *)
(** * What capability verification guarantees

    Delegation only narrows: what a verified leaf permits, every link of its
    chain permits, with no higher ceiling and no later expiry. *)

From S2P Require Import Prelude Sha256 Base64 Wire Origin Moment Strings Capabilities.
Local Open Scope Z_scope.

(** ** Narrowing *)

(** [a] permits nothing that [b] does not. *)
Definition within (a b : caveats) : Prop :=
  (∀ f x, f ∈ SET_FIELDS → x ∈ set_field a f → x ∈ set_field b f) ∧
  ceiling a <= ceiling b ∧ expires a <= expires b.

Lemma within_trans a b c : within a b → within b c → within a c.
Proof. intros (H1 & H2 & H3) (H4 & H5 & H6). split_and!; [|lia|lia]. intros f x Hf Hx. by apply H4, H1. Qed.

Lemma within_permits a b ns op cl pu labels : within a b →
  permits_policy a ns op cl pu labels = true → permits_policy b ns op cl pu labels = true.
Proof.
  intros (H & _ & _). unfold permits_policy. rewrite !andb_true_iff, !mem_elem, !included_spec.
  assert (∀ f, f ∈ SET_FIELDS ↔ mem f SET_FIELDS = true) as Hf by (intros; by rewrite mem_elem).
  intros ((((?&?)&?)&?)&Hl). split_and!; try (apply H; [by apply Hf|done]).
  intros x Hx. apply H; [by apply Hf|by apply Hl].
Qed.

Lemma narrows_within before after : narrows before after = true → within after before.
Proof.
  unfold narrows. rewrite !andb_true_iff, !negb_true_iff. intros [[[H Hc] He] _]. zbool.
  split_and!; [|lia|lia].
  intros f x Hf Hx. rewrite forallb_Forall, Forall_forall in H. specialize (H f Hf).
  rewrite included_spec in H. by apply H.
Qed.

(** ** Policies *)

Lemma policy_Ok v c : policy v = Ok c →
  (∀ f, f ∈ SET_FIELDS → label_field v f = Ok (set_field c f)) ∧
  (∃ n, jget "ceiling" v = Some (JInt n) ∧ ceiling c = n ∧ 0 <= n <= 3) ∧
  (∃ a, jget "audience" v = Some a ∧ _label a = Ok (audience c)) ∧
  (∃ e, jget "expires_at" v = Some (JStr e) ∧ instant e = Ok (expires c)) ∧
  included (set_field c "operations") OPERATIONS = true.
Proof.
  unfold policy. intros H. apply bind_Ok in H as ([] & _ & H). apply bind_Ok in H as (sets & Hs & H).
  apply bind_Ok in H as ([] & Hop%require_Ok & H). apply bind_Ok in H as (cv & Hcv%get_or_Ok & H).
  apply bind_Ok in H as (n & Hn & H). apply bind_Ok in H as (av & Hav%get_or_Ok & H).
  apply bind_Ok in H as (a & Ha & H). apply bind_Ok in H as (ev & Hev & H).
  apply bind_Ok in H as (e & He & [= <-]). cbn [set_field ceiling audience expires]. split_and!; [| | | |done].
  - intros f Hf. apply mapR_Ok_Forall2 in Hs. clear - Hs Hf.
    assert (Hnd : NoDup SET_FIELDS) by (apply (bool_decide_unpack _); vm_compute; reflexivity).
    revert Hnd Hf Hs. generalize SET_FIELDS. intros fs Hnd Hf Hs.
    induction Hs as [|g [g' l] fs sets Hg Hs IH]; [by apply elem_of_nil in Hf|].
    apply bind_Ok in Hg as (l' & Hl & [= <- <-]). simpl. apply NoDup_cons in Hnd as [Hng Hnd].
    destruct (String.eqb_spec f g) as [->|Hne]; [done|].
    apply elem_of_cons in Hf as [?|Hf]; [done|]. by apply IH.
  - destruct cv; try done. simpl in Hn. unfold count in Hn.
    apply bind_Ok in Hn as ([] & Hb%require_Ok & [= <-]). apply andb_true_iff in Hb as [??]. zbool.
    eexists. split_and!; done.
  - by exists av.
  - unfold text_field in Hev. apply bind_Ok in Hev as (w & Hw%get_or_Ok & Hev).
    destruct w; try done. injection Hev as <-. by exists s.
Qed.

Lemma mapR_label_strings l k : mapR _label (map JStr l) = Ok k → k = l.
Proof.
  revert k. induction l as [|s l IH]; intros k H; [by injection H as <-|].
  simpl in H. apply bind_Ok in H as (s' & Hs & H). apply bind_Ok in H as (k' & Hk & [= <-]).
  f_equal; [|by apply IH]. unfold _label in Hs. apply bind_Ok in Hs as (s2 & Ht & Hs).
  apply bind_Ok in Hs as ([] & _ & [= ->]). simpl in Ht. unfold text in Ht.
  by apply bind_Ok in Ht as ([] & _ & [= ->]).
Qed.

Lemma jget_caveats_field c f : f ∈ SET_FIELDS →
  jget f (caveats_json c) = Some (JList (map JStr (set_field c f))).
Proof. intros Hf. unfold SET_FIELDS in Hf. set_unfold. repeat destruct Hf as [->|Hf]; done. Qed.

Lemma label_Ok s k : _label (JStr s) = Ok k → k = s.
Proof.
  intros H. pose proof (mapR_label_strings [s] [k]) as Hm. simpl in Hm. rewrite H in Hm. simpl in Hm.
  specialize (Hm eq_refl). by injection Hm.
Qed.

(** Cleaning a cleaned policy changes nothing but the order of a list. *)
Lemma policy_caveats_json c c' : 0 <= expires c < MAX_INSTANT → policy (caveats_json c) = Ok c' →
  within c' c ∧ within c c' ∧ audience c' = audience c.
Proof.
  intros Hr (Hsets & (n & Hn & Hc & _) & (a & Ha & Hal) & (e & He & Hei) & _)%policy_Ok.
  injection Hn as <-. injection Ha as <-. injection He as <-.
  rewrite instant_isoformat in Hei by done. injection Hei as Hei. apply label_Ok in Hal.
  assert (Hmem : ∀ f x, f ∈ SET_FIELDS → x ∈ set_field c' f ↔ x ∈ set_field c f).
  { intros f x Hf. specialize (Hsets f Hf). unfold label_field in Hsets.
    rewrite (jget_caveats_field c f Hf) in Hsets. simpl in Hsets.
    apply bind_Ok in Hsets as ([] & _ & H). apply bind_Ok in H as (l & Hl & H).
    apply mapR_label_strings in Hl as ->. apply bind_Ok in H as ([] & _ & [= <-]). apply elem_sorted_set. }
  split_and!; [split_and!; [|lia|lia]|split_and!; [|lia|lia]|done]; intros f x Hf; by apply Hmem.
Qed.

Lemma policy_expires v c : policy v = Ok c → 0 <= expires c < MAX_INSTANT.
Proof. intros (_ & _ & _ & (e & _ & He) & _)%policy_Ok. by apply instant_range in He. Qed.

Lemma subset_within v w p c : policy v = Ok p → policy w = Ok c →
  subset (caveats_json p) (caveats_json c) = Ok () → within c p.
Proof.
  intros Hp Hc H. unfold subset in H. apply bind_Ok in H as (b & Hb & H). apply bind_Ok in H as (a & Ha & H).
  apply require_Ok, narrows_within in H.
  destruct (policy_caveats_json p b (policy_expires _ _ Hp) Hb) as (Hbp & _ & _).
  destruct (policy_caveats_json c a (policy_expires _ _ Hc) Ha) as (_ & Hca & _).
  eauto using within_trans.
Qed.

(** ** Chains *)

Section chain.
Context `{ED : Ed25519}.

Definition node_policy (node : json) : res pyexn caveats :=
  r ← field "record" node; cj ← field "caveats" r; policy cj.

Lemma verify_node_Ok token alg hk stamp revoked i before node d :
  verify_node token alg hk stamp revoked i before node = Ok d →
  ∃ c, node_policy node = Ok c ∧ stamp < expires c ∧ mem d revoked = false ∧
    (∃ p, _prefix token (S i) = Ok p ∧ digest p = Ok d) ∧
    ∀ prev, before = Some prev → ∃ p, node_policy prev = Ok p ∧ within c p.
Proof.
  unfold verify_node. intros H. apply bind_Ok in H as (record & Hrec & H).
  apply bind_Ok in H as (cj & Hcj & H). apply bind_Ok in H as (c & Hc & H).
  apply bind_Ok in H as ([] & Hex%require_Ok & H). apply bind_Ok in H as ([] & Hb & H).
  apply bind_Ok in H as (p & Hp & H). apply bind_Ok in H as (d' & Hd & H).
  apply bind_Ok in H as ([] & Hrev%require_Ok & [= <-]). apply negb_true_iff in Hrev, Hex. zbool.
  exists c. split_and!; [unfold node_policy; rewrite Hrec; simpl; by rewrite Hcj|lia|done|by exists p|].
  intros prev ->. apply bind_Ok in Hb as ([] & _ & Hb). apply bind_Ok in Hb as (pp & _ & Hb).
  apply bind_Ok in Hb as (dd & _ & Hb). apply bind_Ok in Hb as ([] & _ & Hb).
  apply bind_Ok in Hb as (pr & Hpr & Hb). apply bind_Ok in Hb as (pj & Hpj & Hb).
  apply bind_Ok in Hb as (parent & Hparent & Hb). apply bind_Ok in Hb as ([] & Hsub & _).
  exists parent. split; [unfold node_policy; rewrite Hpr; simpl; by rewrite Hpj|].
  by eapply subset_within.
Qed.

Lemma within_refl c : within c c.
Proof. split_and!; [auto|lia|lia]. Qed.

Lemma verify_links_within token alg hk stamp revoked links : ∀ i before ids leaf cl,
  verify_links token alg hk stamp revoked i before links = Ok ids →
  last links = Some leaf → node_policy leaf = Ok cl →
  (∀ prev p, before = Some prev → node_policy prev = Ok p → within cl p) ∧
  ∀ node, node ∈ links → ∃ c, node_policy node = Ok c ∧ within cl c ∧ stamp < expires c.
Proof.
  induction links as [|node links IH]; intros i before ids leaf cl H Hlast Hcl; [done|].
  simpl in H. apply bind_Ok in H as (d & Hn & H). apply bind_Ok in H as (ds & Hrest & [= <-]).
  apply verify_node_Ok in Hn as (c & Hc & Hst & _ & _ & Hprev).
  assert (Hclc : within cl c ∧ ∀ n, n ∈ links → ∃ c, node_policy n = Ok c ∧ within cl c ∧ stamp < expires c).
  { destruct links as [|n' links].
    - injection Hlast as <-. rewrite Hc in Hcl. injection Hcl as <-. split; [apply within_refl|].
      intros n Hn. by apply elem_of_nil in Hn.
    - change (last (node :: n' :: links)) with (last (n' :: links)) in Hlast.
      destruct (IH _ _ _ _ _ Hrest Hlast Hcl) as [H1 H2]. split; [by apply (H1 node)|done]. }
  destruct Hclc as [Hclc Hall]. split.
  - intros prev p Hb Hp. destruct (Hprev prev Hb) as (p' & Hp' & Hw). rewrite Hp in Hp'. injection Hp' as <-.
    eauto using within_trans.
  - intros n [->|Hn]%elem_of_cons; [by exists c|by apply Hall].
Qed.

Lemma verify_links_revoked token alg hk stamp revoked links : ∀ i before ids,
  verify_links token alg hk stamp revoked i before links = Ok ids →
  length ids = length links ∧ ∀ d, d ∈ ids → mem d revoked = false.
Proof.
  induction links as [|node links IH]; intros i before ids H; simpl in H.
  - injection H as <-. split; [done|]. intros d Hd. by apply elem_of_nil in Hd.
  - apply bind_Ok in H as (d & Hn & H). apply bind_Ok in H as (ds & Hrest & [= <-]).
    destruct (IH _ _ _ Hrest) as [Hl Hd]. simpl. split; [by f_equal|].
    apply verify_node_Ok in Hn as (_ & _ & _ & Hr & _).
    intros d' [->|Hd']%elem_of_cons; [done|by apply Hd].
Qed.

(** C27: when [verify] accepts a token, the chain is at most sixteen links of
    which none is revoked or expired, and delegation only narrowed: whatever
    request the leaf's caveats permit, every link's caveats permit, with the
    leaf's integrity ceiling and expiry no higher than any link's. *)
Theorem verified_chain_narrows token issuer tenant alg key hk now revoked v links stamp :
  verify token issuer tenant alg key hk now revoked = Ok v →
  _token token = Ok links → instant now = Ok stamp →
  (1 <= length links <= 16)%nat ∧ length (v_chain_ids v) = length links ∧
  (∀ d, d ∈ v_chain_ids v → d ∉ revoked) ∧ v_tenant v = tenant ∧ v_issuer v = issuer ∧
  ∀ node, node ∈ links → ∃ record cj c, field "record" node = Ok record ∧ field "caveats" record = Ok cj ∧
    policy cj = Ok c ∧ stamp < expires c ∧
    ceiling (v_caveats v) <= ceiling c ∧ expires (v_caveats v) <= expires c ∧
    ∀ ns op cl pu labels, permits_policy (v_caveats v) ns op cl pu labels = true →
      permits cj ns op cl pu labels = Ok true.
Proof.
  intros H Htok Hstamp. unfold verify in H. rewrite Htok in H. cbn [mbind res_bind] in H.
  apply bind_Ok in H as ([] & _ & H). apply bind_Ok in H as (n0 & _ & H).
  apply bind_Ok in H as (root & _ & H). apply bind_Ok in H as ([] & _ & H).
  apply bind_Ok in H as (issued & _ & H). rewrite Hstamp in H. cbn [mbind res_bind] in H.
  apply bind_Ok in H as (cj0 & _ & H). apply bind_Ok in H as (rp & _ & H).
  apply bind_Ok in H as ([] & _ & H). apply bind_Ok in H as (nonce & _ & H).
  apply bind_Ok in H as (nl & _ & H). apply bind_Ok in H as (auth & _ & H).
  apply bind_Ok in H as ([] & _ & H). apply bind_Ok in H as (data & _ & H).
  apply bind_Ok in H as (sig & _ & H). apply bind_Ok in H as ([] & _ & H).
  apply bind_Ok in H as (ids & Hids & H). apply bind_Ok in H as (leaf & Hleaf%get_or_Ok & H).
  apply bind_Ok in H as (lc & Hlc & H). apply bind_Ok in H as (d & _ & [= <-]).
  destruct (verify_links_within _ _ _ _ _ _ _ _ _ _ _ Hids Hleaf Hlc) as [_ Hall].
  destruct (verify_links_revoked _ _ _ _ _ _ _ _ _ Hids) as [Hlen Hrev].
  cbn [v_chain_ids v_tenant v_issuer v_caveats]. split_and!; try done.
  - destruct links; [done|simpl; lia].
  - unfold _token in Htok. apply bind_Ok in Htok as ([] & _ & Htok). apply bind_Ok in Htok as (ver & _ & Htok).
    apply bind_Ok in Htok as ([] & _ & Htok). apply bind_Ok in Htok as (a & _ & Htok).
    apply bind_Ok in Htok as ([] & _ & Htok). apply bind_Ok in Htok as ([] & _ & Htok).
    apply bind_Ok in Htok as (ls & _ & Htok). destruct ls; try done.
    apply bind_Ok in Htok as ([] & Hb%require_Ok & Htok). apply andb_true_iff in Hb as [_ Hb]. zbool.
    apply bind_Ok in Htok as (w & _ & Htok). apply bind_Ok in Htok as ([] & _ & Htok).
    apply bind_Ok in Htok as ([] & _ & [= <-]). lia.
  - intros d' Hd' Hin. apply Hrev in Hd'. apply mem_elem in Hin. congruence.
  - intros node Hnode. destruct (Hall node Hnode) as (c & Hc & Hw & Hst). unfold node_policy in Hc.
    apply bind_Ok in Hc as (record & Hr & Hc). apply bind_Ok in Hc as (cj & Hcj & Hc).
    exists record, cj, c. pose proof Hw as (_ & ? & ?). split_and!; try done.
    intros. unfold permits. rewrite Hc. simpl. f_equal. by eapply within_permits.
Qed.
End chain.

(** ** Witness: a root capability and one attenuation *)

#[local] Instance keyed_ed25519 : Ed25519 := {|
  ed_sign := λ k m, hmac_sha256 (sha256 k) m;
  ed_public := sha256;
  ed_verify := λ p m s, String.eqb s (hmac_sha256 p m);
|}.

Definition strs (l : list string) : json := JList (map JStr l).
Definition demo_caveats (ops : list string) : json := JObj
  [("namespaces", strs ["n"]); ("operations", strs ops); ("classes", strs ["fact"]);
   ("purposes", strs ["care"]); ("labels", strs []); ("delegates", strs ["bob"]); ("ceiling", JInt 2);
   ("audience", JStr "bob"); ("expires_at", JStr "0001-01-03T00:00:00+00:00")]%string.
Definition issuer_key : string := of_bytes (replicate 32 "i"%char).
Definition holder : string := of_bytes (replicate 32 "h"%char).
Definition demo_now : string := "0001-01-02T00:00:00+00:00".

Definition demo_root : json :=
  ok_or JNull (grant (demo_caveats ["read"; "write"]%string) (JStr "store") (JStr "home") (JStr "n1")
                     demo_now "hmac-sha256" issuer_key).
Definition demo_token : json := ok_or JNull (attenuate demo_root (demo_caveats ["read"]%string) holder).
Definition demo_links : list json := ok_or [] (_token demo_token).
Definition demo_verify : res pyexn verified :=
  verify demo_token "store" "home" "hmac-sha256" issuer_key (λ _, Ok holder) demo_now [].
Definition no_verified : verified := Verified "" "" (Caveats (λ _, []) 0 "" 0) [] "".
Definition demo_verified : verified := ok_or no_verified demo_verify.

Lemma demo_verify_ok :
  verify demo_token "store" "home" "hmac-sha256" issuer_key (λ _, Ok holder) demo_now [] = Ok demo_verified.
Proof. unfold demo_verified, demo_verify. apply is_ok_or. vm_compute. reflexivity. Qed.

Lemma verified_chain_narrows_witness :
  (1 <= length demo_links <= 16)%nat ∧ length (v_chain_ids demo_verified) = length demo_links ∧
  (∀ d, d ∈ v_chain_ids demo_verified → d ∉ ([] : list string)) ∧
  v_tenant demo_verified = "home"%string ∧ v_issuer demo_verified = "store"%string ∧
  ∀ node, node ∈ demo_links → ∃ record cj c, field "record" node = Ok record ∧ field "caveats" record = Ok cj ∧
    policy cj = Ok c ∧ 86400000000 < expires c ∧
    ceiling (v_caveats demo_verified) <= ceiling c ∧ expires (v_caveats demo_verified) <= expires c ∧
    ∀ ns op cl pu labels, permits_policy (v_caveats demo_verified) ns op cl pu labels = true →
      permits cj ns op cl pu labels = Ok true.
Proof.
  apply (verified_chain_narrows demo_token "store" "home" "hmac-sha256" issuer_key (λ _, Ok holder) demo_now []).
  - exact demo_verify_ok.
  - unfold demo_links. apply is_ok_or. vm_compute. reflexivity.
  - vm_compute. reflexivity.
Defined.
