(* ===== verification/Policy.v ===== *)
(** * Finite authorization policies ([unimem/policy_proof.py])

    Normalization of a policy document, the decision function, and the
    exhaustive difference of two policies, with its soundness and
    completeness over all requests. *)

From S2P Require Import Prelude Sha256 Base64 Wire Origin Strings.
Local Open Scope Z_scope.

(** ** Definitions *)

Definition MAX_TUPLES : Z := 65536.
Definition ACTIONS : list string := ["read"; "write"; "recall"; "export"]%string.
Definition AXES : list string := ["principals"; "actions"; "memory_classes"; "label_sets"; "purposes"]%string.

Record principal := mkSubject { p_id : string; p_class : string; p_attributes : list (string * string) }.

Record domain := mkDomain {
  principals : list principal;
  actions : list string;
  memory_classes : list string;
  label_sets : list (list string);
  purposes : list string;
}.

Inductive effect := allow | deny_effect.

Record rule := mkRule {
  r_id : string;
  r_effect : effect;
  r_selectors : list (string * list string);
  r_required : option (list string);
  r_forbidden : option (list string);
  r_attributes : option (list (string * list string));
}.

Record policy := mkPolicy { p_domain : domain; p_rules : list rule }.

Definition the_list (v : option json) : res pyexn (list json) :=
  match v with Some (JList l) => Ok l | Some _ => Err ValueError | None => Err KeyError end.

(** [_names] *)
Definition _names (values : json) (maximum : Z) (empty : bool) : res pyexn (list string) :=
  items ← the_list (Some values);
  _ ← count (Z.of_nat (length items)) (if empty then 0 else 1) maximum;
  result ← mapR (λ v, text_json v 128) items;
  require (distinct result) ValueError;;
  Ok (sort_strings result).

Definition pair_before {A} (x y : string * A) : bool := str_ltb x.1 y.1.

Definition normalize_principal (v : json) : res pyexn principal :=
  require (has_exact_keys ["id"; "class"; "attributes"]%string v) ValueError;;
  attributes ← (match jget "attributes" v with Some (JObj kvs) => Ok kvs | _ => Err ValueError end);
  _ ← count (Z.of_nat (length attributes)) 0 8;
  values ← mapR (λ kv, k ← text kv.1 64; x ← text_json kv.2 128; Ok (k, x)) attributes;
  i ← get_or (jget "id" v) KeyError; i ← text_json i 128;
  c ← get_or (jget "class" v) KeyError; c ← text_json c 64;
  Ok (mkSubject i c (sort_by pair_before values)).

(** The order of lists of strings. *)
Fixpoint strings_ltb (l k : list string) : bool :=
  match l, k with
  | _, [] => false
  | [], _ :: _ => true
  | x :: l', y :: k' => str_ltb x y || (String.eqb x y && strings_ltb l' k')
  end.

Fixpoint distinct_lists (l : list (list string)) : bool :=
  match l with [] => true | x :: l' => negb (bool_decide (x ∈ l')) && distinct_lists l' end.

(** [math.prod] of the five axes. *)
Definition tuple_count (d : domain) : Z :=
  Z.of_nat (length (principals d)) * Z.of_nat (length (actions d)) * Z.of_nat (length (memory_classes d))
  * Z.of_nat (length (label_sets d)) * Z.of_nat (length (purposes d)).

Definition _bound (d : domain) : res pyexn Z := count (tuple_count d) 1 MAX_TUPLES.

Definition normalize_domain (source : json) : res pyexn domain :=
  require (has_exact_keys AXES source) ValueError;;
  ps ← the_list (jget "principals" source);
  _ ← count (Z.of_nat (length ps)) 1 32;
  ps ← mapR normalize_principal ps;
  require (distinct (map p_id ps)) ValueError;;
  axis ← mapR (λ am, v ← get_or (jget am.1 source) KeyError; _names v am.2 false)
               [("actions", 4); ("memory_classes", 32); ("purposes", 32)]%string;
  let at_ n := nth n axis [] in
  require (included (at_ 0%nat) ACTIONS) ValueError;;
  sets ← the_list (jget "label_sets" source);
  _ ← count (Z.of_nat (length sets)) 1 64;
  labels ← mapR (λ v, _names v 32 true) sets;
  require (distinct_lists labels) ValueError;;
  let d := mkDomain (sort_by (λ p q, str_ltb (p_id p) (p_id q)) ps) (at_ 0%nat) (at_ 1%nat)
                    (sort_by strings_ltb labels) (at_ 2%nat) in
  _ ← _bound d;
  Ok d.

Definition selectors : list string :=
  ["principals"; "principal_classes"; "actions"; "memory_classes"; "purposes"]%string.

Definition available (d : domain) (key : string) : list string :=
  if String.eqb key "principals" then map p_id (principals d)
  else if String.eqb key "principal_classes" then map p_class (principals d)
  else if String.eqb key "actions" then actions d
  else if String.eqb key "memory_classes" then memory_classes d
  else purposes d.

(** A key of the rule that may be absent. *)
Definition optional {A} (v : option json) (f : json → res pyexn A) : res pyexn (option A) :=
  match v with None => Ok None | Some x => y ← f x; Ok (Some y) end.

Definition normalize_rule (d : domain) (v : json) : res pyexn rule :=
  require (is_obj v && included ["id"; "effect"]%string (jkeys v)
           && included (jkeys v) (["id"; "effect"; "attributes"; "required_labels"; "forbidden_labels"]%string
                                  ++ selectors)) ValueError;;
  i ← get_or (jget "id" v) KeyError; i ← text_json i 128;
  e ← get_or (jget "effect" v) KeyError;
  e ← (if bool_decide (e = JStr "allow") then Ok allow
       else if bool_decide (e = JStr "deny") then Ok deny_effect else Err ValueError);
  sels ← mapR (λ key, optional (jget key v) (λ x,
      values ← _names x 64 true;
      require (included values (available d key)) ValueError;;
      Ok (key, values))) selectors;
  let labels x := values ← _names x 32 true;
                  require (included values (concat (label_sets d))) ValueError;; Ok values in
  required ← optional (jget "required_labels" v) labels;
  forbidden ← optional (jget "forbidden_labels" v) labels;
  attributes ← optional (jget "attributes" v) (λ x,
      kvs ← (match x with JObj kvs => Ok kvs | _ => Err ValueError end);
      require (included (map fst kvs) (concat (map (λ p, map fst (p_attributes p)) (principals d)))) ValueError;;
      mapR (λ kv, values ← _names kv.2 32 true; Ok (kv.1, values)) (sort_by pair_before kvs));
  Ok (mkRule i e (omap (λ o, o) sels) required forbidden attributes).

(** The loop over the rules refuses a repeated identity as it meets it. *)
Fixpoint normalize_rules (d : domain) (seen : list string) (rules : list json) : res pyexn (list rule) :=
  match rules with
  | [] => Ok []
  | v :: rest =>
      r ← normalize_rule d v;
      require (negb (mem (r_id r) seen)) ValueError;;
      rs ← normalize_rules d (r_id r :: seen) rest;
      Ok (r :: rs)
  end.

Definition normalize (v : json) : res pyexn policy :=
  _ ← wire v;
  require (has_exact_keys ["version"; "domain"; "rules"]%string v
           && bool_decide (jget "version" v = Some (JInt 1))) ValueError;;
  source ← get_or (jget "domain" v) KeyError;
  d ← normalize_domain source;
  rules ← the_list (jget "rules" v);
  _ ← count (Z.of_nat (length rules)) 0 128;
  rs ← normalize_rules d [] rules;
  Ok (mkPolicy d (sort_by (λ r s, str_ltb (r_id r) (r_id s)) rs)).

(** A request: principal, action, memory class, labels, purpose. *)
Record request := Request {
  q_principal : string; q_action : string; q_class : string; q_labels : list string; q_purpose : string }.

(** The [continue]s of the rule loop. *)
Definition matches (subject : principal) (q : request) (r : rule) : bool :=
  forallb (λ kv, match assoc kv.1 (r_selectors r) with None => true | Some values => mem kv.2 values end)
    [("principals", q_principal q); ("principal_classes", p_class subject); ("actions", q_action q);
     ("memory_classes", q_class q); ("purposes", q_purpose q)]%string
  && included (default [] (r_required r)) (q_labels q)
  && negb (existsb (λ l, mem l (q_labels q)) (default [] (r_forbidden r)))
  && forallb (λ kv, match assoc kv.1 (p_attributes subject) with Some v => mem v kv.2 | None => false end)
       (default [] (r_attributes r)).

(** The rule loop: [allowed] so far, and the early [return False] of a deny. *)
Fixpoint decide_rules (subject : principal) (q : request) (rules : list rule) (allowed : bool) : bool :=
  match rules with
  | [] => allowed
  | r :: rest =>
      if matches subject q r then
        match r_effect r with
        | deny_effect => false
        | allow => decide_rules subject q rest true
        end
      else decide_rules subject q rest allowed
  end.

Definition find_subject (d : domain) (name : string) : option principal :=
  List.find (λ p, String.eqb (p_id p) name) (principals d).

Definition _allows (p : policy) (q : request) : bool :=
  let d := p_domain p in
  match find_subject d (q_principal q) with
  | None => false
  | Some subject =>
      if mem (q_action q) (actions d) && mem (q_class q) (memory_classes d) && mem (q_purpose q) (purposes d)
         && bool_decide (q_labels q ∈ label_sets d)
      then decide_rules subject q (p_rules p) false
      else false
  end.

Definition allows (v : json) (who action class : string) (labels : list json) (purpose : string) : res pyexn bool :=
  p ← normalize v;
  names ← _names (JList labels) 32 true;
  Ok (_allows p (Request who action class names purpose)).

(** [deny(domain)] *)
Definition deny (d : json) : res pyexn policy :=
  normalize (JObj [("version", JInt 1); ("domain", d); ("rules", JList [])]%string).

(** *** The normalized document, as it is hashed *)

Definition jstrs (l : list string) : json := JList (map JStr l).

Definition principal_json (p : principal) : json :=
  JObj [("id", JStr (p_id p)); ("class", JStr (p_class p));
        ("attributes", JObj (map (λ kv, (kv.1, JStr kv.2)) (p_attributes p)))]%string.

Definition domain_json (d : domain) : json :=
  JObj [("principals", JList (map principal_json (principals d))); ("actions", jstrs (actions d));
        ("memory_classes", jstrs (memory_classes d)); ("purposes", jstrs (purposes d));
        ("label_sets", JList (map jstrs (label_sets d)))]%string.

Definition opt_entry (k : string) (v : option json) : list (string * json) :=
  match v with Some x => [(k, x)] | None => [] end.

Definition rule_json (r : rule) : json :=
  JObj ([("id", JStr (r_id r)); ("effect", JStr (match r_effect r with allow => "allow" | deny_effect => "deny" end))]%string
        ++ map (λ kv, (kv.1, jstrs kv.2)) (r_selectors r)
        ++ opt_entry "required_labels" (jstrs <$> r_required r)
        ++ opt_entry "forbidden_labels" (jstrs <$> r_forbidden r)
        ++ opt_entry "attributes" ((λ kvs, JObj (map (λ kv, (kv.1, jstrs kv.2)) kvs)) <$> r_attributes r)).

Definition policy_json (p : policy) : json :=
  JObj [("version", JInt 1); ("domain", domain_json (p_domain p)); ("rules", JList (map rule_json (p_rules p)))]%string.

(** *** The exhaustive difference *)

(** The union of two declared domains; only the names of principals matter. *)
Definition union_domain (left right : domain) : domain :=
  mkDomain (map (λ i, mkSubject i "" []) (sorted_set (map p_id (principals left ++ principals right))))
           (sorted_set (actions left ++ actions right))
           (sorted_set (memory_classes left ++ memory_classes right))
           (sort_by strings_ltb (remove_dups (label_sets left ++ label_sets right)))
           (sorted_set (purposes left ++ purposes right)).

Definition union_json (d : domain) : json :=
  JObj [("actions", jstrs (actions d)); ("memory_classes", jstrs (memory_classes d));
        ("purposes", jstrs (purposes d)); ("principals", jstrs (map p_id (principals d)));
        ("label_sets", JList (map jstrs (label_sets d)))]%string.

(** [itertools.product] in the order of [AXES]. *)
Definition requests (d : domain) : list request :=
  p ← principals d; a ← actions d; c ← memory_classes d; l ← label_sets d; u ← purposes d;
  [Request (p_id p) a c l u].

Definition request_json (q : request) : json :=
  JObj [("principal", JStr (q_principal q)); ("action", JStr (q_action q)); ("memory_class", JStr (q_class q));
        ("labels", jstrs (q_labels q)); ("purpose", JStr (q_purpose q))]%string.

Record diff := Diff {
  old_hash : string; new_hash : string; domain_hash : string;
  tuples_checked : Z; widening_count : Z; narrowing_count : Z; no_widening : bool;
  added : list request; removed : list request;
  widening_digest : string; narrowing_digest : string;
  witnesses_truncated : bool;
}.

(** The text a hash object was fed. *)
Definition row_text (q : request) : res pyexn string :=
  w ← wire (request_json q); Ok (w +:+ String "010" EmptyString).

Definition texts (qs : list request) : res pyexn string :=
  ts ← mapR row_text qs; Ok (foldr String.append ""%string ts).

Definition difference (old new : json) : res pyexn diff :=
  before ← normalize old;
  after ← normalize new;
  let d := union_domain (p_domain before) (p_domain after) in
  n ← _bound d;
  let qs := requests d in
  let wider := List.filter (λ q, negb (_allows before q) && _allows after q) qs in
  let narrower := List.filter (λ q, _allows before q && negb (_allows after q)) qs in
  wtext ← texts wider;
  ntext ← texts narrower;
  oh ← digest (policy_json before);
  nh ← digest (policy_json after);
  dh ← digest (union_json d);
  let wc := Z.of_nat (length wider) in
  let nc := Z.of_nat (length narrower) in
  Ok (Diff oh nh dh n wc nc (wc =? 0) (take 64 wider) (take 64 narrower)
           (sha256_hex wtext) (sha256_hex ntext) ((64 <? wc) || (64 <? nc))).

(** ** Deny overrides *)

Lemma decide_rules_spec subject q rules allowed :
  decide_rules subject q rules allowed = true ↔
  (∀ r, r ∈ rules → matches subject q r = true → r_effect r = allow) ∧
  (allowed = true ∨ ∃ r, r ∈ rules ∧ matches subject q r = true ∧ r_effect r = allow).
Proof.
  revert allowed. induction rules as [|r rules IH]; intros allowed; simpl.
  - split; [intros ->; split; [by intros r ?%elem_of_nil|by left]|].
    intros [_ [?|(r & ?%elem_of_nil & _)]]; done.
  - setoid_rewrite elem_of_cons. destruct (matches subject q r) eqn:Em; [destruct (r_effect r) eqn:Ee|].
    + rewrite IH. split.
      * intros [H _]. split; [|right; by exists r; auto]. intros s [->|Hs]; auto.
      * intros [H _]. split; [|by left]. intros s Hs. apply H. by right.
    + split; [done|]. intros [H _]. rewrite (H r) in Ee by auto. done.
    + rewrite IH. split.
      * intros [H Hor]. split.
        -- intros s [->|Hs] Hm; [congruence|by apply H].
        -- destruct Hor as [?|(s & Hs & ?)]; [by left|right]. exists s. auto.
      * intros [H Hor]. split; [intros s Hs; apply H; by right|].
        destruct Hor as [?|(s & [->|Hs] & Hm & He)]; [by left|congruence|right; by exists s].
Qed.

Lemma find_subject_Some d n p : find_subject d n = Some p → p ∈ principals d ∧ p_id p = n.
Proof.
  unfold find_subject. intros [H E]%find_some. split; [by apply list_elem_of_In|by apply String.eqb_eq].
Qed.

Lemma _allows_domain p q : _allows p q = true →
  q_principal q ∈ map p_id (principals (p_domain p)) ∧ q_action q ∈ actions (p_domain p) ∧
  q_class q ∈ memory_classes (p_domain p) ∧ q_labels q ∈ label_sets (p_domain p) ∧
  q_purpose q ∈ purposes (p_domain p).
Proof.
  unfold _allows. destruct (find_subject _ _) as [s|] eqn:Es; [|done].
  destruct (_ && _) eqn:E; [|done]. intros _. rewrite !andb_true_iff, !mem_elem, bool_decide_eq_true in E.
  apply find_subject_Some in Es as [Hs <-]. split_and!; try tauto. apply list_elem_of_fmap. by exists s.
Qed.

Lemma elem_requests d q : q ∈ requests d ↔
  q_principal q ∈ map p_id (principals d) ∧ q_action q ∈ actions d ∧ q_class q ∈ memory_classes d ∧
  q_labels q ∈ label_sets d ∧ q_purpose q ∈ purposes d.
Proof.
  unfold requests. rewrite list_elem_of_bind. setoid_rewrite list_elem_of_bind.
  setoid_rewrite list_elem_of_bind. setoid_rewrite list_elem_of_bind. setoid_rewrite list_elem_of_bind.
  setoid_rewrite list_elem_of_singleton. rewrite list_elem_of_fmap. destruct q as [w a c l u]. simpl. split.
  - intros (p & (a' & (c' & (l' & (u' & [= -> -> -> -> ->] & Hu) & Hl) & Hc) & Ha) & Hp). eauto 10.
  - intros ((p & -> & Hp) & Ha & Hc & Hl & Hu). eauto 12.
Qed.

(** A request allowed by either policy is one of the enumerated tuples. *)
Lemma allowed_enumerated before after q :
  _allows before q = true ∨ _allows after q = true →
  q ∈ requests (union_domain (p_domain before) (p_domain after)).
Proof.
  intros H. apply elem_requests. unfold union_domain. simpl.
  assert (Hp : ∀ x (l : list string), x ∈ map p_id (map (λ i, mkSubject i "" []) l) ↔ x ∈ l).
  { intros x l. rewrite map_map. simpl. by rewrite map_id. }
  rewrite Hp, sort_by_Permutation, !elem_sorted_set, elem_of_remove_dups, map_app, !elem_of_app.
  destruct H as [H|H]; apply _allows_domain in H; tauto.
Qed.

(** Every tuple is enumerated once. *)
Lemma requests_NoDup before after : NoDup (requests (union_domain before after)).
Proof.
  unfold requests, union_domain. cbn [principals actions memory_classes label_sets purposes].
  assert (Hp : NoDup (map (λ i, mkSubject i "" []) (sorted_set (map p_id (principals before ++ principals after))))).
  { apply NoDup_fmap_2; [by intros ? ? [=]|apply sorted_set_NoDup]. }
  assert (Hl : NoDup (sort_by strings_ltb (remove_dups (label_sets before ++ label_sets after)))).
  { rewrite sort_by_Permutation. apply NoDup_remove_dups. }
  repeat (apply NoDup_bind; [|intros|first [exact Hp|exact Hl|apply sorted_set_NoDup]]); [..|apply NoDup_singleton];
    intros v w q Hx Hy Hqx Hqy; repeat apply list_elem_of_bind in Hqx as (? & Hqx & _); repeat apply list_elem_of_bind in Hqy as (? & Hqy & _);
    apply list_elem_of_singleton in Hqx as ->; apply list_elem_of_singleton in Hqy; injection Hqy; try done.
  intros _ _ _ _ E. apply list_elem_of_fmap in Hx as (i & -> & _), Hy as (j & -> & _). simpl in E. by subst j.
Qed.

Lemma elem_filter (p : request → bool) l q : q ∈ List.filter p l ↔ p q = true ∧ q ∈ l.
Proof. rewrite list_elem_of_In, filter_In, <- list_elem_of_In. tauto. Qed.

Lemma count_zero {A} (l : list A) : Z.of_nat (length l) = 0 ↔ ∀ x, x ∉ l.
Proof.
  split; [|intros H; destruct l as [|x l]; [done|]; by destruct (H x); left].
  intros H x Hx. destruct l; [by apply elem_of_nil in Hx|simpl in H; lia].
Qed.

Lemma bound_range d n : _bound d = Ok n → 1 <= n <= MAX_TUPLES.
Proof.
  unfold _bound, count. intros ([] & Hr%require_Ok & [= <-])%bind_Ok.
  apply andb_true_iff in Hr as [??]. zbool. lia.
Qed.

(** ** Properties *)

(** a request is allowed exactly when its principal, action, class,
    label set and purpose are declared, some matching rule allows it and no
    matching rule denies it, in whatever order the rules stand. *)
Theorem allows_iff_no_deny (p : policy) (q : request) :
  _allows p q = true ↔
  ∃ subject, find_subject (p_domain p) (q_principal q) = Some subject ∧
    q_action q ∈ actions (p_domain p) ∧ q_class q ∈ memory_classes (p_domain p) ∧
    q_purpose q ∈ purposes (p_domain p) ∧ q_labels q ∈ label_sets (p_domain p) ∧
    (∃ r, r ∈ p_rules p ∧ matches subject q r = true ∧ r_effect r = allow) ∧
    ¬ ∃ r, r ∈ p_rules p ∧ matches subject q r = true ∧ r_effect r = deny_effect.
Proof.
  unfold _allows. destruct (find_subject _ _) as [s|]; [|split; [done|by intros (? & ? & _)]].
  destruct (mem _ _ && _ && _ && _) eqn:E.
  - rewrite !andb_true_iff, !mem_elem, bool_decide_eq_true in E. rewrite decide_rules_spec. split.
    + intros [Hd [?|Ha]]; [done|]. exists s. split_and!; try tauto.
      intros (r & Hr & Hm & He). rewrite (Hd r Hr Hm) in He. done.
    + intros (s' & [= <-] & _ & _ & _ & _ & Ha & Hd). split; [|by right].
      intros r Hr Hm. destruct (r_effect r) eqn:He; [done|]. destruct Hd. by exists r.
  - split; [done|]. intros (s' & _ & H1 & H2 & H3 & H4 & _).
    rewrite !andb_false_iff, bool_decide_eq_false in E. rewrite <- !mem_elem in *.
    destruct E as [[[E|E]|E]|E]; congruence.
Qed.

(** C30: the exhaustive difference is sound and complete: [no_widening] holds
    exactly when every request at all, inside or outside the declared domains,
    that the new policy allows was allowed by the old one.  The two counts are
    the numbers of requests at all that gained and that lost permission, each
    counted once, and the witnesses listed are the first 64 of them. *)
Theorem difference_sound_complete old new before after d :
  normalize old = Ok before → normalize new = Ok after → difference old new = Ok d →
  (no_widening d = true ↔ ∀ q, _allows after q = true → _allows before q = true) ∧
  (narrowing_count d = 0 ↔ ∀ q, _allows before q = true → _allows after q = true) ∧
  (∃ gained, NoDup gained ∧ (∀ q, q ∈ gained ↔ _allows before q = false ∧ _allows after q = true) ∧
     widening_count d = Z.of_nat (length gained) ∧ added d = take 64 gained) ∧
  (∃ lost, NoDup lost ∧ (∀ q, q ∈ lost ↔ _allows before q = true ∧ _allows after q = false) ∧
     narrowing_count d = Z.of_nat (length lost) ∧ removed d = take 64 lost) ∧
  1 <= tuples_checked d <= MAX_TUPLES.
Proof.
  intros Hb Ha H. unfold difference in H. rewrite Hb, Ha in H. cbn [mbind res_bind] in H.
  apply bind_Ok in H as (n & Hn & H). apply bind_Ok in H as (wt & _ & H). apply bind_Ok in H as (nt & _ & H).
  apply bind_Ok in H as (oh & _ & H). apply bind_Ok in H as (nh & _ & H). apply bind_Ok in H as (dh & _ & H).
  injection H as <-. cbn [no_widening widening_count narrowing_count added removed tuples_checked].
  set (qs := requests _). set (gained := List.filter (λ q, negb (_allows before q) && _allows after q) qs).
  set (lost := List.filter (λ q, _allows before q && negb (_allows after q)) qs).
  assert (Hg : ∀ q, q ∈ gained ↔ _allows before q = false ∧ _allows after q = true).
  { intros q. unfold gained. rewrite elem_filter, andb_true_iff, negb_true_iff. split; [tauto|]. intros [? ?].
    split; [done|]. apply allowed_enumerated. by right. }
  assert (Hl : ∀ q, q ∈ lost ↔ _allows before q = true ∧ _allows after q = false).
  { intros q. unfold lost. rewrite elem_filter, andb_true_iff, negb_true_iff. split; [tauto|]. intros [? ?].
    split; [done|]. apply allowed_enumerated. by left. }
  assert (Hnd : ∀ p, NoDup (List.filter p qs)).
  { intros p. apply NoDup_ListNoDup, List.NoDup_filter, NoDup_ListNoDup, requests_NoDup. }
  apply bound_range in Hn. split_and!; try lia.
  - rewrite Z.eqb_eq. rewrite (count_zero gained). split.
    + intros H q Hq. destruct (_allows before q) eqn:E; [done|]. exfalso. by apply (H q), Hg.
    + intros H q [Hb' Hq]%Hg. rewrite (H q Hq) in Hb'. done.
  - rewrite (count_zero lost). split.
    + intros H q Hq. destruct (_allows after q) eqn:E; [done|]. exfalso. by apply (H q), Hl.
    + intros H q [Hq Ha']%Hl. rewrite (H q Hq) in Ha'. done.
  - exists gained. split_and!; [apply Hnd|exact Hg|done|done].
  - exists lost. split_and!; [apply Hnd|exact Hl|done|done].
Qed.

(** ** Witness *)

Definition demo_domain : json := JObj
  [("principals", JList [JObj [("id", JStr "ann"); ("class", JStr "nurse"); ("attributes", JObj [])]]);
   ("actions", jstrs ["read"]); ("memory_classes", jstrs ["fact"]); ("label_sets", JList [jstrs []]);
   ("purposes", jstrs ["care"])]%string.
Definition demo_policy (rules : list json) : json :=
  JObj [("version", JInt 1); ("domain", demo_domain); ("rules", JList rules)]%string.
Definition demo_rule : json := JObj [("id", JStr "r1"); ("effect", JStr "allow"); ("actions", jstrs ["read"])]%string.

Definition no_policy : policy := mkPolicy (mkDomain [] [] [] [] []) [].
Definition demo_before : policy := ok_or no_policy (normalize (demo_policy [])).
Definition demo_after : policy := ok_or no_policy (normalize (demo_policy [demo_rule])).
Definition demo_diff : diff :=
  ok_or (Diff "" "" "" 0 0 0 true [] [] "" "" false) (difference (demo_policy []) (demo_policy [demo_rule])).

Lemma difference_witness :
  (no_widening demo_diff = true ↔ ∀ q, _allows demo_after q = true → _allows demo_before q = true) ∧
  (narrowing_count demo_diff = 0 ↔ ∀ q, _allows demo_before q = true → _allows demo_after q = true) ∧
  (∃ gained, NoDup gained ∧ (∀ q, q ∈ gained ↔ _allows demo_before q = false ∧ _allows demo_after q = true) ∧
     widening_count demo_diff = Z.of_nat (length gained) ∧ added demo_diff = take 64 gained) ∧
  (∃ lost, NoDup lost ∧ (∀ q, q ∈ lost ↔ _allows demo_before q = true ∧ _allows demo_after q = false) ∧
     narrowing_count demo_diff = Z.of_nat (length lost) ∧ removed demo_diff = take 64 lost) ∧
  1 <= tuples_checked demo_diff <= MAX_TUPLES.
Proof.
  apply (difference_sound_complete (demo_policy []) (demo_policy [demo_rule]) demo_before demo_after demo_diff).
  - unfold demo_before. apply is_ok_or. vm_compute. reflexivity.
  - unfold demo_after. apply is_ok_or. vm_compute. reflexivity.
  - unfold demo_diff. apply is_ok_or. vm_compute. reflexivity.
Defined.
