(* ===== verification/Circuit.v ===== *)
(** * The provider circuit breaker ([unimem/circuit_breaker.py])

    [CircuitBreaker.call] takes the lock twice: to admit the call, and to
    record its outcome.  Each locked section is one atomic operation of the
    model; the provider runs in between, so the calls of several threads
    interleave freely.  Times are integers of the clock's resolution. *)

From S2P Require Import Prelude.
Local Open Scope Z_scope.

(** ** Definitions *)

(** [CircuitOpenError.retry_after]. *)
Definition CircuitOpenError (retry_after : Z) : Z := Z.max 0 retry_after.

(** The fields of a [CircuitBreaker]. *)
Record breaker := Breaker {
  threshold : Z;
  recovery_seconds : Z;
  _failures : Z;
  _generation : Z;
  _opened : option Z;
  _probe : bool;
}.

Definition init (threshold recovery_seconds : Z) : res pyexn breaker :=
  require (negb ((threshold <? 1) || (recovery_seconds <=? 0))) ValueError;;
  Ok (Breaker threshold recovery_seconds 0 0 None false).

Definition is_open (b : breaker) : bool := match _opened b with Some _ => true | None => false end.

(** The local variables [probe] and [generation] of a call in progress. *)
Record ticket := Ticket { probe : bool; generation : Z }.

(** The first locked section; the error is the [retry_after] of the
    [CircuitOpenError]. *)
Definition admit_call (b : breaker) (now : Z) : res Z (ticket * breaker) :=
  match _opened b with
  | None => Ok (Ticket false (_generation b), b)
  | Some opened =>
      let remaining := recovery_seconds b - (now - opened) in
      if (0 <? remaining) || _probe b then Err (CircuitOpenError remaining)
      else Ok (Ticket true (_generation b),
               Breaker (threshold b) (recovery_seconds b) (_failures b) (_generation b) (_opened b) true)
  end.

(** How the provider call ended: it returned; it raised an [Exception] that
    [transient] accepted or refused; it raised another [BaseException]; or
    [transient] itself raised. *)
Inductive outcome := Returned | Transient | Permanent | Cancelled | ClassifierRaised.

Definition release_probe (p : bool) (b : breaker) : breaker :=
  Breaker (threshold b) (recovery_seconds b) (_failures b) (_generation b) (_opened b)
          (if p then false else _probe b).

(** [self._opened = None; self._generation += 1] when the call was a probe,
    after [self._failures = 0]. *)
Definition close (p : bool) (b : breaker) : breaker :=
  if p then Breaker (threshold b) (recovery_seconds b) 0 (_generation b + 1) None (_probe b)
  else Breaker (threshold b) (recovery_seconds b) 0 (_generation b) (_opened b) (_probe b).

(** [self._failures += 1], and opening at the threshold. *)
Definition trip (p : bool) (now : Z) (b : breaker) : breaker :=
  let failures := _failures b + 1 in
  if p || (threshold b <=? failures) then
    Breaker (threshold b) (recovery_seconds b) failures (_generation b + 1) (Some now) (_probe b)
  else Breaker (threshold b) (recovery_seconds b) failures (_generation b) (_opened b) (_probe b).

(** The second locked section. *)
Definition record_outcome (b : breaker) (t : ticket) (o : outcome) (now : Z) : breaker :=
  if negb (_generation b =? generation t) then b
  else
    let b := release_probe (probe t) b in
    match o with
    | Returned | Permanent => close (probe t) b
    | Transient => trip (probe t) now b
    | Cancelled | ClassifierRaised => b
    end.

(** A call that no other call interleaves with. *)
Definition call (b : breaker) (o : outcome) (now later : Z) : res Z (outcome * breaker) :=
  '(t, b) ← admit_call b now; Ok (o, record_outcome b t o later).

(** ** Interleaved calls *)

(** The breaker and the tickets of the calls in progress. *)
Record system := System { circuit : breaker; in_flight : list ticket }.

Inductive step : system → system → Prop :=
  | step_admit b l now t b' :
      admit_call b now = Ok (t, b') → step (System b l) (System b' (t :: l))
  | step_finish b l k t o now :
      l !! k = Some t → step (System b l) (System (record_outcome b t o now) (delete k l)).

Definition probes (l : list ticket) : nat := length (List.filter probe l).

(** The invariant of the interleaving. *)
Record consistent (s : system) : Prop := Consistent {
  c_generations : Forall (λ t, generation t <= _generation (circuit s)) (in_flight s);
  (* the flag is set exactly while the one probe is out *)
  c_probe : probes (in_flight s) = (if _probe (circuit s) then 1 else 0)%nat;
  c_current : Forall (λ t, probe t = true → generation t = _generation (circuit s)) (in_flight s);
  (* calls of the current generation of an open circuit are probes *)
  c_open : is_open (circuit s) = true →
    Forall (λ t, generation t = _generation (circuit s) → probe t = true) (in_flight s);
  c_closed : is_open (circuit s) = false →
    _probe (circuit s) = false ∧ _failures (circuit s) < threshold (circuit s);
  c_failures : 0 <= _failures (circuit s);
  c_threshold : 1 <= threshold (circuit s);
}.

(** ** Lemmas *)

Lemma probes_delete l k t : l !! k = Some t →
  probes l = ((if probe t then 1 else 0) + probes (delete k l))%nat.
Proof.
  revert k. unfold probes. induction l as [|u l IH]; intros [|k] H; simplify_eq/=.
  - by destruct (probe t).
  - specialize (IH k H). destruct (probe u), (probe t); simpl in *; lia.
Qed.

Lemma init_consistent th rec b : init th rec = Ok b → consistent (System b []).
Proof.
  unfold init. intros ([] & H%require_Ok & [= <-])%bind_Ok. res_inv. zbool.
  constructor; simpl; try done; lia.
Qed.

Lemma admit_consistent b l now t b' :
  consistent (System b l) → admit_call b now = Ok (t, b') → consistent (System b' (t :: l)).
Proof.
  intros [Hg Hp Hc Ho Hcl Hf Hth] H. simpl in *. unfold admit_call, is_open in *.
  destruct (_opened b) as [o|] eqn:Eo.
  - destruct (_ || _) eqn:E; [done|]. injection H as <- <-. res_inv.
    match goal with H : _probe b = false |- _ => rewrite H in Hp end.
    constructor; simpl; rewrite ?Eo; try done.
    + by constructor; [simpl; lia|].
    + unfold probes in *. simpl. lia.
    + by constructor.
    + intros _. constructor; [done|]. by apply Ho.
  - injection H as <- <-. constructor; simpl; rewrite ?Eo; try done.
    + by constructor; [simpl; lia|].
    + by constructor.
    + unfold is_open. by rewrite Eo.
    + unfold is_open. by rewrite Eo.
Qed.

Lemma no_probes l : probes l = 0%nat → Forall (λ t, probe t = false) l.
Proof.
  unfold probes. induction l as [|t l IH]; [constructor|]. simpl. destruct (probe t) eqn:E; [done|].
  constructor; auto.
Qed.

Lemma Forall_delete' {A} (P : A → Prop) l k : Forall P l → Forall P (delete k l).
Proof. intros H. rewrite delete_take_drop. apply Forall_app. split; [by apply Forall_take|by apply Forall_drop]. Qed.

(** Moving to a new generation once no probe is out. *)
Lemma next_generation b l f o :
  Forall (λ t, generation t <= _generation b) l → probes l = 0%nat → 0 <= f → 1 <= threshold b →
  (o = None → f < threshold b) →
  consistent (System (Breaker (threshold b) (recovery_seconds b) f (_generation b + 1) o false) l).
Proof.
  intros Hg Hp Hf Hth Ho. pose proof (no_probes _ Hp) as Hn.
  constructor; simpl; try done.
  - eapply Forall_impl; [exact Hg|]. simpl. lia.
  - eapply Forall_impl; [exact Hn|]. simpl. congruence.
  - intros _. eapply Forall_impl; [exact Hg|]. simpl. intros t ? ?. lia.
  - unfold is_open. simpl. destruct o; [done|]. auto.
Qed.

(** Recording an outcome that keeps the generation, once no probe is out. *)
Lemma same_generation b l f :
  consistent (System b l) → probes l = 0%nat → 0 <= f → (is_open b = false → f < threshold b) →
  consistent (System (Breaker (threshold b) (recovery_seconds b) f (_generation b) (_opened b) false) l).
Proof.
  intros [Hg Hp Hc Ho Hcl Hf Hth] Hz Hf' Hlt. constructor; simpl in *; try done.
  unfold is_open in *. simpl. intros E. split; [done|auto].
Qed.

Lemma delete_consistent b l k t : consistent (System b l) → l !! k = Some t → probe t = false →
  consistent (System b (delete k l)).
Proof.
  intros [Hg Hp Hc Ho Hcl Hf Hth] Hk Ht. simpl in *. rewrite (probes_delete _ _ _ Hk), Ht in Hp.
  constructor; simpl; auto using Forall_delete'.
Qed.

(** Once its ticket is back, a call of the current generation leaves no probe out. *)
Lemma current_call b l k t : consistent (System b l) → l !! k = Some t → _generation b = generation t →
  probes (delete k l) = 0%nat ∧ (if probe t then false else _probe b) = false ∧ probe t = is_open b ∧
  (probe t = true → _probe b = true).
Proof.
  intros [Hg Hp Hc Ho Hcl Hf Hth] Hk Hgen. simpl in *.
  rewrite (probes_delete _ _ _ Hk) in Hp. destruct (is_open b) eqn:E.
  - pose proof (Forall_lookup_1 _ _ _ _ (Ho eq_refl) Hk) as Ht. simpl in Ht.
    rewrite (Ht (eq_sym Hgen)) in *. destruct (_probe b); [|lia]. split_and!; [lia|done..].
  - destruct (Hcl eq_refl) as [Hb _]. rewrite Hb in *. destruct (probe t); [lia|]. split_and!; [lia|done..].
Qed.

Lemma finish_consistent b l k t o now :
  consistent (System b l) → l !! k = Some t →
  consistent (System (record_outcome b t o now) (delete k l)).
Proof.
  intros Hcons Hk. unfold record_outcome. destruct (_generation b =? generation t) eqn:Eg; zbool; simpl.
  2:{ apply (delete_consistent _ _ _ t); try done. destruct (probe t) eqn:E; [|done].
      destruct Hcons as [_ _ Hc _ _ _]. pose proof (Forall_lookup_1 _ _ _ _ Hc Hk E). simpl in *. congruence. }
  destruct (current_call _ _ _ _ Hcons Hk Eg) as (Hnone & Hprobe & Hopen & Hflag).
  pose proof Hcons as [Hg Hp Hc Ho Hcl Hf Hth]. simpl in *.
  apply (Forall_delete' _ _ k) in Hg.
  assert (Hsame : ∀ f, 0 <= f → (is_open b = false → f < threshold b) → consistent (System
    (Breaker (threshold b) (recovery_seconds b) f (_generation b) (_opened b) false) (delete k l))).
  { intros f Hf0 Hlt. destruct (probe t) eqn:E.
    - constructor; simpl; try done; [by apply Forall_delete'|intros; by apply Forall_delete', Ho|].
      unfold is_open in *. simpl. auto.
    - apply same_generation; try done. by apply (delete_consistent _ _ _ t). }
  destruct o; unfold close, trip, release_probe; simpl; rewrite Hprobe.
  1,3: destruct (probe t); [apply next_generation; try done; lia|apply Hsame; lia].
  2,3: apply Hsame; [done|intros E; by apply Hcl].
  destruct (probe t || (threshold b <=? _failures b + 1)) eqn:E.
  - apply next_generation; try done; lia.
  - res_inv. zbool. apply Hsame; lia.
Qed.

Lemma step_consistent s s' : consistent s → step s s' → consistent s'.
Proof. intros H Hs. destruct Hs; [by eapply admit_consistent|by apply finish_consistent]. Qed.

(** ** Properties *)

(** whatever the interleaving of the calls, a reachable breaker has at
    most one recovery probe out, its probe flag is set exactly while that
    probe is out (so it is never stranded), a closed breaker is below its
    failure threshold, and a call admitted before the last change of state
    cannot change the breaker any more, however it ends. *)
Theorem circuit_single_probe th rec b s :
  init th rec = Ok b → rtc step (System b []) s →
  (probes (in_flight s) <= 1)%nat ∧
  (_probe (circuit s) = true ↔ ∃ t, t ∈ in_flight s ∧ probe t = true) ∧
  (is_open (circuit s) = false → _failures (circuit s) < threshold (circuit s)) ∧
  (∀ t, t ∈ in_flight s → generation t ≠ _generation (circuit s) →
     ∀ o now, record_outcome (circuit s) t o now = circuit s).
Proof.
  intros Hi Hr. assert (consistent s) as [Hg Hp Hc Ho Hcl Hf Hth].
  { apply init_consistent in Hi. induction Hr; eauto using step_consistent. }
  split_and!.
  - rewrite Hp. destruct (_probe _); lia.
  - split.
    + intros E. rewrite E in Hp. unfold probes in Hp.
      destruct (List.filter probe (in_flight s)) as [|t l] eqn:El; [done|].
      exists t. assert (t ∈ List.filter probe (in_flight s)) as Hin by (rewrite El; by left).
      by rewrite list_elem_of_In, filter_In, <- list_elem_of_In in Hin.
    + intros (t & Ht & E). destruct (_probe (circuit s)); [done|].
      apply no_probes in Hp. rewrite Forall_forall in Hp. rewrite (Hp t Ht) in E. done.
  - intros E. by apply Hcl.
  - intros t _ Hne o now. unfold record_outcome. by rewrite (proj2 (Z.eqb_neq _ _)) by congruence.
Qed.

(** in any reachable state, an open circuit refuses every call until the
    recovery interval has passed, then admits one; the outcome of that probe
    decides: success or a permanent error closes the circuit with its count
    reset, a transient failure opens it again for a full interval from then,
    and a cancelled probe leaves it open and ready for the next probe. *)
Theorem circuit_recovery th rec b0 s b opened :
  init th rec = Ok b0 → rtc step (System b0 []) s → circuit s = b → _opened b = Some opened →
  (∀ now, now < opened + recovery_seconds b → is_ok (admit_call b now) = false) ∧
  (∀ now, opened + recovery_seconds b <= now → _probe b = false →
     ∃ t b', admit_call b now = Ok (t, b') ∧ is_ok (admit_call b' now) = false ∧
       (∀ o later, o = Returned ∨ o = Permanent →
          _opened (record_outcome b' t o later) = None ∧ _failures (record_outcome b' t o later) = 0) ∧
       (∀ later, _opened (record_outcome b' t Transient later) = Some later) ∧
       (∀ o later, o = Cancelled ∨ o = ClassifierRaised → record_outcome b' t o later = b)).
Proof.
  intros Hi Hr <- Ho. assert (consistent s) as [Hg Hp Hc Hop Hcl Hf Hth].
  { apply init_consistent in Hi. induction Hr; eauto using step_consistent. }
  destruct s as [b l]. simpl in *. unfold admit_call. rewrite Ho. split.
  - intros now Hlt. by rewrite (proj2 (Z.ltb_lt 0 _)) by lia.
  - intros now Hge Hpr. rewrite (proj2 (Z.ltb_ge 0 _)), Hpr by lia. simpl. eexists _, _. split; [done|].
    split; [simpl; by rewrite orb_true_r|]. unfold record_outcome. simpl. rewrite Z.eqb_refl. simpl.
    split_and!; [intros o later [-> | ->]; done|done|].
    intros o later [-> | ->]; unfold release_probe; simpl; destruct b; simpl in *; by subst.
Qed.

(** ** Witnesses *)

Definition demo_breaker : breaker := ok_or (Breaker 0 0 0 0 None false) (init 2 30).
(** Two calls admitted; both fail: the second failure opens the circuit. *)
Definition demo_open : breaker :=
  record_outcome (record_outcome demo_breaker (Ticket false 0) Transient 5) (Ticket false 0) Transient 7.

Lemma demo_reachable : rtc step (System demo_breaker []) (System demo_open []).
Proof.
  apply (rtc_l _ _ (System demo_breaker [Ticket false 0])); [by apply (step_admit _ [] 3)|].
  apply (rtc_l _ _ (System demo_breaker [Ticket false 0; Ticket false 0])).
  { by apply (step_admit _ _ 4). }
  apply (rtc_l _ _ (System (record_outcome demo_breaker (Ticket false 0) Transient 5) [Ticket false 0])).
  { by apply (step_finish _ [Ticket false 0; Ticket false 0] 0%nat). }
  apply rtc_once. by apply (step_finish _ [Ticket false 0] 0%nat).
Qed.

Lemma circuit_single_probe_witness :
  (probes [] <= 1)%nat ∧ (_probe demo_open = true ↔ ∃ t, t ∈ [] ∧ probe t = true) ∧
  (is_open demo_open = false → _failures demo_open < threshold demo_open) ∧
  (∀ t, t ∈ [] → generation t ≠ _generation demo_open → ∀ o now, record_outcome demo_open t o now = demo_open).
Proof. exact (circuit_single_probe 2 30 demo_breaker (System demo_open []) eq_refl demo_reachable). Defined.

Lemma circuit_recovery_witness :
  (∀ now, now < 7 + 30 → is_ok (admit_call demo_open now) = false) ∧
  (∀ now, 7 + 30 <= now → _probe demo_open = false →
     ∃ t b', admit_call demo_open now = Ok (t, b') ∧ is_ok (admit_call b' now) = false ∧
       (∀ o later, o = Returned ∨ o = Permanent →
          _opened (record_outcome b' t o later) = None ∧ _failures (record_outcome b' t o later) = 0) ∧
       (∀ later, _opened (record_outcome b' t Transient later) = Some later) ∧
       (∀ o later, o = Cancelled ∨ o = ClassifierRaised → record_outcome b' t o later = demo_open)).
Proof.
  exact (circuit_recovery 2 30 demo_breaker (System demo_open []) demo_open 7 eq_refl demo_reachable eq_refl eq_refl).
Defined.
