(* ===== verification/RuntimeCache.v ===== *)
(** * The process cache ([unimem/runtime_cache.py])

    [get_or_load] takes the lock twice: to look the key up, joining a load in
    flight or starting one, and to publish what it loaded; the load runs in
    between, and a thread that joined waits for its owner.  Each locked section
    is one atomic operation of the model, so lookups, loads, waits, [peek],
    [invalidate] and [clear] of any number of threads interleave freely.

    Keys, values and the exceptions of loaders are parameters.  Times are
    integers, and an infinite expiry is [None].  A flight is an object shared
    by the threads that hold it: the model gives it an address in a heap. *)

From S2P Require Import Prelude Rows.
Local Open Scope Z_scope.

(** ** The cache *)

Record limits := Limits { max_entries : Z; max_bytes : Z; ttl : Z }.

Definition init_limits (entries bytes ttl : Z) : res pyexn limits :=
  require (negb ((entries <? 0) || (bytes <? 0) || (ttl <? 0))) ValueError;;
  Ok (Limits entries bytes ttl).

Section cache.
Context {K V E : Type} `{EqDecision K} (weigh : K → V → Z) (lim : limits).

Record entry := Entry { expires : Z; value : V; size : Z }.

(** [_Flight] *)
Record flight := Flight { ready : bool; flight_value : option V; flight_error : option E }.

Record cache := Cache {
  entries : list (K * entry);
  flights : list (K * nat);
  heap : list flight;
  bytes_used : Z;
  next_expiry : option Z;
  hits : Z;
  misses : Z;
  coalesced : Z;
  evictions : Z;
}.

(** [_reset] *)
Definition reset : cache := Cache [] [] [] 0 None 0 0 0 0.

Definition set_entries (l : list (K * entry)) (bytes : Z) c : cache :=
  Cache l (flights c) (heap c) bytes (next_expiry c) (hits c) (misses c) (coalesced c) (evictions c).
Definition set_flights (l : list (K * nat)) c : cache :=
  Cache (entries c) l (heap c) (bytes_used c) (next_expiry c) (hits c) (misses c) (coalesced c) (evictions c).
Definition set_heap (h : list flight) c : cache :=
  Cache (entries c) (flights c) h (bytes_used c) (next_expiry c) (hits c) (misses c) (coalesced c) (evictions c).
Definition set_next (n : option Z) c : cache :=
  Cache (entries c) (flights c) (heap c) (bytes_used c) n (hits c) (misses c) (coalesced c) (evictions c).
Definition tally (h m j e : Z) c : cache :=
  Cache (entries c) (flights c) (heap c) (bytes_used c) (next_expiry c) (hits c + h) (misses c + m) (coalesced c + j)
    (evictions c + e).

Definition clear c : cache := set_flights [] (set_entries [] 0 c).

(** [self.bytes_used -= self._entries.pop(key)[2]] *)
Definition pop (k : K) c : cache :=
  match row_get k (entries c) with
  | Some e => set_entries (row_drop k (entries c)) (bytes_used c - size e) c
  | None => c
  end.

Definition invalidate (k : K) c : cache := let c := pop k c in set_flights (row_drop k (flights c)) c.

Definition stats c : Z * Z * Z * Z * Z * Z :=
  (Z.of_nat (length (entries c)), bytes_used c, hits c, misses c, coalesced c, evictions c).

(** [self._entries.move_to_end(key)] *)
Definition move_to_end (k : K) (e : entry) c : cache := set_entries (row_drop k (entries c) ++ [(k, e)]) (bytes_used c) c.

Definition peek (k : K) (now : Z) c : option V * cache :=
  match row_get k (entries c) with
  | None => (None, c)
  | Some e => if expires e <=? now then (None, pop k c) else (Some (value e), move_to_end k e c)
  end.

(** What the first locked section of [get_or_load] finds: a live value, a
    flight to wait for, or none, and then the caller owns a new one. *)
Inductive found := Hit (v : V) | Join (f : nat) | Own (f : nat).

Definition join_or_own (k : K) c : found * cache :=
  match row_get k (flights c) with
  | Some f => (Join f, tally 0 0 1 0 c)
  | None =>
      let f := length (heap c) in
      (Own f, tally 0 1 0 0 (set_flights (row_set k f (flights c)) (set_heap (heap c ++ [Flight false None None]) c)))
  end.

Definition enter (k : K) (now : Z) c : found * cache :=
  match row_get k (entries c) with
  | Some e =>
      if now <? expires e then (Hit (value e), tally 1 0 0 0 (move_to_end k e c))
      else join_or_own k (pop k c)
  | None => join_or_own k c
  end.

(** [now >= self._next_expiry]: every entry that expired is removed. *)
Definition earliest (l : list (K * entry)) : option Z :=
  fold_right (λ row n, match n with Some m => Some (Z.min (expires row.2) m) | None => Some (expires row.2) end) None l.

Definition expire (now : Z) c : cache :=
  match next_expiry c with
  | Some n =>
      if n <=? now then
        let due := map fst (List.filter (λ row, expires row.2 <=? now) (entries c)) in
        let c := fold_left (λ c k, pop k c) due c in
        set_next (earliest (entries c)) c
      else c
  | None => c
  end.

(** The loop that evicts the least recently used entries. *)
Fixpoint evict_loop (extra : Z) (l : list (K * entry)) (bytes evicted : Z) : list (K * entry) * Z * Z :=
  match l with
  | row :: l' =>
      if (max_entries lim <=? Z.of_nat (length l)) || (max_bytes lim <? bytes + extra)
      then evict_loop extra l' (bytes - size row.2) (evicted + 1)
      else (l, bytes, evicted)
  | [] => (l, bytes, evicted)
  end.

Definition evict (extra : Z) c : cache :=
  let '(l, bytes, n) := evict_loop extra (entries c) (bytes_used c) 0 in tally 0 0 0 n (set_entries l bytes c).

Definition insert_entry (k : K) (v : V) (extra now : Z) c : cache :=
  let c := set_entries (row_set k (Entry (now + ttl lim) v extra) (entries c)) (bytes_used c) c in
  let c := set_next (Some (match next_expiry c with Some n => Z.min n (now + ttl lim) | None => now + ttl lim end)) c in
  set_entries (entries c) (bytes_used c + extra) c.

Definition retain (k : K) (v : V) (extra now : Z) c : cache :=
  if negb (max_entries lim =? 0) && negb (ttl lim =? 0) && (extra <=? max_bytes lim)
  then insert_entry k v extra now (evict extra (expire now c))
  else c.

(** [self._flights.get(key) is flight] *)
Definition is_current (k : K) (f : nat) c : bool := bool_decide (row_get k (flights c) = Some f).

(** The second locked section, of a load that returned. *)
Definition publish (k : K) (f : nat) (v : V) (now : Z) c : cache :=
  let extra := Z.max 0 (weigh k v) in
  let c := if is_current k f c
           then let c := retain k v extra now c in set_flights (row_drop k (flights c)) c
           else c in
  set_heap (alter (λ x, Flight true (Some v) (flight_error x)) f (heap c)) c.

(** The second locked section, of a load (or a weight) that raised. *)
Definition fail (k : K) (f : nat) (e : E) c : cache :=
  let c := if is_current k f c then set_flights (row_drop k (flights c)) c else c in
  set_heap (alter (λ x, Flight true (flight_value x) (Some e)) f (heap c)) c.

(** [flight.ready.wait()] and what the waiter does then; [None] while it
    blocks. *)
Definition await (f : nat) c : option (res E (option V)) :=
  match heap c !! f with
  | Some x => if ready x then Some (match flight_error x with Some e => Err e | None => Ok (flight_value x) end) else None
  | None => None
  end.

(** [get_or_load] with no other call in between; [None] would wait forever. *)
Definition get_or_load (k : K) (load : res E V) (now later : Z) c : option (res E (option V)) * cache :=
  match enter k now c with
  | (Hit v, c) => (Some (Ok (Some v)), c)
  | (Join f, c) => (await f c, c)
  | (Own f, c) =>
      match load with
      | Ok v => (Some (Ok (Some v)), publish k f v later c)
      | Err e => (Some (Err e), fail k f e c)
      end
  end.

(** ** Threads *)

Inductive thread :=
  | Idle
  | Waiting (k : K) (f : nat)
  | Loading (k : K) (f : nat)
  | Returned (k : K) (r : res E (option V)).

Record system := System { shared : cache; threads : list thread }.

Definition start (n : nat) : system := System reset (replicate n Idle).

(** A locked section of thread [t], the end of its load, its wake-up, its next
    call. *)
Inductive event :=
  | Begin (t : nat) (k : K) (now : Z)
  | Loaded (t : nat) (v : V) (now : Z)
  | Raised (t : nat) (e : E)
  | Wake (t : nat)
  | Peek (t : nat) (k : K) (now : Z)
  | Invalidate (k : K)
  | Clear
  | Again (t : nat).

Definition become (t : nat) (th : thread) (c : cache) (s : system) : system := System c (<[t := th]> (threads s)).

Definition act (ev : event) (s : system) : option system :=
  match ev with
  | Begin t k now =>
      match threads s !! t with
      | Some Idle =>
          let '(x, c) := enter k now (shared s) in
          Some (become t (match x with
                          | Hit v => Returned k (Ok (Some v))
                          | Join f => Waiting k f
                          | Own f => Loading k f
                          end) c s)
      | _ => None
      end
  | Loaded t v now =>
      match threads s !! t with
      | Some (Loading k f) => Some (become t (Returned k (Ok (Some v))) (publish k f v now (shared s)) s)
      | _ => None
      end
  | Raised t e =>
      match threads s !! t with
      | Some (Loading k f) => Some (become t (Returned k (Err e)) (fail k f e (shared s)) s)
      | _ => None
      end
  | Wake t =>
      match threads s !! t with
      | Some (Waiting k f) => r ← await f (shared s); Some (become t (Returned k r) (shared s) s)
      | _ => None
      end
  | Peek t k now =>
      match threads s !! t with
      | Some Idle => let '(v, c) := peek k now (shared s) in Some (become t (Returned k (Ok v)) c s)
      | _ => None
      end
  | Invalidate k => Some (System (invalidate k (shared s)) (threads s))
  | Clear => Some (System (clear (shared s)) (threads s))
  | Again t =>
      match threads s !! t with
      | Some (Returned _ _) => Some (become t Idle (shared s) s)
      | _ => None
      end
  end.

Fixpoint run_events (l : list event) (s : system) : option system :=
  match l with
  | [] => Some s
  | ev :: l' => s ← act ev s; run_events l' s
  end.

Definition reached (s : system) : Prop := ∃ n l, run_events l (start n) = Some s.
End cache.
