(* ===== verification/RuntimeCacheSpec.v ===== *)
(** * The process cache: bounds, waiters and invalidation

    The invariant of every system of threads over a [RuntimeCache.cache]: the
    retained entries stay within the limits and their weights add up, a flight
    that is not ready has exactly one thread loading it, and no entry hides a
    flight. *)

From S2P Require Import Prelude Rows RuntimeCache.
Local Open Scope Z_scope.

Section cache.
Context {K V E : Type} `{EqDecision K} (weigh : K → V → Z) (lim : limits).
Hypothesis entries_nonneg : 0 <= max_entries lim.
Hypothesis bytes_nonneg : 0 <= max_bytes lim.
Implicit Types (c : cache (K := K) (V := V) (E := E)) (s : system (K := K) (V := V) (E := E)) (k : K) (f t : nat).

(** ** The table of entries *)

Definition sum_sizes (l : list (K * entry (V := V))) : Z := fold_right (λ row n, size row.2 + n) 0 l.

Definition not_late (next : option Z) (row : K * entry (V := V)) : Prop :=
  match next with Some n => n <= expires row.2 | None => False end.

Record table_ok c : Prop := TableOk {
  t_keys : NoDup (map fst (entries c));
  t_bytes : bytes_used c = sum_sizes (entries c);
  t_sizes : Forall (λ row, 0 <= size row.2) (entries c);
  t_length : Z.of_nat (length (entries c)) <= max_entries lim;
  t_max : bytes_used c <= max_bytes lim;
  t_next : Forall (not_late (next_expiry c)) (entries c);
}.

(** [c'] has the flights of [c], and no entry [c] has not. *)
Record shrunk c c' : Prop := Shrunk {
  s_flights : flights c' = flights c;
  s_heap : heap c' = heap c;
  s_rows : ∀ k e, row_get k (entries c') = Some e → row_get k (entries c) = Some e;
}.

Lemma shrunk_refl c : shrunk c c.
Proof. by constructor. Qed.
Lemma shrunk_trans c1 c2 c3 : shrunk c1 c2 → shrunk c2 c3 → shrunk c1 c3.
Proof. intros [] []. constructor; [congruence..|auto]. Qed.

Lemma sum_sizes_drop k e l : NoDup (map fst l) → row_get k l = Some e → sum_sizes (row_drop k l) = sum_sizes l - size e.
Proof.
  induction l as [|[j b] l IH]; simpl; [done|]. intros [Hj Hnd]%NoDup_cons.
  unfold row_drop. simpl. destruct (decide (k = j)) as [->|Hne].
  - intros [= ->]. rewrite bool_decide_true by done. simpl.
    rewrite (forallb_filter_id _ l); [lia|]. apply forallb_Forall, Forall_forall. intros row Hrow. case_bool_decide as Hk; [|done].
    exfalso. apply Hj. apply list_elem_of_fmap. exists row. by rewrite Hk.
  - intros H. rewrite bool_decide_false by done. simpl. fold (row_drop k l). rewrite IH by done. lia.
Qed.

Lemma sum_sizes_nonneg l : Forall (λ row, 0 <= size row.2) l → 0 <= sum_sizes l.
Proof. induction 1; simpl; lia. Qed.

Lemma Forall_drop_row (P : K * entry (V := V) → Prop) k l : Forall P l → Forall P (row_drop k l).
Proof. rewrite !Forall_forall. eauto with unimem. Qed.

Lemma pop_ok k c : table_ok c → table_ok (pop k c) ∧ row_get k (entries (pop k c)) = None ∧ shrunk c (pop k c)
  ∧ next_expiry (pop k c) = next_expiry c.
Proof.
  intros Hc. unfold pop. destruct (row_get k (entries c)) as [e|] eqn:He; [|by split_and!].
  assert (Hs : 0 <= size e) by (apply (proj1 (Forall_forall _ _) (t_sizes c Hc) (k, e)), row_get_elem, He).
  split_and!; [constructor; simpl| | |done].
  - by apply NoDup_drop, t_keys.
  - rewrite (sum_sizes_drop k e), (t_bytes c Hc); [done|by apply t_keys|done].
  - by apply Forall_drop_row, t_sizes.
  - pose proof (length_drop_row k (entries c)). pose proof (t_length c Hc). lia.
  - pose proof (t_max c Hc). lia.
  - by apply Forall_drop_row, t_next.
  - simpl. rewrite row_get_drop. by rewrite decide_True.
  - constructor; simpl; [done..|]. intros k' e'. rewrite row_get_drop. by destruct (decide _).
Qed.

Lemma move_ok k e c : table_ok c → row_get k (entries c) = Some e →
  table_ok (move_to_end k e c) ∧ shrunk c (move_to_end k e c).
Proof.
  intros Hc He. pose proof (row_get_elem _ _ _ He) as Hin.
  assert (Hg : row_get k (row_drop k (entries c)) = None) by (rewrite row_get_drop; by rewrite decide_True).
  assert (Hsum : ∀ l, sum_sizes (l ++ [(k, e)]) = sum_sizes l + size e) by (induction l; simpl; lia).
  pose proof (t_sizes c Hc) as Hs. pose proof (t_next c Hc) as Hn. rewrite Forall_forall in Hs, Hn.
  split; constructor; simpl; try done.
  - apply NoDup_snoc; [by apply NoDup_drop, t_keys|done].
  - rewrite Hsum, (sum_sizes_drop k e), (t_bytes c Hc); [lia|by apply t_keys|done].
  - apply Forall_app. split; [by apply Forall_drop_row, t_sizes|]. constructor; [by apply (Hs (k, e))|done].
  - enough (S (length (row_drop k (entries c))) <= length (entries c))%nat
      by (rewrite length_app; simpl; pose proof (t_length c Hc); lia).
    clear -He. induction (entries c) as [|[j b] l IH]; [done|]. simpl in He. unfold row_drop. simpl.
    destruct (decide (k = j)) as [->|].
    + rewrite bool_decide_true by done. simpl. fold (row_drop j l). pose proof (length_drop_row j l). lia.
    + rewrite bool_decide_false by congruence. simpl. fold (row_drop k l). apply IH in He. lia.
  - apply (t_max c Hc).
  - apply Forall_app. split; [by apply Forall_drop_row, t_next|]. constructor; [by apply (Hn (k, e))|done].
  - intros k' e'. rewrite row_get_app, row_get_drop. simpl. destruct (decide (k = k')) as [<-|Hne].
    + rewrite decide_True by done. by intros [= <-].
    + rewrite decide_False by congruence. by destruct (row_get k' (entries c)).
Qed.

(** ** What a publication does to the table *)

Lemma pops_ok ks c : table_ok c → table_ok (fold_left (λ c k, pop k c) ks c) ∧ shrunk c (fold_left (λ c k, pop k c) ks c).
Proof.
  revert c. induction ks as [|k ks IH]; intros c Hc; simpl; [split; [done|apply shrunk_refl]|].
  destruct (pop_ok k c Hc) as (Hp & _ & Hs & _). destruct (IH _ Hp) as [Ht Hs']. split; [done|]. by eapply shrunk_trans.
Qed.

Lemma earliest_not_late l : Forall (not_late (earliest l)) l.
Proof.
  induction l as [|row l IH]; [done|]. simpl. destruct (earliest l) as [m|] eqn:Em.
  - constructor; simpl; [lia|]. eapply Forall_impl; [exact IH|]. simpl. intros; lia.
  - constructor; simpl; [lia|]. eapply Forall_impl; [exact IH|]. by simpl.
Qed.

Lemma expire_ok now c : table_ok c → table_ok (expire now c) ∧ shrunk c (expire now c).
Proof.
  intros Hc. unfold expire. destruct (next_expiry c) as [n|]; [|split; [done|apply shrunk_refl]].
  destruct (n <=? now); [|split; [done|apply shrunk_refl]].
  destruct (pops_ok (map fst (List.filter (λ row, expires row.2 <=? now) (entries c))) c Hc) as [[] []].
  split; constructor; simpl; try done. apply earliest_not_late.
Qed.

(** What eviction leaves: room for one more entry. *)
Lemma evict_loop_ok extra l bytes n l' bytes' n' :
  evict_loop lim extra l bytes n = (l', bytes', n') → 0 < max_entries lim → extra <= max_bytes lim →
  NoDup (map fst l) → bytes = sum_sizes l →
  (∃ gone, l = gone ++ l') ∧ bytes' = sum_sizes l' ∧ Z.of_nat (length l') < max_entries lim ∧ bytes' + extra <= max_bytes lim.
Proof.
  revert bytes n. induction l as [|row l IH]; intros bytes n; cbn [evict_loop].
  - intros [= <- <- <-] ? ? ? ->. split; [by exists []|]. simpl. split_and!; lia.
  - destruct (_ || _) eqn:Eo.
    + intros H Hm Hx Hnd ->. simpl in Hnd. apply NoDup_cons in Hnd as [_ Hnd].
      destruct (IH _ _ H Hm Hx Hnd) as ([gone ->] & ?); [simpl; lia|]. split; [by exists (row :: gone)|done].
    + intros [= <- <- <-] Hm Hx Hnd ->. apply orb_false_iff in Eo as [E1%Z.leb_gt E2%Z.ltb_ge].
      split; [by exists []|]. by split_and!.
Qed.

Lemma evict_ok extra c : table_ok c → 0 < max_entries lim → extra <= max_bytes lim →
  table_ok (evict lim extra c) ∧ shrunk c (evict lim extra c) ∧
  Z.of_nat (length (entries (evict lim extra c))) < max_entries lim ∧ bytes_used (evict lim extra c) + extra <= max_bytes lim.
Proof.
  intros [Hk Hb Hz Hl Hx Hn] Hm He. unfold evict.
  destruct (evict_loop lim extra (entries c) (bytes_used c) 0) as [[l bytes] n] eqn:Ev.
  destruct (evict_loop_ok _ _ _ _ _ _ _ Ev Hm He Hk Hb) as ([gone Hg] & Hs & Hlen & Hmax).
  pose proof Hk as Hk'. rewrite Hg in Hk, Hz, Hn, Hl, Hb. rewrite map_app in Hk. apply NoDup_app in Hk as (_ & _ & Hk).
  apply Forall_app in Hz as [Hz1 Hz]. apply Forall_app in Hn as [_ Hn].
  split_and!; [constructor; simpl; try done| |done..].
  - lia.
  - assert (sum_sizes (gone ++ l) = sum_sizes gone + sum_sizes l)
      by (clear; induction gone as [|row gone IH]; simpl; [done|lia]).
    pose proof (sum_sizes_nonneg _ Hz1). lia.
  - constructor; simpl; try done. rewrite Hg in *. intros k e. by apply row_get_suffix.
Qed.

Lemma insert_ok k v extra now c : table_ok c → row_get k (entries c) = None → 0 <= extra →
  Z.of_nat (length (entries c)) < max_entries lim → bytes_used c + extra <= max_bytes lim →
  table_ok (insert_entry lim k v extra now c).
Proof.
  intros [Hk Hb Hz Hl Hx Hn] Hg He Hlen Hmax. unfold insert_entry. rewrite (row_set_new _ _ _ Hg).
  constructor; simpl.
  - by apply NoDup_snoc.
  - rewrite Hb. clear. induction (entries c) as [|row l IH]; simpl; lia.
  - apply Forall_app. split; [done|]. by constructor.
  - rewrite length_app. simpl. lia.
  - lia.
  - apply Forall_app. split.
    + eapply Forall_impl; [exact Hn|]. intros row. unfold not_late. destruct (next_expiry c); [lia|done].
    + constructor; [|done]. simpl. destruct (next_expiry c); lia.
Qed.

Lemma retain_ok k v extra now c : table_ok c → row_get k (entries c) = None → 0 <= extra →
  table_ok (retain lim k v extra now c) ∧ flights (retain lim k v extra now c) = flights c ∧
  heap (retain lim k v extra now c) = heap c ∧
  ∀ k' e, row_get k' (entries (retain lim k v extra now c)) = Some e →
    row_get k' (entries c) = Some e ∨ (k' = k ∧ value e = v).
Proof.
  intros Hc Hg He. unfold retain. destruct (_ && _) eqn:Ec; [|by split_and!; auto].
  apply andb_true_iff in Ec as [[E1%negb_true_iff%Z.eqb_neq _]%andb_true_iff E3%Z.leb_le].
  destruct (expire_ok now c Hc) as [Ht Hs].
  destruct (evict_ok extra _ Ht) as (Ht' & Hs' & Hlen & Hmax); [lia|done|].
  pose proof (shrunk_trans _ _ _ Hs Hs') as [Hf Hh Hr].
  assert (Hg' : row_get k (entries (evict lim extra (expire now c))) = None)
    by (destruct (row_get k (entries (evict _ _ _))) as [e|] eqn:Eg; [apply Hr in Eg; congruence|done]).
  split_and!; [by apply insert_ok|done..|].
  intros k' e. unfold insert_entry. simpl. rewrite row_get_set. destruct (decide (k = k')) as [<-|].
  - intros [= <-]. by right.
  - intros Hk. left. by apply Hr.
Qed.

Lemma publish_ok k f v now c : table_ok c → (is_current k f c = true → row_get k (entries c) = None) →
  table_ok (publish weigh lim k f v now c) ∧
  flights (publish weigh lim k f v now c) = (if is_current k f c then row_drop k (flights c) else flights c) ∧
  heap (publish weigh lim k f v now c) = alter (λ x, Flight true (Some v) (flight_error x)) f (heap c) ∧
  ∀ k' e, row_get k' (entries (publish weigh lim k f v now c)) = Some e →
    row_get k' (entries c) = Some e ∨ (is_current k f c = true ∧ k' = k ∧ value e = v).
Proof.
  intros Hc Hg. unfold publish. destruct (is_current k f c) eqn:Ef.
  - destruct (retain_ok k v (Z.max 0 (weigh k v)) now c Hc (Hg eq_refl)) as ([] & Hf & Hh & Hr); [lia|].
    split_and!; simpl; rewrite ?Hf, ?Hh; [by constructor|done..|]. intros k' e He. destruct (Hr k' e He); auto.
  - split_and!; simpl; [|done..|auto]. destruct Hc. by constructor.
Qed.

Lemma fail_flight_ok k f (e : E) c : table_ok c →
  table_ok (fail k f e c) ∧ entries (fail k f e c) = entries c ∧
  flights (fail k f e c) = (if is_current k f c then row_drop k (flights c) else flights c) ∧
  heap (fail k f e c) = alter (λ x, Flight true (flight_value x) (Some e)) f (heap c).
Proof. intros []. unfold fail. destruct (is_current k f c); split_and!; try done; by constructor. Qed.

(** ** What a lookup does *)

Definition entered k now c (x : found (V := V)) c' : Prop :=
  match x with
  | Hit v => ∃ e, row_get k (entries c) = Some e ∧ v = value e ∧ now < expires e ∧ shrunk c c'
  | Join f => row_get k (flights c) = Some f ∧ shrunk c c'
  | Own f => f = length (heap c) ∧ row_get k (flights c) = None ∧ row_get k (entries c') = None ∧
      flights c' = row_set k f (flights c) ∧ heap c' = heap c ++ [Flight false None None] ∧
      ∀ k' e, row_get k' (entries c') = Some e → row_get k' (entries c) = Some e
  end.

Lemma tally_ok h m j e c : table_ok c → table_ok (tally h m j e c).
Proof. by intros []. Qed.

Lemma join_or_own_ok k now c c0 : table_ok c → shrunk c0 c → row_get k (entries c) = None →
  entered k now c0 (join_or_own k c).1 (join_or_own k c).2 ∧ table_ok (join_or_own k c).2.
Proof.
  intros [] [Hf Hh Hr] Hg. unfold join_or_own. destruct (row_get k (flights c)) as [f|] eqn:Ef; simpl.
  - rewrite <- Hf. split; [split; [done|by constructor]|by constructor].
  - rewrite <- Hf, <- Hh. by split_and!.
Qed.

Lemma enter_ok k now c : table_ok c → entered k now c (enter k now c).1 (enter k now c).2 ∧ table_ok (enter k now c).2.
Proof.
  intros Hc. unfold enter. destruct (row_get k (entries c)) as [e|] eqn:He.
  - destruct (Z.ltb_spec now (expires e)) as [Hlt|_].
    + destruct (move_ok k e c Hc He) as [Ht [Hf Hh Hr]]. split; [exists e; by split_and!|by apply tally_ok].
    + destruct (pop_ok k c Hc) as (Ht & Hg & Hs & _). by apply join_or_own_ok.
  - by apply join_or_own_ok; [|apply shrunk_refl|].
Qed.

Lemma peek_ok k now c : table_ok c → table_ok (peek k now c).2 ∧ shrunk c (peek k now c).2 ∧
  ∀ v, (peek k now c).1 = Some v → ∃ e, row_get k (entries c) = Some e ∧ v = value e ∧ now < expires e.
Proof.
  intros Hc. unfold peek. destruct (row_get k (entries c)) as [e|] eqn:He; [|by split_and!].
  destruct (Z.leb_spec (expires e) now); simpl.
  - destruct (pop_ok k c Hc) as (Ht & _ & Hs & _). by split_and!.
  - destruct (move_ok k e c Hc He) as [Ht Hs]. split_and!; [done..|]. intros v [= <-]. by exists e.
Qed.

Lemma clear_ok c : table_ok (clear c).
Proof. constructor; simpl; try done. constructor. Qed.

Lemma invalidate_ok k c : table_ok c → table_ok (invalidate k c).
Proof. intros Hc. destruct (pop_ok k c Hc) as ([] & _). by constructor. Qed.

(** ** The invariant of a system *)

Definition pending_flight : flight (V := V) (E := E) := Flight false None None.

(** A flight is pending, or carries a value or an exception. *)
Definition settled (x : flight (V := V) (E := E)) : Prop :=
  x = pending_flight ∨ (∃ v, x = Flight true (Some v) None) ∨ (∃ e, x = Flight true None (Some e)).

Record sound (keys : list K) s : Prop := Sound {
  i_table : table_ok (shared s);
  i_keys : length keys = length (heap (shared s));
  i_current : ∀ k f, row_get k (flights (shared s)) = Some f →
    row_get k (entries (shared s)) = None ∧ ∃ t, threads s !! t = Some (Loading k f);
  i_waiting : ∀ t k f, threads s !! t = Some (Waiting k f) →
    keys !! f = Some k ∧ ∃ x, heap (shared s) !! f = Some x ∧ (ready x = true ∨ ∃ u, threads s !! u = Some (Loading k f));
  i_loading : ∀ t k f, threads s !! t = Some (Loading k f) →
    keys !! f = Some k ∧ heap (shared s) !! f = Some pending_flight;
  i_owner : ∀ t u k k' f, threads s !! t = Some (Loading k f) → threads s !! u = Some (Loading k' f) → t = u;
  i_settled : Forall settled (heap (shared s));
}.

(** Steps that leave the heap and the flights alone. *)
Lemma sound_quiet keys s c' ths' : sound keys s → table_ok c' → flights c' = flights (shared s) → heap c' = heap (shared s) →
  (∀ k f, row_get k (flights (shared s)) = Some f → row_get k (entries c') = None) →
  (∀ t k f, ths' !! t = Some (Loading k f) ↔ threads s !! t = Some (Loading k f)) →
  (∀ t k f, ths' !! t = Some (Waiting k f) → threads s !! t = Some (Waiting k f) ∨ row_get k (flights c') = Some f) →
  sound keys (System c' ths').
Proof.
  intros [] Ht Hf Hh He Hl Hw. constructor; simpl; rewrite ?Hf, ?Hh; try done.
  - intros k f Hk. split; [by eapply He|]. destruct (i_current0 k f Hk) as [_ [t Hl']]. exists t. by apply Hl.
  - intros t k f Hk. rewrite Hf in Hw. destruct (Hw t k f Hk) as [Hk'|Hk'].
    + destruct (i_waiting0 _ _ _ Hk') as (Hkey & x & Hx & Hr). split; [done|]. exists x. split; [done|].
      destruct Hr as [Hr|[u Hu]]; [by left|right]. exists u. by apply Hl.
    + destruct (i_current0 _ _ Hk') as [_ [u Hu]]. destruct (i_loading0 _ _ _ Hu) as [Hkey Hp].
      split; [done|]. exists pending_flight. split; [done|]. right. exists u. by apply Hl.
  - intros t k f Hk%Hl. eauto.
  - intros t u k k' f Ht'%Hl Hu%Hl. eauto.
Qed.

(** A thread that changes its state, from one that loads nothing to one that
    loads nothing. *)
Definition loads (th : thread (K := K) (V := V) (E := E)) : bool := match th with Loading _ _ => true | _ => false end.

Lemma loading_kept t (th th' : thread (K := K) (V := V) (E := E)) (ths : list thread) : ths !! t = Some th → loads th = false → loads th' = false →
  ∀ u k f, <[t := th']> ths !! u = Some (Loading k f) ↔ ths !! u = Some (Loading k f).
Proof.
  intros Ht Hl Hl' u k f. rewrite list_lookup_insert_Some. destruct (decide (t = u)) as [<-|Hne].
  - rewrite Ht. split; [intros [(_ & -> & _)|[]]; done|intros [= ->]; done].
  - naive_solver.
Qed.

Lemma waiting_kept t (th' : thread (K := K) (V := V) (E := E)) (ths : list thread) : (∀ k f, th' ≠ Waiting k f) →
  ∀ u k f, <[t := th']> ths !! u = Some (Waiting k f) → ths !! u = Some (Waiting k f).
Proof. intros Hw u k f. rewrite list_lookup_insert_Some. intros [(-> & E1 & _)|[_ Hu]]; [by apply Hw in E1|done]. Qed.

(** The end of a load: its flight becomes ready. *)
Definition finished (x : flight (V := V) (E := E)) : Prop := ready x = true ∧ settled x.

Lemma sound_finish keys s t k f c' g r : sound keys s → threads s !! t = Some (Loading k f) → table_ok c' →
  flights c' = (if is_current k f (shared s) then row_drop k (flights (shared s)) else flights (shared s)) →
  heap c' = alter g f (heap (shared s)) → finished (g pending_flight) →
  (∀ k' f', row_get k' (flights c') = Some f' → row_get k' (entries c') = None) →
  sound keys (System c' (<[t := Returned k r]> (threads s))).
Proof.
  intros [] Ht Htab Hf Hh [Hr Hset] He. destruct (i_loading0 _ _ _ Ht) as [Hkey Hp].
  assert (Hcur : ∀ k' f', row_get k' (flights c') = Some f' → row_get k' (flights (shared s)) = Some f' ∧ f' ≠ f).
  { intros k' f' Hk'. rewrite Hf in Hk'. unfold is_current in Hk'. case_bool_decide as Hc.
    - rewrite row_get_drop in Hk'. destruct (decide (k = k')) as [|Hne]; [done|]. split; [done|]. intros ->.
      destruct (i_current0 _ _ Hk') as [_ [u Hu]]. destruct (i_loading0 _ _ _ Hu) as [Hkey' _]. congruence.
    - split; [done|]. intros ->. destruct (i_current0 _ _ Hk') as [_ [u Hu]].
      destruct (i_loading0 _ _ _ Hu) as [Hkey' _]. assert (k = k') as <- by congruence. done. }
  assert (Hl : ∀ u k' f', <[t := Returned k r]> (threads s) !! u = Some (Loading k' f') →
    threads s !! u = Some (Loading k' f') ∧ f' ≠ f).
  { intros u k' f'. rewrite list_lookup_insert_Some. intros [(_ & [=] & _)|[Hne Hu]]. split; [done|].
    intros ->. apply Hne. eauto. }
  constructor; simpl; rewrite ?Hh; try done.
  - by rewrite length_alter.
  - intros k' f' Hk'. split; [by eapply He|]. destruct (Hcur _ _ Hk') as [Hk0 Hne]. destruct (i_current0 _ _ Hk0) as [_ [u Hu]].
    exists u. rewrite list_lookup_insert_ne; [done|]. intros ->. congruence.
  - intros u k' f' Hu. apply waiting_kept in Hu; [|done]. destruct (i_waiting0 _ _ _ Hu) as (Hkey' & x & Hx & Hor).
    split; [done|]. destruct (decide (f' = f)) as [->|Hne].
    + exists (g pending_flight). rewrite list_lookup_alter_eq, Hp. split; [done|by left].
    + exists x. rewrite list_lookup_alter_ne by done. split; [done|]. destruct Hor as [|[v Hv]]; [by left|right]. exists v.
      rewrite list_lookup_insert_ne; [done|]. intros ->. congruence.
  - intros u k' f' Hu. destruct (Hl _ _ _ Hu) as [Hu' Hne]. destruct (i_loading0 _ _ _ Hu') as [? ?].
    rewrite list_lookup_alter_ne by done. done.
  - intros u v k1 k2 f' [Hu _]%Hl [Hv _]%Hl. eauto.
  - apply Forall_lookup. intros i x Hx. destruct (decide (i = f)) as [->|Hne].
    + rewrite list_lookup_alter_eq, Hp in Hx. by injection Hx as <-.
    + rewrite list_lookup_alter_ne in Hx by done. by eapply Forall_lookup in i_settled0.
Qed.

(** A lookup that starts a flight. *)
Lemma sound_own keys s t k now c' : sound keys s → threads s !! t = Some Idle → table_ok c' →
  entered k now (shared s) (Own (length (heap (shared s)))) c' →
  sound (keys ++ [k]) (System c' (<[t := Loading k (length (heap (shared s)))]> (threads s))).
Proof.
  intros [] Ht Htab (_ & Hnone & Hg & Hf & Hh & Hr). set (f := length (heap (shared s))) in *.
  assert (Hold : ∀ u k' f', threads s !! u = Some (Loading k' f') → u ≠ t ∧ (f' < f)%nat).
  { intros u k' f' Hu. split; [congruence|]. destruct (i_loading0 _ _ _ Hu) as [_ Hp]. by apply lookup_lt_Some in Hp. }
  assert (Hnew : ∀ u k' f', <[t := Loading k f]> (threads s) !! u = Some (Loading k' f') →
    (u = t ∧ k' = k ∧ f' = f) ∨ (u ≠ t ∧ threads s !! u = Some (Loading k' f'))).
  { intros u k' f'. rewrite list_lookup_insert_Some. naive_solver. }
  assert (Hself : <[t := Loading k f]> (threads s) !! t = Some (Loading k f)).
  { apply list_lookup_insert_eq. by eapply lookup_lt_Some. }
  constructor; simpl; rewrite ?Hf, ?Hh; try done.
  - rewrite !length_app. simpl. by rewrite i_keys0.
  - intros k' f'. rewrite row_get_set. destruct (decide (k = k')) as [<-|Hne].
    + intros [= <-]. split; [done|]. by exists t.
    + intros Hk'. destruct (i_current0 _ _ Hk') as [He [u Hu]]. split.
      * destruct (row_get k' (entries c')) as [e|] eqn:E1; [|done]. apply Hr in E1. congruence.
      * exists u. rewrite list_lookup_insert_ne; [done|]. destruct (Hold _ _ _ Hu). congruence.
  - intros u k' f' Hu. rewrite list_lookup_insert_Some in Hu. destruct Hu as [(_ & [=] & _)|[Hne Hu]].
    destruct (i_waiting0 _ _ _ Hu) as (Hkey & x & Hx & Hor). split; [by apply lookup_app_l_Some|].
    exists x. split; [by apply lookup_app_l_Some|]. destruct Hor as [|[v Hv]]; [by left|right]. exists v.
    rewrite list_lookup_insert_ne; [done|]. destruct (Hold _ _ _ Hv). congruence.
  - intros u k' f' Hu. destruct (Hnew _ _ _ Hu) as [(-> & -> & ->)|[_ Hu']].
    + rewrite !list_lookup_middle; [done|done|by rewrite i_keys0].
    + destruct (i_loading0 _ _ _ Hu'). split; by apply lookup_app_l_Some.
  - intros u v k1 k2 f' Hu Hv. destruct (Hnew _ _ _ Hu) as [(-> & -> & ->)|[_ Hu']];
      destruct (Hnew _ _ _ Hv) as [(-> & _ & Ef)|[_ Hv']]; [done| | |eauto].
    + apply Hold in Hv'. lia.
    + apply Hold in Hu'. subst. lia.
  - apply Forall_app. split; [done|]. constructor; [by left|done].
Qed.

Lemma sound_absent keys s c' : sound keys s → shrunk (shared s) c' →
  ∀ k' f, row_get k' (flights (shared s)) = Some f → row_get k' (entries c') = None.
Proof.
  intros Hs [_ _ Hr] k' f Hf. destruct (i_current keys s Hs _ _ Hf) as [He _].
  destruct (row_get k' (entries c')) as [e|] eqn:E1; [apply Hr in E1; congruence|done].
Qed.

(** The keys of the flights a step starts. *)
Definition new_keys (ev : event (K := K) (V := V) (E := E)) s : list K :=
  match ev with
  | Begin _ k now => match (enter k now (shared s)).1 with Own _ => [k] | _ => [] end
  | _ => []
  end.

Lemma sound_begin keys s t k now s' : sound keys s → act weigh lim (Begin t k now) s = Some s' → sound (keys ++ new_keys (Begin t k now) s) s'.
Proof.
  intros Hs. simpl. destruct (threads s !! t) as [[]|] eqn:Ht; try done.
  destruct (enter_ok k now (shared s) (i_table _ _ Hs)) as [He Htab].
  destruct (enter k now (shared s)) as [x c'] eqn:Ex. simpl in He, Htab. intros [= <-]. simpl. destruct x as [v|f|f]; rewrite ?app_nil_r.
  - destruct He as (e & _ & _ & _ & Hsh).
    apply (sound_quiet keys s); try apply Hsh; try done; [by eapply sound_absent|by eapply loading_kept|].
    intros u k' f' Hu. left. by apply waiting_kept in Hu.
  - destruct He as [Hf Hsh].
    apply (sound_quiet keys s); try apply Hsh; try done; [by eapply sound_absent|by eapply loading_kept|].
    intros u k' f' Hu. rewrite (s_flights _ _ Hsh). apply list_lookup_insert_Some in Hu as [(_ & [= <- <-] & _)|[_ Hu]]; auto.
  - pose proof He as [-> _]. by eapply sound_own.
Qed.

(** Steps that forget flights and entries. *)
Lemma sound_forget keys s c' : sound keys s → table_ok c' → heap c' = heap (shared s) →
  (∀ k f, row_get k (flights c') = Some f → row_get k (flights (shared s)) = Some f) →
  (∀ k e, row_get k (entries c') = Some e → row_get k (entries (shared s)) = Some e) →
  sound keys (System c' (threads s)).
Proof.
  intros [] Ht Hh Hf He. constructor; simpl; rewrite ?Hh; try done.
  intros k f Hk%Hf. destruct (i_current0 _ _ Hk) as [Hn Hl]. split; [|done].
  destruct (row_get k (entries c')) as [e|] eqn:E1; [apply He in E1; congruence|done].
Qed.

Lemma pop_flights k c : flights (pop k c) = flights c.
Proof. unfold pop. by destruct (row_get k (entries c)). Qed.
Lemma pop_heap k c : heap (pop k c) = heap c.
Proof. unfold pop. by destruct (row_get k (entries c)). Qed.

Lemma sound_act keys s ev s' : sound keys s → act weigh lim ev s = Some s' → sound (keys ++ new_keys ev s) s'.
Proof.
  intros Hs. destruct ev as [t k now|t v now|t e|t|t k now|k| |t]; [by apply sound_begin|..]; simpl; rewrite app_nil_r;
    [..|destruct (threads s !! t) as [[]|] eqn:Ht; try done; intros [= <-]];
    try (destruct (threads s !! t) as [[| | |]|] eqn:Ht; try done).
  - intros [= <-].
    assert (Hg : is_current k f (shared s) = true → row_get k (entries (shared s)) = None)
      by (intros Hc%bool_decide_eq_true; by destruct (i_current _ _ Hs _ _ Hc)).
    destruct (publish_ok k f v now (shared s) (i_table _ _ Hs) Hg) as (Htab & Hf & Hh & Hr).
    eapply sound_finish; [done..|split; [done|right; left; eauto]|]. intros k' f' Hk'.
    rewrite Hf in Hk'. destruct (row_get k' (entries _)) as [x|] eqn:E1; [exfalso|done].
    destruct (Hr _ _ E1) as [E2|(Hc & -> & _)].
    + assert (row_get k' (flights (shared s)) = Some f') as H'.
      { destruct (is_current k f (shared s)); [|done]. rewrite row_get_drop in Hk'. by destruct (decide _). }
      destruct (i_current _ _ Hs _ _ H'). congruence.
    + rewrite Hc, row_get_drop, decide_True in Hk' by done. done.
  - intros [= <-].
    destruct (fail_flight_ok k f e (shared s) (i_table _ _ Hs)) as (Htab & He & Hf & Hh).
    eapply sound_finish; [done..|split; [done|right; right; eauto]|]. intros k' f' Hk'. rewrite He. rewrite Hf in Hk'.
    assert (row_get k' (flights (shared s)) = Some f') as H'.
    { destruct (is_current k f (shared s)); [|done]. rewrite row_get_drop in Hk'. by destruct (decide _). }
    by destruct (i_current _ _ Hs _ _ H').
  - destruct (await f (shared s)) as [r|]; simpl; [|done]. intros [= <-].
    apply (sound_quiet keys s); try done; [apply (i_table _ _ Hs)| |by eapply loading_kept|].
    + eapply sound_absent; [done|apply shrunk_refl].
    + intros u k' f' Hu. left. by apply waiting_kept in Hu.
  - destruct (peek_ok k now (shared s) (i_table _ _ Hs)) as (Htab & Hsh & _).
    destruct (peek k now (shared s)) as [v c'] eqn:Ep. simpl in Htab, Hsh. intros [= <-].
    apply (sound_quiet keys s); try apply Hsh; try done; [by eapply sound_absent|by eapply loading_kept|].
    intros u k' f' Hu. left. by apply waiting_kept in Hu.
  - intros [= <-].  apply (sound_forget keys s); [done|by apply invalidate_ok, (i_table _ _ Hs)| | |].
    + apply (pop_heap k (shared s)).
    + intros k' f Hk'. unfold invalidate in Hk'. simpl in Hk'. rewrite row_get_drop in Hk'. destruct (decide _); [done|].
      by rewrite (pop_flights k (shared s)) in Hk'.
    + intros k' e He. by apply (pop_ok k (shared s) (i_table _ _ Hs)).
  - intros [= <-].  by apply (sound_forget keys s); [|apply clear_ok|..].
  - apply (sound_quiet keys s); try done; [apply (i_table _ _ Hs)| |by eapply loading_kept|].
    + eapply sound_absent; [done|apply shrunk_refl].
    + intros u k' f' Hu. left. by apply waiting_kept in Hu.
Qed.

Lemma sound_start n : sound [] (start n).
Proof.
  assert (Hi : ∀ t th, threads (start n : system (K := K) (V := V) (E := E)) !! t = Some th → th = Idle).
  { intros t th Ht. simpl in Ht. by apply lookup_replicate in Ht as [-> _]. }
  constructor; try done; [exact (clear_ok reset)|by intros t k f H%Hi..|by intros t u k k' f H%Hi].
Qed.

Lemma sound_run l keys s s' : sound keys s → run_events weigh lim l s = Some s' → ∃ extra, sound (keys ++ extra) s'.
Proof.
  revert keys s. induction l as [|ev l IH]; intros keys s Hs; cbn [run_events]; [intros [= <-]; exists []; by rewrite app_nil_r|].
  destruct (act weigh lim ev s) as [s1|] eqn:E1; [|done]. cbn [mbind option_bind]. intros Hl.
  pose proof (sound_act _ _ _ _ Hs E1) as H1. destruct (IH _ _ H1 Hl) as [e2 H2].
  exists (new_keys ev s ++ e2). by rewrite app_assoc.
Qed.

Lemma reached_sound s : reached weigh lim s → ∃ keys, sound keys s.
Proof. intros (n & l & Hl). destruct (sound_run _ _ _ _ (sound_start n) Hl) as [e He]. by exists e. Qed.

(** ** Bounds *)

Lemma pops_gone ks c k : k ∈ ks ∨ row_get k (entries c) = None → table_ok c →
  row_get k (entries (fold_left (λ c k, pop k c) ks c)) = None.
Proof.
  revert c. induction ks as [|j ks IH]; intros c Hk Hc; simpl; [destruct Hk as [Hk|]; [by apply elem_of_nil in Hk|done]|].
  destruct (pop_ok j c Hc) as (Hp & Hj & Hs & _). apply IH; [|done].
  assert (Hmono : row_get k (entries c) = None → row_get k (entries (pop j c)) = None).
  { intros Hn. destruct (row_get k (entries (pop j c))) as [e|] eqn:E1; [|done]. apply (s_rows _ _ Hs) in E1. congruence. }
  destruct Hk as [[->|Hk]%elem_of_cons|Hk]; auto.
Qed.

(** The lower bound on the expiries never hides an entry that expired. *)
Lemma expire_live now c : table_ok c → Forall (λ row, now < expires row.2) (entries (expire now c)).
Proof.
  intros Hc. pose proof (proj1 (expire_ok now c Hc)) as Ht. pose proof (t_next c Hc) as Hn. unfold expire in *.
  destruct (next_expiry c) as [n|]; [|eapply Forall_impl; [exact Hn|by simpl]].
  destruct (Z.leb_spec n now); [|eapply Forall_impl; [exact Hn|simpl; lia]].
  set (due := map fst _) in *. apply Forall_forall. intros [k e] Hin. simpl. apply Z.nle_gt. intros Hle.
  pose proof (row_elem_get _ _ _ (t_keys _ Ht) Hin) as Hg. simpl in Hg.
  pose proof (s_rows _ _ (proj2 (pops_ok due c Hc)) _ _ Hg) as Hg'.
  rewrite pops_gone in Hg; [done| |done]. left. unfold due. apply list_elem_of_fmap. exists (k, e). split; [done|].
  apply list_elem_of_In, filter_In. split; [by apply list_elem_of_In, row_get_elem|by apply Z.leb_le].
Qed.

(** C17: the cache stays within its limits under any interleaving.  The entries
    are at most [max_entries], no key twice; their weights add up to
    [bytes_used], which is at most [max_bytes]; and the sweep of a publication
    leaves no entry that expired, although it only scans when its lower bound
    on the expiries says so. *)
Theorem cache_within_limits s : reached weigh lim s →
  Z.of_nat (length (entries (shared s))) <= max_entries lim ∧ NoDup (map fst (entries (shared s))) ∧
  bytes_used (shared s) = sum_sizes (entries (shared s)) ∧ 0 <= bytes_used (shared s) <= max_bytes lim ∧
  ∀ now, Forall (λ row, now < expires row.2) (entries (expire now (shared s))).
Proof.
  intros [keys Hs]%reached_sound. destruct (i_table _ _ Hs) as [Hk Hb Hz Hl Hx Hn].
  split_and!; try done; [rewrite Hb; by apply sum_sizes_nonneg|]. intros now. by apply expire_live, (i_table keys).
Qed.

(** ** Waiters *)

Lemma settled_outcome x : settled x → ready x = true →
  match flight_error x with Some e => Err e | None => Ok (flight_value x) end ≠ (Ok None : res E (option V)).
Proof. by intros [->|[[v ->]|[e ->]]]. Qed.

Lemma run_cons ev l s s1 : act weigh lim ev s = Some s1 → run_events weigh lim (ev :: l) s = run_events weigh lim l s1.
Proof. intros H. cbn [run_events]. by rewrite H. Qed.

(** The wake-up after the owner finished. *)
Lemma woken keys s t u k f c' g (r : res E (option V)) : sound keys s → threads s !! t = Some (Waiting k f) →
  threads s !! u = Some (Loading k f) → heap c' = alter g f (heap (shared s)) → finished (g pending_flight) →
  ∃ s', act weigh lim (Wake t) (become u (Returned k r) c' s) = Some s' ∧
    threads s' !! t = Some (Returned k (match flight_error (g pending_flight) with
                                        | Some e => Err e | None => Ok (flight_value (g pending_flight)) end)).
Proof.
  intros Hs Ht Hu Hh [Hr _]. destruct (i_loading _ _ Hs _ _ _ Hu) as [_ Hp]. assert (u ≠ t) by congruence.
  eexists. simpl. rewrite list_lookup_insert_ne, Ht by done. unfold await. rewrite Hh, list_lookup_alter_eq, Hp. simpl.
  rewrite Hr. simpl. split; [reflexivity|]. simpl. apply list_lookup_insert_eq. rewrite length_insert. by eapply lookup_lt_Some.
Qed.

(** C16: no waiter is left behind.  A thread that waits either can return, with
    the value or the exception of the load it joined, or exactly one thread is
    still loading for it; and however that load ends, and whatever
    invalidations came in between, the waiter then returns its outcome. *)
Theorem waiter_served s t k f : reached weigh lim s → threads s !! t = Some (Waiting k f) →
  (∃ r s', act weigh lim (Wake t) s = Some s' ∧ threads s' !! t = Some (Returned k r) ∧ r ≠ Ok None) ∨
  (∃ u, threads s !! u = Some (Loading k f) ∧ (∀ u' k', threads s !! u' = Some (Loading k' f) → u' = u) ∧
    (∀ v now, ∃ s', run_events weigh lim [Loaded u v now; Wake t] s = Some s' ∧ threads s' !! t = Some (Returned k (Ok (Some v)))) ∧
    (∀ e, ∃ s', run_events weigh lim [Raised u e; Wake t] s = Some s' ∧ threads s' !! t = Some (Returned k (Err e)))).
Proof.
  intros [keys Hs]%reached_sound Ht. destruct (i_waiting _ _ Hs _ _ _ Ht) as (Hkey & x & Hx & [Hr|[u Hu]]).
  - left. eexists _, _. simpl. rewrite Ht. unfold await. rewrite Hx, Hr. split; [reflexivity|]. simpl.
    split; [apply list_lookup_insert_eq; by eapply lookup_lt_Some|].
    apply settled_outcome; [|done]. eapply Forall_lookup; [apply (i_settled _ _ Hs)|exact Hx].
  - right. exists u. split; [done|]. split; [intros u' k' Hu'; by eapply (i_owner _ _ Hs)|]. split.
    + intros v now. assert (Hg : is_current k f (shared s) = true → row_get k (entries (shared s)) = None)
        by (intros Hc%bool_decide_eq_true; by destruct (i_current _ _ Hs _ _ Hc)).
      destruct (publish_ok k f v now (shared s) (i_table _ _ Hs) Hg) as (_ & _ & Hh & _).
      destruct (woken keys s t u k f _ _ (Ok (Some v)) Hs Ht Hu Hh) as (s' & Hw & Hs'); [split; [done|right; left; eauto]|].
      exists s'. split; [|done]. erewrite run_cons; [|simpl; by rewrite Hu]. cbn [run_events]. by rewrite Hw.
    + intros e. destruct (fail_flight_ok k f e (shared s) (i_table _ _ Hs)) as (_ & _ & _ & Hh).
      destruct (woken keys s t u k f _ _ (Err e) Hs Ht Hu Hh) as (s' & Hw & Hs'); [split; [done|right; right; eauto]|].
      exists s'. split; [|done]. erewrite run_cons; [|simpl; by rewrite Hu]. cbn [run_events]. by rewrite Hw.
Qed.

(** ** Invalidation *)

Section fresh.
Variables (P : V → Prop) (k : K) (n : nat).

(** Of the loads of [k] in a run, those whose flight was started after the
    first [n] flights return values in [P]. *)
Fixpoint later_loads (l : list (event (K := K) (V := V) (E := E))) s : Prop :=
  match l with
  | [] => True
  | ev :: l' =>
      match ev with
      | Loaded t v _ => ∀ f, threads s !! t = Some (Loading k f) → (n <= f)%nat → P v
      | _ => True
      end ∧ match act weigh lim ev s with Some s' => later_loads l' s' | None => True end
  end.

Definition of_later t (th : thread (K := K) (V := V) (E := E)) : Prop :=
  match th with
  | Idle => True
  | Waiting k' f | Loading k' f => k' = k → (n <= f)%nat
  | Returned k' r => ∀ v, k' = k → r = Ok (Some v) → P v
  end.

Record fresh (keys : list K) t s : Prop := Fresh {
  f_entries : ∀ e, row_get k (entries (shared s)) = Some e → P (value e);
  f_flights : ∀ f, row_get k (flights (shared s)) = Some f → (n <= f)%nat;
  f_values : ∀ f x v, heap (shared s) !! f = Some x → flight_value x = Some v → keys !! f = Some k → (n <= f)%nat → P v;
  f_thread : ∀ th, threads s !! t = Some th → of_later t th;
  f_heap : (n <= length (heap (shared s)))%nat;
}.

(** A step of thread [u] that stores and returns nothing else. *)
Lemma fresh_quiet keys t u th s c' : fresh keys t s → shrunk (shared s) c' → (u = t → of_later t th) →
  fresh keys t (become u th c' s).
Proof.
  intros [] [Hf Hh Hr] Hth. constructor; simpl; rewrite ?Hf, ?Hh; auto.
  intros th'. rewrite list_lookup_insert_Some. intros [(-> & <- & _)|[_ Ht]]; auto.
Qed.

Lemma fresh_finish keys t u k' f th s c' x : fresh keys t s → (u = t → of_later t th) →
  heap c' = alter (λ _, x) f (heap (shared s)) → keys !! f = Some k' →
  (k' = k → (n <= f)%nat → ∀ v, flight_value x = Some v → P v) →
  (∀ f', row_get k (flights c') = Some f' → row_get k (flights (shared s)) = Some f') →
  (∀ e, row_get k (entries c') = Some e → row_get k (entries (shared s)) = Some e ∨ P (value e)) →
  fresh keys t (become u th c' s).
Proof.
  intros [] Hth Hh Hkey Hx Hf He. constructor; simpl; rewrite ?Hh.
  - intros e He'. destruct (He e He'); auto.
  - auto.
  - intros g y v Hg Hy Hk Hle. destruct (decide (g = f)) as [->|Hne].
    + rewrite list_lookup_alter_eq in Hg. destruct (heap (shared s) !! f); [|done]. injection Hg as <-.
      apply Hx; [congruence|done..].
    + rewrite list_lookup_alter_ne in Hg by done. eauto.
  - intros th'. rewrite list_lookup_insert_Some. intros [(-> & <- & _)|[_ Ht]]; auto.
  - by rewrite length_alter.
Qed.

Lemma fresh_own keys t u k' now s c' : fresh keys t s → length keys = length (heap (shared s)) →
  entered k' now (shared s) (Own (length (heap (shared s)))) c' →
  fresh (keys ++ [k']) t (become u (Loading k' (length (heap (shared s)))) c' s).
Proof.
  intros [] Hlen (_ & _ & _ & Hf & Hh & Hr). constructor; simpl; rewrite ?Hf, ?Hh.
  - auto.
  - intros f. rewrite row_get_set. destruct (decide (k' = k)); [intros [= <-]; done|auto].
  - intros f x v Hx Hv Hk Hle. destruct (decide (f < length (heap (shared s)))%nat) as [Hlt|Hge].
    + rewrite lookup_app_l in Hx by done. rewrite lookup_app_l in Hk by (by rewrite Hlen). eauto.
    + rewrite lookup_app_r in Hx by lia. apply list_lookup_singleton_Some in Hx as [_ <-]. done.
  - intros th'. rewrite list_lookup_insert_Some. intros [(-> & <- & _)|[_ Ht]]; [by intros _|auto].
  - rewrite length_app. lia.
Qed.

Lemma extend_keys keys extra t s : length keys = length (heap (shared s)) → fresh keys t s → fresh (keys ++ extra) t s.
Proof.
  intros Hlen []. constructor; auto. intros f x v Hx Hv Hk Hle. apply (f_values0 f x v); [done..| |done].
  rewrite lookup_app_l in Hk; [done|]. rewrite Hlen. by eapply lookup_lt_Some.
Qed.

Lemma await_value f c v : await f c = Some (Ok (Some v)) → ∃ x, heap c !! f = Some x ∧ flight_value x = Some v.
Proof.
  unfold await. destruct (heap c !! f) as [x|]; [|done]. destruct (ready x); [|done]. destruct (flight_error x); [done|].
  intros [= E1]. by exists x.
Qed.

Lemma dropped_flight k1 (k2 : K) f (l : list (K * nat)) (b : bool) :
  row_get k1 (if b then row_drop k2 l else l) = Some f → row_get k1 l = Some f.
Proof. destruct b; [|done]. rewrite row_get_drop. by destruct (decide _). Qed.

Lemma fresh_begin keys t s u k' now s' : sound keys s → fresh keys t s → act weigh lim (Begin u k' now) s = Some s' →
  fresh (keys ++ new_keys (Begin u k' now) s) t s'.
Proof.
  intros Hs Hf. simpl. destruct (threads s !! u) as [[]|] eqn:Hu; try done.
  destruct (enter_ok k' now (shared s) (i_table _ _ Hs)) as [He _].
  destruct (enter k' now (shared s)) as [x c'] eqn:Ex. simpl in He. intros [= <-]. simpl.
  destruct x as [v|f|f]; rewrite ?app_nil_r.
  - destruct He as (e & He & -> & _ & Hsh). apply fresh_quiet; [done..|]. intros _ v -> [= <-]. by apply (f_entries _ _ _ Hf).
  - destruct He as [Hk Hsh]. apply fresh_quiet; [done..|]. intros _ ->. by apply (f_flights _ _ _ Hf).
  - pose proof He as [-> _]. eapply fresh_own; [done|apply (i_keys _ _ Hs)|exact He].
Qed.

Lemma fresh_act keys t s ev s' : sound keys s → fresh keys t s → later_loads [ev] s → act weigh lim ev s = Some s' →
  fresh (keys ++ new_keys ev s) t s'.
Proof.
  intros Hs Hf [Hl _]. destruct ev as [u k' now|u v now|u e|u|u k2 now|k'| |u]; [by apply fresh_begin|..]; simpl; rewrite app_nil_r;
    try (destruct (threads s !! u) as [[|k' f|k' f|k' r]|] eqn:Hu; try done).
  - intros [= <-]. destruct (i_loading _ _ Hs _ _ _ Hu) as [Hkey Hp].
    assert (Hg : is_current k' f (shared s) = true → row_get k' (entries (shared s)) = None)
      by (intros Hc%bool_decide_eq_true; by destruct (i_current _ _ Hs _ _ Hc)).
    destruct (publish_ok k' f v now (shared s) (i_table _ _ Hs) Hg) as (_ & Hfl & Hh & Hr).
    apply (fresh_finish keys t u k' f _ s _ (Flight true (Some v) None)); try done.
    + intros -> w -> [= <-]. apply (Hl f); [done|]. by apply (f_thread _ _ _ Hf _ Hu).
    + rewrite Hh. apply list_eq. intros i. destruct (decide (i = f)) as [->|]; [|by rewrite !list_lookup_alter_ne].
      by rewrite !list_lookup_alter_eq, Hp.
    + intros -> Hle w [= <-]. by apply (Hl f).
    + intros f'. rewrite Hfl. apply dropped_flight.
    + intros e He. destruct (Hr _ _ He) as [|(Hc%bool_decide_eq_true & Ek & ->)]; [by left|right].
      apply (Hl f); [by rewrite Ek|]. apply (f_flights _ _ _ Hf). by rewrite Ek.
  - intros [= <-]. destruct (i_loading _ _ Hs _ _ _ Hu) as [Hkey Hp].
    destruct (fail_flight_ok k' f e (shared s) (i_table _ _ Hs)) as (_ & He & Hfl & Hh).
    apply (fresh_finish keys t u k' f _ s _ (Flight true None (Some e))); try done.
    + rewrite Hh. apply list_eq. intros i. destruct (decide (i = f)) as [->|]; [|by rewrite !list_lookup_alter_ne].
      by rewrite !list_lookup_alter_eq, Hp.
    + intros f'. rewrite Hfl. apply dropped_flight.
    + intros x. rewrite He. by left.
  - destruct (await f (shared s)) as [r|] eqn:Ea; simpl; [|done]. intros [= <-].
    apply fresh_quiet; [done|apply shrunk_refl|]. intros -> v -> ->. destruct (await_value _ _ _ Ea) as (x & Hx & Hv).
    destruct (i_waiting _ _ Hs _ _ _ Hu) as [Hkey _]. eapply (f_values _ _ _ Hf); [done..|].
    by apply (f_thread _ _ _ Hf _ Hu).
  - destruct (peek_ok k2 now (shared s) (i_table _ _ Hs)) as (_ & Hsh & Hv).
    destruct (peek k2 now (shared s)) as [v c'] eqn:Ep. simpl in Hv, Hsh. intros [= <-].
    apply fresh_quiet; [done..|]. intros -> w -> [= ->]. destruct (Hv w eq_refl) as (e & He & -> & _). by apply (f_entries _ _ _ Hf).
  - intros [= <-]. destruct Hf. constructor; simpl; rewrite ?pop_heap; try done.
    + intros e He. by apply f_entries0, (pop_ok k' (shared s) (i_table _ _ Hs)).
    + intros f Hk. rewrite row_get_drop in Hk. destruct (decide _); [done|]. rewrite pop_flights in Hk. auto.
  - intros [= <-]. destruct Hf. by constructor.
  - intros [= <-]. apply fresh_quiet; [done|apply shrunk_refl|done].
Qed.

Lemma fresh_run keys t l s s' : sound keys s → fresh keys t s → later_loads l s → run_events weigh lim l s = Some s' →
  ∃ extra, fresh (keys ++ extra) t s'.
Proof.
  revert keys s. induction l as [|ev l IH]; intros keys s Hs Hf; cbn [run_events later_loads].
  - intros _ [= <-]. exists []. by rewrite app_nil_r.
  - destruct (act weigh lim ev s) as [s1|] eqn:E1; [|done]. cbn [mbind option_bind]. intros [Hl Hl'] Hr.
    destruct (IH _ s1 (sound_act _ _ _ _ Hs E1)) as [extra He]; [|done..|].
    + apply fresh_act; [done..| |done]. cbn [later_loads]. rewrite E1. done.
    + exists (new_keys ev s ++ extra). by rewrite app_assoc.
Qed.
End fresh.

(** C15: an invalidation is final.  After [invalidate] of a key, or [clear],
    whatever the other threads do - those that were loading the key before it
    included - a call that had not begun returns, or peeks, only values whose
    load began after it. *)
Theorem invalidation_final (P : V → Prop) k ev t l s s1 s' : reached weigh lim s → ev = Invalidate k ∨ ev = Clear →
  threads s !! t = Some Idle → act weigh lim ev s = Some s1 →
  later_loads P k (length (heap (shared s))) l s1 → run_events weigh lim l s1 = Some s' →
  ∀ v, threads s' !! t = Some (Returned k (Ok (Some v))) → P v.
Proof.
  intros [keys Hs]%reached_sound Hev Ht E1 Hl Hr v Hv. pose proof (sound_act _ _ _ _ Hs E1) as Hs1.
  assert (Hf : fresh P k (length (heap (shared s))) (keys ++ new_keys ev s) t s1).
  { destruct Hev as [-> | ->]; simpl in E1; injection E1 as <-; constructor; simpl; rewrite ?pop_heap; try done.
    - intros e He. destruct (pop_ok k (shared s) (i_table _ _ Hs)) as (_ & Hg & _). congruence.
    - intros f. by rewrite row_get_drop, decide_True.
    - intros f x w Hx%lookup_lt_Some. lia.
    - intros th. rewrite Ht. by intros [= <-].
    - intros f x w Hx%lookup_lt_Some. lia.
    - intros th. rewrite Ht. by intros [= <-]. }
  destruct (fresh_run P k _ _ t l s1 s' Hs1 Hf Hl Hr) as [extra Hf']. by apply (f_thread _ _ _ _ _ _ Hf' _ Hv v).
Qed.
End cache.

(** ** A cache of two entries *)

Definition small : limits := Limits 2 10 5.
Definition weight (k v : string) : Z := Z.of_nat (String.length v).

(** Thread 0 loads a key that is invalidated while the load runs; threads 1
    and 2 ask for the key afterwards, and thread 1 loads it anew. *)
Definition opening : list (event (K := string) (V := string) (E := pyexn)) := [Begin 0 "a" 1].
Definition race : list (event (K := string) (V := string) (E := pyexn)) :=
  [Begin 1 "a" 2; Loaded 0 "old" 3; Begin 2 "a" 3; Loaded 1 "new" 4; Wake 2].

Definition after (l : list (event (K := string) (V := string) (E := pyexn))) s : system :=
  default s (run_events weight small l s).
Definition begun : system := after opening (start 3).
Definition cut : system := after [Invalidate "a"] begun.

Lemma cache_within_limits_witness : reached weight small (after race cut) ∧ bytes_used (shared (after race cut)) = 3 ∧
  Z.of_nat (length (entries (shared (after race cut)))) <= 2.
Proof.
  assert (Hr : reached weight small (after race cut)) by (exists 3%nat, (opening ++ [Invalidate "a"] ++ race); vm_compute; reflexivity).
  split; [exact Hr|]. split; [vm_compute; reflexivity|].
  destruct (cache_within_limits weight small ltac:(by simpl) ltac:(by simpl) _ Hr) as [H _]. exact H.
Defined.

Lemma waiter_served_witness : let s := after [Begin 1 "a" 2; Begin 2 "a" 3] cut in
  threads s !! 2%nat = Some (Waiting "a" 1) ∧
  ∃ s', run_events weight small [Loaded 1 "new" 4; Wake 2] s = Some s' ∧ threads s' !! 2%nat = Some (Returned "a" (Ok (Some "new"))).
Proof.
  intros s. split; [vm_compute; reflexivity|].
  destruct (waiter_served weight small ltac:(by simpl) ltac:(by simpl) s 2 "a" 1) as [(r & s' & H & _)|(u & Hu & _ & Hv & _)].
  - exists 3%nat, (opening ++ [Invalidate "a"; Begin 1 "a" 2; Begin 2 "a" 3]). vm_compute. reflexivity.
  - vm_compute. reflexivity.
  - vm_compute in H. discriminate H.
  - destruct u as [|[|[|]]]; try (vm_compute in Hu; discriminate Hu). apply Hv.
Defined.

Lemma invalidation_final_witness :
  threads (after race cut) !! 2%nat = Some (Returned "a" (Ok (Some "new"))) ∧
  threads (after race cut) !! 0%nat = Some (Returned "a" (Ok (Some "old"))) ∧ ∀ v, threads (after race cut) !! 2%nat = Some (Returned "a" (Ok (Some v))) → v = "new".
Proof.
  split; [vm_compute; reflexivity|]. split; [vm_compute; reflexivity|].
  apply (invalidation_final weight small ltac:(by simpl) ltac:(by simpl) (λ v, v = "new"%string) "a" (Invalidate "a") 2 race begun cut).
  - exists 3%nat, opening. vm_compute. reflexivity.
  - by left.
  - vm_compute. reflexivity.
  - vm_compute. reflexivity.
  - vm_compute. split_and!; try done. intros f [= <-] Hle. lia.
  - vm_compute. reflexivity.
Defined.
