(* ===== verification/SqlitePool.v ===== *)
(** * The pool of SQLite connections ([unimem/sqlite_pool.py])

    [ConnectionPool] keeps idle connections by file identity and hands each to
    one caller at a time.  [borrow] and [release] read the file system before
    they take the lock; what they read is an argument.  A connection is a
    number, the count of connections opened before it; the pool records which
    it closed.  The cursors a [Connection] finalizes before it closes, and the
    child of a fork, which drops the parent's handles, are left out. *)

From S2P Require Import Prelude Rows.
Local Open Scope Z_scope.

(** ** Definitions *)

(** The canonical path, the device and the inode. *)
Definition Key : Type := string * Z * Z.
Definition path_of (k : Key) : string := k.1.1.

Record pool := Pool {
  limit : Z;
  idle : list (Key * nat);
  generation : Z;
  opened : nat;
  closed : list nat;
}.

Definition make_pool (limit : Z) : res pyexn pool := require (1 <=? limit) ValueError;; Ok (Pool limit [] 0 0 []).

Definition set_idle (l : list (Key * nat)) p : pool := Pool (limit p) l (generation p) (opened p) (closed p).
Definition close_conn (c : nat) p : pool := Pool (limit p) (idle p) (generation p) (opened p) (c :: closed p).
Definition bump p : pool := Pool (limit p) (idle p) (generation p + 1) (opened p) (closed p).

(** [self.idle.pop(key).close()] of the rows a test selects. *)
Definition drain (test : Key → bool) p : pool :=
  fold_left (λ p row, close_conn row.2 p) (List.filter (λ row, test row.1) (idle p))
    (set_idle (List.filter (λ row, negb (test row.1)) (idle p)) p).

(** [close]: of one path, or of all. *)
Definition close (path : option string) p : pool :=
  drain (λ k, match path with Some s => String.eqb (path_of k) s | None => true end) (bump p).

Definition _before_fork p : pool := drain (λ _, true) (bump p).

(** [borrow]; opening a new connection may raise. *)
Definition borrow (k : Key) (opens : bool) p : res pyexn (Key * nat * Z) * pool :=
  let p := drain (λ old, String.eqb (path_of old) (path_of k) && negb (bool_decide (old = k))) p in
  match row_get k (idle p) with
  | Some c => (Ok (k, c, generation p), set_idle (row_drop k (idle p)) p)
  | None =>
      if opens
      then (Ok (k, opened p, generation p), Pool (limit p) (idle p) (generation p) (S (opened p)) (closed p))
      else (Err OSError, p)
  end.

(** [while len(self.idle) >= self.limit: self.idle.popitem(last=False)[1].close()] *)
Fixpoint make_room (lim : Z) (l : list (Key * nat)) : list (Key * nat) * list nat :=
  match l with
  | row :: l' => if lim <=? Z.of_nat (length l) then let '(kept, gone) := make_room lim l' in (kept, row.2 :: gone) else (l, [])
  | [] => ([], [])
  end.

(** [release]: [stamp] is what the file is now. *)
Definition release (held : Key * nat * Z) (stamp : option (Z * Z)) p : pool :=
  let '(k, c, g) := held in
  let unchanged := bool_decide (stamp = Some (k.1.2, k.2)) in
  if negb unchanged || negb (g =? generation p) then close_conn c p
  else
    let p := match row_get k (idle p) with Some previous => close_conn previous (set_idle (row_drop k (idle p)) p) | None => p end in
    let '(kept, gone) := make_room (limit p) (idle p) in
    let p := fold_left (λ p c, close_conn c p) gone (set_idle kept p) in
    set_idle (row_set k c (idle p)) p.

(** ** Borrowers *)

(** The pool and the handles that are checked out. *)
Record system := System { shared : pool; held : list (Key * nat * Z) }.

Inductive event :=
  | Borrow (k : Key) (opens : bool)
  | Release (i : nat) (stamp : option (Z * Z))
  | Close (path : option string)
  | Fork.

Definition act (e : event) (s : system) : system :=
  match e with
  | Borrow k opens => let '(r, p) := borrow k opens (shared s) in System p (match r with Ok h => h :: held s | Err _ => held s end)
  | Release i stamp => match held s !! i with Some h => System (release h stamp (shared s)) (delete i (held s)) | None => s end
  | Close path => System (close path (shared s)) (held s)
  | Fork => System (_before_fork (shared s)) (held s)
  end.

Definition run_all (l : list event) (s : system) : system := fold_left (λ s e, act e s) l s.

Definition handle (h : Key * nat * Z) : nat := h.1.2.
Definition handles (s : system) : list nat := map snd (idle (shared s)) ++ map handle (held s) ++ closed (shared s).

(** ** What a drain closes *)

Lemma fold_close {A} (f : A → nat) l p :
  fold_left (λ p a, close_conn (f a) p) l p = Pool (limit p) (idle p) (generation p) (opened p) (rev (map f l) ++ closed p).
Proof.
  revert p. induction l as [|a l IH]; intros p; simpl; [by destruct p|]. rewrite IH. simpl. by rewrite <- app_assoc.
Qed.

Lemma drain_eq test p : drain test p =
  Pool (limit p) (List.filter (λ row, negb (test row.1)) (idle p)) (generation p) (opened p)
    (rev (map snd (List.filter (λ row, test row.1) (idle p))) ++ closed p).
Proof. unfold drain. rewrite (fold_close snd). done. Qed.

Lemma filter_partition {A} (f : A → bool) l : List.filter (λ a, negb (f a)) l ++ List.filter f l ≡ₚ l.
Proof.
  induction l as [|a l IH]; simpl; [done|]. destruct (f a); simpl.
  - rewrite <- Permutation_middle. by constructor.
  - by constructor.
Qed.

(** The handles are the same, up to order, before and after. *)
Lemma drain_handles test s : handles (System (drain test (shared s)) (held s)) ≡ₚ handles s.
Proof.
  unfold handles. rewrite drain_eq. simpl.
  rewrite <- (filter_partition (λ row, test row.1) (idle (shared s))) at 3. rewrite map_app.
  rewrite <- Permutation_rev. solve_Permutation.
Qed.

(** ** Every handle has one owner *)

Record owned (lim : Z) (s : system) : Prop := Owned {
  o_handles : handles s ≡ₚ seq 0 (opened (shared s));
  o_keys : NoDup (map fst (idle (shared s)));
  o_length : Z.of_nat (length (idle (shared s))) <= lim;
  o_limit : limit (shared s) = lim;
}.

Lemma row_drop_perm {A} k (a : A) (l : list (Key * A)) : NoDup (map fst l) → row_get k l = Some a → l ≡ₚ (k, a) :: row_drop k l.
Proof.
  induction l as [|[j b] l IH]; simpl; [done|]. intros [Hj Hnd]%NoDup_cons. unfold row_drop. simpl.
  destruct (decide (k = j)) as [->|].
  - intros [= ->]. rewrite bool_decide_true by done. simpl. fold (row_drop j l).
    assert (Hg : row_get j l = None) by (by apply row_get_None). constructor. clear -Hg.
    induction l as [|[i c] l IH]; [done|]. unfold row_drop. simpl in *. destruct (decide (j = i)); [done|].
    rewrite bool_decide_false by done. simpl. constructor. auto.
  - intros H. rewrite bool_decide_false by done. simpl. fold (row_drop k l). rewrite (IH Hnd H) at 1. constructor.
Qed.

Lemma drain_owned lim test s : owned lim s → owned lim (System (drain test (shared s)) (held s)).
Proof.
  intros [Hh Hk Hl Hm]. constructor.
  - rewrite drain_handles. by rewrite drain_eq.
  - rewrite drain_eq. by apply NoDup_map_filter.
  - rewrite drain_eq. simpl. etrans; [|exact Hl]. apply Nat2Z.inj_le. rewrite <- (filter_partition (λ row, test row.1) (idle (shared s))) at 2.
    rewrite length_app. lia.
  - by rewrite drain_eq.
Qed.

Lemma bump_owned lim s : owned lim s → owned lim (System (bump (shared s)) (held s)).
Proof. intros []. by constructor. Qed.

Lemma make_room_ok lim l kept gone : 1 <= lim → make_room lim l = (kept, gone) →
  ∃ rows, l = rows ++ kept ∧ gone = map snd rows ∧ Z.of_nat (length kept) < lim.
Proof.
  intros Hlim. revert kept gone. induction l as [|row l IH]; intros kept gone; cbn [make_room].
  - intros [= <- <-]. exists []. simpl. split_and!; [done..|lia].
  - destruct (Z.leb_spec lim (Z.of_nat (length (row :: l)))).
    + destruct (make_room lim l) as [k g] eqn:Em. intros [= <- <-]. destruct (IH _ _ eq_refl) as (rows & -> & -> & Hk).
      by exists (row :: rows).
    + intros [= <- <-]. by exists [].
Qed.

Lemma borrow_owned lim k opens s : owned lim s → owned lim (act (Borrow k opens) s).
Proof.
  intros Hs%(drain_owned lim (λ old, String.eqb (path_of old) (path_of k) && negb (bool_decide (old = k)))).
  simpl. unfold borrow. set (p := drain _ _) in *. destruct Hs as [Hh Hk Hl Hm]. simpl in *.
  destruct (row_get k (idle p)) as [c|] eqn:Ec; simpl.
  - pose proof (row_drop_perm _ _ _ Hk Ec) as Hp. constructor; simpl; [|by apply NoDup_drop| |done].
    + rewrite <- Hh. unfold handles. simpl. rewrite Hp at 2. simpl. by rewrite <- Permutation_middle.
    + pose proof (length_drop_row k (idle p)). lia.
  - destruct opens; simpl; [|by constructor]. constructor; simpl; try done.
    change (0%nat :: seq 1 (opened p)) with (seq 0 (S (opened p))). rewrite seq_S, Permutation_app_comm. simpl.
    rewrite <- Hh. unfold handles. simpl. by rewrite <- Permutation_middle.
Qed.

Lemma held_delete (l : list (Key * nat * Z)) i h : l !! i = Some h → map handle l ≡ₚ handle h :: map handle (delete i l).
Proof. intros Hi. by rewrite (delete_Permutation _ _ _ Hi) at 1. Qed.

Lemma release_owned lim i stamp s : 1 <= lim → owned lim s → owned lim (act (Release i stamp) s).
Proof.
  intros Hlim [Hh Hk Hl Hm]. simpl. destruct (held s !! i) as [[[k c] g]|] eqn:Ei; [|by constructor].
  pose proof (held_delete _ _ _ Ei) as Hd. unfold release. unfold handles in Hh. rewrite Hd in Hh. simpl in Hh.
  destruct (_ || _); [constructor; simpl; try done; rewrite <- Hh; unfold handles; simpl; solve_Permutation|].
  set (p1 := match row_get k (idle (shared s)) with Some _ => _ | None => _ end).
  assert (H1 : NoDup (map fst (idle p1)) ∧ row_get k (idle p1) = None ∧ limit p1 = lim ∧ opened p1 = opened (shared s) ∧
    map snd (idle p1) ++ closed p1 ≡ₚ map snd (idle (shared s)) ++ closed (shared s)).
  { unfold p1. destruct (row_get k (idle (shared s))) as [previous|] eqn:Ep; simpl; [|by split_and!].
    split_and!; [by apply NoDup_drop|rewrite row_get_drop; by rewrite decide_True|done..|].
    rewrite (row_drop_perm _ _ _ Hk Ep) at 2. simpl. by rewrite <- Permutation_middle. }
  destruct H1 as (Hk1 & Hg1 & Hm1 & Ho1 & Hp1). destruct (make_room (limit p1) (idle p1)) as [kept gone] eqn:Er.
  rewrite Hm1 in Er. destruct (make_room_ok _ _ _ _ Hlim Er) as (rows & Hrows & -> & Hlen).
  rewrite Hrows, map_app in Hk1, Hp1. apply NoDup_app in Hk1 as (_ & _ & Hk1).
  assert (Hgk : row_get k kept = None).
  { apply row_get_None. apply row_get_None in Hg1. rewrite Hrows, map_app in Hg1. intros Hin. apply Hg1, elem_of_app. by right. }
  rewrite (fold_close (λ c, c)). simpl. rewrite (row_set_new _ _ _ Hgk). constructor; simpl.
  - unfold handles. simpl. rewrite Ho1, <- Hh. rewrite map_app, map_id, <- Permutation_rev. simpl.
    transitivity (c :: map handle (delete i (held s)) ++ ((map snd rows ++ map snd kept) ++ closed p1)); [solve_Permutation|].
    rewrite Hp1. solve_Permutation.
  - by apply NoDup_snoc.
  - rewrite length_app. simpl. lia.
  - done.
Qed.

Lemma run_owned lim l s : 1 <= lim → owned lim s → owned lim (run_all l s).
Proof.
  intros Hlim. revert s. induction l as [|e l IH]; intros s Hs; [done|]. apply (IH (act e s)).
  destruct e as [k opens|i stamp|path|]; [by apply borrow_owned|by apply release_owned|..];
    by apply (drain_owned _ _ (System _ _)), bump_owned.
Qed.

Lemma make_pool_owned lim p : make_pool lim = Ok p → 1 <= lim ∧ owned lim (System p []).
Proof.
  unfold make_pool. intros (_ & H%require_Ok & [= <-])%bind_Ok. apply Z.leb_le in H. split; [done|].
  constructor; simpl; try done; [constructor|lia].
Qed.

(** C18: a connection has one owner.  Whatever the callers do, every
    connection ever opened is idle, or in the hands of one borrower, or
    closed, and never two of these; at most [limit] are idle, one per file;
    and the connection [borrow] hands out is in nobody's hands and not
    closed. *)
Theorem handle_has_one_owner lim p l : make_pool lim = Ok p →
  let s := run_all l (System p []) in
  NoDup (handles s) ∧ (∀ c, c ∈ handles s ↔ (c < opened (shared s))%nat) ∧
  Z.of_nat (length (idle (shared s))) <= lim ∧ NoDup (map fst (idle (shared s))) ∧
  ∀ k opens h p', borrow k opens (shared s) = (Ok h, p') →
    h.1.1 = k ∧ (handle h ∉ map handle (held s)) ∧ (handle h ∉ closed (shared s)).
Proof.
  intros [Hlim Hi]%make_pool_owned s. pose proof (run_owned lim l _ Hlim Hi) as Hs. fold s in Hs.
  assert (Hnd : ∀ s, owned lim s → NoDup (handles s)) by (intros s' Hs'; rewrite (o_handles _ _ Hs'); apply NoDup_seq).
  split_and!; [by apply Hnd| |apply (o_length _ _ Hs)|apply (o_keys _ _ Hs)|].
  - intros c. rewrite (o_handles _ _ Hs), elem_of_seq. lia.
  - intros k opens h p' Hb. pose proof (Hnd _ (borrow_owned lim k opens s Hs)) as Hn. simpl in Hn. rewrite Hb in Hn.
    unfold handles in Hn. simpl in Hn. apply NoDup_app in Hn as (_ & _ & Hn). simpl in Hn. apply NoDup_cons in Hn as [Hn _].
    split; [|split; intros Hin; apply Hn, elem_of_app; [by left|right]].
    + unfold borrow in Hb. destruct (row_get _ _); [|destruct opens]; by simplify_eq/=.
    + assert (Hc : ∃ gone, closed p' = gone ++ closed (shared s)).
      { unfold borrow in Hb. rewrite drain_eq in Hb. destruct (row_get _ _); [|destruct opens]; simplify_eq/=; eauto. }
      destruct Hc as [gone ->]. apply elem_of_app. by right.
Qed.

(** ** Closing *)

Section closing.
Variables (path : option string) (n : nat) (g0 : Z).

Definition concerns (k : Key) : bool := match path with Some s => String.eqb (path_of k) s | None => true end.

Record renewed (s : system) : Prop := Renewed {
  r_idle : ∀ k c, (k, c) ∈ idle (shared s) → concerns k = true → (n <= c)%nat;
  r_held : ∀ k c g, (k, c, g) ∈ held s → g0 <= g → concerns k = true → (n <= c)%nat;
  r_generation : g0 <= generation (shared s);
  r_opened : (n <= opened (shared s))%nat;
}.

Lemma drain_renewed test s : renewed s → renewed (System (drain test (shared s)) (held s)).
Proof.
  intros []. rewrite drain_eq. constructor; simpl; try done. intros k c Hin. apply list_elem_of_In, filter_In in Hin as [Hin _].
  apply r_idle0. by apply list_elem_of_In.
Qed.

Lemma act_renewed e s : renewed s → renewed (act e s).
Proof.
  assert (Hbump : ∀ s, renewed s → renewed (System (bump (shared s)) (held s))).
  { intros s' []. constructor; simpl; try done. lia. }
  destruct e as [k opens|i stamp|p|]; intros Hs; simpl; [| |by apply (drain_renewed _ (System _ _)), Hbump..].
  - apply (drain_renewed (λ old, String.eqb (path_of old) (path_of k) && negb (bool_decide (old = k)))) in Hs.
    unfold borrow. set (q := drain _ _) in *. destruct Hs as [Hi Hh Hg Ho]. simpl in *.
    destruct (row_get k (idle q)) as [c|] eqn:Ec; [|destruct opens]; constructor; simpl; try done; try lia.
    + intros k' c' Hin. apply Hi. by eapply drop_subseteq.
    + intros k' c' g [[= -> -> ->]|Hin]%elem_of_cons; [intros _; by apply Hi, row_get_elem|by apply Hh].
    + intros k' c' g [[= -> -> ->]|Hin]%elem_of_cons; [by intros|by apply Hh].
  - destruct (held s !! i) as [[[k c] g]|] eqn:Ei; [|done]. destruct Hs as [Hi Hh Hg Ho].
    assert (Hd : ∀ x, x ∈ delete i (held s) → x ∈ held s) by (intros x Hx; rewrite (delete_Permutation _ _ _ Ei); by right).
    unfold release. destruct (_ || _) eqn:Er; [constructor; simpl; try done; eauto|].
    apply orb_false_iff in Er as [_ Er%negb_false_iff%Z.eqb_eq].
    set (p1 := match row_get k (idle (shared s)) with Some _ => _ | None => _ end).
    assert (H1 : (∀ row, row ∈ idle p1 → row ∈ idle (shared s)) ∧ generation p1 = generation (shared s) ∧ opened p1 = opened (shared s)).
    { unfold p1. destruct (row_get k (idle (shared s))); simpl; split_and!; eauto with unimem. }
    destruct H1 as (H1 & Hg1 & Ho1). destruct (make_room (limit p1) (idle p1)) as [kept gone] eqn:Em.
    assert (Hkept : ∀ row, row ∈ kept → row ∈ idle p1).
    { clear -Em. revert kept gone Em. generalize (idle p1) as l. induction l as [|row l IH]; intros kept gone; cbn [make_room].
      - by intros [= <- <-].
      - destruct (_ <=? _); [|by intros [= <- <-]]. destruct (make_room _ l) as [k' g'] eqn:E1. intros [= <- <-] x Hx. right. eauto. }
    rewrite (fold_close (λ c, c)). constructor; simpl; rewrite ?Hg1, ?Ho1; try done; eauto.
    intros k' c' Hin Hc. apply row_set_elem in Hin as [[= -> ->]|Hin]; [|eauto].
    eapply Hh; [by eapply list_elem_of_lookup_2|lia|done].
Qed.

Lemma run_renewed l s : renewed s → renewed (run_all l s).
Proof. revert s. induction l as [|e l IH]; intros s Hs; [done|]. by apply (IH (act e s)), act_renewed. Qed.
End closing.

(** No handle is of a generation to come. *)
Definition no_future (s : system) : Prop := Forall (λ h, h.2 <= generation (shared s)) (held s).

Lemma release_generation h stamp p : generation (release h stamp p) = generation p.
Proof.
  destruct h as [[k c] g]. unfold release. destruct (_ || _); [done|]. destruct (make_room _ _) as [kept gone].
  rewrite (fold_close (λ c, c)). simpl. by destruct (row_get k (idle p)).
Qed.

Lemma act_no_future e s : no_future s → no_future (act e s).
Proof.
  unfold no_future. intros Hs. destruct e as [k opens|i stamp|path|]; simpl.
  - unfold borrow. rewrite drain_eq. simpl. destruct (row_get _ _); [|destruct opens]; simpl; try done;
      by (constructor; [simpl; lia|]).
  - destruct (held s !! i) as [h|] eqn:Ei; [|done]. simpl. rewrite release_generation.
    rewrite (delete_Permutation _ _ _ Ei) in Hs. by apply Forall_cons in Hs as [_ Hs].
  - unfold close. rewrite drain_eq. simpl. eapply Forall_impl; [exact Hs|]. simpl. lia.
  - unfold _before_fork. rewrite drain_eq. simpl. eapply Forall_impl; [exact Hs|]. simpl. lia.
Qed.

Lemma run_no_future l s : no_future s → no_future (run_all l s).
Proof. revert s. induction l as [|e l IH]; intros s Hs; [done|]. by apply (IH (act e s)), act_no_future. Qed.

(** a closed path is reopened.  After [close] of a path (or of all), a
    connection to it that was open at that moment is never handed out again,
    the ones that were checked out included: [borrow] gives one opened
    since. *)
Theorem closed_not_handed_out lim p path l0 l k opens h p' : make_pool lim = Ok p →
  let s := run_all l0 (System p []) in
  concerns path k = true →
  borrow k opens (shared (run_all l (act (Close path) s))) = (Ok h, p') → (opened (shared s) <= handle h)%nat.
Proof.
  intros _ s Hk Hb. assert (Hheld : no_future s) by (apply run_no_future; constructor).
  set (n := opened (shared s)). set (g0 := generation (shared s) + 1).
  assert (H0 : renewed path n g0 (act (Close path) s)).
  { simpl. unfold close. rewrite drain_eq. constructor; simpl; [|..|unfold g0; lia|done].
    - intros k' c Hin Hc. apply list_elem_of_In, filter_In in Hin as [_ Hin]. unfold concerns in Hc. simpl in Hin. by rewrite Hc in Hin.
    - intros k' c g Hin Hg _. unfold no_future in Hheld. rewrite Forall_forall in Hheld. specialize (Hheld _ Hin).
      simpl in Hheld. unfold g0 in Hg. lia. }
  pose proof (run_renewed path n g0 l _ H0) as Hr. set (s1 := run_all l _) in *.
  apply (act_renewed path n g0 (Borrow k opens)) in Hr. simpl in Hr. rewrite Hb in Hr. destruct Hr as [_ Hh Hg _].
  destruct h as [[k' c] g]. unfold borrow in Hb. apply (Hh k' c g); [by left|..].
  - destruct (row_get _ _); [|destruct opens]; simplify_eq/=; exact Hg.
  - destruct (row_get _ _); [|destruct opens]; simplify_eq/=; exact Hk.
Qed.

(** ** A pool of two *)

Definition demo_key : Key := ("runtime.sqlite3", 1, 7).
Definition two : pool := Pool 2 [] 0 0 [].
Definition used : list event := [Borrow demo_key true; Borrow demo_key true; Release 0 (Some (1, 7))].

Lemma handle_has_one_owner_witness : make_pool 2 = Ok two ∧ NoDup (handles (run_all used (System two []))) ∧
  handles (run_all used (System two [])) = [1%nat; 0%nat].
Proof.
  split; [reflexivity|]. split; [|reflexivity].
  destruct (handle_has_one_owner 2 two used eq_refl) as [H _]. exact H.
Defined.

Lemma closed_not_handed_out_witness :
  (borrow demo_key true (shared (run_all [Release 0 (Some (1, 7))] (act (Close None) (run_all used (System two [])))))).1
    = Ok (demo_key, 2%nat, 1) ∧ (2 <= 2)%nat.
Proof.
  split; [vm_compute; reflexivity|].
  apply (closed_not_handed_out 2 two None used [Release 0 (Some (1, 7))] demo_key true (demo_key, 2%nat, 1)
    (borrow demo_key true (shared (run_all [Release 0 (Some (1, 7))] (act (Close None) (run_all used (System two [])))))).2);
    [reflexivity|reflexivity|vm_compute; reflexivity].
Defined.
