(* ===== verification/FileLock.v ===== *)
(** * The file lock ([unimem/frontmatter.py], [unimem/_jsonl.py])

    Every durable component serializes its processes with [locked]: an
    exclusive [flock] on a side file that the holder unlinks when it is done.
    A process that waited may therefore hold the lock of a file that is no
    longer linked, which [_acquire_lock_fd] notices by comparing inodes.  Each
    system call of [_acquire_lock_fd] and [_release_lock_fd] is one step of the
    model, so any number of processes and threads interleave between calls; a
    process may die at any step, and the kernel then drops its lock but not the
    file.

    One lock file is modelled; an inode is the count of the files created
    before it.  [_jsonl.locked] is reentrant within a thread: the depth of a
    critical section.  Left out are the variant for systems without [fcntl],
    directories, and system calls that fail for another reason than a lock that
    is held or a path that is gone. *)

From S2P Require Import Prelude Rows.
Local Open Scope Z_scope.

(** ** Definitions *)

(** Where a process is; [fd] is the inode its descriptor opens. *)
Inductive proc :=
  | Idle
  | TimedOut
  (* [_acquire_lock_fd] *)
  | Opened (fd : nat) (deadline : Z)
  | Locked (fd : nat) (deadline : Z)
  | Mismatch (fd : nat) (deadline : Z)
  | Unlocked (fd : nat) (deadline : Z)
  | Closed (deadline : Z)
  (* the protected block, [depth] levels inside the outermost one *)
  | Critical (fd : nat) (depth : nat)
  (* [_release_lock_fd] *)
  | Leaving (fd : nat)
  | Unlinking (fd : nat)
  | Unlocking (fd : nat)
  | Closing (fd : nat).

(** The file the lock path links, the number of files ever created, and who
    holds the [flock] of each. *)
Record system := System {
  linked : option nat;
  inodes : nat;
  locks : list (nat * nat);
  procs : list proc;
}.

Definition become (p : nat) (pc : proc) (s : system) : system := System (linked s) (inodes s) (locks s) (<[p := pc]> (procs s)).
Definition set_locks (l : list (nat * nat)) (s : system) : system := System (linked s) (inodes s) l (procs s).
Definition set_linked (o : option nat) (s : system) : system := System o (inodes s) (locks s) (procs s).

(** [os.open(lock_path, os.O_CREAT | os.O_RDWR, 0o600)] *)
Definition open_lock (p : nat) (deadline : Z) (s : system) : system :=
  match linked s with
  | Some fd => become p (Opened fd deadline) s
  | None => become p (Opened (inodes s) deadline) (System (Some (inodes s)) (S (inodes s)) (locks s) (procs s))
  end.

(** [_lock_exclusive], one turn: the descriptor is closed when time is up. *)
Definition _lock_exclusive (p fd : nat) (deadline now : Z) (s : system) : system :=
  match row_get fd (locks s) with
  | None => become p (Locked fd deadline) (set_locks (row_set fd p (locks s)) s)
  | Some _ => if deadline - now <=? 0 then become p TimedOut s else s
  end.

(** [fstat] and [stat], compared. *)
Definition same_inode (fd : nat) (s : system) : bool := bool_decide (linked s = Some fd).

Definition _unlock (fd : nat) (s : system) : system := set_locks (row_drop fd (locks s)) s.

(** The next system call of a process that acquires the lock. *)
Definition _acquire_lock_fd (p : nat) (now : Z) (pc : proc) (s : system) : system :=
  match pc with
  | Opened fd deadline => _lock_exclusive p fd deadline now s
  | Locked fd deadline => become p (if same_inode fd s then Critical fd 0 else Mismatch fd deadline) s
  | Mismatch fd deadline => become p (Unlocked fd deadline) (_unlock fd s)
  | Unlocked fd deadline => become p (Closed deadline) s
  | Closed deadline => if deadline <=? now then become p TimedOut s else open_lock p deadline s
  | _ => s
  end.

(** The next system call of a process that releases it; only its own file is
    unlinked. *)
Definition _release_lock_fd (p : nat) (pc : proc) (s : system) : system :=
  match pc with
  | Leaving fd => become p (if same_inode fd s then Unlinking fd else Unlocking fd) s
  | Unlinking fd => become p (Unlocking fd) (set_linked None s)
  | Unlocking fd => become p (Closing fd) (_unlock fd s)
  | Closing fd => become p Idle s
  | _ => s
  end.

(** The next step of a process; a step of the protected block leaves one level
    of it. *)
Definition next (p : nat) (now : Z) (pc : proc) (s : system) : system :=
  match pc with
  | Idle | TimedOut => s
  | Opened _ _ | Locked _ _ | Mismatch _ _ | Unlocked _ _ | Closed _ => _acquire_lock_fd p now pc s
  | Critical fd (S depth) => become p (Critical fd depth) s
  | Critical fd O => become p (Leaving fd) s
  | Leaving _ | Unlinking _ | Unlocking _ | Closing _ => _release_lock_fd p pc s
  end.

(** The descriptor whose [flock] a process holds. *)
Definition holds (pc : proc) : option nat :=
  match pc with
  | Locked fd _ | Mismatch fd _ | Critical fd _ | Leaving fd | Unlinking fd | Unlocking fd => Some fd
  | _ => None
  end.

Inductive event :=
  | Start (p : nat) (now timeout : Z)
  | Step (p : nat) (now : Z)
  | Nest (p : nat)
  | Die (p : nat).

Definition act (e : event) (s : system) : system :=
  match e with
  | Start p now timeout =>
      match procs s !! p with
      | Some Idle | Some TimedOut =>
          (* [timeout] must not be negative *)
          if timeout <? 0 then s else open_lock p (now + timeout) s
      | _ => s
      end
  | Step p now => match procs s !! p with Some pc => next p now pc s | None => s end
  | Nest p => match procs s !! p with Some (Critical fd depth) => become p (Critical fd (S depth)) s | _ => s end
  | Die p =>
      match procs s !! p with
      | Some pc => become p Idle (match holds pc with Some fd => _unlock fd s | None => s end)
      | None => s
      end
  end.

Definition run_all (l : list event) (s : system) : system := fold_left (λ s e, act e s) l s.

Definition boot (n : nat) : system := System None 0 [] (replicate n Idle).
Definition reached (s : system) : Prop := ∃ n l, s = run_all l (boot n).

(** ** The invariant *)

(** From the comparison on, the file a process locked is the one that is
    linked. *)
Definition verified (pc : proc) : option nat :=
  match pc with Critical fd _ | Leaving fd | Unlinking fd => Some fd | _ => None end.

Definition opens (pc : proc) : option nat :=
  match pc with
  | Idle | TimedOut | Closed _ => None
  | Opened fd _ | Locked fd _ | Mismatch fd _ | Unlocked fd _ | Critical fd _ | Leaving fd | Unlinking fd | Unlocking fd | Closing fd => Some fd
  end.

Record sound (s : system) : Prop := Sound {
  k_locked : ∀ fd p, row_get fd (locks s) = Some p ↔ ∃ pc, procs s !! p = Some pc ∧ holds pc = Some fd;
  k_verified : ∀ p pc fd, procs s !! p = Some pc → verified pc = Some fd → linked s = Some fd;
  k_linked : ∀ fd, linked s = Some fd → (fd < inodes s)%nat;
  k_opens : ∀ p pc fd, procs s !! p = Some pc → opens pc = Some fd → (fd < inodes s)%nat;
}.

Lemma holds_opens pc fd : holds pc = Some fd → opens pc = Some fd.
Proof. by destruct pc. Qed.
Lemma verified_holds pc fd : verified pc = Some fd → holds pc = Some fd.
Proof. by destruct pc. Qed.

(** Only one process is past the comparison. *)
Lemma verified_unique s p q pc qc fd fd' : sound s → procs s !! p = Some pc → procs s !! q = Some qc →
  verified pc = Some fd → verified qc = Some fd' → p = q.
Proof.
  intros Hs Hp Hq Vp Vq. pose proof (k_verified _ Hs _ _ _ Hp Vp) as E1. pose proof (k_verified _ Hs _ _ _ Hq Vq) as E2.
  assert (fd' = fd) as -> by congruence.
  pose proof (proj2 (k_locked _ Hs fd p) (ex_intro _ pc (conj Hp (verified_holds _ _ Vp)))) as L1.
  pose proof (proj2 (k_locked _ Hs fd q) (ex_intro _ qc (conj Hq (verified_holds _ _ Vq)))) as L2. congruence.
Qed.

(** A process moves, and with it perhaps the lock table and the link. *)
Lemma sound_move s p pc pc' o n ls : sound s → procs s !! p = Some pc →
  (∀ fd q, row_get fd ls = Some q ↔ (q = p ∧ holds pc' = Some fd) ∨ (q ≠ p ∧ row_get fd (locks s) = Some q)) →
  (∀ fd, verified pc' = Some fd → o = Some fd) →
  (o = linked s ∨ ∀ q qc, q ≠ p → procs s !! q = Some qc → verified qc = None) →
  (inodes s <= n)%nat → (∀ fd, o = Some fd → (fd < n)%nat) → (∀ fd, opens pc' = Some fd → (fd < n)%nat) →
  sound (System o n ls (<[p := pc']> (procs s))).
Proof.
  intros [] Hp Hls Hv Ho Hn Hl Hop. pose proof (lookup_lt_Some _ _ _ Hp) as Hlt.
  assert (Hlook : ∀ q qc, <[p := pc']> (procs s) !! q = Some qc → (q = p ∧ qc = pc') ∨ (q ≠ p ∧ procs s !! q = Some qc)).
  { intros q qc. rewrite list_lookup_insert_Some. naive_solver. }
  constructor; simpl.
  - intros fd q. rewrite Hls. split.
    + intros [[-> Hh]|[Hne Hg]]; [exists pc'; by rewrite list_lookup_insert_eq|].
      apply k_locked0 in Hg as (qc & Hq & Hh). exists qc. by rewrite list_lookup_insert_ne.
    + intros (qc & [[-> ->]|[Hne Hq]]%Hlook & Hh); [by left|right]. split; [done|]. apply k_locked0. by exists qc.
  - intros q qc fd [[-> ->]|[Hne Hq]]%Hlook Hver; [by apply Hv|]. destruct Ho as [->|Hnone]; [by eapply k_verified0|].
    rewrite (Hnone _ _ Hne Hq) in Hver. done.
  - done.
  - intros q qc fd [[-> ->]|[Hne Hq]]%Hlook Hopen; [by apply Hop|]. specialize (k_opens0 _ _ _ Hq Hopen). lia.
Qed.

(** Reduce the step of a process to [sound_move]. *)
Ltac moved := unfold become, _unlock, set_locks, set_linked; simpl; eapply sound_move.

(** The lock table of a process that neither takes nor drops a lock. *)
Lemma locks_same s p pc pc' : sound s → procs s !! p = Some pc → holds pc' = holds pc →
  ∀ fd q, row_get fd (locks s) = Some q ↔ (q = p ∧ holds pc' = Some fd) ∨ (q ≠ p ∧ row_get fd (locks s) = Some q).
Proof.
  intros Hs Hp -> fd q. split.
  - intros Hg. destruct (decide (q = p)) as [->|]; [left|by right]. apply (k_locked _ Hs) in Hg as (qc & Hq & Hh).
    split; [done|]. congruence.
  - intros [[-> Hh]|[_ Hg]]; [|done]. apply (k_locked _ Hs). by exists pc.
Qed.

Lemma locks_dropped s p pc pc' fd0 : sound s → procs s !! p = Some pc → holds pc = Some fd0 → holds pc' = None →
  ∀ fd q, row_get fd (row_drop fd0 (locks s)) = Some q ↔ (q = p ∧ holds pc' = Some fd) ∨ (q ≠ p ∧ row_get fd (locks s) = Some q).
Proof.
  intros Hs Hp Hh -> fd q. rewrite row_get_drop. destruct (decide (fd0 = fd)) as [<-|Hne].
  - split; [done|]. intros [[_ [=]]|[Hq Hg]]. assert (row_get fd0 (locks s) = Some p) by (apply (k_locked _ Hs); by exists pc). congruence.
  - split; [|by intros [[_ [=]]|[_ Hg]]]. intros Hg. right. split; [|done]. intros ->.
    apply (k_locked _ Hs) in Hg as (qc & Hq & Hh'). congruence.
Qed.

Lemma lock_sound_quiet s p pc pc' : sound s → procs s !! p = Some pc → holds pc' = holds pc →
  (∀ fd, verified pc' = Some fd → linked s = Some fd) → (∀ fd, opens pc' = Some fd → opens pc = Some fd) → sound (become p pc' s).
Proof.
  intros Hs Hp Hh Hv Ho. moved; [done..|by eapply locks_same|done|by left|done|apply (k_linked _ Hs)|].
  intros fd Hfd. eapply (k_opens _ Hs); [done|]. by apply Ho.
Qed.

Lemma sound_unlock s p pc pc' fd : sound s → procs s !! p = Some pc → holds pc = Some fd → holds pc' = None →
  (∀ fd, opens pc' = Some fd → opens pc = Some fd) → sound (become p pc' (_unlock fd s)).
Proof.
  intros Hs Hp Hh Hh' Ho. moved; [done..|by eapply locks_dropped| |by left|done|apply (k_linked _ Hs)|].
  - intros g Hg%verified_holds. congruence.
  - intros g Hg. eapply (k_opens _ Hs); [done|]. by apply Ho.
Qed.

Lemma sound_open s p pc deadline : sound s → procs s !! p = Some pc → holds pc = None → sound (open_lock p deadline s).
Proof.
  intros Hs Hp Hh. unfold open_lock. destruct (linked s) as [fd|] eqn:El.
  - moved; [done..|by eapply locks_same|done|by left|done|apply (k_linked _ Hs)|].
    intros g [= <-]. by apply (k_linked _ Hs).
  - moved; [done..|by eapply locks_same|done| |simpl; lia|intros fd [= <-]; lia|intros fd [= <-]; lia].
    right. intros q qc _ Hq. destruct (verified qc) as [g|] eqn:Ev; [|done].
    pose proof (k_verified _ Hs _ _ _ Hq Ev). congruence.
Qed.

Lemma sound_next s p pc now : sound s → procs s !! p = Some pc → sound (next p now pc s).
Proof.
  intros Hs Hp. destruct pc as [| |fd dl|fd dl|fd dl|fd dl|dl|fd [|depth]|fd|fd|fd|fd]; simpl; try done.
  - unfold _lock_exclusive. destruct (row_get fd (locks s)) as [q|] eqn:Eg.
    + destruct (_ <=? _); [|done]. by eapply lock_sound_quiet.
    + moved; [done..| |done|by left|done|apply (k_linked _ Hs)|intros g [= <-]; by eapply (k_opens _ Hs)].
      intros g q. rewrite row_get_set. destruct (decide (fd = g)) as [<-|Hne]; simpl.
      * rewrite Eg. naive_solver.
      * split; [intros Hg; right|naive_solver]. split; [|done]. intros ->.
        apply (k_locked _ Hs) in Hg as (qc & Hq & Hh). rewrite Hp in Hq. by injection Hq as <-.
  - unfold same_inode. case_bool_decide as Hl; eapply lock_sound_quiet; try done. by intros g [= <-].
  - by eapply sound_unlock.
  - by eapply lock_sound_quiet.
  - destruct (_ <=? _); [by eapply lock_sound_quiet|by eapply sound_open].
  - eapply lock_sound_quiet; try done. intros g [= <-]. by eapply (k_verified _ Hs).
  - eapply lock_sound_quiet; try done. intros g [= <-]. by eapply (k_verified _ Hs).
  - unfold same_inode. rewrite bool_decide_true by (by eapply (k_verified _ Hs)).
    eapply lock_sound_quiet; try done. intros g [= <-]. by eapply (k_verified _ Hs).
  - moved; [done..|by eapply locks_same|done| |done|done|intros g [= <-]; by eapply (k_opens _ Hs)].
    right. intros q qc Hne Hq. destruct (verified qc) as [g|] eqn:Ev; [|done]. exfalso. apply Hne.
    eapply (verified_unique s q p); done.
  - by eapply sound_unlock.
  - by eapply lock_sound_quiet.
Qed.

Lemma lock_sound_act s e : sound s → sound (act e s).
Proof.
  intros Hs. destruct e as [p now timeout|p now|p|p]; simpl; destruct (procs s !! p) as [pc|] eqn:Hp; try done.
  - destruct pc; try done; (destruct (timeout <? 0); [done|by eapply sound_open]).
  - by eapply sound_next.
  - destruct pc; try done. eapply lock_sound_quiet; try done. intros g [= <-]. by eapply (k_verified _ Hs).
  - destruct (holds pc) as [fd|] eqn:Eh; [by eapply sound_unlock|]. by eapply lock_sound_quiet.
Qed.

Lemma lock_sound_run l s : sound s → sound (run_all l s).
Proof. revert s. induction l as [|e l IH]; intros s Hs; [done|]. by apply (IH (act e s)), lock_sound_act. Qed.

Lemma sound_boot n : sound (boot n).
Proof.
  constructor; simpl; try done.
  - intros fd p. split; [done|]. intros (pc & [-> _]%lookup_replicate & [=]).
  - intros p pc fd [-> _]%lookup_replicate. done.
  - intros p pc fd [-> _]%lookup_replicate. done.
Qed.

Lemma lock_reached_sound s : reached s → sound s.
Proof. intros (n & l & ->). apply lock_sound_run, sound_boot. Qed.

(** ** Mutual exclusion *)

(** C31: the file lock excludes.  However the system calls of any number of
    processes interleave, and whichever of them die, at most one is inside the
    protected block; the one inside holds the lock of the file that is linked;
    and a process that is about to unlink the lock file unlinks its own, which
    nobody else has locked. *)
Theorem lock_excludes s p q pc qc fd fd' : reached s → procs s !! p = Some pc → procs s !! q = Some qc →
  verified pc = Some fd → verified qc = Some fd' →
  p = q ∧ fd = fd' ∧ linked s = Some fd ∧ row_get fd (locks s) = Some p.
Proof.
  intros Hs%lock_reached_sound Hp Hq Vp Vq. assert (p = q) as <- by (by eapply verified_unique). split; [done|].
  assert (qc = pc) as -> by congruence. split; [congruence|]. split; [by eapply (k_verified _ Hs)|].
  apply (k_locked _ Hs). exists pc. by rewrite (verified_holds _ _ Vp).
Qed.

Definition lock_excludes_trace : list event :=
  [Start 0 0 5; Start 1 0 5; Step 0 0; Step 0 0; Step 1 0; Nest 0; Step 0 1; Step 0 1; Step 0 1; Step 0 1; Step 0 1;
   Step 1 2; Step 1 2; Start 2 2 5; Step 2 2; Step 2 2; Step 1 2; Step 1 2; Step 1 3; Step 1 3].

(** The first process unlinks the file the second one waits for; the second
    one sees that, opens the file the third one has created, and waits. *)
Lemma lock_excludes_witness :
  procs (run_all lock_excludes_trace (boot 3)) = [Closing 0; Opened 1 5; Critical 1 0] ∧
  (2 = 2 ∧ 1 = 1 ∧ linked (run_all lock_excludes_trace (boot 3)) = Some 1 ∧ row_get 1 (locks (run_all lock_excludes_trace (boot 3))) = Some 2)%nat.
Proof.
  split; [by vm_compute|].
  apply (lock_excludes (run_all lock_excludes_trace (boot 3)) 2 2 (Critical 1 0) (Critical 1 0) 1 1); [by exists 3%nat, lock_excludes_trace|by vm_compute..].
Defined.

(** ** Acquisition *)

Lemma locks_none s fd : sound s → (∀ q qc, procs s !! q = Some qc → holds qc ≠ Some fd) → row_get fd (locks s) = None.
Proof.
  intros Hs Hf. destruct (row_get fd (locks s)) as [q|] eqn:Eg; [|done].
  apply (k_locked _ Hs) in Eg as (qc & Hq & Hh). by destruct (Hf _ _ Hq).
Qed.

Lemma act_start s p now timeout pc : procs s !! p = Some pc → pc = Idle ∨ pc = TimedOut → 0 <= timeout →
  act (Start p now timeout) s = open_lock p (now + timeout) s.
Proof. intros Hp Hpc Ht. simpl. rewrite Hp, (proj2 (Z.ltb_ge timeout 0) Ht). by destruct Hpc as [-> | ->]. Qed.

(** The two calls after the file is opened. *)
Lemma act_enter s p fd deadline now now' : procs s !! p = Some (Opened fd deadline) → row_get fd (locks s) = None → linked s = Some fd →
  procs (run_all [Step p now; Step p now'] s) !! p = Some (Critical fd 0).
Proof.
  intros Hp Hg Hl. pose proof (lookup_lt_Some _ _ _ Hp) as Hlt. simpl. rewrite Hp. simpl. unfold _lock_exclusive. rewrite Hg. simpl.
  rewrite list_lookup_insert_eq by done. simpl. unfold same_inode. simpl. rewrite Hl, bool_decide_true by done.
  apply list_lookup_insert_eq. by rewrite length_insert.
Qed.

(** a free lock is taken at the first try.  If no process holds the lock of
    the linked file, because the last holder has released it or has died, a
    process that asks for the lock is in the protected block after opening,
    locking and comparing, whatever its timeout and whatever the clock says. *)
Theorem free_lock_taken s p pc now now' now'' timeout : reached s → procs s !! p = Some pc → pc = Idle ∨ pc = TimedOut → 0 <= timeout →
  (∀ q qc fd, procs s !! q = Some qc → linked s = Some fd → holds qc ≠ Some fd) →
  ∃ fd, procs (run_all [Start p now timeout; Step p now'; Step p now''] s) !! p = Some (Critical fd 0).
Proof.
  intros Hs%lock_reached_sound Hp Hpc Ht Hfree. pose proof (lookup_lt_Some _ _ _ Hp) as Hlt.
  change (run_all (Start p now timeout :: ?l) s) with (run_all l (act (Start p now timeout) s)).
  rewrite (act_start _ _ _ _ _ Hp) by done. unfold open_lock. destruct (linked s) as [fd|] eqn:El; eexists; (eapply act_enter; [by apply list_lookup_insert_eq| |done]).
  - apply (locks_none s); [done|]. intros q qc Hq. by eapply Hfree.
  - apply (locks_none s); [done|]. intros q qc Hq Hh%holds_opens. pose proof (k_opens _ Hs _ _ _ Hq Hh). lia.
Qed.

(** The holder has died with the file in place; the next process takes it. *)
Lemma free_lock_taken_witness :
  ∃ fd, procs (run_all [Start 1 9 0; Step 1 9; Step 1 9] (run_all [Start 0 0 5; Step 0 0; Step 0 0; Die 0] (boot 2))) !! 1%nat = Some (Critical fd 0).
Proof.
  apply (free_lock_taken _ 1 Idle); [by exists 2%nat, [Start 0 0 5; Step 0 0; Step 0 0; Die 0]|by vm_compute|by left|done|].
  vm_compute. intros [|[|q]] qc fd [= <-] _; discriminate.
Defined.

(** *** The wait is bounded *)

(** The deadline of a process inside [_acquire_lock_fd], and how many of its
    turns after the deadline it can still take there. *)
Definition acquiring (pc : proc) : option (Z * nat) :=
  match pc with
  | Locked _ dl => Some (dl, 5%nat)
  | Mismatch _ dl => Some (dl, 4%nat)
  | Unlocked _ dl => Some (dl, 3%nat)
  | Closed dl => Some (dl, 2%nat)
  | Opened _ dl => Some (dl, 6%nat)
  | _ => None
  end.

Definition settled (pc : proc) : Prop := pc = TimedOut ∨ ∃ fd, pc = Critical fd 0.

(** A turn of [p] after the deadline, or anything another process does. *)
Definition allowed (p : nat) (deadline : Z) (e : event) : bool :=
  match e with
  | Start q _ _ | Nest q | Die q => bool_decide (q ≠ p)
  | Step q now => bool_decide (q ≠ p) || (deadline <=? now)
  end.
Definition turn_of (p : nat) (e : event) : bool := match e with Step q _ => bool_decide (q = p) | _ => false end.

Lemma open_lock_other p q deadline s : p ≠ q → procs (open_lock p deadline s) !! q = procs s !! q.
Proof. intros Hne. unfold open_lock. destruct (linked s); by apply list_lookup_insert_ne. Qed.

Lemma next_other p q now pc s : p ≠ q → procs (next p now pc s) !! q = procs s !! q.
Proof.
  intros Hne. destruct pc as [| |fd dl|fd dl|fd dl|fd dl|dl|fd [|depth]|fd|fd|fd|fd]; simpl; try done; try by apply list_lookup_insert_ne.
  - unfold _lock_exclusive. destruct (row_get _ _); [destruct (_ <=? _); [|done]|]; by apply list_lookup_insert_ne.
  - destruct (_ <=? _); [by apply list_lookup_insert_ne|by apply open_lock_other].
Qed.

Lemma act_other e s p deadline : allowed p deadline e = true → turn_of p e = false → procs (act e s) !! p = procs s !! p.
Proof.
  destruct e as [q now timeout|q now|q|q]; simpl.
  - intros Hne%bool_decide_eq_true _. destruct (procs s !! q) as [[]|]; try done; (destruct (_ <? _); [done|by apply open_lock_other]).
  - intros _ Hne%bool_decide_eq_false. destruct (procs s !! q) as [pc|]; [by apply next_other|done].
  - intros Hne%bool_decide_eq_true _. destruct (procs s !! q) as [[]|]; try done. by apply list_lookup_insert_ne.
  - intros Hne%bool_decide_eq_true _. destruct (procs s !! q) as [pc|]; [|done]. destruct (holds pc); by apply list_lookup_insert_ne.
Qed.

(** A turn after the deadline ends the acquisition or brings its end nearer. *)
Lemma next_nearer p now pc s dl n : procs s !! p = Some pc → acquiring pc = Some (dl, n) → dl <= now →
  ∃ pc', procs (next p now pc s) !! p = Some pc' ∧ (settled pc' ∨ ∃ m, acquiring pc' = Some (dl, m) ∧ (m < n)%nat).
Proof.
  intros Hp Ha Hnow. pose proof (lookup_lt_Some _ _ _ Hp) as Hlt.
  destruct pc as [| |fd d|fd d|fd d|fd d|d| | | | |]; try done; injection Ha as -> <-; simpl.
  - unfold _lock_exclusive. destruct (row_get fd (locks s)).
    + rewrite (proj2 (Z.leb_le (dl - now) 0)) by lia. exists TimedOut. split; [by apply list_lookup_insert_eq|by left; left].
    + exists (Locked fd dl). split; [by apply list_lookup_insert_eq|right; exists 5%nat; auto].
  - destruct (same_inode fd s); [exists (Critical fd 0)|exists (Mismatch fd dl)]; (split; [by apply list_lookup_insert_eq|]).
    + left. right. by exists fd.
    + right. exists 4%nat. auto.
  - exists (Unlocked fd dl). split; [by apply list_lookup_insert_eq|right; exists 3%nat; auto].
  - exists (Closed dl). split; [by apply list_lookup_insert_eq|right; exists 2%nat; auto].
  - rewrite (proj2 (Z.leb_le dl now)) by lia. exists TimedOut. split; [by apply list_lookup_insert_eq|by left; left].
Qed.

(** the wait for a lock is bounded.  Once its deadline has passed, a process
    inside [_acquire_lock_fd] has the lock or raises [TimeoutError] within as
    many of its own turns as [acquiring] counts, at most six, however often
    the lock changes hands and the file is replaced meanwhile. *)
Theorem lock_wait_bounded l s p pc dl n : procs s !! p = Some pc → acquiring pc = Some (dl, n) →
  forallb (allowed p dl) l = true → (n <= length (filter (λ e, turn_of p e = true) l))%nat →
  ∃ l1 l2 pc', l = l1 ++ l2 ∧ procs (run_all l1 s) !! p = Some pc' ∧ settled pc'.
Proof.
  revert s pc n. induction l as [|e l IH]; intros s pc n Hp Ha Hl Hn.
  { destruct pc; try done; injection Ha as <- <-; simpl in Hn; lia. }
  simpl in Hl. apply andb_prop in Hl as [He Hl].
  assert (Hgo : ∀ pc' m, procs (act e s) !! p = Some pc' → acquiring pc' = Some (dl, m) →
    (m <= length (filter (λ e, turn_of p e = true) l))%nat → ∃ l1 l2 pc', e :: l = l1 ++ l2 ∧ procs (run_all l1 s) !! p = Some pc' ∧ settled pc').
  { intros pc' m Hp' Ha' Hm. destruct (IH (act e s) pc' m) as (l1 & l2 & pf & -> & Hf & Hset); [done..|]. by exists (e :: l1), l2, pf. }
  rewrite filter_cons in Hn. destruct (decide (turn_of p e = true)) as [Ht|Ht].
  - destruct e as [| q now| |]; try done. apply bool_decide_eq_true in Ht as ->. simpl in He.
    rewrite bool_decide_false in He by auto. apply Z.leb_le in He.
    destruct (next_nearer p now pc s dl n Hp Ha He) as (pc' & Hp' & [Hset|(m & Ha' & Hm)]).
    + exists [Step p now], l, pc'. simpl. by rewrite Hp.
    + apply (Hgo pc' m); [by simpl; rewrite Hp|done|simpl in Hn; lia].
  - apply not_true_is_false in Ht. apply (Hgo pc n); [by rewrite (act_other _ _ _ _ He Ht)|done|done].
Qed.

Lemma lock_wait_bounded_witness :
  ∃ l1 l2 pc', repeat (Step 1 6) 6 = l1 ++ l2 ∧
    procs (run_all l1 (run_all [Start 0 0 5; Start 1 0 5; Step 0 0; Step 0 0; Step 1 1] (boot 2))) !! 1%nat = Some pc' ∧ settled pc'.
Proof. apply (lock_wait_bounded _ _ 1 (Opened 0 5) 5 6); [by vm_compute..|]. vm_compute. lia. Defined.
