(* ===== verification/Stem.v ===== *)
(** * Porter-style stemming ([unimem/_stem.py])

    The suffix stages on ASCII words as lists of characters, the Porter
    measure as the code computes it (two nested scans), and its reference
    definition.  Python's recursion limit on a run of about a thousand [y] is
    not modelled. *)

From S2P Require Import Prelude Sha256.
Local Open Scope nat_scope.

(** ** Definitions *)

Definition word := list ascii.
Definition w_ (s : string) : word := str_bytes s.

Definition _VOWELS : list ascii := w_ "aeiou".
Definition char_in (c : ascii) (l : list ascii) : bool := existsb (Ascii.eqb c) l.

(** [word[i]] is in range wherever the code calls it. *)
Fixpoint _is_consonant (w : word) (i : nat) : bool :=
  match w !! i with
  | None => false
  | Some ch =>
      if char_in ch _VOWELS then false
      else if Ascii.eqb ch "y" then match i with O => true | S j => negb (_is_consonant w j) end
      else true
  end.

(** [while i < n and _is_consonant(stem, i) == c: i += 1], with [k = n - i]. *)
Fixpoint skip (f : nat → bool) (c : bool) (i k : nat) : nat :=
  match k with
  | O => i
  | S k' => if Bool.eqb (f i) c then skip f c (S i) k' else i
  end.

(** The outer loop of [_measure]; every iteration advances [i]. *)
Fixpoint measure_loop (fuel : nat) (f : nat → bool) (n i m : nat) : nat :=
  match fuel with
  | O => m
  | S fuel' =>
      if i <? n then
        let i := skip f false i (n - i) in
        if n <=? i then m
        else measure_loop fuel' f n (skip f true i (n - i)) (m + 1)
      else m
  end.

Definition _measure (stem : word) : nat :=
  let n := length stem in
  let f := _is_consonant stem in
  measure_loop n f n (skip f true 0 n) 0.

Definition _has_vowel (stem : word) : bool :=
  existsb (λ i, negb (_is_consonant stem i)) (seq 0 (length stem)).

Definition _ends_double_consonant (w : word) : bool :=
  (2 <=? length w) && bool_decide (w !! (length w - 1) = w !! (length w - 2))
  && _is_consonant w (length w - 1).

Definition _cvc (w : word) : bool :=
  if length w <? 3 then false
  else if negb (_is_consonant w (length w - 3) && negb (_is_consonant w (length w - 2))
                && _is_consonant w (length w - 1)) then false
  else match last w with Some c => negb (char_in c (w_ "wxy")) | None => false end.

(** [w.endswith(suffix)] and [w[:-n]]. *)
Definition endswith (w suffix : word) : bool := bool_decide (drop (length w - length suffix) w = suffix).
Definition chop (n : nat) (w : word) : word := take (length w - n) w.

Definition _replace (w suffix replacement : word) (min_measure : nat) : option word :=
  if negb (endswith w suffix) then None
  else
    let stem := chop (length suffix) w in
    if min_measure <? _measure stem then Some (stem ++ replacement) else Some w.

Definition _step1a (w : word) : word :=
  if endswith w (w_ "sses") then chop 2 w
  else if endswith w (w_ "ies") then chop 2 w
  else if endswith w (w_ "ss") then w
  else if endswith w (w_ "s") then chop 1 w
  else w.

(** The loop body of [_step1b] once [suffix] matches. *)
Definition step1b_suffix (w : word) (n : nat) : word :=
  let stem := chop n w in
  if negb (_has_vowel stem) then w
  else if existsb (λ s, endswith stem (w_ s)) ["at"; "bl"; "iz"]%string then stem ++ w_ "e"
  else if _ends_double_consonant stem
          && match last stem with Some c => negb (char_in c (w_ "lsz")) | None => false end then chop 1 stem
  else if (_measure stem =? 1) && _cvc stem then stem ++ w_ "e"
  else stem.

Definition _step1b (w : word) : word :=
  if endswith w (w_ "eed") then
    let stem := chop 3 w in if 0 <? _measure stem then stem ++ w_ "ee" else w
  else if endswith w (w_ "ed") then step1b_suffix w 2
  else if endswith w (w_ "ing") then step1b_suffix w 3
  else w.

Definition _step1c (w : word) : word :=
  if endswith w (w_ "y") && _has_vowel (chop 1 w) then chop 1 w ++ w_ "i" else w.

Definition _STEP2 : list (string * string) :=
  [("ational", "ate"); ("tional", "tion"); ("enci", "ence"); ("anci", "ance");
   ("izer", "ize"); ("abli", "able"); ("alli", "al"); ("entli", "ent"); ("eli", "e");
   ("ousli", "ous"); ("ization", "ize"); ("ation", "ate"); ("ator", "ate");
   ("alism", "al"); ("iveness", "ive"); ("fulness", "ful"); ("ousness", "ous");
   ("aliti", "al"); ("iviti", "ive"); ("biliti", "ble")]%string.

Definition _STEP3 : list (string * string) :=
  [("icate", "ic"); ("ative", ""); ("alize", "al"); ("iciti", "ic"); ("ical", "ic");
   ("ful", ""); ("ness", "")]%string.

Definition _STEP4 : list string :=
  ["al"; "ance"; "ence"; "er"; "ic"; "able"; "ible"; "ant"; "ement"; "ment"; "ent";
   "ion"; "ou"; "ism"; "ate"; "iti"; "ous"; "ive"; "ize"]%string.

(** [sorted(table, key=-len)]: longest suffix first, stable. *)
Fixpoint insert_longest {A} (key : A → nat) (x : A) (l : list A) : list A :=
  match l with
  | [] => [x]
  | y :: l' => if key x <? key y then y :: insert_longest key x l' else x :: l
  end.
Definition longest_first {A} (key : A → nat) (l : list A) : list A := foldr (insert_longest key) [] l.

Fixpoint try_table (w : word) (table : list (string * string)) : word :=
  match table with
  | [] => w
  | (suffix, replacement) :: rest =>
      match _replace w (w_ suffix) (w_ replacement) 0 with
      | Some out => out
      | None => try_table w rest
      end
  end.

Definition _step_table (w : word) (table : list (string * string)) : word :=
  try_table w (longest_first (λ p, String.length p.1) table).

Fixpoint try_step4 (w : word) (suffixes : list string) : word :=
  match suffixes with
  | [] => w
  | suffix :: rest =>
      if negb (endswith w (w_ suffix)) then try_step4 w rest
      else
        let stem := chop (String.length suffix) w in
        if String.eqb suffix "ion" && negb (endswith stem (w_ "s") || endswith stem (w_ "t")) then w
        else if 1 <? _measure stem then stem else w
  end.

Definition _step4 (w : word) : word := try_step4 w (longest_first String.length _STEP4).

Definition _step5 (w : word) : word :=
  let w :=
    if endswith w (w_ "e") then
      let stem := chop 1 w in
      let m := _measure stem in
      if (1 <? m) || ((m =? 1) && negb (_cvc stem)) then stem else w
    else w in
  if (1 <? _measure w) && _ends_double_consonant w && endswith w (w_ "l") then chop 1 w else w.

Definition is_letter (c : ascii) : bool :=
  let n := nat_of_ascii c in ((65 <=? n) && (n <=? 90)) || ((97 <=? n) && (n <=? 122)).

(** [stem]; a word with a byte outside ASCII is not [isascii]. *)
Definition stem (s : string) : string :=
  let w := str_bytes s in
  if (length w <=? 2) || negb (forallb is_letter w) then s
  else
    let w := _step1a w in
    let w := _step1b w in
    let w := _step1c w in
    let w := _step_table w _STEP2 in
    let w := _step_table w _STEP3 in
    let w := _step4 w in
    of_bytes (_step5 w).

(** Porter's measure: the vowel-consonant transitions. *)
Definition porter_measure (w : word) : nat :=
  length (List.filter (λ i, negb (_is_consonant w i) && _is_consonant w (S i)) (seq 0 (length w - 1))).

Example stem_examples :
  map stem ["caresses"; "ponies"; "caress"; "cats"; "agreed"; "plastered"; "sing"; "hopping"; "filing";
            "happy"; "relational"; "vietnamization"; "electrical"; "adoption"; "controll"; "rate"]%string
  = ["caress"; "poni"; "caress"; "cat"; "agre"; "plaster"; "sing"; "hop"; "file";
     "happi"; "relat"; "vietnam"; "electr"; "adopt"; "control"; "rate"]%string.
Proof. vm_compute. reflexivity. Qed.

(** ** The measure *)

(** Transitions of [f] from [false] to [true] among [i .. i + k - 1]. *)
Definition vc (f : nat → bool) (i k : nat) : nat :=
  length (List.filter (λ j, negb (f j) && f (S j)) (seq i (k - 1))).

Lemma vc_short f i k : k <= 1 → vc f i k = 0.
Proof. intros H. unfold vc. by replace (k - 1) with 0 by lia. Qed.

Lemma vc_step f i k : vc f i (S (S k)) = (if negb (f i) && f (S i) then 1 else 0) + vc f (S i) (S k).
Proof. unfold vc. simpl. rewrite Nat.sub_0_r. by destruct (_ && _). Qed.

Lemma skip_range f c i k : i <= skip f c i k <= i + k.
Proof. revert i. induction k as [|k IH]; intros i; simpl; [lia|]. destruct (Bool.eqb _ _); [|lia]. specialize (IH (S i)). lia. Qed.

(** A scan stops at the end or at the first other letter. *)
Lemma skip_stop f c i k : skip f c i k < i + k → f (skip f c i k) = negb c.
Proof.
  revert i. induction k as [|k IH]; intros i H; simpl in *; [lia|].
  destruct (Bool.eqb (f i) c) eqn:E.
  - apply IH. lia.
  - by destruct (f i), c.
Qed.

Lemma skip_first f c i k : 0 < k → f i = c → i < skip f c i k.
Proof.
  intros Hk Hf. destruct k; [lia|]. simpl. rewrite Hf, eqb_reflx.
  pose proof (skip_range f c (S i) k). lia.
Qed.

(** Skipping consonants loses no transition. *)
Lemma vc_skip_true f i k : vc f i k = vc f (skip f true i k) (i + k - skip f true i k).
Proof.
  revert i. induction k as [|k IH]; intros i; simpl; [by rewrite Nat.add_sub_swap, Nat.sub_diag by lia|].
  destruct (Bool.eqb (f i) true) eqn:E.
  - apply eqb_prop in E. destruct k as [|k].
    + simpl. by rewrite !vc_short by lia.
    + rewrite vc_step, E, IH. cbn [negb andb]. rewrite Nat.add_0_l. f_equal. lia.
  - f_equal. lia.
Qed.

(** Skipping vowels meets exactly one transition, unless the word ends. *)
Lemma vc_skip_false f i k : f i = false → skip f false i k < i + k →
  vc f i k = 1 + vc f (skip f false i k) (i + k - skip f false i k).
Proof.
  revert i. induction k as [|k IH]; intros i Hi H; simpl in *; [lia|].
  rewrite Hi in *. simpl in *. destruct k as [|k]; [simpl in *; lia|].
  rewrite vc_step, Hi. destruct (f (S i)) eqn:E.
  - simpl. rewrite E. simpl. f_equal. f_equal. lia.
  - rewrite (IH (S i) E) by lia. simpl. rewrite E. simpl. f_equal. f_equal. lia.
Qed.

Lemma vc_all_false f i k : f i = false → skip f false i k = i + k → vc f i k = 0.
Proof.
  revert i. induction k as [|k IH]; intros i Hi H; [done|].
  simpl in H. rewrite Hi in H. simpl in H. destruct k as [|k]; [done|].
  rewrite vc_step, Hi. pose proof (skip_range f false (S i) (S k)).
  assert (f (S i) = false) as E.
  { destruct (f (S i)) eqn:E; [|done]. simpl in H. rewrite E in H. simpl in H. lia. }
  rewrite E, (IH (S i)); [done|done|lia].
Qed.

Lemma measure_loop_vc f n fuel : ∀ i m, n - i <= fuel → i <= n → (i < n → f i = false) →
  measure_loop fuel f n i m = m + vc f i (n - i).
Proof.
  induction fuel as [|fuel IH]; intros i m Hf Hi Hv; simpl.
  - rewrite vc_short by lia. lia.
  - destruct (i <? n) eqn:E; zbool; [|rewrite vc_short by lia; lia].
    specialize (Hv E). pose proof (skip_range f false i (n - i)).
    assert (i < skip f false i (n - i)) by (apply skip_first; [lia|done]).
    destruct (n <=? skip f false i (n - i)) eqn:E2; zbool.
    + rewrite vc_all_false by (done || lia). lia.
    + rewrite (vc_skip_false f i (n - i)) by (done || lia).
      set (j := skip f false i (n - i)) in *.
      replace (i + (n - i) - j) with (n - j) by lia.
      rewrite (vc_skip_true f j (n - j)).
      pose proof (skip_range f true j (n - j)). pose proof (skip_stop f true j (n - j)) as Hs.
      assert (f j = true) as Hj by (apply (skip_stop f false i (n - i)); lia).
      assert (j < skip f true j (n - j)) by (apply skip_first; [lia|done]).
      rewrite IH; [|lia|lia|intros; apply Hs; lia].
      replace (j + (n - j)) with n by lia. lia.
Qed.

(** ** Suffixes *)

Lemma endswith_true w s : endswith w s = true → w = chop (length s) w ++ s ∧ length s <= length w.
Proof.
  unfold endswith, chop. intros H%bool_decide_eq_true. split; [by rewrite <- H at 2; rewrite take_drop|].
  apply (f_equal length) in H. rewrite length_drop in H. lia.
Qed.

Lemma length_chop n w : length (chop n w) = length w - n.
Proof. unfold chop. rewrite length_take. lia. Qed.

(** [v] is a nonempty word, no longer than [w], with the same first letter
    and no other letters than [w]'s and the lower-case ones. *)
Definition stage_ok (w v : word) : Prop :=
  0 < length v <= length w ∧ head v = head w ∧ (forallb is_letter w = true → forallb is_letter v = true).

Lemma stage_refl w : 0 < length w → stage_ok w w.
Proof. done. Qed.

Lemma stage_trans u v w : stage_ok u v → stage_ok v w → stage_ok u w.
Proof. intros (? & ? & ?) (? & ? & ?). split_and!; [lia|lia|congruence|auto]. Qed.

Lemma forallb_take {A} (p : A → bool) n l : forallb p l = true → forallb p (take n l) = true.
Proof. rewrite !forallb_Forall. apply Forall_take. Qed.

Lemma stage_then f u v : stage_ok u v → (∀ w, 0 < length w → stage_ok w (f w)) → stage_ok u (f v).
Proof. intros H Hf. pose proof H as [[? _] _]. eapply stage_trans; [exact H|by apply Hf]. Qed.

(** Replacing a suffix of [n] letters by at most as many, leaving a letter. *)
Lemma stage_replace w n s : n < length w → length s <= n → forallb is_letter s = true →
  stage_ok w (chop n w ++ s).
Proof.
  intros Hn Hs Hl. split_and!.
  - rewrite length_app, length_chop. lia.
  - rewrite length_app, length_chop. lia.
  - unfold chop. destruct w; simpl in *; [lia|]. by rewrite Nat.sub_succ_l by lia.
  - intros Hw. rewrite forallb_app, Hl. unfold chop. by rewrite forallb_take.
Qed.

Lemma stage_chop w n : n < length w → stage_ok w (chop n w).
Proof. intros H. rewrite <- (app_nil_r (chop n w)). apply stage_replace; simpl; [done|lia|done]. Qed.

(** A word with a transition, or with a vowel, has a letter. *)
Lemma measure_pos w : 0 < _measure w → 0 < length w.
Proof. destruct w; simpl; [|lia]. unfold _measure. simpl. lia. Qed.

Lemma has_vowel_pos w : _has_vowel w = true → 0 < length w.
Proof. destruct w; simpl; [done|lia]. Qed.

Ltac stage :=
  zbool; repeat match goal with
  | H : endswith _ _ = true |- _ => apply endswith_true in H as [? ?]
  | H : negb _ = false |- _ => apply negb_false_iff in H
  | H : (_ && _)%bool = true |- _ => apply andb_true_iff in H as [? ?]
  | H : _has_vowel _ = true |- _ => apply has_vowel_pos in H; rewrite ?length_chop in H
  | H : 0 < _measure _ |- _ => apply measure_pos in H; rewrite ?length_chop in H
  | H : 1 < _measure _ |- _ => apply Nat.lt_succ_l in H
  | |- stage_ok _ (if ?c then _ else _) => destruct c eqn:?
  end; zbool.

Lemma step1a_ok w : 2 < length w → stage_ok w (_step1a w).
Proof.
  intros H. unfold _step1a. repeat case_match; first [apply stage_refl; lia | apply stage_chop; lia].
Qed.

Lemma step1b_suffix_ok w n : 2 <= n → 0 < length w → stage_ok w (step1b_suffix w n).
Proof.
  intros Hn Hw. unfold step1b_suffix. destruct (_has_vowel (chop n w)) eqn:E; [|by apply stage_refl].
  apply has_vowel_pos in E as Hc. rewrite length_chop in Hc. cbn [negb].
  assert (stage_ok w (chop n w)) as Hs by (apply stage_chop; lia).
  assert (stage_ok w (chop n w ++ w_ "e")) as He by (apply stage_replace; simpl; done || lia).
  destruct (existsb (λ s, endswith (chop n w) (w_ s)) _); [exact He|]. match goal with |- context [if ?c then chop 1 _ else _] => destruct c eqn:Ed end.
  - apply andb_true_iff in Ed as [Ed _]. unfold _ends_double_consonant in Ed. stage.
    eapply stage_trans; [exact Hs|]. apply stage_chop. lia.
  - match goal with |- context [if ?c then _ else _] => destruct c end; [exact He|exact Hs].
Qed.

Lemma step1b_ok w : 0 < length w → stage_ok w (_step1b w).
Proof.
  intros H. unfold _step1b. destruct (endswith w (w_ "eed")) eqn:E.
  - destruct (0 <? _measure (chop 3 w)) eqn:Em; [|apply stage_refl; lia]. stage.
    apply stage_replace; simpl; done || lia.
  - repeat case_match; first [apply step1b_suffix_ok; lia | apply stage_refl; lia].
Qed.

Lemma step1c_ok w : 0 < length w → stage_ok w (_step1c w).
Proof.
  intros H. unfold _step1c. destruct (_ && _) eqn:E; [|by apply stage_refl].
  apply andb_true_iff in E as [_ E]. stage. apply stage_replace; simpl; done || lia.
Qed.

Lemma elem_insert_longest {A} (key : A → nat) x l y : y ∈ insert_longest key x l ↔ y = x ∨ y ∈ l.
Proof.
  induction l as [|z l IH]; simpl; [by rewrite list_elem_of_singleton, elem_of_nil; tauto|].
  destruct (key x <? key z); rewrite !elem_of_cons; [rewrite IH|]; tauto.
Qed.

Lemma elem_longest_first {A} (key : A → nat) l y : y ∈ longest_first key l ↔ y ∈ l.
Proof. induction l as [|x l IH]; simpl; [done|]. by rewrite elem_insert_longest, elem_of_cons, IH. Qed.

(** A replacement no longer than its suffix, in letters. *)
Definition row_fits (p : string * string) : bool :=
  (String.length p.2 <=? String.length p.1) && forallb is_letter (w_ p.2).

Lemma try_table_ok w table : 0 < length w → Forall (λ p, row_fits p = true) table →
  stage_ok w (try_table w table).
Proof.
  intros Hw. induction table as [|[suf rep] table IH]; intros Ht; simpl; [done|].
  inversion Ht as [|?? Hr Htl]; subst. unfold _replace.
  destruct (endswith w (w_ suf)) eqn:E; simpl; [|by apply IH].
  destruct (0 <? _measure _) eqn:Em; [|by apply stage_refl].
  unfold row_fits in Hr. stage. simpl in *. unfold w_ in *. rewrite ?length_str_bytes in *.
  apply stage_replace; rewrite ?length_str_bytes; done || lia.
Qed.

Lemma step_table_ok w table : 0 < length w → forallb row_fits table = true → stage_ok w (_step_table w table).
Proof.
  intros Hw Ht. apply try_table_ok; [done|]. rewrite forallb_Forall, Forall_forall in Ht.
  apply Forall_forall. intros p Hp%elem_longest_first. auto.
Qed.

Lemma step4_ok w : 0 < length w → stage_ok w (_step4 w).
Proof.
  intros Hw. unfold _step4. induction (longest_first _ _) as [|suf l IH]; simpl; [done|].
  destruct (endswith w (w_ suf)) eqn:E; simpl; [|done].
  destruct (_ && _); [done|]. destruct (1 <? _measure _) eqn:Em; [|done].
  stage. apply stage_chop. lia.
Qed.

Lemma step5_ok w : 0 < length w → stage_ok w (_step5 w).
Proof.
  intros Hw. unfold _step5. match goal with |- context [_measure ?x] => set (v := x) end.
  assert (stage_ok w v) as Hv.
  { subst v. cbv zeta. destruct (endswith w (w_ "e")); [|done].
    match goal with |- context [if ?c then _ else _] => destruct c eqn:E end; [|done].
    apply stage_chop. apply orb_true_iff in E as [E|E]; stage; [lia|].
    assert (0 < _measure (chop 1 w)) by lia. stage. lia. }
  clearbody v. match goal with |- context [if ?c then _ else _] => destruct c eqn:E end; [|done]. eapply stage_trans; [exact Hv|].
  apply andb_true_iff in E as [E _]. apply andb_true_iff in E as [_ E]. unfold _ends_double_consonant in E.
  stage. apply stage_chop. lia.
Qed.

(** ** Properties *)

(** the two nested scans of [_measure] compute Porter's measure, the
    number of places where a vowel is followed by a consonant, on every word. *)
Theorem measure_is_porter (w : word) : _measure w = porter_measure w.
Proof.
  unfold _measure, porter_measure. set (f := _is_consonant w). set (n := length w).
  change (length (List.filter _ (seq 0 (n - 1)))) with (vc f 0 n).
  rewrite (vc_skip_true f 0 n). pose proof (skip_range f true 0 n).
  rewrite measure_loop_vc; [f_equal; f_equal; lia|lia|lia|].
  intros H'. apply (skip_stop f true). lia.
Qed.

(** the stem of a nonempty token is nonempty, no longer than the token,
    starts with the same letter, and is again a token of ASCII letters when
    the token is one. *)
Theorem stem_bounds (s : string) : s ≠ ""%string →
  0 < String.length (stem s) <= String.length s ∧ head (str_bytes (stem s)) = head (str_bytes s) ∧
  (forallb is_letter (str_bytes s) = true → forallb is_letter (str_bytes (stem s)) = true).
Proof.
  intros Hs. rewrite <- !length_str_bytes. change (stage_ok (str_bytes s) (str_bytes (stem s))).
  assert (0 < length (str_bytes s)) by (destruct s; simpl; [done|lia]).
  unfold stem. destruct (_ || _) eqn:E; [by apply stage_refl|]. apply orb_false_iff in E as [E _].
  rewrite str_bytes_of_bytes. zbool.
  apply (stage_then _step5); [|by apply step5_ok]. apply (stage_then _step4); [|by apply step4_ok].
  apply (stage_then (λ w, _step_table w _STEP3)); [|intros; by apply step_table_ok].
  apply (stage_then (λ w, _step_table w _STEP2)); [|intros; by apply step_table_ok].
  apply (stage_then _step1c); [|by apply step1c_ok]. apply (stage_then _step1b); [|by apply step1b_ok].
  by apply step1a_ok.
Qed.

(** ** Witness *)

Lemma stem_bounds_witness :
  0 < String.length (stem "relational") <= 10 ∧
  head (str_bytes (stem "relational")) = head (str_bytes "relational") ∧
  (forallb is_letter (str_bytes "relational") = true →
   forallb is_letter (str_bytes (stem "relational")) = true).
Proof. exact (stem_bounds "relational" ltac:(discriminate)). Defined.
