(* ===== verification/Oblivious.v ===== *)
(** * Two-server XOR private information retrieval ([unimem/oblivious.py])

    Query shares, the servers' answers, reconstruction, and the replica that
    serves fixed-size blocks.  [bytes] are lists of integers in [0..255].
    Centroid selection and re-ranking compare floating-point distances and
    are not modelled. *)

From S2P Require Import Prelude Sha256 Wire Strings.
Local Open Scope Z_scope.

(** ** Definitions *)

Definition MAX_CLUSTERS : Z := 256.
Definition MAX_BLOCKS_PER_CLUSTER : Z := 1024.
Definition MAX_BLOCK_BYTES : Z := 16384.
Definition MAX_BATCH_WORK : Z := 16777216.

Abbreviation bytes := (list Z).
Definition is_byte (b : Z) : Prop := 0 <= b < 256.

Definition zlen {A} (l : list A) : Z := Z.of_nat (length l).

(** [labels.index(clearance)] in a hierarchy of distinct labels. *)
Fixpoint index_of (s : string) (l : list string) : option Z :=
  match l with
  | [] => None
  | t :: l' => if String.eqb s t then Some 0 else (λ n, n + 1) <$> index_of s l'
  end.

Definition _hierarchy (labels : list json) (clearance : string) : res pyexn Z :=
  require ((1 <=? zlen labels) && (zlen labels <=? 32)) ValueError;;
  checked ← mapR (λ l, text_json l 96) labels;
  require (distinct checked && mem clearance checked) ValueError;;
  get_or (index_of clearance checked) ValueError.

Definition _batch_budget (size block_bytes : Z) : res pyexn () :=
  _ ← count size 1 MAX_BLOCKS_PER_CLUSTER;
  _ ← count block_bytes 1 MAX_BLOCK_BYTES;
  require (size * size * block_bytes <=? MAX_BATCH_WORK) ValueError.

(** [split_query]: [fresh] is what [secrets.token_bytes] returns. *)
Definition split_query (index size : Z) (randomness : option bytes) (fresh : bytes) : res pyexn (bytes * bytes) :=
  _ ← count size 1 MAX_BLOCKS_PER_CLUSTER;
  _ ← count index 0 (size - 1);
  let nbytes := (size + 7) / 8 in
  let seed := default fresh randomness in
  require (zlen seed =? nbytes) ValueError;;
  let at_ := Z.to_nat (index / 8) in
  old ← get_or (seed !! at_) IndexError;
  Ok (seed, <[at_ := Z.lxor old (Z.shiftl 1 (index mod 8))]> seed).

(** [share[idx // 8] & (1 << (idx % 8))] *)
Definition selected (share : bytes) (idx : Z) : res pyexn bool :=
  b ← get_or (share !! Z.to_nat (idx / 8)) IndexError;
  Ok (negb (Z.land b (Z.shiftl 1 (idx mod 8)) =? 0)).

(** [for position, byte in enumerate(block): output[position] ^= byte] *)
Definition xor_bytes (a b : bytes) : bytes := zip_with Z.lxor a b.

Definition accumulate (sel : bool) (output block : bytes) : bytes :=
  if sel then xor_bytes output block else output.

Fixpoint answer_loop (share : bytes) (block_bytes : Z) (idx : Z) (blocks : list bytes) (output : bytes)
    : res pyexn bytes :=
  match blocks with
  | [] => Ok output
  | block :: rest =>
      require (zlen block =? block_bytes) ValueError;;
      sel ← selected share idx;
      answer_loop share block_bytes (idx + 1) rest (accumulate sel output block)
  end.

Definition server_answer (blocks : list bytes) (share : bytes) (block_bytes : Z) : res pyexn bytes :=
  _ ← count block_bytes 1 MAX_BLOCK_BYTES;
  require ((1 <=? zlen blocks) && (zlen blocks <=? MAX_BLOCKS_PER_CLUSTER)) ValueError;;
  require (zlen share =? (zlen blocks + 7) / 8) ValueError;;
  answer_loop share block_bytes 0 blocks (repeat 0 (Z.to_nat block_bytes)).

Definition server_answer_many (blocks : list bytes) (shares : list bytes) (block_bytes : Z)
    : res pyexn (list bytes) :=
  require (zlen shares =? zlen blocks) ValueError;;
  _ ← _batch_budget (zlen blocks) block_bytes;
  mapR (λ share, server_answer blocks share block_bytes) shares.

Definition reconstruct (first second : bytes) : res pyexn bytes :=
  require ((1 <=? zlen first) && (zlen first =? zlen second)) ValueError;;
  Ok (xor_bytes first second).

(** ** [XorPIRReplica] *)

Record replica := Replica { _block_bytes : Z; _clusters : list (string * list bytes) }.

Definition XorPIRReplica (clusters : list (string * list bytes)) (block_bytes : Z) : res pyexn replica :=
  bb ← count block_bytes 1 MAX_BLOCK_BYTES;
  require ((1 <=? zlen clusters) && (zlen clusters <=? MAX_CLUSTERS)) ValueError;;
  _ ← mapR (λ '(name, blocks),
        _ ← text name 96;
        _ ← _batch_budget (zlen blocks) bb;
        require (forallb (λ block, zlen block =? bb) blocks) ValueError) clusters;
  let capacities := map (λ c, length c.2) clusters in
  require (forallb (λ n, bool_decide (Some n = head capacities)) capacities) ValueError;;
  Ok (Replica bb clusters).

Definition handle (r : replica) (cluster : string) (share : bytes) : res pyexn bytes :=
  blocks ← get_or (assoc cluster (_clusters r)) KeyError;
  server_answer blocks share (_block_bytes r).

(** [handle(cluster, None)]: the public count and block size. *)
Definition handle_metadata (r : replica) (cluster : string) : res pyexn (Z * Z) :=
  blocks ← get_or (assoc cluster (_clusters r)) KeyError;
  Ok (zlen blocks, _block_bytes r).

Definition handle_many (r : replica) (cluster : string) (shares : list bytes) : res pyexn (list bytes) :=
  blocks ← get_or (assoc cluster (_clusters r)) KeyError;
  server_answer_many blocks shares (_block_bytes r).

(** The retrieval of one cluster in [client_recall], up to the decoding of
    the blocks: [fetch_pair] asks two servers, [fresh] gives the randomness
    of each query. *)
Definition fetch_cluster (metadata : Z * Z) (fetch_pair : list bytes → list bytes → res pyexn (list bytes * list bytes))
    (fresh : nat → bytes) : res pyexn (list bytes) :=
  let '(size, block_bytes) := metadata in
  _ ← _batch_budget size block_bytes;
  query_shares ← mapR (λ index, split_query (Z.of_nat index) size None (fresh index)) (seq 0 (Z.to_nat size));
  '(first_answers, second_answers) ← fetch_pair query_shares.*1 query_shares.*2;
  require ((zlen first_answers =? size) && (zlen second_answers =? size)) ValueError;;
  require (forallb (λ b, zlen b =? block_bytes) (first_answers ++ second_answers)) ValueError;;
  mapR (λ '(a, b), reconstruct a b) (zip first_answers second_answers).

(** ** Lemmas *)

Lemma zlen_eq {A} (l : list A) n : (zlen l =? n) = true ↔ Z.of_nat (length l) = n.
Proof. apply Z.eqb_eq. Qed.

Lemma length_xor a b : length a = length b → length (xor_bytes a b) = length a.
Proof. intros H. unfold xor_bytes. rewrite length_zip_with. lia. Qed.

Lemma xor_bytes_lookup a b k : xor_bytes a b !! k = (x ← a !! k; y ← b !! k; Some (Z.lxor x y)).
Proof. unfold xor_bytes. rewrite lookup_zip_with. by destruct (a !! k), (b !! k). Qed.

(** The algebra of accumulated blocks, of one length [n]. *)
Lemma xor_cancel a b d n : length a = n → length b = n → length d = n →
  xor_bytes (xor_bytes a d) (xor_bytes b d) = xor_bytes a b.
Proof.
  intros Ha Hb Hd. apply list_eq. intros k. rewrite !xor_bytes_lookup.
  destruct (lt_dec k n) as [Hk|Hk].
  - destruct (lookup_lt_is_Some_2 a k) as [x ->]; [lia|]. destruct (lookup_lt_is_Some_2 b k) as [y ->]; [lia|].
    destruct (lookup_lt_is_Some_2 d k) as [z ->]; [lia|]. simpl. f_equal.
    apply Z.bits_inj'. intros i _. rewrite !Z.lxor_spec. by destruct (Z.testbit x i), (Z.testbit y i), (Z.testbit z i).
  - by rewrite (lookup_ge_None_2 a k) by lia.
Qed.

Lemma xor_left a b d : xor_bytes (xor_bytes a d) b = xor_bytes (xor_bytes a b) d.
Proof.
  apply list_eq. intros k. rewrite !xor_bytes_lookup.
  destruct (a !! k) as [x|], (b !! k) as [y|], (d !! k) as [z|]; simpl; try done. f_equal.
  rewrite !Z.lxor_assoc. f_equal. apply Z.lxor_comm.
Qed.

Lemma xor_right a b d : xor_bytes a (xor_bytes b d) = xor_bytes (xor_bytes a b) d.
Proof.
  apply list_eq. intros k. rewrite !xor_bytes_lookup.
  destruct (a !! k) as [x|], (b !! k) as [y|], (d !! k) as [z|]; simpl; try done. f_equal. by rewrite Z.lxor_assoc.
Qed.

Lemma land_bit x k : 0 <= k → negb (Z.land x (Z.shiftl 1 k) =? 0) = Z.testbit x k.
Proof.
  intros Hk. rewrite Z.shiftl_mul_pow2, Z.mul_1_l by done. destruct (Z.testbit x k) eqn:E.
  - apply negb_true_iff, Z.eqb_neq. intros H. apply (f_equal (λ z, Z.testbit z k)) in H.
    rewrite Z.land_spec, E, Z.pow2_bits_true, Z.bits_0 in H by done. done.
  - apply negb_false_iff, Z.eqb_eq. apply Z.bits_inj'. intros i Hi. rewrite Z.land_spec, Z.bits_0.
    destruct (decide (i = k)) as [->|]; [by rewrite E|]. rewrite Z.pow2_bits_false by lia. by rewrite andb_false_r.
Qed.

(** The bit of a share for block [idx], in range. *)
Definition share_bit (share : bytes) (idx : Z) : bool :=
  Z.testbit (default 0 (share !! Z.to_nat (idx / 8))) (idx mod 8).

Lemma selected_eq share idx : 0 <= idx → idx / 8 < zlen share → selected share idx = Ok (share_bit share idx).
Proof.
  intros Hi Hs. unfold selected, share_bit, zlen in *.
  assert (0 <= idx / 8) by (apply Z.div_pos; lia).
  destruct (lookup_lt_is_Some_2 share (Z.to_nat (idx / 8))) as [b ->]; [lia|]. simpl.
  rewrite land_bit; [done|]. apply Z.mod_pos_bound. lia.
Qed.

(** What a server computes. *)
Fixpoint xor_selected (share : bytes) (idx : Z) (blocks : list bytes) (output : bytes) : bytes :=
  match blocks with
  | [] => output
  | block :: rest => xor_selected share (idx + 1) rest (accumulate (share_bit share idx) output block)
  end.

Lemma answer_loop_eq share bb idx blocks output : 0 <= idx →
  Forall (λ b, Z.of_nat (length b) = bb) blocks →
  zlen share = (idx + zlen blocks + 7) / 8 →
  answer_loop share bb idx blocks output = Ok (xor_selected share idx blocks output).
Proof.
  intros Hi Hb. revert idx output Hi. induction Hb as [|b blocks Hlen Hb IH]; intros idx output Hi Hs; [done|].
  cbn [answer_loop xor_selected]. unfold zlen at 1. rewrite Hlen, Z.eqb_refl. cbn [require mbind res_bind].
  unfold zlen in *. simpl length in Hs.
  rewrite selected_eq; [|done|unfold zlen; rewrite Hs; apply Z.lt_le_trans with (idx / 8 + 1); [lia|]].
  - cbn [mbind res_bind]. apply IH; [lia|]. rewrite Hs. f_equal. lia.
  - replace (idx / 8 + 1) with ((idx + 8) / 8); [apply Z.div_le_mono; lia|].
    replace (idx + 8) with (idx + 1 * 8) by lia. by rewrite Z.div_add.
Qed.

Lemma xor_selected_length share n blocks : Forall (λ b : bytes, length b = n) blocks →
  ∀ idx output, length output = n → length (xor_selected share idx blocks output) = n.
Proof.
  induction 1 as [|b blocks Hb _ IH]; intros idx output Ho; simpl; [done|]. apply IH.
  unfold accumulate. destruct (share_bit _ _); [|done]. rewrite length_xor; congruence.
Qed.

(** Two shares that differ in the bit of [index] alone: the answers differ
    by exactly that block. *)
Lemma xor_selected_diff s0 s1 index n blocks :
  Forall (λ b : bytes, length b = n) blocks →
  (∀ idx, 0 <= idx → xorb (share_bit s0 idx) (share_bit s1 idx) = (idx =? index)) →
  ∀ idx o0 o1, 0 <= idx → length o0 = n → length o1 = n →
  xor_bytes (xor_selected s0 idx blocks o0) (xor_selected s1 idx blocks o1) =
  match (if idx <=? index then blocks !! Z.to_nat (index - idx) else None) with
  | Some b => xor_bytes (xor_bytes o0 o1) b
  | None => xor_bytes o0 o1
  end.
Proof.
  intros Hb Hbit. induction Hb as [|b blocks Hlen Hb IH]; intros idx o0 o1 Hi H0 H1; simpl.
  { by destruct (idx <=? index). }
  assert (Hacc : ∀ s o, length o = n → length (accumulate s o b) = n).
  { intros s o Ho. unfold accumulate. destruct s; [rewrite length_xor|]; congruence. }
  rewrite IH by (auto || lia). specialize (Hbit idx Hi).
  destruct (idx =? index) eqn:E; zbool.
  - subst idx. rewrite (proj2 (Z.leb_gt (index + 1) index)), (proj2 (Z.leb_le index index)), Z.sub_diag by lia. simpl.
    destruct (share_bit s0 index), (share_bit s1 index); try done; simpl; [apply xor_left|apply xor_right].
  - assert (xor_bytes (accumulate (share_bit s0 idx) o0 b) (accumulate (share_bit s1 idx) o1 b) = xor_bytes o0 o1) as ->.
    { destruct (share_bit s0 idx), (share_bit s1 idx); try done. simpl. by apply (xor_cancel _ _ _ n). }
    destruct (idx <=? index) eqn:E'; zbool.
    + rewrite (proj2 (Z.leb_le (idx + 1) index)) by lia.
      replace (Z.to_nat (index - idx)) with (S (Z.to_nat (index - (idx + 1)))) by lia. done.
    + by rewrite (proj2 (Z.leb_gt (idx + 1) index)) by lia.
Qed.

Lemma lxor_byte x y : is_byte x → is_byte y → is_byte (Z.lxor x y).
Proof.
  unfold is_byte. intros Hx Hy. split; [apply Z.lxor_nonneg; lia|].
  destruct (Z.eq_dec (Z.lxor x y) 0); [lia|].
  apply (Z.log2_lt_pow2 _ 8); [|eapply Z.le_lt_trans; [apply Z.log2_lxor; lia|]].
  - assert (0 <= Z.lxor x y) by (apply Z.lxor_nonneg; lia). lia.
  - assert (∀ z, 0 <= z < 256 → Z.log2 z < 8) as Hz.
    { intros z Hz. destruct (Z.eq_dec z 0) as [->|]; [done|]. apply Z.log2_lt_pow2; lia. }
    apply Z.max_lub_lt; auto.
Qed.

(** ** The shares of a query *)

Lemma split_query_Ok index size randomness fresh s0 s1 :
  split_query index size randomness fresh = Ok (s0, s1) ↔
  1 <= size <= MAX_BLOCKS_PER_CLUSTER ∧ 0 <= index < size ∧ s0 = default fresh randomness ∧
  zlen s0 = (size + 7) / 8 ∧ ∃ old, s0 !! Z.to_nat (index / 8) = Some old ∧
    s1 = <[Z.to_nat (index / 8) := Z.lxor old (Z.shiftl 1 (index mod 8))]> s0.
Proof.
  unfold split_query, count. split.
  - intros (? & (? & H1%require_Ok & _)%bind_Ok & H)%bind_Ok.
    apply bind_Ok in H as (? & (? & H2%require_Ok & _)%bind_Ok & H).
    apply bind_Ok in H as (? & H3%require_Ok & H). apply bind_Ok in H as (old & Hold%get_or_Ok & [= <- <-]).
    res_inv. zbool. split_and!; try lia; [done|by exists old].
  - intros (Hs & Hi & -> & Hl & old & Hold & ->).
    rewrite (proj2 (Z.leb_le 1 size)), (proj2 (Z.leb_le size _)) by lia. simpl.
    rewrite (proj2 (Z.leb_le 0 index)), (proj2 (Z.leb_le index _)) by lia. simpl.
    rewrite (proj2 (Z.eqb_eq _ _) Hl). simpl. by rewrite Hold.
Qed.

(** A query of any index within range succeeds on randomness of the right size. *)
Lemma split_query_total index size seed :
  1 <= size <= MAX_BLOCKS_PER_CLUSTER → 0 <= index < size → zlen seed = (size + 7) / 8 →
  ∃ s1, split_query index size (Some seed) [] = Ok (seed, s1).
Proof.
  intros Hs Hi Hl. assert (0 <= index / 8 < zlen seed).
  { split; [apply Z.div_pos; lia|]. rewrite Hl. apply Z.lt_le_trans with (index / 8 + 1); [lia|].
    rewrite <- Z.div_add by lia. apply Z.div_le_mono; lia. }
  unfold zlen in *. destruct (lookup_lt_is_Some_2 seed (Z.to_nat (index / 8))) as [old Hold]; [lia|].
  eexists. apply split_query_Ok. split_and!; try done; lia || (by eexists).
Qed.

Lemma share_bit_split index size r f s0 s1 idx : split_query index size r f = Ok (s0, s1) → 0 <= idx →
  xorb (share_bit s0 idx) (share_bit s1 idx) = (idx =? index).
Proof.
  intros (Hs & Hi & _ & Hl & old & Hold & ->)%split_query_Ok Hidx. unfold share_bit.
  assert (0 <= index / 8) by (apply Z.div_pos; lia). assert (0 <= idx / 8) by (apply Z.div_pos; lia).
  pose proof (Z.mod_pos_bound idx 8 ltac:(lia)). pose proof (Z.mod_pos_bound index 8 ltac:(lia)).
  pose proof (Z.div_mod idx 8 ltac:(lia)). pose proof (Z.div_mod index 8 ltac:(lia)).
  destruct (decide (idx / 8 = index / 8)) as [E|E].
  - rewrite E, Hold, list_lookup_insert_eq by (by eapply lookup_lt_Some). simpl.
    rewrite Z.lxor_spec, Z.shiftl_mul_pow2, Z.mul_1_l, Z.pow2_bits_eqb by lia.
    transitivity (index mod 8 =? idx mod 8); [by destruct (Z.testbit old _), (_ =? _)|]. apply eq_true_iff_eq.
    rewrite !Z.eqb_eq. lia.
  - rewrite list_lookup_insert_ne by lia. rewrite xorb_nilpotent. symmetry. apply Z.eqb_neq. congruence.
Qed.

Lemma zlen_split index size r f s0 s1 : split_query index size r f = Ok (s0, s1) →
  zlen s0 = (size + 7) / 8 ∧ zlen s1 = (size + 7) / 8.
Proof.
  intros (_ & _ & _ & Hl & old & _ & ->)%split_query_Ok. unfold zlen in *. by rewrite length_insert.
Qed.

(** A replica accepts a database exactly when this holds of each cluster. *)
Lemma replica_Ok clusters bb r name blocks : XorPIRReplica clusters bb = Ok r →
  assoc name clusters = Some blocks →
  r = Replica bb clusters ∧ 1 <= bb <= MAX_BLOCK_BYTES ∧ 1 <= zlen blocks <= MAX_BLOCKS_PER_CLUSTER ∧
  zlen blocks * zlen blocks * bb <= MAX_BATCH_WORK ∧ Forall (λ b, Z.of_nat (length b) = bb) blocks.
Proof.
  unfold XorPIRReplica, count. intros H Ha. res_inv. zbool.
  match goal with H : mapR _ _ = Ok _ |- _ => apply mapR_Ok_Forall2 in H; rename H into Hm end.
  assert (Hin : (name, blocks) ∈ clusters).
  { clear -Ha. induction clusters as [|[n b] l IH]; simpl in *; [done|].
    destruct (String.eqb_spec name n) as [->|]; [injection Ha as ->; by left|right; auto]. }
  apply list_elem_of_lookup in Hin as [k Hk].
  destruct (Forall2_lookup_l _ _ _ _ _ Hm Hk) as ([] & _ & Hx). simpl in Hx.
  unfold _batch_budget, count in Hx. res_inv. zbool. split_and!; try done.
  rewrite forallb_Forall in *. eapply Forall_impl; [eassumption|]. simpl. intros b Hb. by apply zlen_eq.
Qed.

(** Both servers answer, and the answers differ by the block asked for. *)
Lemma answers_reconstruct blocks bb index seed s0 s1 block :
  1 <= bb <= MAX_BLOCK_BYTES → 1 <= zlen blocks <= MAX_BLOCKS_PER_CLUSTER →
  Forall (λ b, Z.of_nat (length b) = bb) blocks → blocks !! Z.to_nat index = Some block →
  split_query index (zlen blocks) (Some seed) [] = Ok (s0, s1) →
  ∃ a0 a1, server_answer blocks s0 bb = Ok a0 ∧ server_answer blocks s1 bb = Ok a1 ∧
    zlen a0 = bb ∧ zlen a1 = bb ∧ reconstruct a0 a1 = Ok block.
Proof.
  intros Hbb Hn Hb Hblock Hq. pose proof (zlen_split _ _ _ _ _ _ Hq) as [Hl0 Hl1].
  set (zero := repeat 0 (Z.to_nat bb)).
  assert (Hz : length zero = Z.to_nat bb) by apply repeat_length.
  assert (Hans : ∀ s, zlen s = (zlen blocks + 7) / 8 →
    server_answer blocks s bb = Ok (xor_selected s 0 blocks zero)).
  { intros s Hs. unfold server_answer, count. rewrite (proj2 (Z.leb_le 1 bb)), (proj2 (Z.leb_le bb _)) by lia. simpl.
    rewrite (proj2 (Z.leb_le 1 (zlen blocks))), (proj2 (Z.leb_le (zlen blocks) _)) by lia. simpl.
    rewrite (proj2 (Z.eqb_eq _ _) Hs). simpl. by apply answer_loop_eq. }
  assert (Hlen : ∀ s, length (xor_selected s 0 blocks zero) = Z.to_nat bb).
  { intros s. apply xor_selected_length; [|done]. eapply Forall_impl; [exact Hb|]. simpl. lia. }
  eexists _, _. split_and!; [by apply Hans|by apply Hans|unfold zlen; rewrite Hlen; lia..|].
  unfold reconstruct, zlen. rewrite !Hlen. rewrite (proj2 (Z.leb_le _ _)), Z.eqb_refl by lia. simpl. f_equal.
  pose proof Hq as (_ & Hi & _)%split_query_Ok.
  rewrite (xor_selected_diff s0 s1 index (Z.to_nat bb)); [|..|done|done|done].
  - rewrite (proj2 (Z.leb_le _ _)), Z.sub_0_r, Hblock by lia. 
    apply list_eq. intros k. rewrite !xor_bytes_lookup.
    assert (length block = Z.to_nat bb) as Hbl.
    { rewrite Forall_forall in Hb. rewrite <- (Hb block); [lia|by eapply list_elem_of_lookup_2]. }
    destruct (block !! k) as [x|] eqn:Ek.
    + apply lookup_lt_Some in Ek as Hk. destruct (lookup_lt_is_Some_2 zero k) as [y Hy]; [lia|]. rewrite Hy. simpl.
      by rewrite Z.lxor_nilpotent.
    + by destruct (zero !! k).
  - eapply Forall_impl; [exact Hb|]. simpl. lia.
  - intros idx Hidx. by eapply share_bit_split.
Qed.

Lemma mapR_fmap {A B C} (f : B → res pyexn C) (g : A → B) l : mapR f (g <$> l) = mapR (λ x, f (g x)) l.
Proof. induction l as [|x l IH]; simpl; [done|]. change (list_fmap A B g l) with (g <$> l). by rewrite IH. Qed.

Lemma batch_budget_Ok n bb : 1 <= n <= MAX_BLOCKS_PER_CLUSTER → 1 <= bb <= MAX_BLOCK_BYTES →
  n * n * bb <= MAX_BATCH_WORK → _batch_budget n bb = Ok ().
Proof.
  intros Hn Hb Hw. unfold _batch_budget, count.
  rewrite (proj2 (Z.leb_le 1 n)), (proj2 (Z.leb_le n _)), (proj2 (Z.leb_le 1 bb)), (proj2 (Z.leb_le bb _)) by lia. simpl.
  by rewrite (proj2 (Z.leb_le _ _) Hw).
Qed.

Lemma mapR_seq_exists {A B} (f : A → res pyexn B) (P : nat → A → B → Prop) l :
  (∀ i x, l !! i = Some x → ∃ y, f x = Ok y ∧ P i x y) →
  ∃ k, mapR f l = Ok k ∧ length k = length l ∧ ∀ i x y, l !! i = Some x → k !! i = Some y → f x = Ok y ∧ P i x y.
Proof.
  revert P. induction l as [|x l IH]; intros P H; [by exists []|].
  destruct (H 0%nat x eq_refl) as (y & Hy & Hp).
  destruct (IH (λ i, P (S i))) as (k & Hk & Hlen & Hall); [intros i; apply (H (S i))|].
  exists (y :: k). simpl. rewrite Hy. simpl. rewrite Hk. simpl. split_and!; [done|by rewrite Hlen|].
  intros [|i] x' y'; simpl; [by intros [= <-] [= <-]|apply Hall].
Qed.

Lemma answer_loop_length share bb : ∀ blocks idx output a, answer_loop share bb idx blocks output = Ok a →
  zlen output = bb → zlen a = bb.
Proof.
  induction blocks as [|b blocks IH]; intros idx output a H Ho; simpl in H; [by injection H as <-|].
  apply bind_Ok in H as ([] & Hl%require_Ok%zlen_eq & H). apply bind_Ok in H as (sel & _ & H).
  apply (IH _ _ _ H). unfold accumulate, zlen in *. destruct sel; [rewrite length_xor; lia|done].
Qed.

Lemma server_answers_length blocks bb shares answers :
  mapR (λ share, server_answer blocks share bb) shares = Ok answers →
  Forall (λ b, (zlen b =? bb) = true) answers.
Proof.
  intros H%mapR_Ok_Forall2. induction H as [|s a ss as_ Hs _ IH]; constructor; [|done]. apply zlen_eq.
  unfold server_answer, count in Hs. res_inv. zbool. eapply answer_loop_length; [eassumption|].
  unfold zlen. rewrite repeat_length. lia.
Qed.

(** The whole batch of a cluster. *)
Lemma batch_answers blocks bb fresh :
  1 <= bb <= MAX_BLOCK_BYTES → 1 <= zlen blocks <= MAX_BLOCKS_PER_CLUSTER →
  Forall (λ b, Z.of_nat (length b) = bb) blocks →
  (∀ i, (i < length blocks)%nat → zlen (fresh i) = (zlen blocks + 7) / 8) →
  ∃ qs as0 as1,
    mapR (λ index, split_query (Z.of_nat index) (zlen blocks) None (fresh index)) (seq 0 (length blocks)) = Ok qs ∧
    mapR (λ share, server_answer blocks share bb) qs.*1 = Ok as0 ∧
    mapR (λ share, server_answer blocks share bb) qs.*2 = Ok as1 ∧
    mapR (λ '(a, b), reconstruct a b) (zip as0 as1) = Ok blocks.
Proof.
  intros Hbb Hn Hb Hf.
  set (good := λ (i : nat) (q : bytes * bytes) (p : bytes * bytes),
    server_answer blocks q.1 bb = Ok p.1 ∧ server_answer blocks q.2 bb = Ok p.2 ∧
    ∃ block, blocks !! i = Some block ∧ reconstruct p.1 p.2 = Ok block).
  destruct (mapR_seq_exists (λ index, split_query (Z.of_nat index) (zlen blocks) None (fresh index))
    (λ i _ q, ∃ p, good i q p) (seq 0 (length blocks))) as (qs & Hqs & Hlen & Hall).
  { intros i x [-> Hi]%lookup_seq. simpl.
    destruct (split_query_total (Z.of_nat i) (zlen blocks) (fresh i)) as [s1 Hq]; [done|unfold zlen; lia|by apply Hf|].
    destruct (lookup_lt_is_Some_2 blocks i) as [block Hblock]; [done|].
    destruct (answers_reconstruct blocks bb (Z.of_nat i) (fresh i) (fresh i) s1 block)
      as (a0 & a1 & H0 & H1 & _ & _ & Hrec); try done; [by rewrite Nat2Z.id|].
    exists (fresh i, s1). split; [done|]. exists (a0, a1). split_and!; try done. by exists block. }
  rewrite length_seq in Hlen.
  destruct (mapR_seq_exists (λ q : bytes * bytes, server_answer blocks q.1 bb) (λ i _ a0,
    ∃ q a1, qs !! i = Some q ∧ good i q (a0, a1)) qs) as (as0 & H0 & Hl0 & Hall0).
  { intros i q Hq. pose proof (lookup_lt_Some _ _ _ Hq).
    destruct (Hall i i q) as (_ & [a0 a1] & Hg); [by apply lookup_seq; lia|done|].
    exists a0. split; [apply Hg|]. by exists q, a1. }
  destruct (mapR_seq_exists (λ q : bytes * bytes, server_answer blocks q.2 bb) (λ i _ a1,
    ∃ q a0, qs !! i = Some q ∧ good i q (a0, a1)) qs) as (as1 & H1 & Hl1 & Hall1).
  { intros i q Hq. pose proof (lookup_lt_Some _ _ _ Hq).
    destruct (Hall i i q) as (_ & [a0 a1] & Hg); [by apply lookup_seq; lia|done|].
    exists a1. split; [apply Hg|]. by exists q, a0. }
  exists qs, as0, as1. rewrite !mapR_fmap. split_and!; try done.
  apply mapR_Ok_Forall2, Forall2_same_length_lookup. split; [rewrite length_zip; lia|].
  intros i [a0 a1] block [Ha0 Ha1]%lookup_zip_Some Hblock.
  pose proof (lookup_lt_Some _ _ _ Hblock). destruct (lookup_lt_is_Some_2 qs i) as [q Hq]; [lia|].
  destruct (Hall0 i q a0 Hq Ha0) as (E0 & q' & b1 & Hq' & _ & E1' & blk & Hblk & Hrec).
  destruct (Hall1 i q a1 Hq Ha1) as (E1 & _). rewrite Hq in Hq'. injection Hq' as <-. simpl in *. congruence.
Qed.

(** ** Properties *)

(** private retrieval is correct: from two replicas of one database, with
    any randomness of the right size for every query, the client's batch for
    a cluster is answered in full and reconstructs exactly the blocks the
    cluster holds, in order. *)
Theorem pir_fetches_cluster clusters bb r name blocks fresh :
  XorPIRReplica clusters bb = Ok r → assoc name clusters = Some blocks →
  (∀ i, (i < length blocks)%nat → zlen (fresh i) = (zlen blocks + 7) / 8) →
  ∃ metadata, handle_metadata r name = Ok metadata ∧
    fetch_cluster metadata (λ f s, a ← handle_many r name f; b ← handle_many r name s; Ok (a, b)) fresh = Ok blocks.
Proof.
  intros Hr Ha Hfresh. destruct (replica_Ok _ _ _ _ _ Hr Ha) as (-> & Hbb & Hn & Hw & Hb).
  exists (zlen blocks, bb). unfold handle_metadata, handle_many, server_answer_many.
  cbn [_clusters _block_bytes]. rewrite Ha. cbn [get_or mbind res_bind]. split; [done|].
  unfold fetch_cluster. rewrite !batch_budget_Ok by done. cbn [mbind res_bind].
  destruct (batch_answers blocks bb fresh) as (qs & as0 & as1 & Hqs & H0 & H1 & Hrec); try done.
  replace (Z.to_nat (zlen blocks)) with (length blocks) by (unfold zlen; lia).
  pose proof (mapR_length _ _ _ Hqs) as Hlq. rewrite length_seq in Hlq.
  pose proof (mapR_length _ _ _ H0) as Hl0. pose proof (mapR_length _ _ _ H1) as Hl1. rewrite !length_fmap in *.
  rewrite Hqs. cbn [mbind res_bind].
  assert (Hl : ∀ l : list bytes, length l = length qs → (zlen l =? zlen blocks) = true).
  { intros l E. unfold zlen. by rewrite E, Hlq, Z.eqb_refl. }
  rewrite !Hl by (done || by rewrite length_fmap).
  cbn [mbind res_bind require]. rewrite H0, H1. cbn [mbind res_bind].
  rewrite !Hl by done. cbn [andb require mbind res_bind].
  rewrite (proj2 (forallb_Forall _ _)); [exact Hrec|].
  apply Forall_app. split; [apply (server_answers_length _ _ _ _ H0)|apply (server_answers_length _ _ _ _ H1)].
Qed.

(** C32: each server's view is independent of the query: the first share is
    the randomness itself, and for every index the second share runs through
    all the byte strings of its size exactly once as the randomness does, so
    a uniform seed makes either share uniform whatever the index is. *)
Theorem pir_shares_uniform size index share :
  1 <= size <= MAX_BLOCKS_PER_CLUSTER → 0 <= index < size →
  zlen share = (size + 7) / 8 → Forall is_byte share →
  (∃ s1, split_query index size (Some share) [] = Ok (share, s1)) ∧
  ∃ seed, Forall is_byte seed ∧ split_query index size (Some seed) [] = Ok (seed, share) ∧
    ∀ other s0, split_query index size (Some other) [] = Ok (s0, share) → other = seed.
Proof.
  intros Hs Hi Hl Hb. split; [by apply split_query_total|].
  destruct (split_query_total index size share) as [seed Hq]; [done..|]. exists seed.
  pose proof Hq as (_ & _ & _ & _ & old & Hold & Hseed)%split_query_Ok.
  pose proof (lookup_lt_Some _ _ _ Hold) as Hlt.
  assert (Hinv : ∀ x, Z.lxor (Z.lxor x (Z.shiftl 1 (index mod 8))) (Z.shiftl 1 (index mod 8)) = x).
  { intros x. by rewrite Z.lxor_assoc, Z.lxor_nilpotent, Z.lxor_0_r. }
  split_and!.
  - rewrite Hseed. apply Forall_insert; [done|]. 
    assert (is_byte old) as Ho by (by eapply Forall_lookup_1 in Hb). apply lxor_byte; [done|].
    pose proof (Z.mod_pos_bound index 8 ltac:(lia)). rewrite Z.shiftl_mul_pow2, Z.mul_1_l by lia.
    split; [by apply Z.pow_nonneg|]. apply (Z.pow_lt_mono_r 2 _ 8); lia.
  - apply split_query_Ok. split_and!; try (done || lia).
    + rewrite Hseed. unfold zlen in *. by rewrite length_insert.
    + eexists. split; [rewrite Hseed; by apply list_lookup_insert_eq|].
      by rewrite Hseed, list_insert_insert_eq, Hinv, list_insert_id.
  - intros other s0 (_ & _ & -> & _ & o & Ho & ->)%split_query_Ok. simpl in *.
    pose proof (lookup_lt_Some _ _ _ Ho). rewrite Hseed.
    rewrite list_lookup_insert_eq in Hold by done. injection Hold as <-.
    by rewrite list_insert_insert_eq, Hinv, list_insert_id.
Qed.

(** ** Witnesses *)

Definition demo_clusters : list (string * list bytes) :=
  [("a", [[1; 2]; [3; 4]; [255; 0]]); ("b", [[0; 0]; [7; 7]; [9; 9]])]%string.
Definition demo_replica : replica := ok_or (Replica 0 []) (XorPIRReplica demo_clusters 2).

Lemma pir_fetches_witness : ∃ metadata, handle_metadata demo_replica "a" = Ok metadata ∧
  fetch_cluster metadata (λ f s, a ← handle_many demo_replica "a" f; b ← handle_many demo_replica "a" s; Ok (a, b))
    (λ i, [Z.of_nat i + 90]) = Ok [[1; 2]; [3; 4]; [255; 0]].
Proof.
  exact (pir_fetches_cluster demo_clusters 2 demo_replica "a" [[1; 2]; [3; 4]; [255; 0]]
    (λ i, [Z.of_nat i + 90]) eq_refl eq_refl (λ _ _, eq_refl)).
Defined.

Lemma pir_shares_uniform_witness : (∃ s1, split_query 9 12 (Some [77; 3]) [] = Ok ([77; 3], s1)) ∧
  ∃ seed, Forall is_byte seed ∧ split_query 9 12 (Some seed) [] = Ok (seed, [77; 3]) ∧
    ∀ other s0, split_query 9 12 (Some other) [] = Ok (s0, [77; 3]) → other = seed.
Proof.
  apply (pir_shares_uniform 12 9 [77; 3]); unfold MAX_BLOCKS_PER_CLUSTER, is_byte; [lia|lia|reflexivity|].
  repeat constructor; lia.
Defined.
