(* ===== verification/Number.v ===== *)
(** * Bounded numbers ([frontier_protocol.number])

    A finite [float] is its [repr]; the decimal that [repr] spells orders
    floats as the floats themselves are ordered, and an integer bound that a
    float represents exactly compares with the decimal as with the float. *)

From stdpp Require Import pretty.
From S2P Require Import Prelude Sha256 Wire.
Local Open Scope Z_scope.

(** ** Decimals *)

(** [m * 10 ^ e]. *)
Record decimal := Dec { mantissa : Z; expo : Z }.

Definition scale_to (e : Z) (d : decimal) : Z := mantissa d * 10 ^ (expo d - e).

(** Comparison at the smaller of the two exponents. *)
Definition dec_leb (a b : decimal) : bool :=
  let e := Z.min (expo a) (expo b) in scale_to e a <=? scale_to e b.
Definition dec_ltb (a b : decimal) : bool := negb (dec_leb b a).
Definition dec_int (n : Z) : decimal := Dec n 0.

Definition digit (c : ascii) : option Z :=
  let n := byte_of c in if (48 <=? n) && (n <=? 57) then Some (n - 48) else None.

(** Reads digits into [acc]; the count of the digits read. *)
Fixpoint read_nat (acc k : Z) (l : list ascii) : Z * Z * list ascii :=
  match l with
  | c :: l' => match digit c with Some d => read_nat (10 * acc + d) (k + 1) l' | None => (acc, k, l) end
  | [] => (acc, k, [])
  end.

Definition read_sign (l : list ascii) : Z * list ascii :=
  match l with
  | c :: l' => if Ascii.eqb c "-" then (-1, l') else if Ascii.eqb c "+" then (1, l') else (1, l)
  | [] => (1, [])
  end.

Definition read_exponent (l : list ascii) : option Z :=
  match l with
  | [] => Some 0
  | c :: l' =>
      if Ascii.eqb c "e" then
        let '(s, l1) := read_sign l' in
        match read_nat 0 0 l1 with (n, k, []) => if 0 <? k then Some (s * n) else None | _ => None end
      else None
  end.

(** A [repr] of a finite float: [-1.5], [1e-07], [1.7976931348623157e+308]. *)
Definition read_repr (r : string) : option decimal :=
  let '(s, l) := read_sign (str_bytes r) in
  let '(m, k, l) := read_nat 0 0 l in
  if k =? 0 then None
  else
    let '(m, f, l) := match l with
      | c :: l' => if Ascii.eqb c "." then read_nat m 0 l' else (m, 0, l)
      | [] => (m, 0, [])
      end in
    e ← read_exponent l; Some (Dec (s * m) (e - f)).

(** The value of a JSON number that is no boolean. *)
Definition num_value (v : json) : option decimal :=
  match v with
  | JInt n => Some (dec_int n)
  | JFloat r => if isfinite r then read_repr r else None
  | _ => None
  end.

(** ** [==] on JSON values

    Numbers and booleans compare by value, dictionaries regardless of order. *)
Definition py_number (v : json) : option decimal :=
  match v with JBool b => Some (dec_int (Z.b2z b)) | _ => num_value v end.
Definition dec_eqb (a b : decimal) : bool := dec_leb a b && dec_leb b a.

Fixpoint py_eqb (v w : json) {struct v} : bool :=
  match v, w with
  | JNull, JNull => true
  | JStr a, JStr b => String.eqb a b
  | JList l, JList k =>
      (fix go l k := match l, k with
        | [], [] => true
        | x :: l', y :: k' => py_eqb x y && go l' k'
        | _, _ => false end) l k
  | JObj l, JObj k =>
      (length l =? length k)%nat &&
      (fix go l := match l with
        | [] => true
        | (a, x) :: l' => match assoc a k with Some y => py_eqb x y | None => false end && go l' end) l
  | JFloat a, JFloat b =>
      match read_repr a, read_repr b with
      | Some d, Some e => dec_eqb d e
      | _, _ => String.eqb a b && negb (String.eqb a "nan")
      end
  | _, _ => match py_number v, py_number w with Some d, Some e => dec_eqb d e | _, _ => false end
  end.

Example py_eqb_examples :
  map (λ '(v, w), py_eqb v w)
    [(JInt 1, JFloat "1.0"); (JBool true, JInt 1); (JStr "1", JInt 1); (JFloat "nan", JFloat "nan");
     (JObj [("a", JInt 1); ("b", JNull)], JObj [("b", JNull); ("a", JInt 1)]); (JList [JInt 1], JList [])]%string
  = [true; true; false; false; true; false].
Proof. reflexivity. Qed.

(** ** [number] *)

(** [float(n)] of an integer of at most 15 digits. *)
Definition float_of_int (n : Z) : string := pretty n +:+ ".0".

(** [number(value, low, high)] with integer bounds of at most 15 digits. *)
Definition number (value : json) (low high : Z) : res pyexn json :=
  d ← get_or (num_value value) ValueError;
  require (dec_leb (dec_int low) d && dec_leb d (dec_int high)) ValueError;;
  Ok (match value with JInt n => JFloat (float_of_int n) | v => v end).

(** ** Lemmas *)

Lemma number_in_range v lo hi w : number v lo hi = Ok w →
  ∃ d, num_value v = Some d ∧ dec_leb (dec_int lo) d = true ∧ dec_leb d (dec_int hi) = true.
Proof. unfold number. intros H. res_inv. eauto. Qed.

Example number_examples :
  map (λ r, is_ok (number (JFloat r) (-1000) 1000)) ["1000.0"; "1000.0000000000001"; "-1e-07"; "1e+22"; "inf"]%string
  = [true; false; true; false; false].
Proof. reflexivity. Qed.
