(* ===== verification/Ledger.v ===== *)
(** * The ledger interface

    What the components that keep their state in signed journals rely on:
    reading a journal's records and appending one.  [Journal.v] discharges
    the laws; the components' theorems are proved against the interface. *)

From S2P Require Import Prelude Sha256 Base64 Wire Origin Journal.
Local Open Scope Z_scope.

(** [fp.journal(root, name)] and [fp.append(root, name, body)], the latter
    returning the signed row. *)
Class Ledger (S : Type) := {
  journal : S → string → res pyexn (list json);
  append : S → string → json → res pyexn (json * S);
}.

(** The record of row [n]: the body with its position, the digest of the
    previous row and the time. *)
Definition stamped (n : Z) (body record : json) : Prop :=
  ∃ previous at_, record = jupdate body
    [("sequence", JInt n); ("previous", JStr previous); ("recorded_at", JStr at_)]%string.

(** A read that succeeds after an append sees one more record in that
    journal and the same records in the others. *)
Class LedgerLaws (S : Type) `{Ledger S} := {
  append_same : ∀ s name body row s' l l',
    journal s name = Ok l → append s name body = Ok (row, s') → journal s' name = Ok l' →
    ∃ r, l' = l ++ [r] ∧ jget "record" row = Some r ∧ stamped (Z.of_nat (length l)) body r;
  append_other : ∀ s name other body row s' l l', other ≠ name →
    journal s other = Ok l → append s name body = Ok (row, s') → journal s' other = Ok l' → l' = l;
}.

(** Once a store has its signing key - after any append - an append leaves
    what reading the other journals gives as it was, failures included. *)
Class SteadyLaws (S : Type) `{Ledger S} := {
  steady : S → Prop;
  append_steady : ∀ s name body row s', append s name body = Ok (row, s') → steady s';
  steady_other : ∀ s name other body row s', steady s → other ≠ name →
    append s name body = Ok (row, s') → journal s' other = journal s other;
}.

(** ** The signed journals implement it *)

Section signed.
Context `{ED : Ed25519}.
Variable retained_size : list json → Z.
(** The bound writer, the key material for a new key file, the clock. *)
Variables (writer : string * string) (fresh : string) (clock : Z → string).

(** A process that starts with an empty cache. *)
Definition cold (st : store) : store := set_cache st [].

Definition signed_journal (st : store) (name : string) : res pyexn (list json) :=
  fst <$> Journal.journal retained_size (cold st) name.
Definition signed_append (st : store) (name : string) (body : json) : res pyexn (json * store) :=
  Journal.append retained_size (cold st) name body writer fresh (clock (s_clock st)).

#[local] Instance signed_ledger : Ledger store := {
  journal := signed_journal;
  append := signed_append;
}.

Lemma filename_name st name n : filename st name = Ok n → n = name ∧ True.
Proof. unfold filename. intros H. by res_inv. Qed.

Lemma mapR_app {E A B} (f : A → res E B) l k :
  mapR f (l ++ k) = (a ← mapR f l; b ← mapR f k; Ok (a ++ b)).
Proof.
  induction l as [|x l IH]; simpl; [by destruct (mapR f k)|]. destruct (f x); simpl; [|done].
  rewrite IH. destruct (mapR f l); simpl; [|done]. by destruct (mapR f k).
Qed.

Lemma cold_state st name j st' : _state retained_size (cold st) name = Ok (j, st') →
  rows (s_files st !! name) = Ok (signed j) ∧ s_files st' = s_files st ∧ s_identity st' = s_identity st.
Proof.
  unfold _state. intros H. apply bind_Ok in H as (n & Hn & H).
  assert (n = name) as ->. { unfold filename in Hn. by res_inv. }
  simpl in H. apply bind_Ok in H as (vs & Hvs & H). apply bind_Ok in H as (t & _ & H). by injection H as <- <-.
Qed.

Lemma signed_journal_Ok st name l : signed_journal st name = Ok l ↔
  ∃ j st', _state retained_size (cold st) name = Ok (j, st') ∧
    mapR (λ row, get_or (jget "record" row) KeyError) (signed j) = Ok l.
Proof.
  unfold signed_journal, Journal.journal, events_since, event_snapshot, count.
  destruct (_state retained_size (cold st) name) as [[j st']|e]; simpl.
  2:{ split; [done|by intros (? & ? & ? & ?)]. }
  rewrite (proj2 (Z.leb_le 0 _)) by lia. simpl. rewrite drop_0.
  destruct (mapR _ (signed j)) as [l'|e] eqn:E; simpl; split.
  - intros [= ->]. eauto.
  - by intros (? & ? & [= <- <-] & [= ->]%(eq_trans (eq_sym E))).
  - done.
  - intros (? & ? & [= <- <-] & H). congruence.
Qed.

Lemma rows_loop_app lines l : ∀ total n vs, rows_loop total n (lines ++ l) = Ok vs →
  ∃ a b, vs = a ++ b ∧ rows_loop total n lines = Ok a ∧ ∃ total' n', rows_loop total' n' l = Ok b.
Proof.
  induction lines as [|x lines IH]; simpl; intros total n vs H; [exists [], vs; eauto|].
  apply bind_Ok in H as ([] & H1 & H). apply bind_Ok in H as ([] & H2 & H).
  apply bind_Ok in H as (v & H3 & H). apply bind_Ok in H as ([] & H4 & H).
  apply bind_Ok in H as (w & H5 & H). apply bind_Ok in H as (vs' & Hvs & [= <-]).
  destruct (IH _ _ _ Hvs) as (a & b & -> & Ha & Hb). exists (v :: a), b.
  rewrite H1, H2. cbn [mbind res_bind]. rewrite H3. cbn [mbind res_bind]. rewrite H4. cbn [mbind res_bind].
  rewrite H5. cbn [mbind res_bind]. by rewrite Ha.
Qed.

Lemma rows_files st name : rows (s_files st !! name) = rows_loop 0 0 (file_lines st name).
Proof. unfold file_lines. by destruct (s_files st !! name). Qed.

Lemma sign_record i record w fr row i' : sign i record w fr = Ok (row, i') → jget "record" row = Some record.
Proof.
  unfold sign. intros H. apply bind_Ok in H as (b & _ & H). apply bind_Ok in H as (config & _ & H).
  apply bind_Ok in H as (a & _ & H). apply bind_Ok in H as ([k i1] & _ & H). apply bind_Ok in H as (k' & _ & H).
  apply bind_Ok in H as (s & Hb & [= <- <-]). by apply bind_shape in Hb as (sig & -> & _).
Qed.

Lemma signed_append_Ok st name body row st' : signed_append st name body = Ok (row, st') →
  ∃ j st1 t v, _state retained_size (cold st) name = Ok (j, st1) ∧
    s_files st' = <[name := File (file_lines st name ++ [encoded_line row]) v false]> (s_files st) ∧
    jget "record" row = Some (jupdate body [("sequence", JInt (Z.of_nat (length (signed j))));
      ("previous", JStr t); ("recorded_at", JStr (clock (s_clock st)))])%string.
Proof.
  unfold signed_append, Journal.append. intros H.
  apply bind_Ok in H as (n & [-> _]%filename_name & H). apply bind_Ok in H as ([j st1] & Hj & H).
  apply bind_Ok in H as (n & Hn & H). assert (n = Z.of_nat (length (signed j))) as -> by (unfold count in Hn; by res_inv).
  apply bind_Ok in H as ([row' i] & Hsign & H). apply bind_Ok in H as (w & _ & H).
  apply bind_Ok in H as ([] & _ & H). apply bind_Ok in H as ([] & _ & H).
  apply bind_Ok in H as (d & _ & H). injection H as -> <-.
  pose proof (cold_state _ _ _ _ Hj) as (_ & Hf & _).
  exists j, st1, (tip j), (s_clock st1). split; [done|]. simpl. unfold file_lines. simpl. rewrite Hf. split; [done|].
  by rewrite (sign_record _ _ _ _ _ _ Hsign).
Qed.

#[local] Instance signed_ledger_laws : LedgerLaws store.
Proof.
  split.
  - intros s name body row s' l l' (j & st1 & Hj & Hl)%signed_journal_Ok
      (j' & st2 & t & v & Hj' & Hf & Hr)%signed_append_Ok (j2 & st3 & Hj2 & Hl')%signed_journal_Ok.
    rewrite Hj in Hj'. injection Hj' as <- <-.
    apply cold_state in Hj as (Hrows & _). apply cold_state in Hj2 as (Hrows2 & _).
    rewrite Hf, lookup_insert_eq in Hrows2. simpl in Hrows2. rewrite rows_files in Hrows.
    apply rows_loop_app in Hrows2 as (a & b & Hab & Ha & total & n & Hb).
    rewrite Hrows in Ha. injection Ha as <-. simpl in Hb.
    apply bind_Ok in Hb as ([] & _ & Hb). apply bind_Ok in Hb as ([] & _ & Hb).
    apply bind_Ok in Hb as (x & Hx & Hb). apply bind_Ok in Hb as ([] & _ & Hb).
    apply bind_Ok in Hb as (w & _ & Hb). injection Hb as <-.
    assert (x = row) as ->. { unfold loads_line in Hx. simpl in Hx. by res_inv. }
    rewrite Hab, mapR_app, Hl in Hl'. simpl in Hl'. rewrite Hr in Hl'. simpl in Hl'. injection Hl' as <-.
    eexists. split_and!; [done|done|]. rewrite (mapR_length _ _ _ Hl). by eexists _, _.
  - intros s name other body row s' l l' Hne (j & st1 & Hj & Hl)%signed_journal_Ok
      (j' & st2 & t & v & Hj' & Hf & Hr)%signed_append_Ok (j2 & st3 & Hj2 & Hl')%signed_journal_Ok.
    apply cold_state in Hj as (Hrows & _). apply cold_state in Hj2 as (Hrows2 & _).
    rewrite Hf, lookup_insert_ne, Hrows in Hrows2 by done. injection Hrows2 as E.
    rewrite <- E in Hl'. congruence.
Qed.

Definition has_key (st : store) : Prop :=
  ∀ record w fr row i, sign (s_identity st) record w fr = Ok (row, i) → i = s_identity st.

Lemma _key_created i a fr k i' : _key i (String.eqb a "hmac-sha256") a fr = Ok (Some k, i') →
  config_file i' = config_file i ∧
  ∀ fr' k' i2, _key i' (String.eqb a "hmac-sha256") a fr' = Ok (k', i2) → i2 = i'.
Proof.
  assert (∀ o (i1 i2 : identity) (k2 : option string), match o with
    | None => Ok (None, i1) | Some k => require (byte_len k =? 32) ValueError;; Ok (Some k, i1) end = Ok (k2, i2) →
    i2 = i1 ∧ k2 = o) as Hread.
  { intros [o|] i1 i2 k2 H; [apply bind_Ok in H as ([] & _ & H)|]; by simplify_eq. }
  unfold _key. destruct (String.eqb_spec a "hmac-sha256") as [->|]; simpl.
  - intros [-> E]%Hread. destruct (hmac_file i) as [h|] eqn:Eh; simpl in *; (split; [done|]);
      intros ???; rewrite ?Eh; [by intros [-> _]%(Hread (Some h))|by intros [-> _]%(Hread (Some fr))].
  - intros [-> _]%Hread. split; [done|]. by intros ??? [-> _]%Hread.
Qed.

Lemma sign_keeps i record w fr row i' : sign i record w fr = Ok (row, i') →
  ∀ record2 w2 fr2 row2 i2, sign i' record2 w2 fr2 = Ok (row2, i2) → i2 = i'.
Proof.
  unfold sign. intros H. apply bind_Ok in H as (b & _ & H). apply bind_Ok in H as (config & Hc & H).
  apply bind_Ok in H as (a & Ha & H). apply bind_Ok in H as ([k i1] & Hk & H). apply bind_Ok in H as (k' & Hk' & H).
  apply bind_Ok in H as (s & _ & [= <- <-]). apply get_or_Ok in Hk' as ->.
  apply _key_created in Hk as (Hcf & Hfix). intros record2 w2 fr2 row2 i2 H.
  apply bind_Ok in H as (_ & _ & H). apply bind_Ok in H as (config2 & Hc2 & H).
  assert (config2 = config) as ->. { unfold signing_config in Hc, Hc2. rewrite Hcf in Hc2. congruence. }
  apply bind_Ok in H as (a2 & Ha2 & H). rewrite Ha in Ha2. injection Ha2 as <-.
  apply bind_Ok in H as ([k2 i3] & Hk2 & H). apply bind_Ok in H as (k3 & _ & H).
  apply bind_Ok in H as (s2 & _ & [= <- <-]). by apply Hfix in Hk2.
Qed.

Lemma signed_append_identity st name body row st' : signed_append st name body = Ok (row, st') →
  ∃ record w fr row', sign (s_identity st) record w fr = Ok (row', s_identity st').
Proof.
  unfold signed_append, Journal.append. intros H.
  apply bind_Ok in H as (n & [-> _]%filename_name & H). apply bind_Ok in H as ([j st1] & Hj & H).
  apply bind_Ok in H as (n & Hn & H). apply bind_Ok in H as ([row' i] & Hsign & H). apply bind_Ok in H as (w & _ & H).
  apply bind_Ok in H as ([] & _ & H). apply bind_Ok in H as ([] & _ & H). apply bind_Ok in H as (d & _ & H).
  injection H as -> <-. apply cold_state in Hj as (_ & _ & Hi). rewrite <- Hi. eauto.
Qed.

Lemma signed_journal_ext st st' name : s_files st' !! name = s_files st !! name → s_identity st' = s_identity st →
  signed_journal st' name = signed_journal st name.
Proof.
  intros Hf Hi. unfold signed_journal, Journal.journal, events_since, event_snapshot, _state, filename, cold, set_cache.
  cbn [s_files s_identity s_cache s_pins s_clock cache_get]. rewrite Hf, Hi.
  destruct (negb _ && _); simpl; [|done]. destruct (negb _); simpl; [|done]. rewrite Hf.
  destruct (rows (s_files st !! name)) as [rs|]; simpl; [|done].
  destruct (check_chain (s_identity st) 0 "" rs); cbn -[count]; [|done].
  destruct (count _ _ _); cbn -[drop]; [|done]. by destruct (mapR _ _).
Qed.

#[local] Instance signed_steady_laws : SteadyLaws store.
Proof.
  refine {| steady := has_key |}.
  - intros s name body row s' (record & w & fr & row' & H)%signed_append_identity ?????.
    intros H2. by eapply sign_keeps in H2; [|exact H].
  - intros s name other body row s' Hs Hne H. pose proof (signed_append_identity _ _ _ _ _ H) as (? & ? & ? & ? & Hi).
    apply Hs in Hi. apply signed_append_Ok in H as (j & st1 & t & v & _ & Hf & _).
    apply signed_journal_ext; [|done]. by rewrite Hf, lookup_insert_ne.
Defined.
End signed.

(** ** A ledger in memory, for examples *)

Definition memory := list (string * list json).

Definition mem_records (m : memory) (name : string) : list json := default [] (assoc name m).
Definition mem_stamp (m : memory) (name : string) (body : json) : json :=
  jupdate body [("sequence", JInt (Z.of_nat (length (mem_records m name)))); ("previous", JStr "p");
                ("recorded_at", JStr "2025-01-01T00:00:00+00:00")]%string.

#[local] Instance memory_ledger : Ledger memory := {
  journal m name := Ok (mem_records m name);
  append m name body :=
    let r := mem_stamp m name body in
    Ok (JObj [("record", r)]%string, assoc_set name (mem_records m name ++ [r]) m);
}.

Lemma assoc_assoc_set {A} k k' (x : A) l :
  assoc k' (assoc_set k x l) = if String.eqb k' k then Some x else assoc k' l.
Proof.
  induction l as [|[k2 y] l IH]; simpl; [done|].
  destruct (String.eqb_spec k k2) as [->|Hk]; simpl; [by destruct (String.eqb k' k2)|].
  rewrite IH. destruct (String.eqb_spec k' k2) as [->|]; [|done].
  by rewrite (proj2 (String.eqb_neq k2 k)) by congruence.
Qed.

Lemma assoc_del_same {A} k (l : list (string * A)) : assoc k (assoc_del k l) = None.
Proof.
  induction l as [|[k' x] l IH]; simpl; [done|]. destruct (String.eqb k k') eqn:E; simpl; [done|]. by rewrite E.
Qed.

Lemma assoc_elem {A} k (v : A) l : assoc k l = Some v → (k, v) ∈ l.
Proof.
  induction l as [|[k' x] l IH]; simpl; [done|]. destruct (String.eqb_spec k k') as [->|]; [intros [= ->]; set_solver|].
  intros H%IH. set_solver.
Qed.

Lemma assoc_In {A} k (x : A) l : NoDup l.*1 → assoc k l = Some x ↔ (k, x) ∈ l.
Proof.
  induction l as [|[k' y] l IH]; simpl; intros Hd; [by rewrite elem_of_nil|].
  apply NoDup_cons in Hd as [Hn Hd]. rewrite elem_of_cons. destruct (String.eqb_spec k k') as [->|Hne].
  - split; [intros [= ->]; by left|]. intros [[= ->]|H]; [done|]. destruct Hn. by apply (list_elem_of_fmap_2 fst _ (k', x)).
  - rewrite IH by done. split; [by right|]. intros [[= -> ->]|H]; done.
Qed.

Lemma assoc_app {A} k (l l' : list (string * A)) :
  assoc k (l ++ l') = match assoc k l with Some x => Some x | None => assoc k l' end.
Proof. induction l as [|[k' x] l IH]; simpl; [done|]. by destruct (String.eqb k k'). Qed.

(** The entry a cache has just touched is found again or evicted, never
    replaced: eviction drops the oldest entries. *)
Lemma touched_found {A} k (x y : A) l old kept : assoc_del k l ++ [(k, x)] = old ++ kept →
  assoc k kept = Some y → y = x.
Proof.
  intros Hold Hy. destruct kept as [|kv e _] using rev_ind; [done|].
  rewrite app_assoc in Hold. apply app_inj_tail in Hold as [Hold <-].
  rewrite assoc_app in Hy. simpl in Hy. rewrite String.eqb_refl in Hy.
  assert (assoc k e = None) as E.
  { pose proof (assoc_del_same k l) as Hd. rewrite Hold, assoc_app in Hd. by destruct (assoc k old). }
  rewrite E in Hy. by injection Hy.
Qed.

Lemma touched_same {A} k (x : A) l : assoc k (assoc_del k l ++ [(k, x)]) = Some x.
Proof. rewrite assoc_app, assoc_del_same. simpl. by rewrite String.eqb_refl. Qed.

#[local] Instance memory_ledger_laws : LedgerLaws memory.
Proof.
  split.
  - intros s name body row s' l l' [= <-] [= <- <-] [= <-].
    eexists. split_and!; [|done|by eexists _, _]. unfold mem_records. by rewrite assoc_assoc_set, String.eqb_refl.
  - intros s name other body row s' l l' Hne [= <-] [= <- <-] [= <-].
    unfold mem_records. by rewrite assoc_assoc_set, (proj2 (String.eqb_neq _ _) Hne).
Qed.

#[local] Instance memory_steady_laws : SteadyLaws memory.
Proof.
  refine {| steady _ := True |}; [done|]. intros s name other body row s' _ Hne [= <- <-]. simpl. f_equal.
  unfold mem_records. by rewrite assoc_assoc_set, (proj2 (String.eqb_neq _ _) Hne).
Defined.
