(* ===== verification/Vda.v ===== *)
(** * VDA 5050 interoperability subset ([unimem/robotics/vda5050.py])

    The validators of state, order and zone messages.  A validated message is
    the dictionary the code returns. *)

From S2P Require Import Prelude Sha256 Base64 Wire Moment Strings Number.
Local Open Scope Z_scope.

(** ** Definitions *)

Definition VERSION : string := "3.0.0".

(** [keys <= set(message)] *)
Definition has_keys (keys : list string) (v : json) : bool :=
  forallb (λ k, match jget k v with Some _ => true | None => false end) keys.

(** [d[k]] of a dictionary. *)
Definition item (k : string) (v : json) : res pyexn json := get_or (jget k v) KeyError.

Definition moment_json (v : json) : res pyexn string :=
  match v with JStr s => moment s | _ => Err ValueError end.

Definition max63 : Z := 2 ^ 63 - 1.
Definition max31 : Z := 2 ^ 31 - 1.

Definition _header (message : json) : res pyexn (list (string * json)) :=
  require (is_obj message) ValueError;;
  require (has_keys ["headerId"; "timestamp"; "version"; "manufacturer"; "serialNumber"]%string message) ValueError;;
  version ← item "version" message;
  require (bool_decide (version = JStr VERSION)) ValueError;;
  h ← item "headerId" message;
  _ ← count_json h 0 max63;
  t ← item "timestamp" message;
  _ ← moment_json t;
  m ← item "manufacturer" message; m ← text_json m 128;
  s ← item "serialNumber" message; s ← text_json s 128;
  Ok [("header_id", h); ("timestamp", t); ("manufacturer", JStr m); ("serial_number", JStr s)]%string.

Definition _array (value : json) (minimum maximum : Z) : res pyexn (list json) :=
  match value with
  | JList l => _ ← count (Z.of_nat (length l)) minimum maximum; Ok l
  | _ => Err ValueError
  end.

(** [message.get(key, [])] *)
Definition get_list (key : string) (message : json) : json := default (JList []) (jget key message).

Definition jstrings (l : list string) : json := JList (map JStr l).

Definition _zones (message : json) : res pyexn (list string) :=
  values ← _array (get_list "zoneIds" message) 0 512;
  zones ← mapR (λ v, text_json v 128) values;
  Ok (sorted_set zones).

Definition _path_sharing (message : json) (edge_ids : list string) : res pyexn (list string) :=
  values ← _array (get_list "pathSharing" message) 0 4096;
  shared ← mapR (λ v, text_json v 128) values;
  require (included shared edge_ids) ValueError;;
  Ok shared.

Definition validate_zone (message : json) : res pyexn json :=
  header ← _header message;
  require (has_keys ["zoneIds"%string] message) ValueError;;
  zones ← _zones message;
  Ok (JObj (header ++ [("zones", jstrings zones)]%string)).

(** [type(released) is not bool] *)
Definition bool_json (v : json) : res pyexn bool :=
  match v with JBool b => Ok b | _ => Err ValueError end.

Definition position_json (position : json) : res pyexn json :=
  require (is_obj position && has_keys ["x"; "y"; "mapId"]%string position) ValueError;;
  x ← item "x" position; x ← number x (-10000000) 10000000;
  y ← item "y" position; y ← number y (-10000000) 10000000;
  m ← item "mapId" position; m ← text_json m 128;
  Ok (JObj [("x", x); ("y", y); ("map_id", JStr m)]%string).

Definition state_node (node : json) : res pyexn json :=
  require (is_obj node && has_keys ["nodeId"; "sequenceId"]%string node) ValueError;;
  position ← (match jget "nodePosition" node with
              | None | Some JNull => Ok JNull
              | Some p => position_json p
              end);
  released ← bool_json (default (JBool false) (jget "released" node));
  id ← item "nodeId" node; id ← text_json id 128;
  seq ← item "sequenceId" node; seq ← count_json seq 0 max31;
  Ok (JObj [("node_id", JStr id); ("sequence_id", JInt seq); ("position", position);
            ("released", JBool released)]%string).

(** The edge of a state, or of an order when [released] is required; its
    identifier and the normalized edge. *)
Definition edge_json (edge : json) : res pyexn (string * json) :=
  released ← bool_json (default (JBool false) (jget "released" edge));
  id ← item "edgeId" edge; id ← text_json id 128;
  seq ← item "sequenceId" edge; seq ← count_json seq 0 max31;
  a ← item "startNodeId" edge; a ← text_json a 128;
  b ← item "endNodeId" edge; b ← text_json b 128;
  Ok (id, JObj [("edge_id", JStr id); ("sequence_id", JInt seq); ("start", JStr a); ("end", JStr b);
                ("released", JBool released)]%string).

Definition edge_keys : list string := ["edgeId"; "sequenceId"; "startNodeId"; "endNodeId"]%string.

Definition state_edge (edge : json) : res pyexn (string * json) :=
  require (is_obj edge && has_keys edge_keys edge) ValueError;; edge_json edge.

Definition order_edge (edge : json) : res pyexn (string * json) :=
  require (is_obj edge && has_keys (edge_keys ++ ["released"%string]) edge) ValueError;; edge_json edge.

Definition order_node (node : json) : res pyexn json :=
  require (is_obj node && has_keys ["nodeId"; "sequenceId"; "released"]%string node) ValueError;;
  released ← item "released" node; released ← bool_json released;
  id ← item "nodeId" node; id ← text_json id 128;
  seq ← item "sequenceId" node; seq ← count_json seq 0 max31;
  Ok (JObj [("node_id", JStr id); ("sequence_id", JInt seq); ("released", JBool released)]%string).

(** The dictionary both validators end with. *)
Definition normalized (message : json) (header : list (string * json)) (nodes : list json)
    (edges : list (string * json)) : res pyexn json :=
  id ← item "orderId" message; id ← text_json id 128;
  update ← item "orderUpdateId" message; update ← count_json update 0 max31;
  zones ← _zones message;
  shared ← _path_sharing message edges.*1;
  Ok (JObj (header ++ [("order_id", JStr id); ("order_update_id", JInt update); ("nodes", JList nodes);
                       ("edges", JList edges.*2); ("zones", jstrings zones);
                       ("path_sharing", jstrings shared)]%string)).

Definition validate_state (message : json) : res pyexn json :=
  header ← _header message;
  require (has_keys ["orderId"; "orderUpdateId"]%string message) ValueError;;
  nodes ← _array (get_list "nodeStates" message) 0 4096;
  edges ← _array (get_list "edgeStates" message) 0 4096;
  nodes ← mapR state_node nodes;
  edges ← mapR state_edge edges;
  normalized message header nodes edges.

Definition validate_order (message : json) : res pyexn json :=
  header ← _header message;
  require (has_keys ["orderId"; "orderUpdateId"; "nodes"; "edges"]%string message) ValueError;;
  nodes ← (v ← item "nodes" message; _array v 1 4096);
  edges ← (v ← item "edges" message; _array v 0 4096);
  nodes ← mapR order_node nodes;
  edges ← mapR order_edge edges;
  normalized message header nodes edges.
