(* ===== verification/SiteMemory.v ===== *)
(** * Site memory of a robot fleet ([unimem/robotics/site_memory.py])

    Validation of adapter states, ingestion into the signed journal, and the
    layer-preserving scene graph.  The congestion estimate uses floating
    point square roots and is not modelled. *)

From S2P Require Import Prelude Sha256 Base64 Wire Origin Moment Strings Number Canon Ledger Vda.
Local Open Scope Z_scope.

(** ** Definitions *)

Definition JOURNAL : string := "robot-site-memory.jsonl".
Definition SUGGESTIONS : string := "robot-site-suggestions.jsonl".

Definition list_json (v : json) : res pyexn (list json) :=
  match v with JList l => Ok l | _ => Err ValueError end.

(** [v.get(first, v.get(second))] of a dictionary that has one of them. *)
Definition either (first second : string) (v : json) : json :=
  default (default JNull (jget second v)) (jget first v).

Definition checked_identity (first second : string) (v : json) : res pyexn string :=
  require (is_obj v && (has_keys [first] v || has_keys [second] v)) ValueError;;
  text_json (either first second v) 128.

Definition _validated_state (value : json) : res pyexn json :=
  require (is_obj value) ValueError;;
  _ ← wire value;
  let copied := canonical value in
  require (is_obj copied && has_keys ["timestamp"; "nodes"; "edges"; "zones"]%string copied) ValueError;;
  t ← item "timestamp" copied; _ ← moment_json t;
  nodes ← (v ← item "nodes" copied; list_json v);
  edges ← (v ← item "edges" copied; list_json v);
  zones ← (v ← item "zones" copied; list_json v);
  _ ← count (Z.of_nat (length nodes)) 0 4096;
  _ ← count (Z.of_nat (length edges)) 0 4096;
  _ ← count (Z.of_nat (length zones)) 0 512;
  path_sharing ← (match jget "path_sharing" copied with
                  | None | Some JNull => Ok []
                  | Some v => l ← list_json v; require (Z.of_nat (length l) <=? 4096) ValueError;; Ok l
                  end);
  shared_ids ← mapR (λ v, text_json v 128) path_sharing;
  _ ← mapR (checked_identity "node_id" "id") nodes;
  edge_ids ← mapR (checked_identity "edge_id" "id") edges;
  _ ← mapR (λ v, text_json v 128) zones;
  require (included shared_ids edge_ids) ValueError;;
  Ok copied.

Section site.
Context {St : Type} `{L : Ledger St}.

(** [ingest_state]: [now] is [fp.now()]. *)
Definition ingest_state (s : St) (value : json) (site robot vendor kind : string) (scopes : option (list json))
    (now : string) : res pyexn (json * St) :=
  require (mem kind ["state"; "zone"; "path"]%string) ValueError;;
  state ← _validated_state value;
  site ← text site 128; robot ← text robot 128; vendor ← text vendor 128;
  event_time ← (t ← item "timestamp" state; moment_json t);
  let scopes := default [] scopes in
  require (Z.of_nat (length scopes) <=? 128) ValueError;;
  scopes ← mapR (λ v, text_json v 128) scopes;
  d ← digest (JList [JStr site; JStr robot; JStr vendor; state]);
  let body := JObj [("id", JStr ("site-" +:+ str_take 32 d)); ("site", JStr site); ("robot", JStr robot);
                    ("vendor", JStr vendor); ("kind", JStr kind); ("valid_from", JStr event_time);
                    ("recorded_at", JStr now); ("scopes", jstrings (sorted_set scopes)); ("state", state)]%string in
  '(row, s) ← append s JOURNAL body;
  record ← item "record" row;
  Ok (record, s).

Definition VDA_VENDOR : string := "vda5050-3.0.0".

Definition ingest_vda_state (s : St) (message : json) (site robot kind : string) (scopes : option (list json))
    (now : string) : res pyexn (json * St) :=
  v ← validate_state message; ingest_state s v site robot VDA_VENDOR kind scopes now.

Definition ingest_vda_order (s : St) (message : json) (site robot : string) (scopes : option (list json))
    (now : string) : res pyexn (json * St) :=
  v ← validate_order message; ingest_state s v site robot VDA_VENDOR "path" scopes now.

(** [{**zone_state, "nodes": [], "edges": []}] *)
Definition zone_state (v : json) : json := jupdate v [("nodes", JList []); ("edges", JList [])]%string.

Definition ingest_vda_zone (s : St) (message : json) (site robot : string) (scopes : option (list json))
    (now : string) : res pyexn (json * St) :=
  v ← validate_zone message; ingest_state s (zone_state v) site robot VDA_VENDOR "zone" scopes now.

(** [ingest_open_rmf]: the adapter is the caller's. *)
Definition ingest_open_rmf (s : St) (to_unimem_state : json → res pyexn json) (message : json) (site robot : string)
    (scopes : option (list json)) (now : string) : res pyexn (json * St) :=
  v ← to_unimem_state message; ingest_state s v site robot "open-rmf-adapter" "state" scopes now.

Definition suggest (s : St) (site : string) (ruleset : json) (now : string) : res pyexn (json * St) :=
  site ← text site 128;
  w ← wire ruleset;
  '(row, s) ← append s SUGGESTIONS
    (JObj [("site", JStr site); ("rules", JStr w); ("status", JStr "review-required");
           ("created_at", JStr now)]%string);
  record ← item "record" row;
  Ok (record, s).

(** ** The scene graph *)

(** The strings of a list of labels; other values equal no label. *)
Definition label_strings (v : json) : res pyexn (list string) :=
  match v with
  | JList l => mapR (λ x, match x with JStr s => Ok s | _ => Err TypeError end) l
  | _ => Err TypeError
  end.

Definition visible (site : string) (context : list string) (row : json) : res pyexn bool :=
  s ← item "site" row;
  if bool_decide (s = JStr site) then
    scopes ← item "scopes" row; scopes ← label_strings scopes;
    Ok (included scopes context)
  else Ok false.

Definition entry (row node : json) : res pyexn json :=
  robot ← item "robot" row; vendor ← item "vendor" row;
  from ← item "valid_from" row; at_ ← item "recorded_at" row;
  Ok (JObj [("robot", robot); ("vendor", vendor); ("position", default JNull (jget "position" node));
            ("valid_from", from); ("recorded_at", at_)]%string).

(** What one row adds, node by node: the layer and the entry.  A node whose
    identity is missing or the empty string is skipped. *)
Definition node_entry (row node : json) : res pyexn (list (string * json)) :=
  match either "node_id" "id" node with
  | JStr identity => if String.eqb identity "" then Ok [] else e ← entry row node; Ok [(identity, e)]
  | JNull => Ok []
  | _ => Err TypeError
  end.

Definition row_entries (row : json) : res pyexn (list (string * json)) :=
  state ← item "state" row;
  nodes ← list_json (default (JList []) (jget "nodes" state));
  entries ← mapR (node_entry row) nodes;
  Ok (concat entries).

(** [layers[identity].append(e)] *)
Definition add_entry (layers : list (string * list json)) (e : string * json) : list (string * list json) :=
  assoc_set e.1 (default [] (assoc e.1 layers) ++ [e.2]) layers.

Fixpoint select_rows (p : json → res pyexn bool) (rows : list json) : res pyexn (list json) :=
  match rows with
  | [] => Ok []
  | row :: rest => b ← p row; l ← select_rows p rest; Ok (if Bool.eqb b true then row :: l else l)
  end.

(** [(value["valid_from"], value["robot"])], both strings. *)
Definition entry_key (e : json) : string * string :=
  let get k := match jget k e with Some (JStr s) => s | _ => ""%string end in
  (get "valid_from"%string, get "robot"%string).

Definition entry_before (a b : json) : bool :=
  let '(ta, ra) := entry_key a in let '(tb, rb) := entry_key b in
  str_ltb ta tb || (String.eqb ta tb && str_ltb ra rb).

Definition scene_graph (s : St) (site : string) (context : list string)
    : res pyexn (list (string * list json)) :=
  rows ← journal s JOURNAL;
  rows ← select_rows (visible site context) rows;
  entries ← mapR row_entries rows;
  let layers := fold_left add_entry (concat entries) [] in
  Ok (map (λ kv, (kv.1, sort_by entry_before kv.2)) (sort_keys layers)).
End site.

(** ** Lemmas *)

Definition text_ok (n : Z) (s : string) : bool := is_ok (text s n).

Lemma text_json_ok n v s : text_json v n = Ok s ↔ v = JStr s ∧ text_ok n s = true.
Proof.
  unfold text_ok. destruct v; simpl; try (split; [done|by intros [? _]]).
  unfold text. destruct (_ && _) eqn:E; simpl; [|split; [done|by intros [[= ->] H]; rewrite E in H]].
  split; [intros [= ->]; by rewrite E|by intros [[= ->] _]].
Qed.

Lemma texts_ok n l ss : mapR (λ v, text_json v n) l = Ok ss ↔ l = map JStr ss ∧ Forall (λ s, text_ok n s = true) ss.
Proof.
  revert ss. induction l as [|v l IH]; intros ss; simpl.
  - split; [intros [= <-]; by split|]. intros [H _]. by destruct ss.
  - rewrite bind_Ok. setoid_rewrite bind_Ok. split.
    + intros (s & [-> Hs]%text_json_ok & ss' & [-> Hss]%IH & [= <-]). by split; [|constructor].
    + intros [H Ht]. destruct ss as [|s ss]; [done|]. injection H as -> ->. inversion Ht; subst.
      exists s. split; [by apply text_json_ok|]. exists ss. split; [by apply IH|done].
Qed.

Lemma texts_strings n ss : Forall (λ s, text_ok n s = true) ss → mapR (λ v, text_json v n) (map JStr ss) = Ok ss.
Proof. intros H. by apply texts_ok. Qed.

(** An object that carries a checked string under [key]. *)
Definition identified (key : string) (v : json) (id : string) : Prop :=
  is_obj v = true ∧ NoDup (jkeys v) ∧ jget key v = Some (JStr id) ∧ text_ok 128 id = true.

Lemma identified_checked key second v id : identified key v id →
  checked_identity key second (canonical v) = Ok id.
Proof.
  intros (Ho & Hd & Hk & Ht). unfold checked_identity, either, has_keys. simpl.
  assert (is_obj (canonical v) = true) as -> by (by destruct v).
  rewrite (jget_canonical key _ Hd), Hk. simpl.
  by apply (proj2 (text_json_ok 128 (JStr id) id)).
Qed.

Lemma identified_all key second l ids : Forall2 (identified key) l ids →
  mapR (checked_identity key second) (map canonical l) = Ok ids.
Proof.
  intros H. apply mapR_Ok_Forall2. induction H; constructor; [by apply identified_checked|done].
Qed.

(** What a state must be for site memory to take it. *)
Record site_ok (v : json) : Prop := SiteOk {
  so_obj : is_obj v = true;
  so_keys : NoDup (jkeys v);
  so_time : ∃ t, jget "timestamp" v = Some (JStr t) ∧ is_ok (moment t) = true;
  so_edges : ∃ edges ids shared, jget "edges" v = Some (JList edges) ∧ (length edges <= 4096)%nat ∧
    Forall2 (identified "edge_id") edges ids ∧
    (jget "path_sharing" v = None ∧ shared = [] ∨ jget "path_sharing" v = Some (jstrings shared)) ∧
    (length shared <= 4096)%nat ∧ Forall (λ s, text_ok 128 s = true) shared ∧ included shared ids = true;
  so_nodes : ∃ nodes ids, jget "nodes" v = Some (JList nodes) ∧ (length nodes <= 4096)%nat ∧
    Forall2 (identified "node_id") nodes ids;
  so_zones : ∃ zones, jget "zones" v = Some (jstrings zones) ∧ (length zones <= 512)%nat ∧
    Forall (λ s, text_ok 128 s = true) zones;
}.

Lemma count_len {A} (l : list A) n : Z.of_nat (length l) <= n → count (Z.of_nat (length l)) 0 n = Ok (Z.of_nat (length l)).
Proof. intros H. unfold count. by rewrite (proj2 (Z.leb_le 0 _)), (proj2 (Z.leb_le _ n)) by lia. Qed.

Lemma site_ok_accepted v w : site_ok v → wire v = Ok w → _validated_state v = Ok (canonical v).
Proof.
  intros [Ho Hd (t & Ht & Hm) (edges & eids & shared & He & Hel & Hei & Hp & Hsl & Hst & Hinc)
    (nodes & nids & Hn & Hnl & Hni) (zones & Hz & Hzl & Hzt)] Hw.
  assert (Hget : ∀ k, jget k (canonical v) = canonical <$> jget k v) by (intros k; by apply jget_canonical).
  unfold _validated_state, has_keys, item. rewrite Ho, Hw. cbn [require mbind res_bind forallb].
  rewrite !Hget, Ht, He, Hn, Hz. assert (is_obj (canonical v) = true) as -> by (by destruct v).
  cbn [fmap option_fmap option_map andb require mbind res_bind get_or canonical moment_json jstrings list_json].
  destruct (moment t) as [m|]; [|done]. cbn [mbind res_bind].
  rewrite canonical_strings, !length_map.
  rewrite !count_len by lia. cbn [mbind res_bind].
  assert (match canonical <$> jget "path_sharing" v with
          | None | Some JNull => Ok []
          | Some v => l ← list_json v; require (Z.of_nat (length l) <=? 4096) ValueError;; Ok l
          end = Ok (E := pyexn) (map JStr shared)) as ->.
  { destruct Hp as [[-> ->]| ->]; [done|].
    cbn [fmap option_fmap option_map canonical jstrings list_json mbind res_bind].
    rewrite canonical_strings, length_map, (proj2 (Z.leb_le _ _)) by lia. done. }
  cbn [mbind res_bind]. rewrite (texts_strings _ _ Hst). cbn [mbind res_bind].
  rewrite (identified_all _ "id" _ _ Hni), (identified_all _ "id" _ _ Hei). cbn [mbind res_bind].
  rewrite (texts_strings _ _ Hzt). cbn [mbind res_bind]. by rewrite Hinc.
Qed.

(** ** What the VDA validators return *)

Definition header_ok (h : list (string * json)) : Prop :=
  ∃ id t m n, h = [("header_id", id); ("timestamp", JStr t); ("manufacturer", m); ("serial_number", n)]%string ∧
    is_ok (moment t) = true.

Lemma header_spec message h : _header message = Ok h → header_ok h.
Proof.
  unfold _header. intros H. res_inv.
  match goal with H : moment_json ?v = Ok _ |- _ => destruct v as [| | | |t| |]; try done; simpl in H end.
  eexists _, t, _, _. split; [done|]. by destruct (moment t).
Qed.

Lemma length_sorted_set l : (length (sorted_set l) <= length l)%nat.
Proof.
  assert (H : ∀ s l, (length (insert_string s l) <= S (length l))%nat).
  { intros s k. induction k as [|x k IH]; simpl; [lia|]. repeat case_match; simpl; lia. }
  induction l as [|s l IH]; simpl; [lia|]. specialize (H s (sorted_set l)). lia.
Qed.

Lemma array_spec v lo hi l : _array v lo hi = Ok l → v = JList l ∧ Z.of_nat (length l) <= hi.
Proof. unfold _array, count. destruct v; try done. intros H. res_inv. zbool. split; [done|lia]. Qed.

Lemma zones_spec message zones : _zones message = Ok zones →
  (length zones <= 512)%nat ∧ Forall (λ s, text_ok 128 s = true) zones.
Proof.
  unfold _zones. intros (vs & [_ Hl]%array_spec & H)%bind_Ok.
  apply bind_Ok in H as (ss & [-> Hs]%texts_ok & [= <-]). rewrite length_map in Hl. split.
  - pose proof (length_sorted_set ss). lia.
  - apply Forall_forall. intros x Hx. rewrite elem_sorted_set in Hx.
    rewrite Forall_forall in Hs. by apply Hs.
Qed.

Lemma path_sharing_spec message ids shared : _path_sharing message ids = Ok shared →
  (length shared <= 4096)%nat ∧ Forall (λ s, text_ok 128 s = true) shared ∧ included shared ids = true.
Proof.
  unfold _path_sharing. intros (vs & [_ Hl]%array_spec & H)%bind_Ok.
  apply bind_Ok in H as (ss & [-> Hs]%texts_ok & H). apply bind_Ok in H as ([] & Hi%require_Ok & [= <-]).
  rewrite length_map in Hl. split_and!; [lia|done|done].
Qed.

Ltac opens := repeat match goal with
  | H : (_ ≫= _) = Ok _ |- _ => apply bind_Ok in H as (? & ? & ?)
  | H : require _ _ = Ok _ |- _ => apply require_Ok in H
  end.

Ltac fresh_keys := apply distinct_NoDup; reflexivity.

Lemma identified_first key id kvs : NoDup (key :: kvs.*1) → text_ok 128 id = true →
  identified key (JObj ((key, JStr id) :: kvs)) id.
Proof. intros Hn Ht. split_and!; [done|done| |done]. simpl. by rewrite String.eqb_refl. Qed.

Lemma state_node_spec node v : state_node node = Ok v → ∃ id, identified "node_id" v id.
Proof.
  unfold state_node. intros H. opens.
  match goal with H : text_json _ _ = Ok ?s |- _ => apply text_json_ok in H as [_ Ht]; exists s end.
  match goal with H : Ok _ = Ok v |- _ => injection H as <- end.
  apply identified_first; [|done]. fresh_keys.
Qed.

Lemma order_node_spec node v : order_node node = Ok v → ∃ id, identified "node_id" v id.
Proof.
  unfold order_node. intros H. opens.
  match goal with H : text_json _ _ = Ok ?s |- _ => apply text_json_ok in H as [_ Ht]; exists s end.
  match goal with H : Ok _ = Ok v |- _ => injection H as <- end.
  apply identified_first; [|done]. fresh_keys.
Qed.

Lemma edge_spec edge e : edge_json edge = Ok e → identified "edge_id" e.2 e.1.
Proof.
  unfold edge_json. intros H. apply bind_Ok in H as (r & _ & H). apply bind_Ok in H as (v & _ & H).
  apply bind_Ok in H as (id & [_ Ht]%text_json_ok & H). opens.
  match goal with H : Ok _ = Ok e |- _ => injection H as <- end.
  apply identified_first; [|done]. fresh_keys.
Qed.

Lemma mapR_Forall2_out {A B} (f : A → res pyexn B) (P : B → Prop) l k :
  (∀ x y, f x = Ok y → P y) → mapR f l = Ok k → Forall P k.
Proof. intros Hf H%mapR_Ok_Forall2. induction H; constructor; eauto. Qed.

Lemma identified_ids key l : Forall (λ v, ∃ id, identified key v id) l → ∃ ids, Forall2 (identified key) l ids.
Proof. induction 1 as [|v l [id Hid] _ [ids IH]]; [by exists []|]. exists (id :: ids). by constructor. Qed.

(** Both validators end in a state that site memory takes. *)
Lemma normalized_site_ok message h nodes edges v : header_ok h →
  (length nodes <= 4096)%nat → Forall (λ n, ∃ id, identified "node_id" n id) nodes →
  (length edges <= 4096)%nat → Forall (λ e, identified "edge_id" e.2 e.1) edges →
  normalized message h nodes edges = Ok v → site_ok v.
Proof.
  intros (hid & t & m & n & -> & Ht) Hnl Hn Hel He H. unfold normalized in H.
  apply bind_Ok in H as (? & _ & H). apply bind_Ok in H as (id & _ & H). apply bind_Ok in H as (? & _ & H).
  apply bind_Ok in H as (up & _ & H). apply bind_Ok in H as (zones & [Hzl Hz]%zones_spec & H).
  apply bind_Ok in H as (shared & (Hsl & Hs & Hinc)%path_sharing_spec & H). injection H as <-.
  destruct (identified_ids _ _ Hn) as [ids Hids].
  split; [done| |by exists t| | |by exists zones].
  - simpl. fresh_keys.
  - exists edges.*2, edges.*1, shared. simpl. rewrite length_fmap. split_and!; try done; [|by right].
    clear -He. induction He; constructor; done.
  - by exists nodes, ids.
Qed.

Lemma validate_state_site_ok message v : validate_state message = Ok v → site_ok v.
Proof.
  unfold validate_state. intros (h & Hh%header_spec & H)%bind_Ok.
  apply bind_Ok in H as (? & _ & H). apply bind_Ok in H as (ns & [_ Hns]%array_spec & H).
  apply bind_Ok in H as (es & [_ Hes]%array_spec & H).
  apply bind_Ok in H as (nodes & Hn & H). apply bind_Ok in H as (edges & He & H).
  eapply normalized_site_ok; [exact Hh| | | | |exact H].
  - rewrite (mapR_length _ _ _ Hn). lia.
  - eapply mapR_Forall2_out; [|exact Hn]. apply state_node_spec.
  - rewrite (mapR_length _ _ _ He). lia.
  - eapply mapR_Forall2_out; [|exact He]. intros edge e (? & _ & Hy)%bind_Ok. by eapply edge_spec.
Qed.

Lemma validate_order_site_ok message v : validate_order message = Ok v → site_ok v.
Proof.
  unfold validate_order. intros (h & Hh%header_spec & H)%bind_Ok.
  apply bind_Ok in H as (? & _ & H). apply bind_Ok in H as (ns & (? & _ & [_ Hns]%array_spec)%bind_Ok & H).
  apply bind_Ok in H as (es & (? & _ & [_ Hes]%array_spec)%bind_Ok & H).
  apply bind_Ok in H as (nodes & Hn & H). apply bind_Ok in H as (edges & He & H).
  eapply normalized_site_ok; [exact Hh| | | | |exact H].
  - rewrite (mapR_length _ _ _ Hn). lia.
  - eapply mapR_Forall2_out; [|exact Hn]. apply order_node_spec.
  - rewrite (mapR_length _ _ _ He). lia.
  - eapply mapR_Forall2_out; [|exact He]. intros edge e (? & _ & Hy)%bind_Ok. by eapply edge_spec.
Qed.

Lemma validate_zone_site_ok message v : validate_zone message = Ok v → site_ok (zone_state v).
Proof.
  unfold validate_zone. intros (h & (hid & t & m & n & -> & Ht)%header_spec & H)%bind_Ok.
  apply bind_Ok in H as (? & _ & H). apply bind_Ok in H as (zones & [Hzl Hz]%zones_spec & [= <-]).
  unfold zone_state. split; [done| |by exists t| | |by exists zones].
  - simpl. fresh_keys.
  - exists [], [], []. split_and!; try done; simpl; [lia|by left|lia].
  - exists [], []. split_and!; simpl; done || lia.
Qed.

(** ** The layers *)

Lemma assoc_set_keys {A} k (x : A) l : NoDup l.*1 → NoDup (assoc_set k x l).*1 ∧
  ∀ j, j ∈ (assoc_set k x l).*1 ↔ j = k ∨ j ∈ l.*1.
Proof.
  induction l as [|[k' y] l IH]; simpl; intros Hd.
  - split; [apply NoDup_singleton|]. intros j. rewrite list_elem_of_singleton, elem_of_nil. tauto.
  - apply NoDup_cons in Hd as [Hk Hd]. destruct (IH Hd) as [Hn Hin].
    destruct (String.eqb_spec k k') as [->|Hne]; simpl.
    + split; [by apply NoDup_cons|]. intros j. rewrite elem_of_cons. tauto.
    + split.
      * apply NoDup_cons. split; [|done]. rewrite Hin. naive_solver.
      * intros j. rewrite !elem_of_cons, Hin. tauto.
Qed.

(** The entries of one layer among a list of entries. *)
Definition of_layer (identity : string) (es : list (string * json)) : list json :=
  map snd (List.filter (λ e, String.eqb identity e.1) es).

Lemma add_entries es : ∀ layers, NoDup layers.*1 → NoDup (fold_left add_entry es layers).*1 ∧
  ∀ identity, default [] (assoc identity (fold_left add_entry es layers)) =
              default [] (assoc identity layers) ++ of_layer identity es.
Proof.
  induction es as [|[k e] es IH]; simpl; intros layers Hd.
  - split; [done|]. intros identity. by rewrite app_nil_r.
  - unfold add_entry at 2 4. simpl.
    destruct (IH _ (proj1 (assoc_set_keys k (default [] (assoc k layers) ++ [e]) layers Hd))) as [Hn Heq].
    split; [done|]. intros identity. rewrite Heq, assoc_assoc_set. unfold of_layer. simpl.
    destruct (String.eqb_spec identity k) as [->|]; [|done]. simpl. by rewrite <- app_assoc.
Qed.

Lemma assoc_map {A B} (f : A → B) k l : assoc k (map (λ kv : string * A, (kv.1, f kv.2)) l) = f <$> assoc k l.
Proof. induction l as [|[k' x] l IH]; simpl; [done|]. by destruct (String.eqb k k'). Qed.

Lemma select_rows_Ok p rows l : select_rows p rows = Ok l →
  l = List.filter (λ row, bool_decide (p row = Ok true)) rows.
Proof.
  revert l. induction rows as [|row rows IH]; simpl; intros l H; [by injection H as <-|].
  apply bind_Ok in H as (b & Hb & H). apply bind_Ok in H as (k & Hk & [= <-]).
  rewrite Hb, (IH _ Hk). by destruct b.
Qed.

(** The observations of a layer, row by row. *)
Definition observations (identity : string) (rows : list json) : list json :=
  concat (map (λ row, match row_entries row with Ok es => of_layer identity es | Err _ => [] end) rows).

Lemma of_layer_app identity a b : of_layer identity (a ++ b) = of_layer identity a ++ of_layer identity b.
Proof. unfold of_layer. by rewrite List.filter_app, map_app. Qed.

Lemma observations_eq identity rows entries : mapR row_entries rows = Ok entries →
  of_layer identity (concat entries) = observations identity rows.
Proof.
  intros H%mapR_Ok_Forall2. induction H as [|row es rows entries Hr _ IH]; [done|].
  unfold observations in *. simpl. by rewrite Hr, of_layer_app, IH.
Qed.

(** ** Properties *)

(** the VDA adapters and site memory fit together: a message a validator
    accepts is normalized to a state that site memory's own validator accepts
    unchanged (up to the order of keys), whenever the normalized state is
    within the wire bounds; so ingesting it can only fail on the caller's
    site, robot, scopes or on the journal. *)
Theorem validated_vda_accepted message v w :
  validate_state message = Ok v ∨ validate_order message = Ok v ∨
  (∃ z, validate_zone message = Ok z ∧ v = zone_state z) →
  wire v = Ok w → _validated_state v = Ok (canonical v).
Proof.
  intros H Hw. eapply site_ok_accepted; [|exact Hw].
  destruct H as [H|[H|(z & H & ->)]];
    [by eapply validate_state_site_ok|by eapply validate_order_site_ok|by eapply validate_zone_site_ok].
Qed.

(** the scene graph is exactly what the context may see: the layer of an
    identity holds, in some order and with nothing merged away, the
    observations of that identity in the journal rows of the site whose
    scopes are all in the context, and no layer comes from anywhere else. *)
Theorem scene_graph_layers `{L : Ledger St} (s : St) site context rows g :
  journal s JOURNAL = Ok rows → scene_graph s site context = Ok g →
  ∃ shown, shown = List.filter (λ row, bool_decide (visible site context row = Ok true)) rows ∧
    (∀ identity, default [] (assoc identity g) ≡ₚ observations identity shown) ∧
    (∀ row, row ∈ shown → jget "site" row = Some (JStr site) ∧
       ∃ scopes, jget "scopes" row = Some scopes ∧
         ∃ labels, label_strings scopes = Ok labels ∧ ∀ l, l ∈ labels → l ∈ context).
Proof.
  intros Hj H. unfold scene_graph in H. rewrite Hj in H. simpl in H.
  apply bind_Ok in H as (shown & Hs%select_rows_Ok & H). apply bind_Ok in H as (entries & He & [= <-]).
  exists shown. split_and!; [done| |].
  - intros identity. destruct (add_entries (concat entries) [] (NoDup_nil_2)) as [Hd Ha].
    rewrite assoc_map, assoc_sort_keys by done. rewrite <- (observations_eq _ _ _ He).
    specialize (Ha identity). simpl in Ha. rewrite <- Ha.
    destruct (assoc identity _); simpl; [apply sort_by_Permutation|done].
  - intros row Hrow. rewrite Hs, list_elem_of_In, filter_In in Hrow. destruct Hrow as [_ Hv%bool_decide_eq_true].
    unfold visible, item in Hv. apply bind_Ok in Hv as (x & Hx%get_or_Ok & Hv).
    destruct (bool_decide (x = JStr site)) eqn:E; [|done]. apply bool_decide_eq_true in E as ->.
    apply bind_Ok in Hv as (scopes & Hsc%get_or_Ok & Hv). apply bind_Ok in Hv as (labels & Hl & [= Hi]).
    split; [done|]. exists scopes. split; [done|]. exists labels. split; [done|]. by apply included_spec.
Qed.

(** ** Witnesses *)

Definition demo_message : json := JObj
  [("headerId", JInt 7); ("timestamp", JStr "2025-01-01T00:00:00Z"); ("version", JStr "3.0.0");
   ("manufacturer", JStr "acme"); ("serialNumber", JStr "r1"); ("orderId", JStr "o"); ("orderUpdateId", JInt 0);
   ("nodeStates", JList [JObj [("nodeId", JStr "n1"); ("sequenceId", JInt 0);
      ("nodePosition", JObj [("x", JFloat "1.5"); ("y", JInt 2); ("mapId", JStr "m")])]]);
   ("edgeStates", JList [JObj [("edgeId", JStr "e1"); ("sequenceId", JInt 1); ("startNodeId", JStr "n1");
      ("endNodeId", JStr "n2")]]);
   ("zoneIds", JList [JStr "z"]); ("pathSharing", JList [JStr "e1"])]%string.
Definition demo_state : json := ok_or JNull (validate_state demo_message).

Lemma validated_vda_witness : _validated_state demo_state = Ok (canonical demo_state).
Proof.
  apply (validated_vda_accepted demo_message demo_state (ok_or ""%string (wire demo_state))).
  - left. vm_compute. reflexivity.
  - vm_compute. reflexivity.
Defined.

Definition demo_ledger : memory :=
  match ingest_vda_state (L := memory_ledger) [] demo_message "site1" "r1" "state" (Some [JStr "staff"])
          "2025-01-01T00:00:00+00:00" with
  | Ok (_, m) => m
  | Err _ => []
  end.
Definition demo_rows : list json := mem_records demo_ledger JOURNAL.
Definition demo_graph : list (string * list json) :=
  ok_or [] (scene_graph (L := memory_ledger) demo_ledger "site1" ["staff"; "all"]%string).

Lemma scene_graph_witness : length demo_graph = 1%nat ∧
  ∃ shown, shown = List.filter (λ row, bool_decide (visible "site1" ["staff"; "all"]%string row = Ok true)) demo_rows ∧
    (∀ identity, default [] (assoc identity demo_graph) ≡ₚ observations identity shown) ∧
    (∀ row, row ∈ shown → jget "site" row = Some (JStr "site1") ∧
       ∃ scopes, jget "scopes" row = Some scopes ∧
         ∃ labels, label_strings scopes = Ok labels ∧ ∀ l, l ∈ labels → l ∈ ["staff"; "all"]%string).
Proof.
  split; [vm_compute; reflexivity|].
  apply (scene_graph_layers (L := memory_ledger) demo_ledger "site1" ["staff"; "all"]%string demo_rows demo_graph).
  - vm_compute. reflexivity.
  - vm_compute. reflexivity.
Defined.
