(* ===== verification/Mesh.v ===== *)
(** * Signed operation mesh of a site ([unimem/mesh_crdt.py])

    Robot registration and revocation, operation signing and verification,
    the accepted-operation log, and the pure merge into an observed-remove
    set and multi-value registers.  Without the optional Automerge package,
    as [merge] runs when its import fails. *)

From S2P Require Import Prelude Sha256 Base64 Wire Origin Strings Vda Ledger.
Local Open Scope Z_scope.

(** ** Operations *)

Definition ROBOTS : string := "mesh-robots.jsonl".
Definition REVOKED : string := "mesh-revocations.jsonl".
Definition OPS : string := "mesh-ops.jsonl".
Definition TAINTS : string := "mesh-taints.jsonl".
Definition CONTRADICTIONS : string := "mesh-contradictions.jsonl".

(** The fields of an operation body that the merge reads. *)
Record mesh_op := Op {
  op_robot : string;
  op_id : string;
  operation : string;
  op_entity : option string;
  op_field : option string;
  op_value : option json;
  op_targets : option (list string);
  op_parents : list string;
  op_safety : bool;
  op_counter : option json;
}.

Definition str_item (v : json) : res pyexn string := match v with JStr s => Ok s | _ => Err TypeError end.
Definition strs_item (v : json) : res pyexn (list string) :=
  match v with JList l => mapR str_item l | _ => Err TypeError end.
Definition opt_item {A} (f : json → res pyexn A) (v : option json) : res pyexn (option A) :=
  match v with Some x => a ← f x; Ok (Some a) | None => Ok None end.
Definition truthy (v : json) : bool :=
  match v with
  | JNull | JBool false => false
  | JInt n => negb (n =? 0)
  | JFloat r => negb (existsb (String.eqb r) ["0.0"; "-0.0"]%string)
  | JStr s => negb (String.eqb s "")
  | JList l => negb (bool_decide (l = []))
  | JObj l => negb (bool_decide (l = []))
  | _ => true
  end.

Definition op_of_json (v : json) : res pyexn mesh_op :=
  r ← item "robot_id" v; r ← str_item r;
  i ← item "id" v; i ← str_item i;
  o ← item "operation" v; o ← str_item o;
  e ← opt_item str_item (jget "entity" v);
  f ← opt_item str_item (jget "field" v);
  t ← opt_item strs_item (jget "targets" v);
  p ← strs_item (default (JList []) (jget "parents" v));
  Ok (Op r i o e f (jget "value" v) t p (truthy (default JNull (jget "safety" v))) (jget "counter" v)).

(** ** [merge_views] *)

(** An entry of an entity's list. *)
Record entry := Entry { e_tag : string; e_value : json; e_safety : bool; e_robot : string; e_counter : json }.

Record view := View {
  v_entities : list (string * list entry);
  v_registers : list (string * json);
  v_contradictions : list (string * string * list (string * json));
  v_active : Z;
}.

Definition is_op (kind : string) (op : mesh_op) : bool := String.eqb (operation op) kind.

(** [{op["id"]: op for op in ops}] *)
Definition by_id (ops : list mesh_op) : list (string * mesh_op) :=
  fold_left (λ d op, assoc_set (op_id op) op d) ops [].

Definition removed_tags (live : list mesh_op) : res pyexn (list string) :=
  tags ← mapR (λ op, get_or (op_targets op) KeyError) (List.filter (is_op "remove") live);
  Ok (concat tags).

Definition add_entry (removed : list string) (kv : string * mesh_op) : res pyexn (list (string * entry)) :=
  let '(tag, op) := kv in
  if negb (mem tag removed) || op_safety op then
    e ← get_or (op_entity op) KeyError;
    c ← get_or (op_counter op) KeyError;
    Ok [(e, Entry tag (default JNull (op_value op)) (op_safety op) (op_robot op) c)]
  else Ok [].

(** The groups of a list of keyed rows, in the order of the keys. *)
Definition grouped {A} (rows : list (string * A)) : list (string * list A) :=
  map (λ k, (k, map snd (List.filter (λ r, String.eqb k r.1) rows))) (sorted_set rows.*1).

(** The search of [ancestors]: the worklist with its end first. *)
Fixpoint search (parents : string → list string) (fuel : nat) (result pending : list string) : list string :=
  match fuel, pending with
  | S fuel', parent :: rest =>
      if mem parent result then search parents fuel' result rest
      else search parents fuel' (parent :: result) (rev (parents parent) ++ rest)
  | _, _ => result
  end.

(** [op_by_id.get(identity, {}).get("parents", [])] *)
Definition parents_of (ops : list mesh_op) (identity : string) : list string :=
  match assoc identity (by_id ops) with Some op => op_parents op | None => [] end.

(** Every iteration pops an item; an item is pushed once per edge. *)
Definition edge_count (ops : list mesh_op) : nat := fold_right (λ op n, (length (op_parents op) + n)%nat) 0%nat ops.

Definition ancestors (ops : list mesh_op) (identity : string) : list string :=
  let start := parents_of ops identity in
  search (parents_of ops) (2 * edge_count ops)%nat [] (rev start).

Definition put_key (op : mesh_op) : res pyexn (string * string) :=
  e ← get_or (op_entity op) KeyError; f ← get_or (op_field op) KeyError; Ok (e, f).

(** [sorted(registers.items())]: the keys are distinct. *)
Definition pair_leb (a b : string * string) : bool :=
  str_ltb a.1 b.1 || (String.eqb a.1 b.1 && negb (str_ltb b.2 a.2)).
Fixpoint insert_pair (p : string * string) (l : list (string * string)) : list (string * string) :=
  match l with
  | [] => [p]
  | q :: l' => if bool_decide (p = q) then l else if pair_leb p q then p :: l else q :: insert_pair p l'
  end.
Definition sorted_pairs (l : list (string * string)) : list (string * string) := foldr insert_pair [] l.

Definition register_groups (live : list mesh_op) : res pyexn (list (string * string * list mesh_op)) :=
  rows ← mapR (λ op, k ← put_key op; Ok (k, op)) (List.filter (is_op "put") live);
  Ok (map (λ k, (k, map snd (List.filter (λ r, bool_decide (r.1 = k)) rows))) (sorted_pairs rows.*1)).

Definition value_of (op : mesh_op) : res pyexn json := get_or (op_value op) KeyError.
Definition value_digest (op : mesh_op) : res pyexn string := v ← value_of op; digest v.

(** [any(row["id"] in ancestor_cache[other["id"]] for other in rows if other is not row)] *)
Definition superseded (live rows : list mesh_op) (i : nat) (row : mesh_op) : bool :=
  existsb (λ other, mem (op_id row) (ancestors live (op_id other))) (delete i rows).

Definition maximal_rows (live rows : list mesh_op) : list mesh_op :=
  omap (λ o, o) (imap (λ i row, if superseded live rows i row then None else Some row) rows).

(** What a register's group settles to: one value, or a conflict. *)
Inductive settled := Settled (v : json) | Conflict (values : list (string * json)).

(** A conflicting write with the digest it is ordered by. *)
Definition conflict_row (op : mesh_op) : res pyexn (string * string * json) :=
  v ← value_of op; d ← digest v; Ok (op_robot op, d, v).
Definition conflict_before (a b : string * string * json) : bool :=
  negb (pair_leb (b.1) (a.1)).

Definition settle (live rows : list mesh_op) : res pyexn settled :=
  values ← mapR value_digest rows;
  if (length (sorted_set values) <=? 1)%nat then
    row ← get_or (head rows) IndexError; v ← value_of row; Ok (Settled v)
  else
    let maximal := maximal_rows live rows in
    values ← mapR value_digest maximal;
    if (length (sorted_set values) =? 1)%nat then
      row ← get_or (head maximal) IndexError; v ← value_of row; Ok (Settled v)
    else
      cs ← mapR conflict_row maximal;
      Ok (Conflict (map (λ c, (c.1.1, c.2)) (sort_by conflict_before cs))).

(** One iteration over the sorted registers. *)
Definition register_step (live : list mesh_op)
    (acc : list (string * json) * list (string * string * list (string * json)))
    (group : string * string * list mesh_op)
    : res pyexn (list (string * json) * list (string * string * list (string * json))) :=
  let '(registers, conflicts) := acc in
  let '(e, f, rows) := group in
  s ← settle live rows;
  Ok (match s with
      | Settled v => (assoc_set (e +:+ "/" +:+ f) v registers, conflicts)
      | Conflict values => (registers, conflicts ++ [(e, f, values)])
      end).

Definition merge_views (operations : list mesh_op) (revoked : list string) : res pyexn view :=
  let live := List.filter (λ op, negb (mem (op_robot op) revoked)) operations in
  let adds := by_id (List.filter (is_op "add") live) in
  removed ← removed_tags live;
  entries ← mapR (add_entry removed) adds;
  groups ← register_groups live;
  '(registers, conflicts) ← foldM (register_step live) ([], []) groups;
  Ok (View (map (λ g, (g.1, sort_by (λ a b, str_ltb (e_tag a) (e_tag b)) g.2)) (grouped (concat entries)))
           registers conflicts (Z.of_nat (length live))).

(** ** Signed operations *)

Section mesh.
Context `{ED : Ed25519}.

(** [register_robot]; [is_operator] is [memory_authority.is_operator()]. *)
Definition operator (is_operator : bool) : res pyexn () := require is_operator PermissionError.

Context {St : Type} `{L : Ledger St}.

Definition rows_of (robot_id : string) (rows : list json) : res pyexn (list json) :=
  l ← mapR (λ row, r ← item "robot_id" row; Ok (bool_decide (r = JStr robot_id), row)) rows;
  Ok (map snd (List.filter fst l)).

Definition register_robot (s : St) (is_operator : bool) (robot_id public_key : string) : res pyexn (json * St) :=
  _ ← operator is_operator;
  robot_id ← text robot_id 128;
  key ← get_or (fromhex public_key) ValueError;
  require (byte_len key =? 32) ValueError;;
  d ← digest (JStr public_key);
  let body := JObj [("robot_id", JStr robot_id); ("public_key", JStr public_key); ("key_digest", JStr d)]%string in
  rows ← journal s ROBOTS;
  prior ← rows_of robot_id rows;
  match last prior with
  | Some row => require (bool_decide (canonical row = canonical body)) ValueError;; Ok (row, s)
  | None =>
      '(signed, s) ← append s ROBOTS body;
      record ← item "record" signed;
      Ok (record, s)
  end.

Definition revoke_robot (s : St) (is_operator : bool) (robot_id reason now : string) : res pyexn (json * St) :=
  _ ← operator is_operator;
  robot_id ← text robot_id 128; reason ← text reason 256;
  robots ← journal s ROBOTS;
  known ← rows_of robot_id robots;
  require (negb (bool_decide (known = []))) KeyError;;
  revoked ← journal s REVOKED;
  prior ← rows_of robot_id revoked;
  match prior with
  | row :: _ => Ok (row, s)
  | [] =>
      '(signed, s) ← append s REVOKED
        (JObj [("robot_id", JStr robot_id); ("reason", JStr reason); ("at", JStr now)]%string);
      record ← item "record" signed;
      Ok (record, s)
  end.

Definition texts (n : Z) (l : list string) : res pyexn (list string) := mapR (λ s, text s n) l.

(** [sign_operation]: [targets] and [parents] default to empty lists. *)
Definition sign_operation (robot_id private_key : string) (counter : Z) (operation entity : string) (value : json)
    (field : string) (parents targets : list string) (safety : bool) : res pyexn json :=
  secret ← get_or (fromhex private_key) ValueError;
  require (byte_len secret =? 32) ValueError;;
  require (mem operation ["add"; "remove"; "put"]%string) ValueError;;
  robot_id ← text robot_id 128; counter ← count counter 1 (2 ^ 63 - 1);
  entity ← text entity 128; field ← text field 128;
  parents ← texts 64 parents;
  let body := [("robot_id", JStr robot_id); ("counter", JInt counter); ("operation", JStr operation);
               ("entity", JStr entity); ("field", JStr field); ("parents", jstrings (sorted_set parents));
               ("safety", JBool safety)]%string in
  body ← (if mem operation ["add"; "put"]%string then _ ← wire value; Ok (body ++ [("value", value)]%string)
          else targets ← texts 64 targets;
               require (negb (bool_decide (targets = []))) ValueError;;
               Ok (body ++ [("targets", jstrings (sorted_set targets))]%string));
  operation_id ← digest (JObj body);
  let signed_body := JObj (body ++ [("id", JStr operation_id)]%string) in
  w ← wire signed_body;
  d ← digest (JStr (hex (ed_public secret)));
  Ok (JObj [("body", signed_body); ("signature", JStr (b64encode (ed_sign secret w)));
            ("public_key_digest", JStr d)]%string).

(** [{row["robot_id"]: row["public_key"] for row in ...}] *)
Definition _robot_keys (s : St) : res pyexn (list (string * string)) :=
  rows ← journal s ROBOTS;
  foldM (λ d row, r ← item "robot_id" row; r ← str_item r; k ← item "public_key" row; k ← str_item k;
                  Ok (assoc_set r k d)) [] rows.

Definition taint (s : St) (robot : string) (body : json) (reason : string) : res pyexn St :=
  '(_, s) ← append s TAINTS (JObj [("robot_id", JStr robot);
     ("operation_id", default (JStr "") (jget "id" body)); ("reason", JStr reason)]%string);
  Ok s.

Definition signature_accepted (key : string) (signature : option json) (body : json) : bool :=
  match signature with
  | Some (JStr s) =>
      match b64decode s, fromhex key, wire body with
      | Some raw, Some public, Ok w => (byte_len public =? 32) && ed_verify public w raw
      | _, _, _ => false
      end
  | _ => false
  end.

(** [_verify]: the state is returned also when the operation is refused. *)
Definition _verify (s : St) (signed : json) : St * res pyexn json :=
  let body := default JNull (jget "body" signed) in
  let refuse robot reason :=
    match taint s robot body reason with Ok s' => (s', Err PermissionError) | Err e => (s, Err e) end in
  if negb (is_obj body && has_exact_keys ["body"; "signature"; "public_key_digest"]%string signed)
  then (s, Err ValueError)
  else match _robot_keys s with
  | Err e => (s, Err e)
  | Ok keys =>
      match jget "robot_id" body with
      | Some (JList _) | Some (JObj _) => (s, Err TypeError)
      | robot =>
          let robot := py_str (default JNull robot) in
          match (if bool_decide (jget "robot_id" body = Some (JStr robot)) then assoc robot keys else None) with
          | None => refuse robot "unknown or mismatched robot key"%string
          | Some key =>
              match digest (JStr key) with
              | Err e => (s, Err e)
              | Ok d =>
                  if negb (bool_decide (jget "public_key_digest" signed = Some (JStr d)))
                  then refuse robot "unknown or mismatched robot key"%string
                  else match (rows ← journal s REVOKED; rows_of robot rows) with
                  | Err e => (s, Err e)
                  | Ok (_ :: _) => refuse robot "revoked robot operation"%string
                  | Ok [] =>
                      if negb (signature_accepted key (jget "signature" signed) body)
                      then refuse robot "invalid operation signature"%string
                      else match digest (match body with JObj kvs => JObj (assoc_del "id" kvs) | v => v end) with
                      | Err e => (s, Err e)
                      | Ok expected =>
                          if bool_decide (jget "id" body = Some (JStr expected)) then (s, Ok body)
                          else (s, Err ValueError)
                      end
                  end
              end
          end
      end
  end.

(** The loop of [apply]: operations verified one by one, new ones logged. *)
Fixpoint apply_loop (s : St) (signed_ops : list json) (prior accepted : list string)
    : St * res pyexn (list string) :=
  match signed_ops with
  | [] => (s, Ok accepted)
  | signed :: rest =>
      let '(s, r) := _verify s signed in
      match (body ← r; i ← item "id" body; i ← str_item i; Ok (body, i)) with
      | Err e => (s, Err e)
      | Ok (body, i) =>
          if mem i prior then apply_loop s rest prior accepted
          else match append s OPS (jupdate body
                 [("signature", default JNull (jget "signature" signed));
                  ("public_key_digest", default JNull (jget "public_key_digest" signed))]%string) with
          | Err e => (s, Err e)
          | Ok (_, s) => apply_loop s rest (i :: prior) (accepted ++ [i])
          end
      end
  end.

Definition apply (s : St) (signed_ops : list json) : St * res pyexn (list string) :=
  match (_ ← count (Z.of_nat (length signed_ops)) 1 100000; rows ← journal s OPS;
         mapR (λ row, i ← item "id" row; str_item i) rows) with
  | Err e => (s, Err e)
  | Ok prior => apply_loop s signed_ops prior []
  end.

Definition robots_in (rows : list json) : res pyexn (list string) :=
  mapR (λ row, r ← item "robot_id" row; str_item r) rows.

(** The loop of [merge] that taints the operations of revoked robots. *)
Fixpoint taint_revoked (s : St) (revoked tainted : list string) (ops : list mesh_op) : res pyexn St :=
  match ops with
  | [] => Ok s
  | op :: rest =>
      s ← (if mem (op_robot op) revoked && negb (mem (op_id op) tainted) then
             '(_, s) ← append s TAINTS (JObj [("robot_id", JStr (op_robot op)); ("operation_id", JStr (op_id op));
               ("reason", JStr "historical operation invalidated by robot revocation")]%string); Ok s
           else Ok s);
      taint_revoked s revoked tainted rest
  end.

(** [{row.get("operation_id") for row in rows}], the strings of it. *)
Definition tainted_ids (rows : list json) : list string :=
  omap (λ row, match jget "operation_id" row with Some (JStr t) => Some t | _ => None end) rows.

Definition contradictions_json (v : view) : json :=
  JList (map (λ '(e, f, values), JObj [("entity", JStr e); ("field", JStr f);
    ("values", JList (map (λ '(r, x), JList [JStr r; x]) values))]%string) (v_contradictions v)).

Definition merge (s : St) (now : string) : res pyexn (view * St) :=
  revoked ← (rows ← journal s REVOKED; robots_in rows);
  ops ← (rows ← journal s OPS; mapR op_of_json rows);
  taints ← journal s TAINTS;
  let tainted := tainted_ids taints in
  s ← taint_revoked s revoked tainted ops;
  let accepted := List.filter (λ op, negb (mem (op_robot op) revoked)) ops in
  v ← merge_views accepted revoked;
  if bool_decide (v_contradictions v = []) then Ok (v, s)
  else
    '(_, s) ← append s CONTRADICTIONS
      (JObj [("contradictions", contradictions_json v); ("at", JStr now)]%string);
    Ok (v, s).
End mesh.
