(* ===== verification/MeshSpec.v ===== *)
(** * What the mesh merge guarantees

    The merge of the accepted operations does not depend on the order in
    which they arrived, and keeps what the observed-remove and multi-value
    semantics require. *)

From S2P Require Import Prelude Sha256 Base64 Wire Origin Canon Strings Vda Ledger Mesh.
Local Open Scope Z_scope.

(** ** Permuted inputs *)

Lemma mapR_perm {A B} (f : A → res pyexn B) l l' k : l ≡ₚ l' → mapR f l = Ok k →
  ∃ k', mapR f l' = Ok k' ∧ k ≡ₚ k'.
Proof.
  intros Hp. revert k. induction Hp as [|x l l' _ IH|x y l|l1 l2 l3 _ IH1 _ IH2]; intros k H.
  - injection H as <-. by exists [].
  - simpl in *. apply bind_Ok in H as (y & -> & H). apply bind_Ok in H as (ys & Hys & [= <-]).
    destruct (IH _ Hys) as (k' & -> & Hk). exists (y :: k'). split; [done|by constructor].
  - simpl in *. apply bind_Ok in H as (a & Ha & H). apply bind_Ok in H as (zs & H & [= <-]).
    apply bind_Ok in H as (b & Hb & H). apply bind_Ok in H as (ys & Hys & [= <-]).
    rewrite Ha, Hb, Hys. exists (b :: a :: ys). split; [done|by constructor].
  - destruct (IH1 _ H) as (k1 & H1 & Hp1). destruct (IH2 _ H1) as (k2 & H2 & Hp2).
    exists k2. split; [done|by etransitivity].
Qed.

Lemma mapR_ext {A B} (f g : A → res pyexn B) l : (∀ x, x ∈ l → f x = g x) → mapR f l = mapR g l.
Proof.
  induction l as [|x l IH]; intros H; simpl; [done|]. rewrite H by left. rewrite IH; [done|].
  intros y Hy. apply H. by right.
Qed.

Lemma filter_perm {A} (p : A → bool) l l' : l ≡ₚ l' → List.filter p l ≡ₚ List.filter p l'.
Proof.
  induction 1 as [|x l l' _ IH|x y l|l1 l2 l3 _ IH1 _ IH2]; simpl; [done| | |by etransitivity].
  - destruct (p x); [by constructor|done].
  - destruct (p x), (p y); try done. constructor.
Qed.

Lemma filter_ext_in {A} (p q : A → bool) l : (∀ x, x ∈ l → p x = q x) → List.filter p l = List.filter q l.
Proof.
  induction l as [|x l IH]; intros H; simpl; [done|]. rewrite (H x) by left. rewrite IH; [done|].
  intros y Hy. apply H. by right.
Qed.

Lemma elem_filter_b {A} (p : A → bool) x l : x ∈ List.filter p l ↔ x ∈ l ∧ p x = true.
Proof. rewrite !list_elem_of_In. apply filter_In. Qed.

Lemma elem_concat {A} (x : A) l : x ∈ concat l ↔ ∃ k, k ∈ l ∧ x ∈ k.
Proof.
  rewrite list_elem_of_In, in_concat. split; intros (k & H1 & H2); exists k; by rewrite !list_elem_of_In in *.
Qed.

(** ** Indexing by identifier *)

Definition ids (ops : list mesh_op) : list string := map op_id ops.

Lemma by_id_eq ops : NoDup (ids ops) → by_id ops = map (λ op, (op_id op, op)) ops.
Proof.
  intros Hd. unfold by_id.
  assert (H : ∀ d : list (string * mesh_op), (∀ op, op ∈ ops → op_id op ∉ d.*1) →
    fold_left (λ d op, assoc_set (op_id op) op d) ops d = d ++ map (λ op, (op_id op, op)) ops).
  { induction ops as [|op ops IH]; intros d Hin; simpl; [by rewrite app_nil_r|].
    simpl in Hd. apply NoDup_cons in Hd as [Hn Hd].
    assert (Hset : assoc_set (op_id op) op d = d ++ [(op_id op, op)]).
    { specialize (Hin op ltac:(by left)). clear -Hin. induction d as [|[k y] d IH]; simpl in *; [done|].
      apply not_elem_of_cons in Hin as [Hne Hin]. rewrite (proj2 (String.eqb_neq _ _) Hne). by rewrite IH. }
    rewrite Hset, IH; [by rewrite <- app_assoc|done|].
    intros o Ho. rewrite fmap_app, not_elem_of_app. split; [apply Hin; by right|]. simpl.
    intros E%list_elem_of_singleton.
    apply Hn. unfold ids. rewrite list_elem_of_In, in_map_iff. exists o. split; [congruence|by apply list_elem_of_In]. }
  apply H. intros op _. apply not_elem_of_nil.
Qed.

Lemma assoc_perm {A} k (l l' : list (string * A)) : NoDup l.*1 → l ≡ₚ l' → assoc k l = assoc k l'.
Proof.
  intros Hd Hp. assert (NoDup l'.*1) by (by rewrite <- Hp).
  destruct (assoc k l) as [x|] eqn:E.
  - rewrite assoc_In in E by done. symmetry. rewrite assoc_In by done. by rewrite <- Hp.
  - destruct (assoc k l') as [x|] eqn:E'; [|done].
    rewrite assoc_In, <- Hp, <- assoc_In in E' by done. congruence.
Qed.

Lemma keys_by_id ops : (map (λ op, (op_id op, op)) ops).*1 = ids ops.
Proof. unfold ids. induction ops as [|op ops IH]; simpl; [done|]. by f_equal. Qed.

Lemma parents_perm ops ops' i : NoDup (ids ops) → ops ≡ₚ ops' → parents_of ops i = parents_of ops' i.
Proof.
  intros Hd Hp. assert (NoDup (ids ops')) by (unfold ids in *; by rewrite <- Hp).
  unfold parents_of. rewrite !by_id_eq by done.
  by rewrite (assoc_perm i _ (map (λ op, (op_id op, op)) ops')) by (by rewrite ?keys_by_id, ?Hp).
Qed.

Lemma edge_count_perm ops ops' : ops ≡ₚ ops' → edge_count ops = edge_count ops'.
Proof. unfold edge_count. induction 1; simpl; lia. Qed.

Lemma search_ext p q fuel : (∀ x, p x = q x) → ∀ r l, search p fuel r l = search q fuel r l.
Proof.
  intros H. induction fuel as [|fuel IH]; intros r [|x l]; simpl; try done. rewrite H. by destruct (mem x r).
Qed.

Lemma ancestors_perm ops ops' i : NoDup (ids ops) → ops ≡ₚ ops' → ancestors ops i = ancestors ops' i.
Proof.
  intros Hd Hp. unfold ancestors. rewrite (edge_count_perm _ _ Hp), (parents_perm _ _ i Hd Hp).
  apply search_ext. intros x. by apply parents_perm.
Qed.

Lemma ids_filter p ops : NoDup (ids ops) → NoDup (ids (List.filter p ops)).
Proof. apply NoDup_map_filter. Qed.

Lemma same_id ops a b : NoDup (ids ops) → a ∈ ops → b ∈ ops → op_id a = op_id b → a = b.
Proof.
  unfold ids. induction ops as [|op ops IH]; intros Hd Ha Hb E; [by apply elem_of_nil in Ha|].
  simpl in Hd. apply NoDup_cons in Hd as [Hn Hd].
  assert (Hnot : ∀ c, c ∈ ops → op_id c ≠ op_id op).
  { intros c Hc Ec. apply Hn. rewrite <- Ec. rewrite list_elem_of_In. apply in_map. by apply list_elem_of_In. }
  apply elem_of_cons in Ha as [->|Ha], Hb as [->|Hb]; [done| | |by apply IH].
  - by destruct (Hnot b).
  - by destruct (Hnot a).
Qed.

Lemma mem_ext l k : (∀ x, x ∈ l ↔ x ∈ k) → ∀ x, mem x l = mem x k.
Proof. intros H x. apply eq_true_iff_eq. rewrite !mem_elem. apply H. Qed.

(** ** The observed-remove set *)

(** The entries that live adds contribute, given the removed tags. *)
Lemma entries_from live removed ees e en : NoDup (ids live) →
  mapR (add_entry removed) (by_id (List.filter (is_op "add") live)) = Ok ees →
  ((e, en) ∈ concat ees ↔ ∃ op, op ∈ live ∧ is_op "add" op = true ∧
     (mem (op_id op) removed = false ∨ op_safety op = true) ∧ op_entity op = Some e ∧
     ∃ c, op_counter op = Some c ∧
       en = Entry (op_id op) (default JNull (op_value op)) (op_safety op) (op_robot op) c).
Proof.
  intros Hd H. rewrite by_id_eq in H by (by apply ids_filter). rewrite elem_concat.
  apply mapR_Ok_Forall2 in H. split.
  - intros (k & Hk & He). apply list_elem_of_lookup in Hk as [i Hi].
    destruct (Forall2_lookup_r _ _ _ _ _ H Hi) as ([tag op] & Hop & Hadd).
    apply list_elem_of_lookup_2 in Hop. rewrite list_elem_of_In, in_map_iff in Hop.
    destruct Hop as (op' & [= <- <-] & [Hin Hp]%filter_In). exists op'. rewrite <- list_elem_of_In in Hin.
    unfold add_entry in Hadd. destruct (_ || _) eqn:Ec.
    + apply bind_Ok in Hadd as (e' & He'%get_or_Ok & Hadd). apply bind_Ok in Hadd as (c & Hc%get_or_Ok & [= <-]).
      apply list_elem_of_singleton in He as [= -> ->]. split_and!; try done; [|by exists c].
      apply orb_true_iff in Ec as [Ec|Ec]; [left; by apply negb_true_iff|by right].
    + injection Hadd as <-. by apply elem_of_nil in He.
  - intros (op & Hin & Hp & Hcond & He & c & Hc & ->).
    assert ((op_id op, op) ∈ map (λ op, (op_id op, op)) (List.filter (is_op "add") live)) as Hm.
    { rewrite list_elem_of_In, in_map_iff. exists op. split; [done|]. by apply filter_In; rewrite <- list_elem_of_In. }
    apply list_elem_of_lookup in Hm as [i Hi]. destruct (Forall2_lookup_l _ _ _ _ _ H Hi) as (k & Hk & Hadd).
    exists k. split; [by eapply list_elem_of_lookup_2|]. unfold add_entry in Hadd.
    assert (negb (mem (op_id op) removed) || op_safety op = true) as Ec.
    { destruct Hcond as [-> | ->]; [done|apply orb_true_r]. }
    rewrite Ec, He, Hc in Hadd. simpl in Hadd. injection Hadd as <-. by left.
Qed.

Lemma grouped_perm (l k : list (string * entry)) :
  l ≡ₚ k → (∀ a b, a ∈ l → b ∈ l → e_tag a.2 = e_tag b.2 → a = b) →
  map (λ g, (g.1, sort_by (λ a b, str_ltb (e_tag a) (e_tag b)) g.2)) (grouped l) =
  map (λ g, (g.1, sort_by (λ a b, str_ltb (e_tag a) (e_tag b)) g.2)) (grouped k).
Proof.
  intros Hp Htag. unfold grouped. rewrite !map_map. simpl.
  assert (sorted_set l.*1 = sorted_set k.*1) as -> by (apply sorted_set_ext; intros x; by rewrite Hp).
  apply map_ext_in. intros key _. f_equal. apply sort_by_perm.
  - intros x y. apply str_ltb_asym.
  - intros x y z. apply str_geb_trans.
  - by apply Permutation_map, filter_perm.
  - intros x y Hx Hy H1 H2. rewrite list_elem_of_In, in_map_iff in Hx, Hy.
    destruct Hx as (a & <- & [Ha _]%filter_In), Hy as (b & <- & [Hb _]%filter_In).
    f_equal. apply Htag; [by apply list_elem_of_In..|]. by apply str_ltb_antisym.
Qed.

(** ** The registers *)

Lemma pair_leb_total a b : pair_leb a b = false → pair_leb b a = true.
Proof.
  unfold pair_leb. destruct a as [a1 a2], b as [b1 b2]. simpl. rewrite orb_false_iff, andb_false_iff.
  intros [H1 H2]. destruct (str_ltb b1 a1) eqn:E; [done|]. simpl.
  rewrite (str_ltb_antisym _ _ H1 E), String.eqb_refl in *. simpl. destruct H2 as [?|H2%negb_false_iff]; [done|].
  by rewrite (str_ltb_asym _ _ H2).
Qed.

Lemma pair_leb_antisym a b : pair_leb a b = true → pair_leb b a = true → a = b.
Proof.
  unfold pair_leb. destruct a as [a1 a2], b as [b1 b2]. simpl. rewrite !orb_true_iff, !andb_true_iff, !negb_true_iff, !String.eqb_eq.
  intros [H1|[-> H1]] [H2|[E H2]]; subst; try (by rewrite (str_ltb_asym _ _ H1) in H2);
    try (by rewrite str_ltb_irrefl in *). by rewrite (str_ltb_antisym _ _ H2 H1).
Qed.

Lemma pair_leb_trans a b c : pair_leb a b = true → pair_leb b c = true → pair_leb a c = true.
Proof.
  unfold pair_leb. destruct a as [a1 a2], b as [b1 b2], c as [c1 c2]. simpl.
  rewrite !orb_true_iff, !andb_true_iff, !negb_true_iff, !String.eqb_eq.
  intros [H1|[-> H1]] [H2|[-> H2]]; auto.
  - left. by eapply str_ltb_trans.
  - right. split; [done|]. by eapply str_geb_trans.
Qed.

Lemma elem_insert_pair x p l : x ∈ insert_pair p l ↔ x = p ∨ x ∈ l.
Proof.
  induction l as [|q l IH]; simpl; [by rewrite list_elem_of_singleton, elem_of_nil; tauto|].
  destruct (bool_decide (p = q)) eqn:E.
  - apply bool_decide_eq_true in E as ->. rewrite elem_of_cons. tauto.
  - destruct (pair_leb p q); rewrite !elem_of_cons; [done|]. rewrite IH. tauto.
Qed.

Lemma elem_sorted_pairs x l : x ∈ sorted_pairs l ↔ x ∈ l.
Proof. induction l as [|p l IH]; simpl; [done|]. by rewrite elem_insert_pair, elem_of_cons, IH. Qed.

Definition pair_lt (a b : string * string) : Prop := pair_leb a b = true ∧ a ≠ b.

Lemma pair_lt_trans a b c : pair_lt a b → pair_lt b c → pair_lt a c.
Proof.
  intros [H1 N1] [H2 N2]. split; [by eapply pair_leb_trans|]. intros ->. apply N1. by apply pair_leb_antisym.
Qed.

Lemma sorted_pairs_sorted l : StronglySorted pair_lt (sorted_pairs l).
Proof.
  induction l as [|x l IH]; simpl; [constructor|].
  induction IH as [|y k Hk IHk Hy]; simpl; [repeat constructor|].
  destruct (bool_decide (x = y)) eqn:E; [by constructor|]. apply bool_decide_eq_false in E.
  destruct (pair_leb x y) eqn:E'.
  - constructor; [by constructor|]. constructor; [done|]. eapply Forall_impl; [exact Hy|].
    intros z Hz. by eapply pair_lt_trans.
  - constructor; [done|]. apply Forall_forall. intros z [->|Hz]%elem_insert_pair.
    + split; [by apply pair_leb_total|done].
    + rewrite Forall_forall in Hy. auto.
Qed.

Lemma sorted_pairs_ext l k : (∀ x, x ∈ l ↔ x ∈ k) → sorted_pairs l = sorted_pairs k.
Proof.
  intros H. apply (sorted_unique pair_lt).
  - by intros x [_ ?].
  - apply pair_lt_trans.
  - apply sorted_pairs_sorted.
  - apply sorted_pairs_sorted.
  - intros x. by rewrite !elem_sorted_pairs.
Qed.

Definition same_group (g h : string * string * list mesh_op) : Prop := g.1 = h.1 ∧ g.2 ≡ₚ h.2.

(** The rows of a group have distinct identifiers. *)
Lemma group_ids live rows k : NoDup (ids live) →
  mapR (λ op, k ← put_key op; Ok (k, op)) (List.filter (is_op "put") live) = Ok rows →
  NoDup (ids (map snd (List.filter (λ r, bool_decide (r.1 = k)) rows))).
Proof.
  intros Hd H. unfold ids. rewrite map_map. apply NoDup_map_filter.
  assert (map (λ x, op_id x.2) rows = ids (List.filter (is_op "put") live)) as ->; [|by apply ids_filter].
  apply mapR_Ok_Forall2 in H. unfold ids. induction H as [|op r l k' Hf _ IH]; simpl; [done|].
  apply bind_Ok in Hf as (kk & _ & [= <-]). simpl. by rewrite IH.
Qed.

Lemma register_groups_perm live live' gs : NoDup (ids live) → live ≡ₚ live' → register_groups live = Ok gs →
  ∃ hs, register_groups live' = Ok hs ∧ Forall2 same_group gs hs ∧
    Forall (λ g, NoDup (ids g.2) ∧ ∀ op, op ∈ g.2 → op ∈ live) gs.
Proof.
  intros Hd Hp H. unfold register_groups in *. apply bind_Ok in H as (rows & Hr & [= <-]).
  destruct (mapR_perm _ _ _ _ (filter_perm (is_op "put") _ _ Hp) Hr) as (rows' & Hr' & Hrp).
  rewrite Hr'. simpl. eexists. split; [done|].
  rewrite (sorted_pairs_ext rows.*1 rows'.*1) by (intros x; by rewrite Hrp). split.
  - apply Forall2_fmap_2, Forall_Forall2_diag, Forall_forall. intros k _. split; [done|]. simpl.
    by apply Permutation_map, filter_perm.
  - apply Forall_map, Forall_forall. intros k Hk. rewrite elem_sorted_pairs, <- Hrp in Hk. simpl. split.
    + by apply (group_ids live).
    + intros op Hop. rewrite list_elem_of_In, in_map_iff in Hop.
      destruct Hop as ([k' op'] & <- & [Hin _]%filter_In). rewrite <- list_elem_of_In in Hin. simpl.
      apply list_elem_of_lookup in Hin as [i Hi]. apply mapR_Ok_Forall2 in Hr.
      destruct (Forall2_lookup_r _ _ _ _ _ Hr Hi) as (o & Ho & Hf).
      apply bind_Ok in Hf as (kk & _ & [= _ <-]). apply list_elem_of_lookup_2 in Ho.
      by apply elem_filter_b in Ho as [? _].
Qed.

(** Without repeated identifiers, a row is never compared with itself. *)
Lemma maximal_rows_eq live rows : NoDup (ids rows) →
  maximal_rows live rows = List.filter (λ row, negb (existsb (λ other,
    negb (String.eqb (op_id other) (op_id row)) && mem (op_id row) (ancestors live (op_id other))) rows)) rows.
Proof.
  intros Hd. unfold maximal_rows.
  assert (H : ∀ k pre, rows = pre ++ k →
    omap (λ o, o) (imap (λ i row, if superseded live rows (length pre + i) row then None else Some row) k) =
    List.filter (λ row, negb (existsb (λ other,
      negb (String.eqb (op_id other) (op_id row)) && mem (op_id row) (ancestors live (op_id other))) rows)) k).
  { induction k as [|row k IH]; intros pre E; [done|]. rewrite imap_cons. simpl. rewrite Nat.add_0_r.
    assert (superseded live rows (length pre) row = existsb (λ other,
      negb (String.eqb (op_id other) (op_id row)) && mem (op_id row) (ancestors live (op_id other))) rows) as ->.
    { unfold superseded. rewrite E, delete_middle, !existsb_app. f_equal; [|simpl; rewrite String.eqb_refl; simpl].
      all: assert (Hne : ∀ o, o ∈ pre ++ k → op_id o ≠ op_id row); 
        [|apply eq_true_iff_eq; rewrite !existsb_exists; setoid_rewrite andb_true_iff; setoid_rewrite negb_true_iff;
          setoid_rewrite String.eqb_neq; setoid_rewrite <- list_elem_of_In; split; intros (o & Ho & Hm);
          exists o; (split; [done|]); try apply Hm; split; [|done]; apply Hne, elem_of_app; auto].
      all: intros o Ho Eo; subst rows; unfold ids in Hd; rewrite map_app in Hd; simpl in Hd;
        rewrite <- Permutation_middle in Hd; apply NoDup_cons in Hd as [Hn _]; apply Hn;
        rewrite <- map_app, <- Eo; rewrite list_elem_of_In; apply in_map; by apply list_elem_of_In. }
    rewrite <- (IH (pre ++ [row])) by (by rewrite <- app_assoc). rewrite length_app. simpl.
    destruct (existsb _ rows); simpl; [|f_equal]; f_equal;
      apply imap_ext; intros i x _; simpl; by rewrite <- Nat.add_assoc. }
  exact (H rows [] eq_refl).
Qed.

Lemma maximal_rows_perm live live' rows rows' : NoDup (ids live) → live ≡ₚ live' → NoDup (ids rows) →
  rows ≡ₚ rows' → maximal_rows live rows ≡ₚ maximal_rows live' rows'.
Proof.
  intros Hl Hp Hr Hrp. rewrite !maximal_rows_eq by (done || unfold ids in *; by rewrite <- Hrp).
  etransitivity; [by apply filter_perm|]. erewrite filter_ext_in; [reflexivity|].
  intros row _. simpl. f_equal. apply eq_true_iff_eq. rewrite !existsb_exists.
  setoid_rewrite <- list_elem_of_In. setoid_rewrite Hrp. setoid_rewrite (ancestors_perm live live' _ Hl Hp). done.
Qed.

Lemma elem_maximal live rows op : op ∈ maximal_rows live rows → op ∈ rows.
Proof.
  unfold maximal_rows. rewrite list_elem_of_omap. intros (o & Ho & E). rewrite elem_of_lookup_imap in Ho.
  destruct Ho as (i & x & -> & Hx). destruct (superseded live rows i x); [done|]. injection E as ->.
  by eapply list_elem_of_lookup_2.
Qed.

(** ** Views up to the spelling of values *)

Definition norm_settled (s : settled) : settled :=
  match s with
  | Settled v => Settled (canonical v)
  | Conflict vs => Conflict (map (λ c, (c.1, canonical c.2)) vs)
  end.

(** The written values and their texts. *)
Definition values_ok (texts : list string) (ops : list mesh_op) : Prop :=
  ∀ op v, op ∈ ops → op_value op = Some v → floats_ok v = true ∧ dumps v ∈ texts.

Section converge.
Variable texts : list string.
Hypothesis Hcf : collision_free texts.

Lemma values_equal ops a b v w d : values_ok texts ops → a ∈ ops → b ∈ ops →
  op_value a = Some v → op_value b = Some w → digest v = Ok d → digest w = Ok d → canonical v = canonical w.
Proof.
  intros Hv Ha Hb Ea Eb Dv Dw. destruct (Hv _ _ Ha Ea), (Hv _ _ Hb Eb). by eapply digest_canonical.
Qed.

Lemma value_digest_Ok op d : value_digest op = Ok d ↔ ∃ v, op_value op = Some v ∧ digest v = Ok d.
Proof. unfold value_digest, value_of. rewrite bind_Ok. by setoid_rewrite get_or_Ok. Qed.

Lemma length_one_set (l : list string) x y : (length (sorted_set l) <= 1)%nat → x ∈ l → y ∈ l → x = y.
Proof.
  rewrite <- (elem_sorted_set x), <- (elem_sorted_set y). destruct (sorted_set l) as [|a [|b k]]; simpl; [|..|lia].
  - intros _ H. by apply elem_of_nil in H.
  - by intros _ ->%list_elem_of_singleton ->%list_elem_of_singleton.
Qed.

Lemma bind_assoc_settled rows : (v ← (r ← get_or (head rows) IndexError; value_of r); Ok (Settled v)) =
  (r ← get_or (head rows) IndexError; v ← value_of r; Ok (Settled v)).
Proof. by destruct (head rows). Qed.

(** The value a group with one digest settles to. *)
Lemma settle_one ops rows rows' ds ds' v : values_ok texts ops → (∀ op, op ∈ rows → op ∈ ops) →
  rows ≡ₚ rows' → mapR value_digest rows = Ok ds → mapR value_digest rows' = Ok ds' →
  (length (sorted_set ds) <= 1)%nat → (r ← get_or (head rows) IndexError; value_of r) = Ok v →
  ∃ v', (r ← get_or (head rows') IndexError; value_of r) = Ok v' ∧ canonical v = canonical v'.
Proof.
  intros Hv Hin Hp Hd Hd' Hone H. apply bind_Ok in H as (r & Hr%get_or_Ok & Hval%get_or_Ok).
  destruct rows as [|r0 rows]; [done|]. injection Hr as ->.
  destruct rows' as [|r' rows']; [by apply Permutation_nil_r in Hp|].
  assert (r' ∈ r :: rows) as Hr' by (rewrite Hp; by left).
  simpl in Hd'. apply bind_Ok in Hd' as (d' & Hd0' & _). apply value_digest_Ok in Hd0' as (v' & Hv' & Hdv').
  exists v'. simpl. unfold value_of. rewrite Hv'. split; [done|].
  pose proof Hd as Hds. simpl in Hds. apply bind_Ok in Hds as (d & Hd0 & Hds). apply bind_Ok in Hds as (ds0 & _ & [= E]).
  apply value_digest_Ok in Hd0 as (v0 & Hv0 & Hdv). rewrite Hval in Hv0. injection Hv0 as <-.
  assert (d = d') as <-.
  { apply (length_one_set ds); [done|rewrite <- E; by left|].
    apply list_elem_of_lookup in Hr' as [i Hi]. apply mapR_Ok_Forall2 in Hd.
    destruct (Forall2_lookup_l _ _ _ _ _ Hd Hi) as (d2 & Hd2 & Hv2). apply value_digest_Ok in Hv2 as (w & Hw & Hdw).
    rewrite Hv' in Hw. injection Hw as <-. rewrite Hdv' in Hdw. injection Hdw as ->. by eapply list_elem_of_lookup_2. }
  apply (values_equal ops r r' v v' d); try done; apply Hin; [by left|done].
Qed.

Lemma conflicts_perm ops rows rows' cs : values_ok texts ops → (∀ op, op ∈ rows → op ∈ ops) →
  rows ≡ₚ rows' → mapR conflict_row rows = Ok cs →
  ∃ cs', mapR conflict_row rows' = Ok cs' ∧
    map (λ c, (c.1, canonical c.2)) (map (λ c, (c.1.1, c.2)) (sort_by conflict_before cs)) =
    map (λ c, (c.1, canonical c.2)) (map (λ c, (c.1.1, c.2)) (sort_by conflict_before cs')).
Proof.
  intros Hv Hin Hp H. destruct (mapR_perm _ _ _ _ Hp H) as (cs' & H' & Hcp). exists cs'. split; [done|].
  set (nm := λ c : string * string * json, (c.1, canonical c.2)).
  assert (Hn : ∀ l : list (string * string * json),
    map (λ c, (c.1, canonical c.2)) (map (λ c, (c.1.1, c.2)) l) = map (λ c, (c.1.1, c.2)) (map nm l)).
  { intros l. rewrite !map_map. by apply map_ext. }
  rewrite !Hn. f_equal. rewrite !(sort_by_map conflict_before conflict_before nm) by done.
  apply sort_by_perm.
  - intros x y. unfold conflict_before. rewrite negb_true_iff, negb_false_iff. apply pair_leb_total.
  - intros x y z. unfold conflict_before. rewrite !negb_false_iff. intros. by eapply pair_leb_trans.
  - by apply Permutation_map.
  - intros x y Hx Hy. unfold conflict_before. rewrite !negb_false_iff. intros H1 H2.
    pose proof (pair_leb_antisym _ _ H2 H1) as E.
    assert (Hrow : ∀ c, c ∈ cs → ∃ op v, op ∈ ops ∧ op_value op = Some v ∧ digest v = Ok c.1.2 ∧ c.2 = v).
    { intros c Hc. apply list_elem_of_lookup in Hc as [i Hi]. apply mapR_Ok_Forall2 in H.
      destruct (Forall2_lookup_r _ _ _ _ _ H Hi) as (op & Hop & Hf). apply list_elem_of_lookup_2 in Hop.
      unfold conflict_row, value_of in Hf. apply bind_Ok in Hf as (v & Hvv%get_or_Ok & Hf).
      apply bind_Ok in Hf as (d & Hd & [= <-]). exists op, v. auto. }
    rewrite list_elem_of_In, in_map_iff in Hx, Hy. destruct Hx as (a & <- & Ha), Hy as (b & <- & Hb).
    rewrite <- list_elem_of_In in Ha, Hb. simpl in E.
    destruct (Hrow a Ha) as (oa & va & Ia & Va & Da & Ea), (Hrow b Hb) as (ob & vb & Ib & Vb & Db & Eb).
    unfold nm. rewrite E. f_equal. rewrite Ea, Eb. rewrite <- E in Db.
    by apply (values_equal ops oa ob va vb a.1.2).
Qed.

Lemma settle_perm live live' rows rows' s : NoDup (ids live) → live ≡ₚ live' → values_ok texts live →
  (∀ op, op ∈ rows → op ∈ live) → NoDup (ids rows) → rows ≡ₚ rows' → settle live rows = Ok s →
  ∃ s', settle live' rows' = Ok s' ∧ norm_settled s = norm_settled s'.
Proof.
  intros Hl Hp Hv Hin Hd Hrp H. unfold settle in *. apply bind_Ok in H as (ds & Hds & H).
  assert (Hset : ∀ a b : list string, a ≡ₚ b → sorted_set a = sorted_set b).
  { intros a b E. apply sorted_set_ext. intros x. by rewrite E. }
  destruct (mapR_perm _ _ _ _ Hrp Hds) as (ds' & Hds' & Hdp). rewrite Hds'. cbn [mbind res_bind].
  rewrite <- (Hset _ _ Hdp). destruct (length (sorted_set ds) <=? 1)%nat eqn:E1; zbool.
  - rewrite <- bind_assoc_settled in *. apply bind_Ok in H as (v & Hval & [= <-]).
    destruct (settle_one live rows rows' ds ds' v) as (v' & -> & Hc); try done.
    exists (Settled v'). simpl. by rewrite Hc.
  - pose proof (maximal_rows_perm _ _ _ _ Hl Hp Hd Hrp) as Hmp.
    assert (Hmin : ∀ op, op ∈ maximal_rows live rows → op ∈ live) by (intros op Hop%elem_maximal; auto).
    apply bind_Ok in H as (ms & Hms & H). destruct (mapR_perm _ _ _ _ Hmp Hms) as (ms' & Hms' & Hmsp).
    rewrite Hms'. cbn [mbind res_bind]. rewrite <- (Hset _ _ Hmsp).
    destruct (length (sorted_set ms) =? 1)%nat eqn:E2; zbool.
    + rewrite <- bind_assoc_settled in *. apply bind_Ok in H as (v & Hval & [= <-]).
      destruct (settle_one live _ _ ms ms' v Hv Hmin Hmp Hms Hms') as (v' & -> & Hc); [lia|done|].
      exists (Settled v'). simpl. by rewrite Hc.
    + apply bind_Ok in H as (cs & Hcs & [= <-]).
      destruct (conflicts_perm live _ _ cs Hv Hmin Hmp Hcs) as (cs' & -> & Hc).
      eexists. split; [done|]. simpl. by rewrite Hc.
Qed.

Definition norm_register (kv : string * json) : string * json := (kv.1, canonical kv.2).
Definition norm_conflict (c : string * string * list (string * json)) : string * string * list (string * json) :=
  (c.1, map (λ x, (x.1, canonical x.2)) c.2).

Lemma assoc_set_norm k v l : map norm_register (assoc_set k v l) = assoc_set k (canonical v) (map norm_register l).
Proof. induction l as [|[k' x] l IH]; simpl; [done|]. destruct (String.eqb k k'); simpl; [done|]. by rewrite IH. Qed.

Lemma fold_perm live live' gs hs : NoDup (ids live) → live ≡ₚ live' → values_ok texts live →
  Forall2 same_group gs hs → Forall (λ g : string * string * list mesh_op, NoDup (ids g.2) ∧ ∀ op, op ∈ g.2 → op ∈ live) gs →
  ∀ r c r' c' r1 c1, map norm_register r = map norm_register r' → map norm_conflict c = map norm_conflict c' →
  foldM (register_step live) (r, c) gs = Ok (r1, c1) →
  ∃ r1' c1', foldM (register_step live') (r', c') hs = Ok (r1', c1') ∧
    map norm_register r1 = map norm_register r1' ∧ map norm_conflict c1 = map norm_conflict c1'.
Proof.
  intros Hl Hp Hv Hg. induction Hg as [|[[e f] rows] [k' rows'] gs hs [Hk Hrows] _ IH];
    intros Hall r c r' c' r1 c1 Hr Hc H; simpl in *.
  - injection H as <- <-. by exists r', c'.
  - subst k'. apply Forall_cons in Hall as [[Hd Hin] Hall].
    apply bind_Ok in H as ([r2 c2] & Hstep & H). apply bind_Ok in Hstep as (s & Hs & E).
    destruct (settle_perm live live' rows rows' s) as (s' & -> & Hn); try done. cbn [mbind res_bind].
    destruct s as [v|vs], s' as [v'|vs']; try done; simpl in Hn; injection Hn as Hn; injection E as <- <-;
      eapply IH; try exact H; try done.
    + by rewrite !assoc_set_norm, Hr, Hn.
    + rewrite !map_app, Hc. simpl. unfold norm_conflict at 2 4. simpl. by rewrite Hn.
Qed.

(** Two views that differ in the spelling of values alone. *)
Definition same_view (v w : view) : Prop :=
  v_entities v = v_entities w ∧ map norm_register (v_registers v) = map norm_register (v_registers w) ∧
  map norm_conflict (v_contradictions v) = map norm_conflict (v_contradictions w) ∧ v_active v = v_active w.

Lemma merge_views_perm ops ops' revoked v : ops ≡ₚ ops' → NoDup (ids ops) → values_ok texts ops →
  merge_views ops revoked = Ok v → ∃ v', merge_views ops' revoked = Ok v' ∧ same_view v v'.
Proof.
  intros Hp Hd Hv H. unfold merge_views in *.
  set (live := List.filter _ ops) in *. set (live' := List.filter _ ops').
  assert (Hlp : live ≡ₚ live') by (by apply filter_perm).
  assert (Hld : NoDup (ids live)) by (by apply ids_filter).
  assert (Hlv : values_ok texts live).
  { intros op x Hop. unfold live in Hop. apply elem_filter_b in Hop as [Hop _]. by apply Hv. }
  apply bind_Ok in H as (removed & Hrem & H). apply bind_Ok in H as (ees & Hees & H).
  apply bind_Ok in H as (gs & Hgs & H). apply bind_Ok in H as ([r c] & Hfold & H). injection H as <-.
  apply bind_Ok in Hrem as (tags & Htags & [= <-]).
  destruct (mapR_perm _ _ _ _ (filter_perm (is_op "remove") _ _ Hlp) Htags) as (tags' & Htags' & Htp).
  unfold removed_tags at 1. rewrite Htags'. cbn [mbind res_bind].
  assert (Hmem : ∀ x, mem x (concat tags) = mem x (concat tags')).
  { apply mem_ext. intros x. by rewrite (concat_perm _ _ Htp). }
  assert (Hap : by_id (List.filter (is_op "add") live) ≡ₚ by_id (List.filter (is_op "add") live')).
  { rewrite !by_id_eq by (apply ids_filter; unfold ids in *; by rewrite <- ?Hlp).
    by apply Permutation_map, filter_perm. }
  assert (Hees' : mapR (add_entry (concat tags')) (by_id (List.filter (is_op "add") live)) = Ok ees).
  { rewrite <- Hees. apply mapR_ext. intros [tag op] _. unfold add_entry. by rewrite Hmem. }
  destruct (mapR_perm _ _ _ _ Hap Hees') as (ees' & -> & Hep). cbn [mbind res_bind].
  destruct (register_groups_perm _ _ _ Hld Hlp Hgs) as (hs & -> & Hgh & Hall). cbn [mbind res_bind].
  destruct (fold_perm live live' gs hs Hld Hlp Hlv Hgh Hall [] [] [] [] r c eq_refl eq_refl Hfold)
    as (r' & c' & -> & Hr & Hc). cbn [mbind res_bind].
  eexists. split; [done|]. split_and!; simpl; [|done|done|by rewrite Hlp].
  apply grouped_perm; [by apply concat_perm|]. intros [e en] [e' en'] Ha Hb Etag. simpl in Etag.
  rewrite (entries_from _ _ _ e en Hld Hees) in Ha. rewrite (entries_from _ _ _ e' en' Hld Hees) in Hb.
  destruct Ha as (a & Ha & _ & _ & Ea & ca & Ca & ->), Hb as (b & Hb & _ & _ & Eb & cb & Cb & ->).
  simpl in Etag. rewrite (same_id live a b Hld Ha Hb Etag) in *. congruence.
Qed.
End converge.

Lemma grouped_elem {A} e (en : A) (p : A → A → bool) (rows : list (string * A)) :
  (∃ l, (e, l) ∈ map (λ g, (g.1, sort_by p g.2)) (grouped rows) ∧ en ∈ l) ↔ (e, en) ∈ rows.
Proof.
  unfold grouped. rewrite map_map. simpl. split.
  - intros (l & Hl & Hen). rewrite list_elem_of_In, in_map_iff in Hl. destruct Hl as (k & [= <- <-] & _).
    rewrite sort_by_Permutation, list_elem_of_In, in_map_iff in Hen.
    destruct Hen as ([e' x] & <- & [Hin E]%filter_In). simpl in *. apply String.eqb_eq in E as <-.
    by rewrite list_elem_of_In.
  - intros Hin. eexists. split.
    + rewrite list_elem_of_In, in_map_iff. exists e. split; [done|]. rewrite <- list_elem_of_In, elem_sorted_set.
      by apply (list_elem_of_fmap_2 fst _ (e, en)).
    + rewrite sort_by_Permutation, list_elem_of_In, in_map_iff. exists (e, en). split; [done|].
      apply filter_In. rewrite String.eqb_refl, <- list_elem_of_In. done.
Qed.

Lemma removed_spec live removed tag : removed_tags live = Ok removed →
  (mem tag removed = false ↔ (∀ other tags, other ∈ live → is_op "remove" other = true →
    op_targets other = Some tags → tag ∉ tags)).
Proof.
  unfold removed_tags. intros (tags & Ht%mapR_Ok_Forall2 & [= <-])%bind_Ok.
  rewrite <- not_true_iff_false, mem_elem, elem_concat. split.
  - intros H other ts Ho Hop Hts Hin. apply H. exists ts. split; [|done].
    assert (other ∈ List.filter (is_op "remove") live) as Hf by (by apply elem_filter_b).
    apply list_elem_of_lookup in Hf as [i Hi]. destruct (Forall2_lookup_l _ _ _ _ _ Ht Hi) as (k & Hk & Hg%get_or_Ok).
    rewrite Hts in Hg. injection Hg as <-. by eapply list_elem_of_lookup_2.
  - intros H (k & Hk & Hin). apply list_elem_of_lookup in Hk as [i Hi].
    destruct (Forall2_lookup_r _ _ _ _ _ Ht Hi) as (op & Hop & Hg%get_or_Ok).
    apply list_elem_of_lookup_2, elem_filter_b in Hop as [Hop Hr]. exact (H op k Hop Hr Hg Hin).
Qed.

Lemma exist_iff {A} (P Q : A → Prop) : (∀ x, P x ↔ Q x) → (∃ x, P x) ↔ (∃ x, Q x).
Proof. intros H. split; intros [x Hx]; exists x; by apply H. Qed.

Lemma rows_of_snoc rid l rows row : rows_of rid l = Ok rows → jget "robot_id" row = Some (JStr rid) →
  rows_of rid (l ++ [row]) = Ok (rows ++ [row]).
Proof.
  unfold rows_of. intros H Hr. apply bind_Ok in H as (k & Hk & [= <-]).
  rewrite mapR_app, Hk. simpl. unfold item. rewrite Hr. simpl. rewrite bool_decide_eq_true_2 by done.
  by rewrite List.filter_app, map_app.
Qed.

(** The number of keys of a dictionary. *)
Definition json_size (v : json) : nat := length (jkeys v).

(** ** Properties *)

(** C33: strong eventual consistency of the site mesh: sites that hold the
    same accepted operations, received in any order, merge to the same view.
    The entities are identical; register values and retained conflicts are
    the same up to the order of keys in a value, which the canonical
    encoding erases, as long as SHA-256 tells the written values apart. *)
Theorem mesh_converges texts ops ops' revoked v :
  collision_free texts → (∀ op x, op ∈ ops → op_value op = Some x → floats_ok x = true ∧ dumps x ∈ texts) →
  NoDup (map op_id ops) → ops ≡ₚ ops' → merge_views ops revoked = Ok v →
  ∃ v', merge_views ops' revoked = Ok v' ∧ v_entities v' = v_entities v ∧
    map norm_register (v_registers v') = map norm_register (v_registers v) ∧
    map norm_conflict (v_contradictions v') = map norm_conflict (v_contradictions v) ∧
    v_active v' = v_active v.
Proof.
  intros Hc Hv Hd Hp H. destruct (merge_views_perm texts Hc ops ops' revoked v Hp Hd Hv H) as (v' & H' & ? & ? & ? & ?).
  exists v'. split_and!; done.
Qed.

(** what the merged entities are: an entity lists exactly the live adds
    that no live remove names or that carry a safety marker; a safety entry
    survives every remove. *)
Theorem mesh_entities ops revoked v e en :
  NoDup (map op_id ops) → merge_views ops revoked = Ok v →
  ((∃ l, (e, l) ∈ v_entities v ∧ en ∈ l) ↔
   ∃ op, op ∈ ops ∧ (op_robot op ∉ revoked) ∧ operation op = "add"%string ∧ op_entity op = Some e ∧
     (op_safety op = true ∨ (∀ other tags, other ∈ ops → op_robot other ∉ revoked →
        operation other = "remove"%string → op_targets other = Some tags → op_id op ∉ tags)) ∧
     ∃ c, op_counter op = Some c ∧
       en = Entry (op_id op) (default JNull (op_value op)) (op_safety op) (op_robot op) c).
Proof.
  intros Hd H. unfold merge_views in H. set (live := List.filter _ ops) in *.
  apply bind_Ok in H as (removed & Hrem & H). apply bind_Ok in H as (ees & Hees & H).
  apply bind_Ok in H as (gs & _ & H). apply bind_Ok in H as ([r c] & _ & H). injection H as <-. simpl.
  assert (Hlive : ∀ op, op ∈ live ↔ op ∈ ops ∧ (op_robot op ∉ revoked)).
  { intros op. unfold live. rewrite elem_filter_b, negb_true_iff, <- mem_elem, not_true_iff_false. done. }
  pose proof (entries_from live removed ees e en (ids_filter _ _ Hd) Hees) as Hfrom.
  rewrite grouped_elem, Hfrom. clear Hfrom. apply exist_iff. intros op. rewrite Hlive. unfold is_op.
  rewrite String.eqb_eq, (removed_spec live removed (op_id op) Hrem). split.
  - intros ([Hin Hr] & Ho & Hc & He & Hen). split_and!; try done. destruct Hc as [Hc|Hc]; [|by left]. right.
    intros other tags Hot Hor Hoo Ht. apply (Hc other); [by apply Hlive|unfold is_op; by rewrite Hoo|done].
  - intros (Hin & Hr & Ho & He & Hc & Hen). split_and!; try done. destruct Hc as [Hc|Hc]; [by right|]. left.
    intros other tags Hot%Hlive Hoo Ht. unfold is_op in Hoo. apply String.eqb_eq in Hoo. by eapply (Hc other); try apply Hot.
Qed.

(** registering the same robot again with the same key is refused: the
    journal record carries its sequence number, previous digest and time, so
    the comparison with the freshly built body never holds.  (The message
    of the refusal speaks of a changed key.) *)
Theorem mesh_reregistration_refused `{ED : Ed25519} `{LL : LedgerLaws St} s robot_id public_key r s' l l' :
  journal s ROBOTS = Ok l → rows_of robot_id l = Ok [] →
  register_robot s true robot_id public_key = Ok (r, s') → journal s' ROBOTS = Ok l' →
  register_robot s' true robot_id public_key = Err ValueError.
Proof.
  intros Hl Hno Hreg Hl'. unfold register_robot in *. simpl in *.
  destruct (text robot_id 128) as [rid|] eqn:Er; [|done]. simpl in *.
  assert (rid = robot_id) as -> by (unfold text in Er; by res_inv).
  destruct (get_or (fromhex public_key) ValueError) as [key|]; [|done]. simpl in *.
  destruct (require (byte_len key =? 32) ValueError) as [[]|]; [|done]. simpl in *.
  destruct (digest (JStr public_key)) as [d|]; [|done]. cbn [mbind res_bind] in *.
  rewrite Hl, Hl' in *. cbn [mbind res_bind] in *. rewrite Hno in Hreg. cbn [mbind res_bind last] in Hreg.
  apply bind_Ok in Hreg as ([signed s1] & Happ & Hreg). apply bind_Ok in Hreg as (record & Hrec & [= <- <-]).
  destruct (append_same _ _ _ _ _ _ _ Hl Happ Hl') as (record' & -> & Hr & (prev & at_ & ->)).
  rewrite (rows_of_snoc _ _ _ _ Hno) by reflexivity. rewrite app_nil_l. cbn [mbind res_bind last].
  rewrite bool_decide_eq_false_2; [done|]. intros E. apply (f_equal json_size) in E. vm_compute in E. discriminate E.
Qed.

(** ** Witnesses *)

Definition demo_op (robot i kind : string) (field : string) (v : json) (parents : list string) : mesh_op :=
  Op robot i kind (Some "shelf"%string) (Some field) (Some v) None parents false (Some (JInt 1)).
Definition demo_ops : list mesh_op :=
  [demo_op "r1" "a1" "add" "f" (JInt 1) []; demo_op "r1" "p1" "put" "f" (JInt 1) [];
   demo_op "r2" "p2" "put" "f" (JInt 2) ["p1"]; demo_op "r3" "p3" "put" "f" (JInt 3) ["p1"]]%string.
Definition demo_texts : list string := map (λ n, dumps (JInt n)) [1; 2; 3].
Definition demo_view (ops : list mesh_op) : view := ok_or (View [] [] [] 0) (merge_views ops []).

Lemma demo_collision_free : collision_free demo_texts.
Proof. apply collision_freeb_true. vm_compute. reflexivity. Qed.

Lemma demo_ids : NoDup (map op_id demo_ops).
Proof. apply distinct_NoDup. reflexivity. Qed.

Lemma demo_merge : merge_views demo_ops [] = Ok (demo_view demo_ops).
Proof. unfold demo_view. apply is_ok_or. vm_compute. reflexivity. Qed.

Lemma demo_values op x : op ∈ demo_ops → op_value op = Some x → floats_ok x = true ∧ dumps x ∈ demo_texts.
Proof.
  assert (Forall (λ op, ∀ x, op_value op = Some x → floats_ok x = true ∧ dumps x ∈ demo_texts) demo_ops) as H.
  { repeat apply Forall_cons_2; try apply Forall_nil_2; intros y [= <-]; (split; [done|]);
      apply list_elem_of_In; vm_compute; auto. }
  rewrite Forall_forall in H. intros Hin. by apply H.
Qed.

Lemma mesh_converges_witness : length (v_contradictions (demo_view demo_ops)) = 1%nat ∧
  ∃ v', merge_views (rev demo_ops) [] = Ok v' ∧ v_entities v' = v_entities (demo_view demo_ops) ∧
    map norm_register (v_registers v') = map norm_register (v_registers (demo_view demo_ops)) ∧
    map norm_conflict (v_contradictions v') = map norm_conflict (v_contradictions (demo_view demo_ops)) ∧
    v_active v' = v_active (demo_view demo_ops).
Proof.
  split; [vm_compute; reflexivity|].
  apply (mesh_converges demo_texts demo_ops (rev demo_ops) [] (demo_view demo_ops));
    [apply demo_collision_free|apply demo_values|apply demo_ids|apply Permutation_rev|apply demo_merge].
Defined.

Lemma mesh_entities_witness :
  (∃ l, ("shelf"%string, l) ∈ v_entities (demo_view demo_ops) ∧ Entry "a1" (JInt 1) false "r1" (JInt 1) ∈ l) ↔
   ∃ op, op ∈ demo_ops ∧ (op_robot op ∉ []) ∧ operation op = "add"%string ∧ op_entity op = Some "shelf"%string ∧
     (op_safety op = true ∨ (∀ other tags, other ∈ demo_ops → op_robot other ∉ [] →
        operation other = "remove"%string → op_targets other = Some tags → op_id op ∉ tags)) ∧
     ∃ c, op_counter op = Some c ∧
       Entry "a1" (JInt 1) false "r1" (JInt 1) = Entry (op_id op) (default JNull (op_value op)) (op_safety op) (op_robot op) c.
Proof. apply (mesh_entities demo_ops [] (demo_view demo_ops)); [apply demo_ids|apply demo_merge]. Defined.

#[local] Instance no_ed25519 : Ed25519 := {
  ed_sign k m := sha256 (k +:+ m); ed_public k := sha256 k; ed_verify p m s := false }.
#[local] Existing Instances memory_ledger memory_ledger_laws.

Definition demo_key : string := of_bytes (concat (repeat (str_bytes "0a") 32)).
Definition demo_registered : json * memory := ok_or (JNull, []) (register_robot [] true "r1" demo_key).

Lemma mesh_reregistration_witness : register_robot demo_registered.2 true "r1" demo_key = Err ValueError.
Proof.
  apply (mesh_reregistration_refused (St := memory) [] "r1" demo_key demo_registered.1 demo_registered.2 []
    (mem_records demo_registered.2 ROBOTS)); [reflexivity|reflexivity| |reflexivity].
  rewrite <- surjective_pairing. unfold demo_registered. apply is_ok_or. vm_compute. reflexivity.
Defined.
