(* ===== verification/Seal.v ===== *)
(** * The signing side of the ledger interface

    What the components that also sign records, verify receipts and compare
    journal tips rely on ([fp.sign], [fp.verify], [fp.checkpoint],
    [fp.signed_at]); the signed journals discharge the laws. *)

From S2P Require Import Prelude Sha256 Base64 Wire Origin Journal JournalSpec Ledger.
Local Open Scope Z_scope.

Class Sealed (S : Type) := {
  checkpoint : S → string → res pyexn (Z * string);
  signed_at : S → string → Z → res pyexn json;
  sign : S → json → res pyexn (json * S);
  verify : S → json → res pyexn bool;
}.

(** [sound]: the store's key material is complete. *)
Class SealedLaws (S : Type) `{Ledger S, Sealed S} := {
  sound : S → Prop;
  checkpoint_journal : ∀ s name c t, checkpoint s name = Ok (c, t) →
    ∃ l, journal s name = Ok l ∧ c = Z.of_nat (length l) ∧ c <= MAX_ROWS;
  signed_at_journal : ∀ s name i row l, signed_at s name i = Ok row → journal s name = Ok l →
    verify s row = Ok true ∧ 0 <= i ∧ jget "record" row = l !! Z.to_nat i;
  checkpoint_tip : ∀ s name c t, checkpoint s name = Ok (c, t) → 0 < c →
    ∃ row, signed_at s name (c - 1) = Ok row ∧ digest row = Ok t;
  append_signed_at : ∀ s other name r x s' l i row, append s other r = Ok (x, s') → journal s name = Ok l →
    0 <= i < Z.of_nat (length l) → signed_at s' name i = Ok row → signed_at s name i = Ok row;
  append_reads : ∀ s name r x s', append s name r = Ok (x, s') → is_ok (journal s name) = true;
  sign_sound : ∀ s r x s', sound s → sign s r = Ok (x, s') →
    sound s' ∧ verify s' x = Ok true ∧ jget "record" x = Some r;
  sign_journal : ∀ s r x s' name l, sign s r = Ok (x, s') → journal s name = Ok l → journal s' name = Ok l;
  sign_verify : ∀ s r x s' y, sign s r = Ok (x, s') → verify s y = Ok true → verify s' y = Ok true;
  append_sound : ∀ s name r x s', sound s → append s name r = Ok (x, s') →
    sound s' ∧ verify s' x = Ok true;
  append_verify : ∀ s name r x s' y, append s name r = Ok (x, s') → verify s y = Ok true → verify s' y = Ok true;
}.

(** Once a store has its key, signing a record leaves every journal as it was. *)
Class SteadySeal (S : Type) `{Ledger S, Sealed S, !SteadyLaws S} :=
  sign_steady : ∀ s r x s', steady s → sign s r = Ok (x, s') → steady s' ∧ ∀ name, journal s' name = journal s name.

(** ** The signed journals implement it *)

Section signed.
Context `{ED : Ed25519, EDL : !Ed25519Laws}.
Variable retained_size : list json → Z.
Variables (writer : string * string) (fresh : string) (clock : Z → string).
Hypothesis writer_trusted : is_Some (TRUST writer.2).
Hypothesis fresh_size : byte_len fresh = 32.

Definition store_checkpoint (st : store) (name : string) : res pyexn (Z * string) :=
  '(c, t, _) ← Journal.checkpoint retained_size (cold st) name; Ok (c, t).
Definition store_signed_at (st : store) (name : string) (i : Z) : res pyexn json :=
  fst <$> Journal.signed_at retained_size (cold st) name i.
Definition store_sign (st : store) (record : json) : res pyexn (json * store) :=
  '(signed, i) ← Origin.sign (s_identity st) record writer fresh; Ok (signed, set_identity st i).

#[local] Instance signed_sealed : Sealed store := {
  checkpoint := store_checkpoint;
  signed_at := store_signed_at;
  sign := store_sign;
  verify st := store_verify (s_identity st);
}.

(** A verified state: the rows of the file and their chain. *)
Lemma cold_state_chain st name j st' : _state retained_size (cold st) name = Ok (j, st') →
  rows (s_files st !! name) = Ok (signed j) ∧ check_chain (s_identity st) 0 "" (signed j) = Ok (tip j) ∧
  filename st name = Ok name.
Proof.
  unfold _state. intros H. apply bind_Ok in H as (n & Hn & H).
  assert (n = name) as ->. { unfold filename in Hn. by res_inv. }
  simpl in H. apply bind_Ok in H as (vs & Hvs & H). apply bind_Ok in H as (t & Ht & H). by injection H as <- <-.
Qed.

Lemma chain_records i rows : ∀ index previous t, check_chain i index previous rows = Ok t →
  ∃ l, mapR (λ row, get_or (jget "record" row) KeyError) rows = Ok l ∧ length l = length rows ∧
    ∀ n row, rows !! n = Some row → store_verify i row = Ok true ∧ jget "record" row = l !! n.
Proof.
  induction rows as [|r rows IH]; intros index previous t Hc; [by exists []|].
  apply check_chain_cons in Hc as (d & (rec & Hr & Hv & _) & Hc).
  destruct (IH _ _ _ Hc) as (l & Hl & Hlen & Hrows). exists (rec :: l). simpl. rewrite Hr. simpl. rewrite Hl. simpl.
  split_and!; [done|by f_equal|]. intros [|n] row Hn; simpl in *; [|by apply Hrows]. by injection Hn as <-.
Qed.

Lemma rows_bound f vs : rows f = Ok vs → Z.of_nat (length vs) <= MAX_ROWS.
Proof.
  assert (Hl : ∀ lines total n vs, 0 <= n <= MAX_ROWS → rows_loop total n lines = Ok vs →
    n + Z.of_nat (length vs) <= MAX_ROWS).
  { induction lines as [|l lines IH]; simpl; intros total n ws Hn Hws; [injection Hws as <-; simpl; lia|].
    apply bind_Ok in Hws as ([] & _ & Hws). apply bind_Ok in Hws as ([] & Hr%require_Ok & Hws).
    apply bind_Ok in Hws as (v & _ & Hws). apply bind_Ok in Hws as ([] & _ & Hws).
    apply bind_Ok in Hws as (x & _ & Hws). apply bind_Ok in Hws as (k & Hk & [= <-]).
    rewrite negb_true_iff, !orb_false_iff, Z.leb_gt in Hr. destruct Hr as [[Hr _] _].
    apply IH in Hk; [|lia]. simpl length. lia. }
  unfold rows. destruct f as [f|]; [|intros [= <-]; by vm_compute].
  intros H%Hl; [lia|unfold MAX_ROWS; lia].
Qed.

Lemma signed_checkpoint_journal st name c t : store_checkpoint st name = Ok (c, t) →
  ∃ l, signed_journal retained_size st name = Ok l ∧ c = Z.of_nat (length l) ∧ c <= MAX_ROWS.
Proof.
  unfold store_checkpoint, Journal.checkpoint. intros H. apply bind_Ok in H as ([[c' t'] st'] & H & E).
  injection E as -> ->. apply bind_Ok in H as ([j st1] & Hj & [= <- <- <-]).
  destruct (cold_state_chain _ _ _ _ Hj) as (Hrows & Hchain & _).
  destruct (chain_records _ _ _ _ _ Hchain) as (l & Hl & Hlen & _). exists l. split_and!.
  - apply signed_journal_Ok. eauto.
  - by rewrite Hlen.
  - by eapply rows_bound.
Qed.

Lemma signed_signed_at st name i row l : store_signed_at st name i = Ok row →
  signed_journal retained_size st name = Ok l →
  store_verify (s_identity st) row = Ok true ∧ 0 <= i ∧ jget "record" row = l !! Z.to_nat i.
Proof.
  unfold store_signed_at, Journal.signed_at.
  intros H (j & st1 & Hj & Hl)%signed_journal_Ok. rewrite Hj in H. cbn [mbind res_bind] in H.
  unfold count in H. destruct (_ && _) eqn:Ei in H; [|done]. cbn [require mbind res_bind] in H.
  destruct (signed j !! Z.to_nat i) as [row'|] eqn:Er; [|done]. injection H as <-.
  destruct (cold_state_chain _ _ _ _ Hj) as (_ & Hchain & _).
  destruct (chain_records _ _ _ _ _ Hchain) as (l' & Hl' & _ & Hall).
  assert (l' = l) as -> by congruence. destruct (Hall _ _ Er) as [Hv Hr]. apply andb_true_iff in Ei as [Ei _]. zbool. by split_and!.
Qed.

Lemma sign_cold_journal st r x i name l : Origin.sign (s_identity st) r writer fresh = Ok (x, i) →
  signed_journal retained_size st name = Ok l → signed_journal retained_size (set_identity st i) name = Ok l.
Proof.
  intros (Hc & He & Hh)%sign_extends (j & st1 & Hj & Hl)%signed_journal_Ok. apply signed_journal_Ok.
  destruct (cold_state_chain _ _ _ _ Hj) as (Hrows & Hchain & Hname).
  unfold _state. change (filename (cold (set_identity st i)) name) with (filename st name). rewrite Hname.
  cbn [mbind res_bind]. simpl cache_get. simpl s_files. simpl s_identity. cbv iota. rewrite Hrows. cbn [mbind res_bind].
  rewrite (check_chain_extends _ i _ Hc He Hh _ _ _ Hchain). cbn [mbind res_bind]. eexists _, _. by split; [reflexivity|].
Qed.

Lemma chain_tip i rows : ∀ index previous t row, check_chain i index previous (rows ++ [row]) = Ok t → digest row = Ok t.
Proof.
  induction rows as [|r rows IH]; intros index previous t row Hc; apply check_chain_cons in Hc as (d & Hr & Hc).
  - injection Hc as <-. by destruct Hr as (? & ? & ? & ? & ? & ? & ?).
  - by apply IH in Hc.
Qed.

Lemma signed_checkpoint_tip st name c t : store_checkpoint st name = Ok (c, t) → 0 < c →
  ∃ row, store_signed_at st name (c - 1) = Ok row ∧ digest row = Ok t.
Proof.
  unfold store_checkpoint, Journal.checkpoint, store_signed_at, Journal.signed_at. intros H Hc.
  bind H as [[c' t'] st'] H'. injection H as -> ->. bind H' as [j st1] Hj. injection H' as <- <- <-.
  destruct (cold_state_chain _ _ _ _ Hj) as (_ & Hchain & _). rewrite Hj. cbn [mbind res_bind].
  destruct (signed j) as [|row rows _] eqn:E using rev_ind; [simpl in Hc; lia|].
  rewrite length_app in *. simpl length in *. exists row. split; [|by eapply chain_tip].
  unfold count. rewrite (proj2 (Z.leb_le 0 _)), (proj2 (Z.leb_le _ (_ - 1))) by lia. cbn [andb require mbind res_bind].
  replace (Z.to_nat (Z.of_nat (length rows + 1) - 1)) with (length rows) by lia.
  by rewrite lookup_app_r, Nat.sub_diag by lia.
Qed.

Lemma signed_append_signed_at st other name r x st' l i row :
  signed_append retained_size writer fresh clock st other r = Ok (x, st') → signed_journal retained_size st name = Ok l →
  0 <= i < Z.of_nat (length l) → store_signed_at st' name i = Ok row → store_signed_at st name i = Ok row.
Proof.
  intros (_ & _ & t & v & _ & Hf & _)%signed_append_Ok (j & st2 & Hj & Hl)%signed_journal_Ok Hi H. unfold store_signed_at, Journal.signed_at in *.
  destruct (_state _ (cold st') name) as [[j' st3]|] eqn:Hj'; [|done]. cbn [mbind res_bind] in H.
  unfold count in *. destruct (_ && _) in H; [|done]. cbn [require mbind res_bind] in H.
  destruct (signed j' !! Z.to_nat i) as [row'|] eqn:Er; [|done]. injection H as <-.
  destruct (cold_state_chain _ _ _ _ Hj') as (Hrows' & _ & _). destruct (cold_state_chain _ _ _ _ Hj) as (Hrows & _ & _).
  assert (∃ b, signed j' = signed j ++ b) as [b Hab].
  { rewrite Hf in Hrows'. destruct (decide (other = name)) as [->|Hne].
    - rewrite lookup_insert_eq in Hrows'. simpl in Hrows'. rewrite rows_files in Hrows.
      apply rows_loop_app in Hrows' as (a & b & Hab & Ha & _). rewrite Hrows in Ha. injection Ha as <-. by exists b.
    - rewrite lookup_insert_ne, Hrows in Hrows' by done. injection Hrows' as <-. exists []. by rewrite app_nil_r. }
  pose proof (mapR_length _ _ _ Hl) as Hlen. rewrite Hab, lookup_app_l in Er by lia.
  rewrite Hj. cbn [mbind res_bind].
  rewrite (proj2 (Z.leb_le 0 _)), (proj2 (Z.leb_le _ (_ - 1))) by lia. cbn [andb require mbind res_bind]. by rewrite Er.
Qed.

Lemma signed_append_reads st name r x st' : signed_append retained_size writer fresh clock st name r = Ok (x, st') →
  is_ok (signed_journal retained_size st name) = true.
Proof.
  intros (j & st1 & t & v & Hj & _)%signed_append_Ok. destruct (cold_state_chain _ _ _ _ Hj) as (_ & Hchain & _).
  destruct (chain_records _ _ _ _ _ Hchain) as (l & Hl & _).
  assert (signed_journal retained_size st name = Ok l) as -> by (apply signed_journal_Ok; eauto). done.
Qed.

(** The row is signed by the identity the store has afterwards. *)
Lemma append_signs st name r row st' : signed_append retained_size writer fresh clock st name r = Ok (row, st') →
  ∃ body, Origin.sign (s_identity st) body writer fresh = Ok (row, s_identity st').
Proof.
  unfold signed_append, Journal.append. intros H.
  apply bind_Ok in H as (n & _ & H). apply bind_Ok in H as ([j st1] & Hj & H).
  apply bind_Ok in H as (n' & _ & H). apply bind_Ok in H as ([row' i] & Hsign & H).
  apply bind_Ok in H as (w & _ & H). apply bind_Ok in H as ([] & _ & H). apply bind_Ok in H as ([] & _ & H).
  apply bind_Ok in H as (d & _ & H). injection H as -> <-. apply cold_state in Hj as (_ & _ & Hi).
  rewrite Hi in Hsign. eauto.
Qed.

#[local] Instance signed_sealed_laws :
  @SealedLaws store (signed_ledger retained_size writer fresh clock) signed_sealed.
Proof.
  unshelve refine {| sound st := identity_ok (s_identity st) |}.
  - apply signed_checkpoint_journal.
  - apply signed_signed_at.
  - apply signed_checkpoint_tip.
  - apply signed_append_signed_at.
  - apply signed_append_reads.
  - intros s r x s' Hs H. simpl in H. unfold store_sign in H. apply bind_Ok in H as ([y i] & H & [= -> <-]). simpl.
    destruct (sign_verifies _ _ _ _ _ _ Hs writer_trusted fresh_size H) as (? & ? & ? & _). done.
  - intros s r x s' name l H. simpl in H. unfold store_sign in H. apply bind_Ok in H as ([y i] & H & [= -> <-]).
    simpl. by eapply sign_cold_journal.
  - intros s r x s' y H. simpl in H. unfold store_sign in H. apply bind_Ok in H as ([z i] & H & [= -> <-]).
    simpl. destruct (sign_extends _ _ _ _ _ _ H) as (? & ? & ?). by apply store_verify_extends.
  - intros s name r x s' Hs H. apply append_signs in H as (body & Hsign).
    destruct (sign_verifies _ _ _ _ _ _ Hs writer_trusted fresh_size Hsign) as (? & ? & _). done.
  - intros s name r x s' y H. apply append_signs in H as (body & Hsign).
    destruct (sign_extends _ _ _ _ _ _ Hsign) as (? & ? & ?). by apply store_verify_extends.
Defined.

#[local] Instance signed_steady_seal :
  @SteadySeal store (signed_ledger retained_size writer fresh clock) signed_sealed (signed_steady_laws retained_size writer fresh clock).
Proof.
  intros s r x s' Hs H. simpl in *. unfold store_sign in H. apply bind_Ok in H as ([y i] & H & [= -> <-]).
  pose proof (Hs _ _ _ _ _ H) as ->. split; [exact Hs|]. intros name. by apply signed_journal_ext.
Qed.
End signed.

(** ** The ledger in memory, for examples: rows are unsigned records *)

Definition mem_row (record : json) : json := JObj [("record", record)]%string.

#[local] Existing Instances memory_ledger.

#[local] Instance memory_sealed : Sealed memory := {
  checkpoint m name :=
    n ← count (Z.of_nat (length (mem_records m name))) 0 MAX_ROWS;
    t ← match last (mem_records m name) with None => Ok ""%string | Some r => digest (mem_row r) end;
    Ok (n, t);
  signed_at m name i :=
    _ ← count i 0 MAX_ROWS;
    r ← get_or (mem_records m name !! Z.to_nat i) ValueError; Ok (mem_row r);
  sign m r := Ok (mem_row r, m);
  verify m x := Ok (match jget "record" x with Some _ => true | None => false end);
}.

#[local] Instance memory_sealed_laws : SealedLaws memory.
Proof.
  unshelve refine {| sound _ := True |}; simpl.
  - intros s name c t H. unfold count in H. res_inv. zbool. eauto.
  - intros s name i row l H [= <-]. unfold count in H. res_inv. zbool.
    match goal with E : _ !! _ = Some _ |- _ => rewrite E end. done.
  - intros s name c t H Hc. bind H as n Hn. bind H as t' Ht. injection H as -> ->.
    unfold count in *. bind Hn as [] Hr. apply require_Ok, andb_true_iff in Hr as [_ Hr]. injection Hn as <-. zbool.
    destruct (mem_records s name) as [|r l _] eqn:E using rev_ind; [simpl in Hc; lia|].
    rewrite last_snoc in Ht. exists (mem_row r). split; [|done]. rewrite length_app in *. simpl length in *.
    rewrite (proj2 (Z.leb_le 0 _)), (proj2 (Z.leb_le _ MAX_ROWS)) by lia. cbn [andb require mbind res_bind].
    replace (Z.to_nat (Z.of_nat (length l + 1) - 1)) with (length l) by lia.
    by rewrite lookup_app_r, Nat.sub_diag by lia.
  - intros s other name r x s' l i row [= <- <-] [= <-] Hi H. bind H as n Hn. rewrite Hn. cbn [mbind res_bind].
    unfold mem_records at 1 in H. rewrite assoc_assoc_set in H. destruct (String.eqb_spec name other) as [->|]; [|done].
    simpl in H. by rewrite lookup_app_l in H by lia.
  - done.
  - by intros s r x s' _ [= <- <-].
  - by intros s r x s' name l [= <- <-].
  - by intros s r x s' y [= <- <-].
  - by intros s name r x s' _ [= <- <-].
  - by intros s name r x s' y [= <- <-].
Defined.

#[local] Existing Instance memory_steady_laws.
#[local] Instance memory_steady_seal : SteadySeal memory.
Proof. by intros s r x s' _ [= <- <-]. Qed.
