(* ===== verification/Transparency.v ===== *)
(** * The transparency log over the signed journals ([unimem/transparency_log.py])

    [Merkle.v] holds the tree functions; here are the log's operations, over
    the ledger interface and the per-process cache [_TREES] of trees.  A leaf
    is a signed statement, a head a signed size and root; [append], [prove]
    and [head] publish them, [_tree] rebuilds or reuses the tree.  The file
    [transparency-nodes.json] that [head] also writes is never read and is
    left out. *)

From S2P Require Import Prelude Sha256 Base64 Wire Origin Merkle Consistency MerkleSpec Journal Number Strings Ledger Seal Vda.
Local Open Scope Z_scope.

(** ** Definitions *)

Definition LEAVES : string := "transparency-leaves.jsonl".
Definition HEADS : string := "transparency-heads.jsonl".

(** [_Tree]: [body] holds [hashes], [roots] and [nodes]. *)
Record log_tree := LogTree { leaf_tip : Z * string; head_tip : Z * string; body : tree }.

(** [_TREES], least recently used first. *)
Definition trees := list (string * log_tree).

Definition tree_weight (t : log_tree) : Z :=
  zlen (t_hashes (body t)) * 256 + Z.of_nat (size (t_nodes (body t))) * 512.
Definition total_weight (ts : trees) : Z := fold_right (λ kv n, tree_weight kv.2 + n) 0 ts.

(** The eviction loop: oldest first. *)
Fixpoint evict (ts : trees) : trees :=
  match ts with
  | [] => []
  | _ :: rest => if (8 <? zlen ts) || (128 * MAX_BYTES <? total_weight ts) then evict rest else ts
  end.

Definition _remember (root : string) (state : log_tree) (ts : trees) : trees :=
  evict (assoc_del root ts ++ [(root, state)]).

(** An [int] used as a size or an index ([bool] is one). *)
Definition int_item (k : string) (v : json) : res pyexn Z :=
  x ← item k v;
  match x with JInt n => Ok n | JBool b => Ok (Z.b2z b) | _ => Err TypeError end.

(** [l[i]] with Python's negative indices. *)
Definition py_nth {A} (l : list A) (i : Z) : res pyexn A :=
  if i <? 0 then
    if zlen l + i <? 0 then Err IndexError else get_or (l !! Z.to_nat (zlen l + i)) IndexError
  else get_or (l !! Z.to_nat i) IndexError.

Section log.
Context `{LG : Ledger St, SL : !Sealed St}.
Variable root : string.

(** The leaf of a row of [LEAVES]. *)
Definition row_leaf (s : St) (row : json) : res pyexn string :=
  statement ← item "statement" row;
  ok ← verify s statement;
  require ok ValueError;;
  leaf_hash statement.

(** [if size > len(result) or roots[size] != head["root_hash"]] *)
Definition check_head (roots : list string) (n : Z) (head : json) : res pyexn () :=
  size ← int_item "tree_size" head;
  require (size <=? n) ValueError;;
  r ← py_nth roots size;
  h ← item "root_hash" head;
  require (bool_decide (h = JStr r)) ValueError.

Definition _tree (s : St) (ts : trees) : res pyexn (log_tree * trees) :=
  lt ← checkpoint s LEAVES;
  ht ← checkpoint s HEADS;
  let rebuild :=
    records ← journal s LEAVES;
    result ← mapR (row_leaf s) records;
    roots ← prefix_roots result;
    heads ← journal s HEADS;
    _ ← mapR (check_head roots (zlen result)) heads;
    let state := LogTree lt ht (Tree result roots ∅) in
    Ok (state, _remember root state ts) in
  match assoc root ts with
  | Some cached =>
      if bool_decide (leaf_tip cached = lt) && bool_decide (head_tip cached = ht)
      then Ok (cached, assoc_del root ts ++ [(root, cached)])
      else rebuild
  | None => rebuild
  end.

(** [state.roots[-1]] *)
Definition last_root (t : tree) : res pyexn string := get_or (last (t_roots t)) IndexError.

(** [head(root)] on the present state; the last head when it still covers
    the tree. *)
Definition latest_head (s : St) (state : log_tree) : res pyexn (option json) :=
  if negb ((head_tip state).1 =? 0) then
    latest ← signed_at s HEADS ((head_tip state).1 - 1);
    record ← item "record" latest;
    n ← item "tree_size" record;
    Ok (if json_eq_int n (zlen (t_hashes (body state))) then Some latest else None)
  else Ok None.

Definition head_record (n : Z) (r : string) : json :=
  JObj [("tree_size", JInt n); ("root_hash", JStr r); ("log_id", JStr "local-store");
        ("signature_kind", JStr "store-pinned")]%string.

Definition head (s : St) (ts : trees) : res pyexn (json * St * trees) :=
  '(state, ts) ← _tree s ts;
  latest ← latest_head s state;
  match latest with
  | Some latest => Ok (latest, s, ts)
  | None =>
      r ← last_root (body state);
      '(signed, s) ← Ledger.append s HEADS (head_record (zlen (t_hashes (body state))) r);
      ht ← checkpoint s HEADS;
      Ok (signed, s, _remember root (LogTree (leaf_tip state) ht (body state)) ts)
  end.

(** The nodes [_proof] computes are shared with the cached tree. *)
Definition share (state : log_tree) (ts : trees) : trees :=
  match assoc root ts with
  | Some c => assoc_set root (LogTree (leaf_tip c) (head_tip c) (body state)) ts
  | None => ts
  end.

Definition append (s : St) (ts : trees) (event : string) (statement : json) (now : string) (receipt : bool)
    : res pyexn (json * St * trees) :=
  _ ← text event 128;
  '(state, ts) ← _tree s ts;
  '(signed, s) ← sign s (JObj [("event", JStr event); ("statement", statement); ("created_at", JStr now)]%string);
  '(_, s) ← Ledger.append s LEAVES (JObj [("statement", signed)]%string);
  h ← leaf_hash signed;
  let t := body state in
  let t := Tree (t_hashes t ++ [h]) (t_roots t) (t_nodes t) in
  '(r, t) ← _range t 0 (length (t_hashes t));
  let t := Tree (t_hashes t) (t_roots t ++ [r]) (t_nodes t) in
  lt ← checkpoint s LEAVES;
  let state := LogTree lt (head_tip state) t in
  let ts := _remember root state ts in
  let leaf := zlen (t_hashes t) - 1 in
  if negb receipt then Ok (JObj [("leaf", JInt leaf); ("statement", signed)]%string, s, ts)
  else
    '(checkpoint, s, ts) ← head s ts;
    '(p, t) ← _proof t (Z.to_nat leaf);
    Ok (JObj [("leaf", JInt leaf); ("statement", signed); ("head", checkpoint); ("proof", jstrings p)]%string,
        s, share (LogTree lt (head_tip state) t) ts).

Definition prove (s : St) (ts : trees) (leaf : Z) : res pyexn (json * St * trees) :=
  '(state, ts) ← _tree s ts;
  _ ← count leaf 0 (zlen (t_hashes (body state)) - 1);
  row ← signed_at s LEAVES leaf;
  record ← item "record" row;
  statement ← item "statement" record;
  '(h, s, ts) ← head s ts;
  '(p, t) ← _proof (body state) (Z.to_nat leaf);
  Ok (JObj [("leaf", JInt leaf); ("statement", statement); ("head", h); ("proof", jstrings p)]%string,
      s, share (LogTree (leaf_tip state) (head_tip state) t) ts).

(** What [verify_inclusion] is given: an argument of another type makes it
    answer [False]. *)
Definition proof_strings (v : json) : option (list string) :=
  match v with
  | JList l => mapM (λ x, match x with JStr s => Some s | _ => None end) l
  | _ => None
  end.
Definition inclusion_args (leaf : string) (index size proof root_hash : json) : bool :=
  match index, size, proof_strings proof, root_hash with
  | JInt i, JInt n, Some p, JStr r => verify_inclusion leaf i n p r
  | _, _, _, _ => false
  end.

Definition verify (s : St) (receipt : json) : res pyexn bool :=
  let answer :=
    checkpoint ← item "head" receipt;
    body ← item "record" checkpoint;
    a ← Seal.verify s checkpoint;
    if negb a then Ok false else
    statement ← item "statement" receipt;
    b ← Seal.verify s statement;
    if negb b then Ok false else
    h ← leaf_hash statement;
    leaf ← item "leaf" receipt;
    n ← item "tree_size" body;
    p ← item "proof" receipt;
    r ← item "root_hash" body;
    Ok (inclusion_args h leaf n p r) in
  match answer with
  | Err KeyError | Err ValueError | Err TypeError => Ok false
  | a => a
  end.

Definition consistent (s : St) (ts : trees) (old_size : Z) (size : option Z) : res pyexn (json * trees) :=
  '(state, ts) ← _tree s ts;
  let hashes := t_hashes (body state) in
  n ← match size with None => Ok (zlen hashes) | Some n => count n 0 (zlen hashes) end;
  let hashes := take (Z.to_nat n) hashes in
  _ ← count old_size 0 n;
  old_root ← tree_hash (take (Z.to_nat old_size) hashes);
  root_hash ← tree_hash hashes;
  p ← consistency hashes old_size;
  Ok (JObj [("from", JInt old_size); ("to", JInt n); ("old_root", JStr old_root);
            ("root_hash", JStr root_hash); ("proof", jstrings p)]%string, ts).
End log.
