(* ===== verification/TransparencySpec.v ===== *)
(** * Receipts and heads of the transparency log are accepted

    [coherent] is the invariant of the process cache: a cached tree whose tips
    are current is the tree of the journals.  Every operation keeps it, and
    what [append], [prove] and [head] publish verifies. *)

From S2P Require Import Prelude Sha256 Base64 Wire Origin Merkle Consistency MerkleSpec Journal JournalSpec Number Strings Ledger Seal Vda Transparency.
Local Open Scope Z_scope.

Section spec.
Context `{LG : Ledger St, LL : !LedgerLaws St, SL : !Sealed St, SLL : !SealedLaws St}.
Variable root : string.

(** ** The invariant *)

Definition prefix_list (hs : list string) : list string :=
  EMPTY :: map (λ i, mth (take i hs)) (seq 1 (length hs)).

(** The leaf hashes of the committed statements. *)
Definition leaves_of (s : St) (hs : list string) : Prop :=
  ∀ l, journal s LEAVES = Ok l → mapR (row_leaf s) l = Ok hs.

(** A published head covers a prefix of the leaves. *)
Definition head_fact (hs : list string) (h : json) : Prop :=
  ∃ n : nat, jget "tree_size" h = Some (JInt (Z.of_nat n)) ∧ (n <= length hs)%nat ∧
    jget "root_hash" h = Some (JStr (mth (take n hs))).
Definition heads_of (s : St) (hs : list string) : Prop :=
  ∀ l, journal s HEADS = Ok l → Forall (head_fact hs) l.

Definition good (s : St) (t : tree) : Prop :=
  tree_ok t ∧ t_roots t = prefix_list (t_hashes t) ∧ leaves_of s (t_hashes t) ∧ heads_of s (t_hashes t).

(** The heads on file have sizes (written by [head], never by hand). *)
Definition heads_sized (s : St) : Prop :=
  ∀ l, journal s HEADS = Ok l → Forall (λ h, ∃ n, jget "tree_size" h = Some (JInt n) ∧ 0 <= n) l.

Definition log_ok (s : St) : Prop := sound s ∧ heads_sized s.

Definition current (s : St) (c : log_tree) : Prop :=
  checkpoint s LEAVES = Ok (leaf_tip c) ∧ checkpoint s HEADS = Ok (head_tip c).
Definition coherent (s : St) (ts : trees) : Prop :=
  ∀ c, assoc root ts = Some c → current s c → good s (body c).

(** ** Lemmas on the tree *)

Lemma prefix_roots_list hs : hashes_ok hs → prefix_roots hs = Ok (prefix_list hs).
Proof.
  intros Hok. destruct (prefix_roots_fold hs Hok [] [] [EMPTY] ltac:(constructor) ltac:(constructor)) as [f Hf].
  unfold prefix_roots. by rewrite Hf.
Qed.

Lemma prefix_list_lookup hs n : (n <= length hs)%nat → prefix_list hs !! n = Some (mth (take n hs)).
Proof.
  intros Hn. destruct n as [|n]; [by destruct hs|]. simpl.
  rewrite list_lookup_fmap, lookup_seq_lt by lia. done.
Qed.

Lemma prefix_list_length hs : length (prefix_list hs) = S (length hs).
Proof. simpl. by rewrite length_map, length_seq. Qed.

Lemma prefix_list_snoc hs h : prefix_list (hs ++ [h]) = prefix_list hs ++ [mth (hs ++ [h])].
Proof.
  unfold prefix_list. simpl. f_equal. rewrite length_app, Nat.add_1_r, seq_S, map_app. simpl. f_equal.
  - apply map_ext_in. intros i [_ Hi]%in_seq. by rewrite take_app_le by lia.
  - by rewrite take_ge by (rewrite length_app; simpl; lia).
Qed.

Lemma prefix_list_last hs : last (prefix_list hs) = Some (mth hs).
Proof.
  destruct hs as [|h hs] using rev_ind; [done|]. by rewrite prefix_list_snoc, last_snoc.
Qed.

Lemma row_leaf_hash s row h : row_leaf s row = Ok h → is_hash h = true.
Proof.
  unfold row_leaf, leaf_hash. intros H. bind H as x _. bind H as b _. bind H as [] _. bind H as w _.
  injection H as <-. apply is_hash_sha256_hex.
Qed.

Lemma mapR_row_leaf s l hs : mapR (row_leaf s) l = Ok hs → hashes_ok hs.
Proof.
  revert hs. induction l as [|row l IH]; intros hs H; simpl in H; [injection H as <-; constructor|].
  bind H as h Hh. bind H as k Hk. injection H as <-. constructor; [by eapply row_leaf_hash|by apply IH].
Qed.

(** Verification only grows. *)
Definition extends (s s' : St) : Prop := ∀ y, Seal.verify s y = Ok true → Seal.verify s' y = Ok true.

#[local] Instance extends_preorder : PreOrder extends.
Proof. split; [by intros s y|intros a b c Hab Hbc y Hy; by apply Hbc, Hab]. Qed.

Lemma row_leaf_extends s s' row h : extends s s' → row_leaf s row = Ok h → row_leaf s' row = Ok h.
Proof.
  unfold row_leaf. intros He H. bind H as x Hx. bind H as b Hb. bind H as [] Ht. apply require_Ok in Ht as ->.
  rewrite Hx. cbn [mbind res_bind]. by rewrite (He _ Hb).
Qed.

Lemma mapR_row_leaf_extends s s' l hs : extends s s' → mapR (row_leaf s) l = Ok hs → mapR (row_leaf s') l = Ok hs.
Proof.
  intros He. revert hs. induction l as [|row l IH]; intros hs H; simpl in *; [done|].
  bind H as h Hh. bind H as k Hk. injection H as <-. rewrite (row_leaf_extends _ _ _ _ He Hh). cbn [mbind res_bind].
  by rewrite (IH _ Hk).
Qed.

(** ** The cache *)

Lemma evict_suffix ts : ∃ old, ts = old ++ evict ts.
Proof.
  induction ts as [|kv ts IH]; simpl; [by exists []|]. destruct (_ || _); [|by exists []].
  destruct IH as [old IH]. exists (kv :: old). simpl. by f_equal.
Qed.

Lemma remembered state ts c : assoc root (_remember root state ts) = Some c → c = state.
Proof. destruct (evict_suffix (assoc_del root ts ++ [(root, state)])) as [old Hold]. by eapply touched_found. Qed.

Lemma check_head_fact hs h : (∃ n, jget "tree_size" h = Some (JInt n) ∧ 0 <= n) →
  check_head (prefix_list hs) (zlen hs) h = Ok () → head_fact hs h.
Proof.
  intros (n & Hn & Hpos) H. unfold check_head, int_item, item in H. rewrite Hn in H. cbn [get_or mbind res_bind] in H.
  bind H as [] Hle. apply require_Ok in Hle. zbool. unfold zlen in Hle.
  bind H as r Hr. unfold py_nth in Hr. rewrite (proj2 (Z.ltb_ge n 0)) in Hr by lia.
  rewrite prefix_list_lookup in Hr by lia. injection Hr as <-.
  bind H as rh Hrh. apply require_Ok, bool_decide_eq_true in H as ->. apply get_or_Ok in Hrh.
  exists (Z.to_nat n). rewrite Z2Nat.id by lia. split_and!; [done|lia|done].
Qed.

Lemma coherent_touch s c ts : (current s c → good s (body c)) →
  coherent s (assoc_del root ts ++ [(root, c)]).
Proof. intros Hg c' Hc'. rewrite touched_same in Hc'. by injection Hc' as <-. Qed.

Lemma coherent_remember s c ts : (current s c → good s (body c)) → coherent s (_remember root c ts).
Proof. intros Hg c' ->%remembered. done. Qed.

(** [_tree] returns the tree of the journals, cached or rebuilt. *)
Lemma _tree_spec s ts state ts' : log_ok s → coherent s ts → _tree root s ts = Ok (state, ts') →
  good s (body state) ∧ current s state ∧ coherent s ts'.
Proof.
  intros [_ Hsized] Hco H. unfold _tree in H. bind H as lt Hlt. bind H as ht Hht.
  set (rebuild := _ ≫= _) in H.
  assert (Hre : rebuild = Ok (state, ts') → good s (body state) ∧ current s state ∧ coherent s ts').
  { intros R. unfold rebuild in R. bind R as records Hrec. bind R as result Hres. bind R as roots Hroots.
    bind R as heads Hheads. bind R as u Hu. injection R as <- <-.
    pose proof (mapR_row_leaf _ _ _ Hres) as Hok. rewrite (prefix_roots_list _ Hok) in Hroots. injection Hroots as <-.
    assert (Hg : good s (Tree result (prefix_list result) ∅)).
    { split_and!; [split; [done|apply cache_ok_empty]|done| |].
      - intros l Hl. simpl. congruence.
      - intros l Hl. assert (l = heads) as -> by congruence. simpl. specialize (Hsized _ Hheads).
        apply mapR_Ok_Forall2 in Hu. rewrite Forall_forall in Hsized |- *. intros h Hin.
        apply list_elem_of_lookup in Hin as [i Hi]. destruct (Forall2_lookup_l _ _ _ _ _ Hu Hi) as ([] & _ & Hch).
        apply check_head_fact; [|done]. by apply Hsized, list_elem_of_lookup_2 with i. }
    split_and!; [done|by split|by apply coherent_remember]. }
  destruct (assoc root ts) as [c|] eqn:Ec; [|by apply Hre].
  destruct (bool_decide _ && bool_decide _) eqn:Eb; [|by apply Hre].
  apply andb_true_iff in Eb as [<-%bool_decide_eq_true <-%bool_decide_eq_true]. injection H as <- <-.
  assert (Hcur : current s c) by done. split_and!; [by apply (Hco c)|done|].
  apply coherent_touch. by intros; apply (Hco c).
Qed.

(** The tree is determined by the ledger, and within the size bound. *)
Lemma current_leaves s c hs : current s c → leaves_of s hs →
  ∃ l, journal s LEAVES = Ok l ∧ mapR (row_leaf s) l = Ok hs ∧ hashes_ok hs ∧ zlen hs <= MAX_TREE_LEAVES ∧
    (leaf_tip c).1 = zlen hs.
Proof.
  intros [Hl _] Hlv. destruct (leaf_tip c) as [n t]. destruct (checkpoint_journal _ _ _ _ Hl) as (l & Hj & -> & Hmax).
  exists l. pose proof (Hlv _ Hj) as Hm. pose proof (mapR_length _ _ _ Hm) as Hlen.
  split_and!; [done|done|by eapply mapR_row_leaf| |]; unfold zlen; simpl; rewrite Hlen; [|done].
  unfold MAX_TREE_LEAVES, MAX_ROWS in *. lia.
Qed.

(** ** Heads *)

(** [h] is a signed head of the tree with leaf hashes [hs]. *)
Definition covers (s : St) (hs : list string) (h : json) : Prop :=
  Seal.verify s h = Ok true ∧ ∃ record, jget "record" h = Some record ∧
    jget "tree_size" record = Some (JInt (zlen hs)) ∧ jget "root_hash" record = Some (JStr (mth hs)).

Lemma latest_head_spec s state h : heads_sized s → good s (body state) → current s state →
  latest_head s state = Ok (Some h) → covers s (t_hashes (body state)) h.
Proof.
  intros Hsz (Hok & _ & _ & Hh) [_ Hht] H. unfold latest_head in H.
  destruct (negb _) eqn:En; [|done]. bind H as latest Hl. bind H as record Hr. bind H as n Hn.
  destruct (json_eq_int _ _) eqn:Eq; [|done]. injection H as <-.
  destruct (head_tip state) as [k t]. destruct (checkpoint_journal _ _ _ _ Hht) as (l & Hj & _).
  destruct (signed_at_journal _ _ _ _ _ Hl Hj) as (Hv & _ & Hrec). split; [done|]. exists record.
  apply get_or_Ok in Hr. split; [done|]. rewrite Hr in Hrec. symmetry in Hrec.
  specialize (Hh _ Hj). rewrite Forall_forall in Hh.
  destruct (Hh record) as (m & Hm & Hle & Hroot); [by eapply list_elem_of_lookup_2|].
  apply get_or_Ok in Hn. rewrite Hm in Hn. injection Hn as <-. simpl in Eq. zbool. unfold zlen in *.
  assert (m = length (t_hashes (body state))) as -> by lia. by rewrite take_ge in Hroot.
Qed.

(** Committing one more row to [HEADS]: the leaves stay. *)
Lemma append_head_good s state hs x s' : heads_sized s → good s (body state) → current s state →
  t_hashes (body state) = hs → Ledger.append s HEADS (head_record (zlen hs) (mth hs)) = Ok (x, s') →
  extends s s' → (∃ c, checkpoint s' HEADS = Ok c) →
  good s' (body state) ∧ heads_sized s' ∧ ∃ r, jget "record" x = Some r ∧
    jget "tree_size" r = Some (JInt (zlen hs)) ∧ jget "root_hash" r = Some (JStr (mth hs)).
Proof.
  intros Hsz (Hok & Hroots & Hlv & Hh) Hcur <- Happ Hext [[c t] Hc]. destruct Hcur as [Hlt Hht].
  destruct (head_tip state) as [k u]. destruct (leaf_tip state) as [k' u'].
  destruct (checkpoint_journal _ _ _ _ Hht) as (l & Hj & _). destruct (checkpoint_journal _ _ _ _ Hlt) as (ll & Hjl & _).
  destruct (checkpoint_journal _ _ _ _ Hc) as (l' & Hj' & _).
  destruct (append_same _ _ _ _ _ _ _ Hj Happ Hj') as (r & -> & Hr & (prev & at_ & ->)).
  assert (Hfact : ∃ n : nat, zlen (t_hashes (body state)) = Z.of_nat n ∧ n = length (t_hashes (body state)))
    by (eexists; split; [reflexivity|done]).
  destruct Hfact as (n & Hn & En).
  split_and!; [split_and!; [done|done| |]| |eexists; split_and!; [exact Hr|reflexivity|reflexivity]].
  - intros l2 Hl2. rewrite (append_other s HEADS LEAVES _ _ _ ll l2 ltac:(done) Hjl Happ Hl2).
    eapply mapR_row_leaf_extends; [done|]. by apply Hlv.
  - intros l2 Hl2. assert (l2 = l ++ _) as -> by (rewrite Hj' in Hl2; injection Hl2 as <-; reflexivity).
    apply Forall_app. split; [by apply Hh|]. apply Forall_cons. split; [|constructor].
    exists n. rewrite Hn. split_and!; [reflexivity|lia|]. by rewrite take_ge by lia.
  - intros l2 Hl2. assert (l2 = l ++ _) as -> by (rewrite Hj' in Hl2; injection Hl2 as <-; reflexivity).
    apply Forall_app. split; [by apply Hsz|]. apply Forall_cons. split; [|constructor].
    eexists. split; [reflexivity|]. unfold zlen. lia.
Qed.

Lemma head_spec s ts h s' ts' : log_ok s → coherent s ts → head root s ts = Ok (h, s', ts') →
  log_ok s' ∧ coherent s' ts' ∧ extends s s' ∧ ∃ hs l, journal s LEAVES = Ok l ∧ mapR (row_leaf s) l = Ok hs ∧
    hashes_ok hs ∧ zlen hs <= MAX_TREE_LEAVES ∧ leaves_of s' hs ∧ covers s' hs h.
Proof.
  intros Hlog Hco H. unfold head in H. bind H as [state ts1] Ht.
  destruct (_tree_spec _ _ _ _ Hlog Hco Ht) as (Hg & Hcur & Hco1).
  destruct (current_leaves _ _ _ Hcur (proj1 (proj2 (proj2 Hg)))) as (l & Hj & Hm & Hok & Hmax & _).
  bind H as latest Hl. destruct Hlog as [Hs Hsz]. destruct latest as [h'|].
  - injection H as -> <- <-. split_and!; [by split|done|reflexivity|]. exists (t_hashes (body state)), l.
    split_and!; [done..|apply Hg|]. by apply latest_head_spec.
  - bind H as r Hr. unfold last_root in Hr. pose proof Hg as (_ & Hroots & _). rewrite Hroots, prefix_list_last in Hr.
    injection Hr as <-. bind H as [x s1] Happ. bind H as ht Hht. injection H as <- <- <-.
    destruct (append_sound _ _ _ _ _ Hs Happ) as [Hs1 Hv].
    assert (Hext : extends s s1) by (intros y; by eapply append_verify).
    destruct (append_head_good _ _ _ _ _ Hsz Hg Hcur eq_refl Happ Hext (ex_intro _ _ Hht)) as (Hg1 & Hsz1 & Hrec).
    split_and!; [by split| |done|].
    + by apply coherent_remember.
    + exists (t_hashes (body state)), l. split_and!; [done..|apply Hg1|]. by split.
Qed.

(** ** Receipts *)

Lemma proof_strings_map p : proof_strings (jstrings p) = Some p.
Proof. unfold jstrings, proof_strings. induction p as [|x p IH]; [done|]. simpl in *. by rewrite IH. Qed.

Lemma receipt_accepted s hs h statement lh p i : covers s hs h → Seal.verify s statement = Ok true →
  leaf_hash statement = Ok lh → hs !! i = Some lh → is_path hs i p → hashes_ok hs → zlen hs <= MAX_TREE_LEAVES →
  verify s (JObj [("leaf", JInt (Z.of_nat i)); ("statement", statement); ("head", h); ("proof", jstrings p)]%string) = Ok true.
Proof.
  intros (Hv & rec & Hrec & Hn & Hr) Hs Hlh Hi Hp Hok Hmax. pose proof (proof_strings_map p) as HP.
  generalize dependent (jstrings p). intros P HP. unfold verify, item. cbn.
  rewrite Hrec. cbn. rewrite Hv. cbn. rewrite Hs. cbn. rewrite Hlh. cbn. rewrite Hn. cbn. rewrite Hr. cbn.
  unfold inclusion_args. rewrite HP. by rewrite (verify_inclusion_path hs i p lh).
Qed.

Lemma coherent_share s c t ts : coherent s ts → leaves_of s (t_hashes t) → tree_ok t → t_roots t = prefix_list (t_hashes t) →
  coherent s (share root (LogTree (leaf_tip c) (head_tip c) t) ts).
Proof.
  intros Hco Hlv Hok Hroots. unfold share. destruct (assoc root ts) as [c'|] eqn:Ec; [|done].
  intros c2 Hc2. rewrite assoc_assoc_set, String.eqb_refl in Hc2. injection Hc2 as <-. intros Hcur.
  destruct (Hco c' Ec Hcur) as (_ & _ & Hlv' & Hh). simpl.
  destruct (current_leaves _ _ _ Hcur Hlv) as (l & Hj & Hm & _).
  assert (t_hashes (body c') = t_hashes t) as E by (specialize (Hlv' _ Hj); congruence).
  rewrite E in Hh. by split_and!.
Qed.

Lemma head_fact_snoc hs x h : head_fact hs h → head_fact (hs ++ [x]) h.
Proof.
  intros (n & Hn & Hle & Hr). exists n. rewrite length_app, take_app_le by lia. split_and!; [done|lia|done].
Qed.

(** The tree after a leaf was committed. *)
Lemma commit_leaf s state signed s1 row s2 lh lt r t : log_ok s → good s (body state) → current s state →
  sign s row = Ok (signed, s1) →
  Ledger.append s1 LEAVES (JObj [("statement", signed)]%string) = Ok (r, s2) → leaf_hash signed = Ok lh →
  checkpoint s2 LEAVES = Ok lt →
  t_hashes t = t_hashes (body state) ++ [lh] → tree_ok t → t_roots t = prefix_list (t_hashes t) →
  log_ok s2 ∧ extends s s2 ∧ Seal.verify s2 signed = Ok true ∧ good s2 t.
Proof.
  intros [Hs Hsz] (Hok & _ & Hlv & Hh) Hcur Hsign Happ Hlh Hlt Eh Htok Hroots.
  destruct (sign_sound _ _ _ _ Hs Hsign) as (Hs1 & Hv1 & _). destruct (append_sound _ _ _ _ _ Hs1 Happ) as [Hs2 _].
  assert (Hext : extends s s2) by (intros y Hy; eapply append_verify, sign_verify; eauto).
  assert (Hv2 : Seal.verify s2 signed = Ok true) by (by eapply append_verify).
  destruct Hcur as [Hl1 Hl2]. destruct (leaf_tip state), (head_tip state), lt.
  destruct (checkpoint_journal _ _ _ _ Hl1) as (l & Hj & _). destruct (checkpoint_journal _ _ _ _ Hl2) as (lh' & Hjh & _).
  destruct (checkpoint_journal _ _ _ _ Hlt) as (l' & Hj' & _).
  pose proof (sign_journal _ _ _ _ _ _ Hsign Hj) as Hj1. pose proof (sign_journal _ _ _ _ _ _ Hsign Hjh) as Hjh1.
  destruct (append_same _ _ _ _ _ _ _ Hj1 Happ Hj') as (rec & -> & _ & (prev & at_ & ->)).
  assert (Hheads : ∀ k, journal s2 HEADS = Ok k → k = lh')
    by (intros k Hk; by apply (append_other s1 LEAVES HEADS _ _ _ lh' k ltac:(done) Hjh1 Happ Hk)).
  split_and!; [split; [done|]|done|done|].
  - intros k ->%Hheads. by apply Hsz.
  - split_and!; [done|done| |].
    + intros k Hk. rewrite Hj' in Hk. injection Hk as <-. rewrite mapR_app, Eh.
      rewrite (mapR_row_leaf_extends _ _ _ _ Hext (Hlv _ Hj)). cbn [mbind res_bind mapR].
      assert (Hrow : ∀ n, row_leaf s2 (jupdate (JObj [("statement", signed)])
        [("sequence", JInt n); ("previous", JStr prev); ("recorded_at", JStr at_)])%string = Ok lh).
      { intros n. unfold row_leaf, item. cbn. rewrite Hv2. cbn. done. }
      specialize (Hrow (Z.of_nat (length l))). simpl jupdate in Hrow. by rewrite Hrow.
    + intros k ->%Hheads. rewrite Eh. eapply Forall_impl; [by apply Hh|]. intros. by apply head_fact_snoc.
Qed.

Lemma append_grows s ts event statement now b r s' ts' : log_ok s → coherent s ts →
  append root s ts event statement now b = Ok (r, s', ts') →
  log_ok s' ∧ coherent s' ts' ∧ extends s s' ∧ (b = true → verify s' r = Ok true).
Proof.
  intros Hlog Hco H. unfold append in H. bind H as ev _. bind H as [state ts1] Ht.
  destruct (_tree_spec _ _ _ _ Hlog Hco Ht) as (Hg & Hcur & _).
  bind H as [signed s1] Hsign. bind H as [row s2] Happ. bind H as lh Hlh.
  destruct state as [lt0 ht0 t0]. pose proof Hg as ([Hok Hc] & Hroots & _). simpl in Hok, Hc, Hroots, H.
  assert (Hok1 : hashes_ok (t_hashes t0 ++ [lh])).
  { apply Forall_app. split; [done|]. apply Forall_cons. split; [|constructor].
    unfold leaf_hash in Hlh. bind Hlh as w _. injection Hlh as <-. apply is_hash_sha256_hex. }
  bind H as [rt t1] Hr.
  destruct (_range_spec (Tree (t_hashes t0 ++ [lh]) (t_roots t0) (t_nodes t0)) 0 (length (t_hashes t0 ++ [lh])))
    as (t2 & Hr2 & Hh2 & Hrt2 & Hok2); [split; [done|by apply cache_ok_append]|simpl; lia|].
  simpl in Hr, Hr2. rewrite Hr in Hr2. injection Hr2 as -> <-. simpl in Hh2, Hrt2.
  rewrite drop_0, take_ge in H by lia. rewrite Hh2, Hrt2, Hroots, <- prefix_list_snoc in H.
  bind H as lt Hlt. set (t3 := Tree _ _ _) in H.
  destruct (commit_leaf s (LogTree lt0 ht0 t0) signed s1 _ s2 lh lt row t3 Hlog Hg Hcur Hsign Happ Hlh Hlt)
    as (Hlog2 & Hext & Hv2 & Hg3); [done|split; [done|simpl; rewrite <- Hh2; apply Hok2]|done|].
  assert (Hco2 : coherent s2 (_remember root (LogTree lt ht0 t3) ts1)) by (by apply coherent_remember).
  destruct b; simpl in H; [|injection H as <- <- <-; by split_and!].
  bind H as [[h s3] ts3] Hh. destruct (head_spec _ _ _ _ _ Hlog2 Hco2 Hh)
    as (Hlog3 & Hco3 & Hext3 & hs & l & Hj & Hm & _ & Hmax & Hlv3 & Hcov).
  assert (hs = t_hashes t3) as -> by (pose proof (proj1 (proj2 (proj2 Hg3)) _ Hj); congruence).
  destruct (_proof_path t3 (length (t_hashes t0))) as (p & t4 & Hp & Hpath & Hh4 & Hr4 & Hok4);
    [apply Hg3|simpl; rewrite length_app; simpl; lia|].
  assert (Z.to_nat (zlen (t_hashes t0 ++ [lh]) - 1) = length (t_hashes t0)) as El
    by (unfold zlen; rewrite length_app; simpl; lia).
  simpl t_hashes in H. rewrite El, Hp in H. cbn [mbind res_bind] in H. injection H as <- <- <-.
  split_and!; [done| |by etrans|intros _].
  - apply (coherent_share s3 (LogTree lt ht0 t4)); [done| |done|]; by rewrite ?Hr4, ?Hh4.
  - replace (zlen (t_hashes t0 ++ [lh]) - 1) with (Z.of_nat (length (t_hashes t0)))
      by (unfold zlen; rewrite length_app; simpl; lia).
    eapply receipt_accepted; [exact Hcov|by apply Hext3|exact Hlh|simpl|exact Hpath|done|done].
    by rewrite lookup_app_r, Nat.sub_diag by lia.
Qed.

Lemma prove_accepted s ts leaf r s' ts' : log_ok s → coherent s ts → prove root s ts leaf = Ok (r, s', ts') →
  log_ok s' ∧ coherent s' ts' ∧ extends s s' ∧ verify s' r = Ok true.
Proof.
  intros Hlog Hco H. unfold prove in H. bind H as [state ts1] Ht.
  destruct (_tree_spec _ _ _ _ Hlog Hco Ht) as (Hg & Hcur & Hco1).
  bind H as n Hn. apply count_Ok' in Hn as [Hn ->]. bind H as row Hrow. bind H as rec Hrec. bind H as st Hst.
  apply get_or_Ok in Hrec, Hst.
  bind H as [[h s3] ts3] Hh. destruct (head_spec _ _ _ _ _ Hlog Hco1 Hh)
    as (Hlog3 & Hco3 & Hext3 & hs & l & Hj & Hm & Hok & Hmax & Hlv3 & Hcov).
  assert (t_hashes (body state) = hs) as E by (pose proof (proj1 (proj2 (proj2 Hg)) _ Hj); congruence).
  rewrite E in *. unfold zlen in Hn.
  destruct (_proof_path (body state) (Z.to_nat leaf)) as (p & t4 & Hp & Hpath & Hh4 & Hr4 & Hok4);
    [apply Hg|rewrite E; lia|].
  rewrite Hp in H. cbn [mbind res_bind] in H. injection H as <- <- <-. rewrite E in *.
  split_and!; [done| |done|].
  - apply (coherent_share s3 (LogTree (leaf_tip state) (head_tip state) t4)); [done|by rewrite Hh4|done|].
    rewrite Hr4, Hh4, <- E. apply Hg.
  - rewrite <- (Z2Nat.id leaf) by lia.
    destruct (signed_at_journal _ _ _ _ _ Hrow Hj) as (_ & _ & Hl). rewrite Hrec in Hl. symmetry in Hl.
    apply mapR_Ok_Forall2 in Hm. destruct (Forall2_lookup_l _ _ _ _ _ Hm Hl) as (lh & Hlh & Hleaf).
    unfold row_leaf, item in Hleaf. rewrite Hst in Hleaf. cbn [get_or mbind res_bind] in Hleaf.
    bind Hleaf as b Hb. bind Hleaf as u Hu. apply require_Ok in Hu as ->.
    eapply receipt_accepted; [exact Hcov|by apply Hext3|exact Hleaf|exact Hlh|exact Hpath|done|done].
Qed.

Lemma covers_extends s s' r : extends s s' → verify s r = Ok true → verify s' r = Ok true.
Proof.
  unfold verify. intros He H.
  destruct (item "head" r) as [h|[]]; [|done..]. cbn [mbind res_bind] in *.
  destruct (item "record" h) as [b|[]]; [|done..]. cbn [mbind res_bind] in *.
  destruct (Seal.verify s h) as [[|]|[]] eqn:Eh; cbn [mbind res_bind negb] in H; try done.
  rewrite (He _ Eh). cbn [mbind res_bind negb].
  destruct (item "statement" r) as [x|[]]; [|done..]. cbn [mbind res_bind] in *.
  destruct (Seal.verify s x) as [[|]|[]] eqn:Ex; cbn [mbind res_bind negb] in H; try done.
  by rewrite (He _ Ex).
Qed.

(** An issued receipt: the answer of [append] with [receipt] or of [prove]. *)
Definition issued (s : St) (ts : trees) (r : json) (s' : St) (ts' : trees) : Prop :=
  (∃ event statement now, append root s ts event statement now true = Ok (r, s', ts')) ∨
  (∃ leaf, prove root s ts leaf = Ok (r, s', ts')).

(** C34: every receipt the log issues, by [append] or by [prove], is accepted
    by [verify], whatever the process cache held; the cache stays coherent
    with the journals and no receipt accepted before is rejected after. *)
Theorem issued_receipts_verify s ts r s' ts' :
  log_ok s → coherent s ts → issued s ts r s' ts' →
  log_ok s' ∧ coherent s' ts' ∧ verify s' r = Ok true ∧ ∀ r0, verify s r0 = Ok true → verify s' r0 = Ok true.
Proof.
  intros Hlog Hco [(event & statement & now & H)|(leaf & H)].
  - destruct (append_grows _ _ _ _ _ _ _ _ _ Hlog Hco H) as (? & ? & ? & Hv). split_and!; [done..|by apply Hv|].
    intros r0. by apply covers_extends.
  - destruct (prove_accepted _ _ _ _ _ _ Hlog Hco H) as (? & ? & ? & Hv). split_and!; [done..|].
    intros r0. by apply covers_extends.
Qed.

(** the proof [consistent] returns between two sizes of the log is
    accepted by [verify_consistency], for exactly the roots the log's own
    heads of those sizes carry. *)
Theorem published_heads_consistent s ts old_size size p ts' :
  log_ok s → coherent s ts → consistent root s ts old_size (Some size) = Ok (p, ts') →
  ∃ old_root root_hash proof,
    p = JObj [("from", JInt old_size); ("to", JInt size); ("old_root", JStr old_root);
              ("root_hash", JStr root_hash); ("proof", jstrings proof)]%string ∧
    verify_consistency old_size size old_root root_hash proof = true ∧
    ∀ l h, journal s HEADS = Ok l → h ∈ l →
      (jget "tree_size" h = Some (JInt old_size) → jget "root_hash" h = Some (JStr old_root)) ∧
      (jget "tree_size" h = Some (JInt size) → jget "root_hash" h = Some (JStr root_hash)).
Proof.
  intros Hlog Hco H. unfold consistent in H. bind H as [state ts1] Ht.
  destruct (_tree_spec _ _ _ _ Hlog Hco Ht) as ((Htok & _ & Hlv & Hh) & Hcur & _).
  destruct (current_leaves _ _ _ Hcur Hlv) as (l & Hj & Hm & Hok & Hmax & _).
  bind H as n Hn. apply count_Ok' in Hn as [Hn ->]. bind H as o Ho. apply count_Ok' in Ho as [Ho ->].
  set (hs := t_hashes (body state)) in *. unfold zlen in Hn.
  assert (Hlen : zlen (take (Z.to_nat size) hs) = size) by (unfold zlen; rewrite length_take; lia).
  assert (Hok1 : hashes_ok (take (Z.to_nat size) hs)) by (by apply Forall_take).
  assert (Htake : take (Z.to_nat old_size) (take (Z.to_nat size) hs) = take (Z.to_nat old_size) hs)
    by (rewrite take_take; f_equal; lia).
  destruct (consistency_accepted (take (Z.to_nat size) hs) (Z.to_nat old_size) Hok1) as (q & Hq & Hv);
    [unfold zlen in *; lia|unfold zlen in Hlen; lia|].
  rewrite Z2Nat.id in Hq, Hv by lia. rewrite Htake in *. rewrite Hlen in Hv.
  rewrite !tree_hash_mth in H by (try apply Forall_take; try done; unfold zlen in *; rewrite ?length_take; lia).
  cbn [mbind res_bind] in H. rewrite Hq in H. injection H as <- <-.
  eexists _, _, _. split_and!; [reflexivity|exact Hv|]. intros k h Hk Hin.
  specialize (Hh _ Hk). rewrite Forall_forall in Hh. destruct (Hh _ Hin) as (m & Hm' & _ & Hr).
  rewrite Hm', Hr. split; intros [= <-]; by rewrite Nat2Z.id.
Qed.
End spec.

(** ** Witnesses: two statements in a ledger in memory *)

#[local] Existing Instances memory_ledger memory_ledger_laws memory_sealed memory_sealed_laws.

Definition demo_statement (id : string) : json := JObj [("id", JStr id)]%string.
Definition demo_append (s : memory) (ts : trees) (id : string) : res pyexn (json * memory * trees) :=
  append "store" s ts "write" (demo_statement id) "2025-01-01T00:00:00+00:00" true.
Definition demo_first : json * memory * trees := ok_or (JNull, [], []) (demo_append [] [] "a").
Definition demo_second : json * memory * trees :=
  ok_or (JNull, [], []) (demo_append demo_first.1.2 demo_first.2 "b").

Lemma demo_first_ok : demo_append [] [] "a" = Ok (demo_first.1.1, demo_first.1.2, demo_first.2).
Proof. rewrite <- !surjective_pairing. apply is_ok_or. vm_compute. reflexivity. Qed.

Lemma demo_second_ok :
  demo_append demo_first.1.2 demo_first.2 "b" = Ok (demo_second.1.1, demo_second.1.2, demo_second.2).
Proof. rewrite <- !surjective_pairing. apply is_ok_or. vm_compute. reflexivity. Qed.

Lemma demo_first_good : log_ok (St := memory) demo_first.1.2 ∧ coherent "store" demo_first.1.2 demo_first.2.
Proof.
  pose proof demo_first_ok as H. unfold demo_append in H. apply append_grows in H as (? & ? & _); [done| |].
  - split; [exact I|intros l [= <-]; constructor].
  - intros c Hc. discriminate Hc.
Qed.

Lemma issued_receipts_witness : verify demo_second.1.2 demo_second.1.1 = Ok true ∧
  verify demo_second.1.2 demo_first.1.1 = Ok true.
Proof.
  destruct (issued_receipts_verify (St := memory) "store" demo_first.1.2 demo_first.2 demo_second.1.1 demo_second.1.2
    demo_second.2 (proj1 demo_first_good) (proj2 demo_first_good)
    (or_introl (ex_intro _ _ (ex_intro _ _ (ex_intro _ _ demo_second_ok))))) as (_ & _ & H & Hall).
  split; [exact H|]. apply Hall. vm_compute. reflexivity.
Defined.

Definition demo_consistent : json * trees :=
  ok_or (JNull, []) (consistent "store" demo_first.1.2 demo_first.2 0 (Some 1)).

Lemma published_heads_witness : ∃ old_root root_hash proof,
  demo_consistent.1 = JObj [("from", JInt 0); ("to", JInt 1); ("old_root", JStr old_root);
              ("root_hash", JStr root_hash); ("proof", jstrings proof)]%string ∧
  verify_consistency 0 1 old_root root_hash proof = true.
Proof.
  assert (H : consistent "store" demo_first.1.2 demo_first.2 0 (Some 1) = Ok (demo_consistent.1, demo_consistent.2)).
  { rewrite <- surjective_pairing. unfold demo_consistent. apply is_ok_or. vm_compute. reflexivity. }
  apply (published_heads_consistent "store" _ _ _ _ _ _ (proj1 demo_first_good) (proj2 demo_first_good)) in H.
  destruct H as (o & r & p & Hp & Hv & _). exists o, r, p. exact (conj Hp Hv).
Defined.
