(* ===== verification/Artifacts.v ===== *)
(** * Versioned artifact metadata ([unimem/nextwave_store.py])

    Artifact kinds keep their events in one signed journal each; [latest] is
    the last event of every identity.  [Lineage.v] keeps capability writes in
    such a journal; [ArtifactStore.v] keeps the content and erases. *)

From S2P Require Import Prelude Sha256 Base64 Wire Strings Number Journal Ledger Vda.
Local Open Scope Z_scope.

Definition MAX_OBJECTS : Z := 4096.

Definition in_range (lo hi : nat) (c : ascii) : bool :=
  (Nat.leb lo (nat_of_ascii c)) && (Nat.leb (nat_of_ascii c) hi).
Definition lower (c : ascii) : bool := in_range 97 122 c.
Definition kind_char (c : ascii) : bool := lower c || in_range 48 57 c || Ascii.eqb c "-".

(** [kind_name]: [[a-z][a-z0-9-]{0,63}]. *)
Definition kind_ok (kind : string) : bool :=
  match str_bytes kind with
  | c :: rest => lower c && forallb kind_char rest && (length rest <=? 63)%nat
  | [] => false
  end.
Definition kind_name (kind : string) : res pyexn string := require (kind_ok kind) ValueError;; Ok kind.
Definition journal_name (kind : string) : res pyexn string :=
  k ← kind_name kind; Ok ("unimem-" +:+ k +:+ ".jsonl").

Definition RESERVED : list string := ["type"; "version"; "id"; "sequence"; "previous"; "recorded_at"]%string.

Section artifacts.
Context `{LG : Ledger St}.

Definition events (s : St) (kind : string) : res pyexn (list json) :=
  name ← journal_name kind; journal s name.

(** [result[event["id"]] = event], in the order of first appearance. *)
Definition latest_of (rows : list json) : res pyexn (list (string * json)) :=
  foldM (λ acc row,
    i ← item "id" row;
    match i with JStr identity => Ok (assoc_set identity row acc) | _ => Err TypeError end) [] rows.

Definition latest (s : St) (kind : string) : res pyexn (list (string * json)) :=
  rows ← events s kind;
  result ← latest_of rows;
  _ ← count (Z.of_nat (length result)) 0 MAX_OBJECTS;
  Ok result.

Definition event (s : St) (kind identity : string) (value : list (string * json)) : res pyexn (json * St) :=
  _ ← text identity 512;
  require (negb (existsb (λ k, mem k RESERVED) value.*1)) ValueError;;
  name ← journal_name kind;
  append s name (jupdate (JObj [("type", JStr ("unimem." +:+ kind)); ("version", JInt 1);
                                ("id", JStr identity)]%string) value).

Definition reference (kind identity : string) : res pyexn string :=
  k ← kind_name kind; i ← text identity 512; text ("artifact:" +:+ k +:+ ":" +:+ i) 256.
End artifacts.
