(* ===== verification/Lineage.v ===== *)
(** * Derivation lineage ([unimem/lineage.py])

    Attestations, taints and reviews are rows of one signed journal; a
    process keeps the state they fold to in [_STATES] and brings it up to date
    by the journal's tip.  An attestation's integrity is the least of its
    inputs', its receipt's and its predecessor's; a taint reaches every
    descendant.  [corroborate] and [review] ask the causal gate and the lesson
    store and are left out; the rows they write are read by [_snapshot]. *)

From S2P Require Import Prelude Sha256 Base64 Wire Origin Merkle Journal Strings Number Ledger Seal Vda Transparency Artifacts.
Local Open Scope Z_scope.

(** ** Definitions *)

Definition JOURNAL : string := "lineage.jsonl".

Definition LEVELS (level : string) : option Z :=
  assoc level [("unknown", -1); ("external", 0); ("tool", 1); ("agent", 1); ("user", 2); ("operator", 3);
               ("reviewed", 4)]%string.

Definition graph := gmap string (gset string).
Definition neighbors (g : graph) (x : string) : gset string := default ∅ (g !! x).
Definition add_edge (g : graph) (x y : string) : graph := <[x := {[y]} ∪ neighbors g x]> g.

(** [_Lineage] *)
Record lineage := Lineage {
  l_count : Z;
  l_tip : string;
  objects : gmap string json;
  up : graph;
  down : graph;
  taints : list json;
  tainted : gmap string (list json);
}.
Definition no_lineage : lineage := Lineage 0 "" ∅ ∅ ∅ [] ∅.

Definition str_of (k : string) (v : json) : res pyexn string :=
  x ← item k v; match x with JStr s => Ok s | _ => Err TypeError end.
Definition list_of (k : string) (v : json) : res pyexn (list json) :=
  x ← item k v; match x with JList l => Ok l | _ => Err TypeError end.

Definition with_object (identity : string) (row : json) (st : lineage) : lineage :=
  Lineage (l_count st) (l_tip st) (<[identity := row]> (objects st)) (up st) (down st) (taints st) (tainted st).

Definition link (identity parent : string) (st : lineage) : lineage :=
  Lineage (l_count st) (l_tip st) (objects st) (add_edge (up st) identity parent)
    (add_edge (down st) parent identity) (taints st) (tainted st).

Definition with_taint (identity : string) (row : json) (st : lineage) : lineage :=
  Lineage (l_count st) (l_tip st) (objects st) (up st) (down st) (taints st ++ [row])
    (<[identity := default [] (tainted st !! identity) ++ [row]]> (tainted st)).

(** One event of [_snapshot_locked]'s loop. *)
Definition apply_event (st : lineage) (row : json) : res pyexn lineage :=
  identity ← str_of "id" row;
  kind ← item "kind" row;
  if jstr_eqb kind "attestation" then
    inputs ← list_of "inputs" row;
    parents ← mapR (str_of "id") inputs;
    Ok (foldl (λ st parent, link identity parent st) (with_object identity row st) parents)
  else
    let reviewed :=
      if jstr_eqb kind "review" || jstr_eqb kind "corroboration" then
        match objects st !! identity with
        | Some object =>
            h ← item "content_hash" object;
            Ok (if py_eqb (default JNull (jget "content_hash" row)) h then Some object else None)
        | None => Ok None
        end
      else Ok None in
    r ← reviewed;
    match r with
    | Some object => Ok (with_object identity (jset "integrity" (JStr "reviewed") object) st)
    | None => Ok (if jstr_eqb kind "taint" then with_taint identity row st else st)
    end.

Definition at_tip (count : Z) (tip : string) (st : lineage) : lineage :=
  Lineage count tip (objects st) (up st) (down st) (taints st) (tainted st).

(** [_STATES], least recently used first. *)
Definition states := list (string * lineage).
Definition states_weight (ss : states) : Z := fold_right (λ kv n, l_count kv.2 * 2048 + n) 0 ss.
Fixpoint evict (ss : states) : states :=
  match ss with
  | [] => []
  | _ :: rest => if (8 <? zlen ss) || (64 * MAX_BYTES <? states_weight ss) then evict rest else ss
  end.

(** The process: its ledger, [_STATES] and the transparency log's [_TREES]. *)
Record process (St : Type) := Process { ledger : St; cached : states; log_trees : trees }.
Arguments Process {St} _ _ _.
Arguments ledger {St} _.
Arguments cached {St} _.
Arguments log_trees {St} _.

Section lineage.
Context `{LG : Ledger St, SL : !Sealed St}.
Variable root : string.

Definition event_snapshot (s : St) (name : string) (offset : Z) : res pyexn (Z * string * list json) :=
  '(n, t) ← checkpoint s name;
  rows ← journal s name;
  _ ← count offset 0 n;
  Ok (n, t, drop (Z.to_nat offset) rows).

(** The cached state, when its tip is still a row of the journal. *)
Definition reusable (s : St) (count : Z) (c : option lineage) : res pyexn lineage :=
  match c with
  | None => Ok no_lineage
  | Some c =>
      if count <? l_count c then Ok no_lineage
      else if l_count c =? 0 then Ok c
      else
        row ← signed_at s JOURNAL (l_count c - 1);
        d ← digest row;
        Ok (if String.eqb d (l_tip c) then c else no_lineage)
  end.

Definition _snapshot_locked (s : St) (ss : states) : res pyexn (lineage * states) :=
  '(count, tip) ← checkpoint s JOURNAL;
  let stale :=
    c ← reusable s count (assoc root ss);
    '(count, tip, rows) ← event_snapshot s JOURNAL (l_count c);
    st ← foldM apply_event c rows;
    let st := at_tip count tip st in
    Ok (st, evict (assoc_del root ss ++ [(root, st)])) in
  match assoc root ss with
  | Some c => if (l_count c =? count) && String.eqb (l_tip c) tip then Ok (c, ss) else stale
  | None => stale
  end.

Definition _snapshot (p : process St) : res pyexn (lineage * process St) :=
  '(st, ss) ← _snapshot_locked (ledger p) (cached p); Ok (st, Process (ledger p) ss (log_trees p)).

Definition records (p : process St) : res pyexn (gmap string json * process St) :=
  '(st, p) ← _snapshot p; Ok (objects st, p).
Definition record (p : process St) (identity : string) : res pyexn (json * process St) :=
  '(st, p) ← _snapshot p; Ok (default (JObj []) (objects st !! identity), p).

(** The search of [walk]: [pending] with its end first; [None] when the
    iterations run out. *)
Fixpoint walk_loop (fuel : nat) (edges : graph) (seen : gset string) (pending : list string)
    : option (gset string) :=
  match fuel with
  | O => None
  | S fuel' =>
      match pending with
      | [] => Some seen
      | x :: rest =>
          let fresh := neighbors edges x ∖ seen in
          walk_loop fuel' edges (seen ∪ fresh) (rev (elements fresh) ++ rest)
      end
  end.

Definition WALK_LIMIT : nat := 2000.

Definition walk_in (edges : graph) (identity : string) : res pyexn (list string) :=
  seen ← get_or (walk_loop WALK_LIMIT edges {[identity]} [identity]) ValueError;
  Ok (sort_strings (elements (seen ∖ {[identity]}))).

Definition walk (p : process St) (identity : string) (down_ : bool) : res pyexn (list string * process St) :=
  _ ← text identity 512;
  '(st, p) ← _snapshot p;
  l ← walk_in (if down_ then down st else up st) identity;
  Ok (l, p).
Definition ancestors (p : process St) (identity : string) : res pyexn (list string * process St) :=
  walk p identity false.
Definition descendants (p : process St) (identity : string) : res pyexn (list string * process St) :=
  walk p identity true.

(** *** [memory_authority]: what an attestation relies on *)

(** [record_class] *)
Definition has_key (k : string) (v : json) : bool := match jget k v with Some _ => true | None => false end.
Definition record_class (v : json) : res pyexn string :=
  if bool_decide (jget "record_kind" v = Some (JStr "markdown-store")) then Ok "markdown-store"%string
  else if has_key "statement" v && has_key "category" v then Ok "fact"%string
  else if has_key "context" v && has_key "solution" v then Ok "trace"%string
  else if has_key "kind" v && has_key "data" v && has_key "revision" v then
    k ← str_of "kind" v; Ok ("control:" +:+ k)
  else Ok "journal"%string.

Definition jdel (k : string) (v : json) : json := match v with JObj kvs => JObj (assoc_del k kvs) | _ => v end.

(** [bool(v.get(k))] *)
Definition truthy_at (k : string) (v : json) : bool :=
  match jget k v with
  | None | Some JNull | Some (JBool false) | Some (JStr "") | Some (JList []) | Some (JObj []) => false
  | Some (JInt n) => negb (n =? 0)
  | Some (JFloat r) => negb (String.eqb r "0.0" || String.eqb r "-0.0")
  | Some _ => true
  end.

(** [memory_authority.verify(root, receipt, record)]; the record is compared
    once the signature is good. *)
Definition authority_verify (s : St) (receipt record : json) : res pyexn bool :=
  ok ← Seal.verify s receipt;
  if negb ok then Ok false else
  let expected := default JNull (jget "record" receipt) in
  if py_eqb expected record then Ok true
  else if is_obj expected then
    c ← record_class expected;
    Ok (String.eqb c "trace" && negb (truthy_at "source_traces" expected) && negb (truthy_at "source_traces" record)
        && py_eqb (jdel "source_traces" expected) (jdel "source_traces" record))
  else Ok false.

(** [_check_source_scopes]: the labels of a record by dimension. *)
Fixpoint partition_colon (l : list ascii) : list ascii * list ascii :=
  match l with
  | [] => ([], [])
  | c :: l' => if Ascii.eqb c ":" then ([], l') else let '(a, b) := partition_colon l' in (c :: a, b)
  end.

Definition dimensions (labels : json) : res pyexn (gmap string (gset string)) :=
  match labels with
  | JList l =>
      require (zlen l <=? 128) ValueError;;
      foldM (λ groups label,
        match label with
        | JStr x =>
            require ((1 <=? str_len x) && (str_len x <=? 256)) ValueError;;
            let '(d, v) := partition_colon (str_bytes x) in
            Ok (add_edge groups (of_bytes d) (of_bytes v))
        | _ => Err ValueError
        end) ∅ l
  | _ => Err ValueError
  end.

Definition _check_source_scopes (derived : json) (sources : list json) : res pyexn () :=
  wanted ← dimensions derived;
  _ ← mapR (λ source,
    groups ← dimensions source;
    require (forallb (λ kv, bool_decide (wanted !! kv.1 = Some kv.2)) (map_to_list groups)) PermissionError) sources;
  Ok ().

(** *** [attest] *)

(** [prior.get(item, {}).get("integrity", "unknown")] *)
Definition integrity_of (prior : gmap string json) (identity : string) : json :=
  match prior !! identity with
  | Some object => default (JStr "unknown") (jget "integrity" object)
  | None => JStr "unknown"
  end.

Definition level_rank (v : json) : res pyexn Z :=
  match v with JStr level => get_or (LEVELS level) KeyError | JList _ | JObj _ => Err TypeError | _ => Err KeyError end.

(** [LEVELS.get(receipt.get("authority", "unknown"), -1)] *)
Definition receipt_rank (receipt : json) : res pyexn Z :=
  match default (JStr "unknown") (jget "authority" receipt) with
  | JStr a => Ok (default (-1) (LEVELS a))
  | JList _ | JObj _ => Err TypeError
  | _ => Ok (-1)
  end.

(** The first name of the rank. *)
Definition level_of (rank : Z) : res pyexn string :=
  get_or (List.find (λ k, bool_decide (LEVELS k = Some rank)) ["unknown"; "external"; "agent"; "user"; "operator"]%string)
    StopIteration.

(** No input may descend from the record. *)
Fixpoint check_cycle (g : graph) (identity : string) (inputs : list string) : res pyexn () :=
  match inputs with
  | [] => Ok ()
  | parent :: rest =>
      _ ← text parent 512;
      l ← walk_in g parent;
      require (negb (mem identity l)) ValueError;;
      check_cycle g identity rest
  end.

(** [{source for item in inputs for source in prior.get(item, {}).get("root_origins", [])}] *)
Definition roots_of (prior : gmap string json) (identity : string) : res pyexn (list string) :=
  match prior !! identity ≫= jget "root_origins" with
  | None => Ok []
  | Some (JList l) => mapR (λ v, match v with JStr s => Ok s | _ => Err TypeError end) l
  | Some _ => Err TypeError
  end.

(** The confidentiality labels of the attested inputs that carry a list. *)
Definition inherited_scopes (prior : gmap string json) (inputs : list string) : res pyexn (list (list json)) :=
  ls ← mapR (λ i,
    match prior !! i with
    | Some object => c ← item "confidentiality" object; Ok (match c with JList l => [l] | _ => [] end)
    | None => Ok []
    end) inputs;
  Ok (concat ls).

Record attestation := Attestation {
  a_record : json; a_receipt : json; a_inputs : list string;
  a_operation : string; a_model : string; a_prompt_hash : string;
}.

(** The ambient state: the delegation of the capability in force (the value of
    [capability_io.delegation], which has then checked it), the experiment's
    arm ([interference.active_context]) and the clock. *)
Record ambient := Ambient { delegation : option json; experiment : option (json * json); now : string }.

(** The statement's parents, integrity, roots and labels. *)
Definition parent_row (prior : gmap string json) (i : string) : json :=
  JObj [("id", JStr i); ("content_hash", default (JStr "unknown") (prior !! i ≫= jget "content_hash"))]%string.

Definition minimum (x : Z) (l : list Z) : Z := foldl Z.min x l.

Definition statement_level (prior : gmap string json) (receipt : json) (identity : string) (inputs : list string)
    : res pyexn string :=
  r ← receipt_rank receipt;
  ranks ← mapR (λ i, level_rank (integrity_of prior i)) inputs;
  before ← match prior !! identity with
    | Some object => v ← item "integrity" object; n ← level_rank v; Ok [n]
    | None => Ok []
    end;
  level_of (minimum r (ranks ++ before)).

Definition statement_roots (prior : gmap string json) (receipt : json) (inputs : list string) : res pyexn (list string) :=
  match inputs with
  | [] => v ← item "principal" receipt; r ← text_json v 512; Ok [r]
  | _ => rs ← mapR (roots_of prior) inputs; Ok (sorted_set (concat rs))
  end.

Definition statement_labels (prior : gmap string json) (record : json) (operation : string) (inputs : list string)
    : res pyexn json :=
  let scopes := default (JList []) (jget "scopes" record) in
  match scopes with
  | JList l =>
      require (zlen l <=? 128) ValueError;;
      inherited ← inherited_scopes prior inputs;
      _ ← (if String.eqb operation "lesson" then _check_source_scopes scopes (map JList inherited) else Ok ());
      own ← mapR (λ v, text_json v 256) l;
      others ← mapR (λ v, match v with JStr s => Ok s | _ => Err TypeError end) (concat inherited);
      Ok (match sorted_set (own ++ others) with [] => JStr "public" | labels => jstrings labels end)
  | _ => Err ValueError
  end.

Definition with_digest (statement : json) : res pyexn json :=
  d ← digest (jdel "lineage_digest" statement); Ok (jset "lineage_digest" (JStr d) statement).

(** [_attest], up to publication. *)
Definition statement (prior : gmap string json) (graph : graph) (a : ambient) (t : attestation)
    (identity : string) (inputs : list string) : res pyexn json :=
  check_cycle graph identity inputs;;
  level ← statement_level prior (a_receipt t) identity inputs;
  roots ← statement_roots prior (a_receipt t) inputs;
  operation ← text (a_operation t) 512;
  model ← text (a_model t) 512;
  actor ← item "principal" (a_receipt t);
  h ← digest (jdel "id" (a_record t));
  labels ← statement_labels prior (a_record t) (a_operation t) inputs;
  let s := JObj [("kind", JStr "attestation"); ("id", JStr identity); ("inputs", JList (map (parent_row prior) inputs));
                 ("operation", JStr operation); ("model_id", JStr model); ("prompt_hash", JStr (a_prompt_hash t));
                 ("created_at", JStr (now a)); ("actor", actor); ("content_hash", JStr h); ("integrity", JStr level);
                 ("root_origins", jstrings roots); ("confidentiality", labels)]%string in
  s ← with_digest (match delegation a with Some d => jset "delegation" d s | None => s end);
  match experiment a with
  | Some (e, arm) => with_digest (jset "arm" arm (jset "experiment" e s))
  | None => Ok s
  end.

(** The capability write of a delegated record ([capability_io.stamp] and
    [commit_prepared] journal it alike, once). *)
Definition capability_write (s : St) (target h labels at_ delegation : json) : res pyexn St :=
  c ← item "chain_digest" delegation;
  identity ← digest (JList [target; h; c]);
  known ← latest s "capability-writes";
  match assoc identity known with
  | Some _ => Ok s
  | None =>
      chain ← item "chain" delegation; ids ← item "chain_ids" delegation; purpose ← item "purpose" delegation;
      '(_, s) ← event s "capability-writes" identity
        [("target", target); ("content_hash", h); ("chain", chain); ("chain_ids", ids);
         ("scopes", labels); ("purpose", purpose); ("at", at_)]%string;
      Ok s
  end.

(** [capability_io.stamp] *)
Definition stamp (s : St) (record delegation : json) (at_ : string) : res pyexn St :=
  h ← digest (jdel "id" record);
  i ← item "id" record;
  target ← text_json i 512;
  capability_write s (JStr target) (JStr h) (default (JList []) (jget "scopes" record)) (JStr at_) delegation.

Definition _attest (p : process St) (a : ambient) (t : attestation) (publish : bool)
    : res pyexn (json * process St) :=
  ok ← authority_verify (ledger p) (a_receipt t) (a_record t);
  require ok PermissionError;;
  identity ← text_json (default (JStr "") (jget "id" (a_record t))) 512;
  _ ← count (zlen (a_inputs t)) 0 256;
  inputs ← mapR (λ i, text i 512) (a_inputs t);
  let inputs := sorted_set inputs in
  require (negb (mem identity inputs)) ValueError;;
  '(st, p) ← _snapshot p;
  s ← statement (objects st) (up st) a t identity inputs;
  if negb publish then Ok (s, p)
  else
    l ← (match delegation a with
         | Some d => if String.eqb (a_operation t) "journal" then Ok (ledger p)
                     else stamp (ledger p) (a_record t) d (now a)
         | None => Ok (ledger p)
         end);
    '(_, l) ← Ledger.append l JOURNAL s;
    Ok (s, Process l (cached p) (log_trees p)).

Definition attest (p : process St) (a : ambient) (t : attestation) : res pyexn (json * process St) :=
  _attest p a t true.

(** [prepare]: the signed statement, unpublished. *)
Definition prepare (p : process St) (a : ambient) (record receipt : json) (inputs : list string) (operation : string)
    : res pyexn (json * process St) :=
  '(s, p) ← _attest p a (Attestation record receipt inputs operation "unspecified" "") false;
  '(signed, l) ← sign (ledger p) s;
  Ok (signed, Process l (cached p) (log_trees p)).

Definition commit_prepared (p : process St) (signed : json) : res pyexn (process St) :=
  ok ← Seal.verify (ledger p) signed;
  require ok PermissionError;;
  statement ← item "record" signed;
  let d := default JNull (jget "lineage_digest" statement) in
  require (bool_decide (jget "kind" statement = Some (JStr "attestation"))) ValueError;;
  expected ← digest (jdel "lineage_digest" statement);
  require (bool_decide (d = JStr expected)) ValueError;;
  s ← (if truthy_at "delegation" statement then
         i ← item "id" statement; h ← item "content_hash" statement; labels ← item "confidentiality" statement;
         at_ ← item "created_at" statement;
         capability_write (ledger p) i h (match labels with JList _ => labels | _ => JList [] end) at_
           (default JNull (jget "delegation" statement))
       else Ok (ledger p));
  rows ← journal s JOURNAL;
  if existsb (λ row, py_eqb (default JNull (jget "lineage_digest" row)) d) rows
  then Ok (Process s (cached p) (log_trees p))
  else '(_, s) ← Ledger.append s JOURNAL statement; Ok (Process s (cached p) (log_trees p)).

(** *** Taints and labels *)

Definition taint (p : process St) (a : ambient) (identity reason : string) : res pyexn (json * process St) :=
  _ ← text identity 512;
  '(st, p) ← _snapshot p;
  events ← mapR (λ e, r ← item "reason" e; Ok (e, r)) (rev (default [] (tainted st !! identity)));
  match List.find (λ er, jstr_eqb er.2 reason) events with
  | Some (e, _) => Ok (e, p)
  | None =>
      r ← text reason 2048;
      '(signed, l) ← Ledger.append (ledger p) JOURNAL
        (JObj [("kind", JStr "taint"); ("id", JStr identity); ("reason", JStr r)]%string);
      '(_, l, ts) ← Transparency.append root l (log_trees p) "lineage-taint"
        (JObj [("id", JStr identity); ("reason", JStr reason)]%string) (now a) true;
      Ok (signed, Process l (cached p) ts)
  end.

Definition invalidate (p : process St) (a : ambient) (fact_id : string) : res pyexn (json * process St) :=
  taint p a fact_id "superseded: review all descendants".

Record label := Label { integrity : json; lineage_digest : json; review_required : bool; label_taints : list (json * json) }.

Definition labels (p : process St) (identity : string) : res pyexn (label * process St) :=
  '(st, p) ← _snapshot p;
  let row := default (JObj []) (objects st !! identity) in
  '(family, p) ← (if decide (tainted st = ∅) then Ok ([identity], p)
                   else '(l, p) ← ancestors p identity; Ok (sorted_set (identity :: l), p));
  let taints := concat (map (λ m, default [] (tainted st !! m)) family) in
  let level := default (JStr "unknown") (jget "integrity" row) in
  marks ← mapR (λ r, i ← item "id" r; x ← item "reason" r; Ok (i, x)) taints;
  Ok (Label (match taints with [] => level | _ => JStr "external" end) (default (JStr "") (jget "lineage_digest" row))
        (match taints with [] => false | _ => true end) marks, p).

Definition explain (p : process St) (identity : string)
    : res pyexn (label * list string * list string * process St) :=
  '(l, p) ← labels p identity;
  '(anc, p) ← ancestors p identity;
  '(desc, p) ← descendants p identity;
  Ok (l, anc, desc, p).
End lineage.
