(* ===== verification/LineageSpec.v ===== *)
(** * Lineage: reachability, integrity and taint

    [walk] decides reachability within its bound; a snapshot is the replay of
    the journal; an attestation never raises integrity and never closes a
    cycle; a taint reaches every descendant. *)

From S2P Require Import Prelude Sha256 Base64 Wire Origin Merkle Journal JournalSpec Strings Number Ledger Seal Vda Transparency Artifacts Lineage.
Local Open Scope Z_scope.

(** ** Reachability *)

Definition edge (g : graph) (x y : string) : Prop := y ∈ neighbors g x.
Definition reach (g : graph) : string → string → Prop := rtc (edge g).

(** [R] is what can be reached from [x]. *)
Definition reachable_set (g : graph) (x : string) (R : gset string) : Prop := ∀ y, y ∈ R ↔ reach g x y.

Section walk.
Variables (g : graph) (start : string).

(** Seen nodes are reachable; those no longer pending have all their
    neighbors seen. *)
Record walking (seen : gset string) (pending : list string) : Prop := {
  w_start : start ∈ seen;
  w_reach : ∀ y, y ∈ seen → reach g start y;
  w_nodup : NoDup pending;
  w_pending : ∀ y, y ∈ pending → y ∈ seen;
  w_done : ∀ y, y ∈ seen → y ∉ pending → neighbors g y ⊆ seen;
}.

Lemma walking_start : walking {[start]} [start].
Proof.
  split; [set_solver|intros y ->%elem_of_singleton; constructor|apply NoDup_singleton| |]; set_solver.
Qed.

Lemma walking_step seen x rest : walking seen (x :: rest) →
  walking (seen ∪ (neighbors g x ∖ seen)) (rev (elements (neighbors g x ∖ seen)) ++ rest).
Proof.
  intros [Hs Hr Hn Hp Hd]. apply NoDup_cons in Hn as [Hx Hn].
  assert (Hel : ∀ y, y ∈ rev (elements (neighbors g x ∖ seen)) ↔ y ∈ neighbors g x ∖ seen).
  { intros y. rewrite <- elem_of_elements. rewrite !list_elem_of_In. symmetry. apply in_rev. }
  split.
  - set_solver.
  - intros y [Hy|Hy]%elem_of_union; [by apply Hr|]. apply elem_of_difference in Hy as [Hy _].
    eapply rtc_r; [|exact Hy]. apply Hr, Hp. set_solver.
  - apply NoDup_app. split_and!; [|intros y Hy%Hel Hy'; set_solver|done].
    rewrite <- Permutation_rev. apply NoDup_elements.
  - intros y [Hy%Hel|Hy]%elem_of_app; set_solver.
  - intros y Hy Hny. rewrite elem_of_app, Hel in Hny. apply elem_of_union in Hy as [Hy|Hy]; [|set_solver].
    destruct (decide (y = x)) as [->|Hyx]; [intros z Hz; destruct (decide (z ∈ seen)); set_solver|].
    assert (neighbors g y ⊆ seen) by (apply Hd; set_solver). set_solver.
Qed.

Lemma walking_finished seen : walking seen [] → reachable_set g start seen.
Proof.
  intros [Hs Hr _ _ Hd] y. split; [apply Hr|]. revert y. refine (rtc_ind_r (λ z, z ∈ seen) _ Hs _).
  intros y z _ Hyz Hy. apply (Hd y); [done|set_solver|done].
Qed.

(** The nodes already popped. *)
Definition popped (seen : gset string) (pending : list string) : nat := size seen - length pending.

Lemma pending_le seen pending : walking seen pending → (length pending <= size seen)%nat.
Proof.
  intros [_ _ Hn Hp _]. rewrite <- (size_list_to_set (C := gset string) pending) by done.
  apply subseteq_size. intros y Hy%elem_of_list_to_set. by apply Hp.
Qed.

Lemma popped_step seen x rest : walking seen (x :: rest) →
  popped (seen ∪ (neighbors g x ∖ seen)) (rev (elements (neighbors g x ∖ seen)) ++ rest) = S (popped seen (x :: rest)).
Proof.
  intros Hw. pose proof (pending_le _ _ Hw) as Hle. simpl in Hle. unfold popped.
  rewrite size_union by set_solver. rewrite length_app, length_rev. simpl.
  change (length (elements (neighbors g x ∖ seen))) with (size (neighbors g x ∖ seen)). lia.
Qed.

Lemma walk_loop_sound fuel : ∀ seen pending R, walking seen pending → walk_loop fuel g seen pending = Some R →
  reachable_set g start R ∧ (size R < fuel + popped seen pending)%nat.
Proof.
  induction fuel as [|fuel IH]; intros seen pending R Hw H; [done|]. destruct pending as [|x rest]; simpl in H.
  - injection H as <-. split; [by apply walking_finished|]. unfold popped. simpl. lia.
  - pose proof (popped_step _ _ _ Hw) as Hpop. apply walking_step in Hw. destruct (IH _ _ _ Hw H) as [HR Hlt].
    split; [done|]. lia.
Qed.

(** With more iterations than nodes left the search ends. *)
Lemma walk_loop_total (U : gset string) fuel : ∀ seen pending, (∀ y, reach g start y → y ∈ U) → walking seen pending →
  (size U < fuel + popped seen pending)%nat → is_Some (walk_loop fuel g seen pending).
Proof.
  induction fuel as [|fuel IH]; intros seen pending HU Hw Hlt.
  - assert (size seen <= size U)%nat by (apply subseteq_size; intros y Hy; by apply HU, (w_reach _ _ Hw)).
    unfold popped in Hlt. lia.
  - destruct pending as [|x rest]; simpl; [by eexists|]. apply IH; [done|by apply walking_step|].
    rewrite popped_step by done. lia.
Qed.

(** All nodes a graph mentions. *)
Definition mentioned : gset string := {[start]} ∪ ⋃ (map snd (map_to_list g)).

Lemma reach_mentioned y : reach g start y → y ∈ mentioned.
Proof.
  revert y. refine (rtc_ind_r (λ z, z ∈ mentioned) _ _ _); [set_solver|]. intros y z _ Hyz _. unfold edge, neighbors in Hyz.
  destruct (g !! y) as [ns|] eqn:E; simpl in Hyz; [|set_solver]. apply elem_of_union_r, elem_of_union_list.
  exists ns. split; [|done]. apply list_elem_of_In, in_map_iff. exists (y, ns). split; [done|].
  by apply list_elem_of_In, elem_of_map_to_list.
Qed.

Lemma reachable_exists : ∃ R, reachable_set g start R.
Proof.
  destruct (walk_loop_total mentioned (S (size mentioned)) {[start]} [start]) as [R HR];
    [apply reach_mentioned|apply walking_start|lia|].
  exists R. by destruct (walk_loop_sound _ _ _ _ walking_start HR).
Qed.

Lemma reachable_unique R R' : reachable_set g start R → reachable_set g start R' → R = R'.
Proof. intros H H'. apply set_eq. intros y. by rewrite (H y), (H' y). Qed.

Lemma walk_loop_spec fuel R : reachable_set g start R →
  walk_loop fuel g {[start]} [start] = if (size R <? fuel)%nat then Some R else None.
Proof.
  intros HR. assert (Hp : popped {[start]} [start] = 0%nat) by (unfold popped; by rewrite size_singleton).
  destruct (walk_loop fuel g {[start]} [start]) as [R'|] eqn:E.
  - destruct (walk_loop_sound _ _ _ _ walking_start E) as [HR' Hlt]. rewrite (reachable_unique _ _ HR HR').
    by rewrite (proj2 (Nat.ltb_lt _ _)) by lia.
  - destruct (Nat.ltb_spec (size R) fuel) as [Hlt|]; [|done].
    destruct (walk_loop_total R fuel {[start]} [start]) as [R' HR']; [apply HR|apply walking_start|lia|congruence].
Qed.
End walk.

Lemma walk_in_spec g x R : reachable_set g x R →
  walk_in g x = if (size R <? WALK_LIMIT)%nat then Ok (sort_strings (elements (R ∖ {[x]}))) else Err ValueError.
Proof.
  intros HR. unfold walk_in. rewrite (walk_loop_spec _ _ _ _ HR). by destruct (size R <? WALK_LIMIT)%nat.
Qed.

Lemma walk_in_elem g x l : walk_in g x = Ok l → ∀ y, y ∈ l ↔ reach g x y ∧ y ≠ x.
Proof.
  destruct (reachable_exists g x) as [R HR]. rewrite (walk_in_spec _ _ _ HR).
  destruct (size R <? WALK_LIMIT)%nat; [|done]. intros [= <-] y. unfold sort_strings.
  rewrite (sort_by_Permutation str_ltb), elem_of_elements, <- (HR y). set_solver.
Qed.

(** C35: [walk] decides reachability.  It returns the sorted nodes other than
    the start that can be reached from it, exactly when fewer than 2000 nodes
    are reachable (the start included), and raises [ValueError] otherwise; on
    cyclic graphs too. *)
Theorem walk_reachability g x : ∃ R, reachable_set g x R ∧
  if (size R <? 2000)%nat
  then ∃ l, walk_in g x = Ok l ∧ StronglySorted (λ a b, str_ltb b a = false) l ∧ NoDup l ∧
         ∀ y, y ∈ l ↔ reach g x y ∧ y ≠ x
  else walk_in g x = Err ValueError.
Proof.
  destruct (reachable_exists g x) as [R HR]. exists R. split; [done|].
  pose proof (walk_in_elem g x) as Hel. rewrite (walk_in_spec _ _ _ HR) in *. change WALK_LIMIT with 2000%nat in *.
  destruct (size R <? 2000)%nat; [|done]. eexists. split; [reflexivity|].
  pose proof (sort_by_Permutation (λ a b, str_ltb a b) (elements (R ∖ {[x]}))) as Hp.
  split_and!.
  - apply sort_by_sorted; [apply str_ltb_asym|apply str_geb_trans].
  - rewrite Hp. apply NoDup_elements.
  - by apply Hel.
Qed.

(** ** Snapshots *)

(** The content of a state, without its position in the journal. *)
Definition content (st : lineage) : lineage := at_tip 0 "" st.

Definition replay (rows : list json) : res pyexn lineage := foldM apply_event no_lineage rows.

Lemma link_at_tip n t i ps st : foldl (λ st p, link i p st) (at_tip n t st) ps = at_tip n t (foldl (λ st p, link i p st) st ps).
Proof. revert st. induction ps as [|p ps IH]; intros st; simpl; [done|]. by rewrite <- IH. Qed.

Lemma apply_event_at_tip n t st row : apply_event (at_tip n t st) row = at_tip n t <$> apply_event st row.
Proof.
  unfold apply_event. destruct (str_of "id" row) as [i|]; [|done]. cbn [mbind res_bind].
  destruct (item "kind" row) as [k|]; [|done]. cbn [mbind res_bind].
  destruct (jstr_eqb k "attestation").
  - destruct (list_of "inputs" row) as [l|]; [|done]. cbn [mbind res_bind].
    destruct (mapR _ l) as [ps|]; [|done]. cbn [mbind res_bind fmap res_fmap].
    by rewrite <- link_at_tip.
  - change (objects (at_tip n t st)) with (objects st). destruct (_ || _); [|by destruct (jstr_eqb k "taint")].
    destruct (objects st !! i) as [o|]; [|by destruct (jstr_eqb k "taint")].
    destruct (item "content_hash" o); [|done]. cbn [mbind res_bind].
    destruct (py_eqb _ _); [done|by destruct (jstr_eqb k "taint")].
Qed.

Lemma foldM_at_tip n t rows : ∀ st, foldM apply_event (at_tip n t st) rows = at_tip n t <$> foldM apply_event st rows.
Proof.
  induction rows as [|row rows IH]; intros st; [done|]. cbn [foldM]. rewrite apply_event_at_tip.
  destruct (apply_event st row) as [st'|]; [|done]. cbn [mbind res_bind fmap res_fmap]. apply IH.
Qed.

Lemma replay_content l st : replay l = Ok st → content st = st.
Proof.
  unfold replay. change no_lineage with (at_tip 0 "" no_lineage) at 1. rewrite foldM_at_tip.
  destruct (foldM _ _ l); [|done]. by intros [= <-].
Qed.

Section snapshot.
Context `{LG : Ledger St, LL : !LedgerLaws St, SL : !Sealed St, SLL : !SealedLaws St}.
Variable root : string.

(** What comparing tips establishes: a cached state whose last row is still
    the journal's row at that place is the replay of the rows up to it. *)
Definition faithful (s : St) (c : lineage) : Prop := ∀ l, journal s JOURNAL = Ok l → 0 <= l_count c ∧
  (l_count c = 0 → content c = no_lineage) ∧
  ∀ row, 0 < l_count c <= zlen l → signed_at s JOURNAL (l_count c - 1) = Ok row → digest row = Ok (l_tip c) →
    replay (take (Z.to_nat (l_count c)) l) = Ok (content c).
Definition faithful_cache (s : St) (ss : states) : Prop := ∀ c, assoc root ss = Some c → faithful s c.

Lemma states_evict_suffix ss : ∃ old, ss = old ++ evict ss.
Proof.
  induction ss as [|kv ss IH]; simpl; [by exists []|]. destruct (_ || _); [|by exists []].
  destruct IH as [old IH]. exists (kv :: old). simpl. by f_equal.
Qed.

Lemma evicted st ss c : assoc root (evict (assoc_del root ss ++ [(root, st)])) = Some c → c = st.
Proof. destruct (states_evict_suffix (assoc_del root ss ++ [(root, st)])) as [old Hold]. by eapply touched_found. Qed.

Lemma faithful_whole s l n t st : journal s JOURNAL = Ok l → replay l = Ok st → n = zlen l → checkpoint s JOURNAL = Ok (n, t) →
  faithful s (at_tip n t st).
Proof.
  intros Hl Hst -> Ht l' Hl'. assert (l' = l) as -> by congruence. simpl. unfold zlen. split_and!; [lia| |].
  - intros H0. destruct l; [|simpl in H0; lia]. by injection Hst as <-.
  - intros row _ _ _. rewrite Nat2Z.id, take_ge by done.
    rewrite Hst. f_equal. symmetry. exact (replay_content _ _ Hst).
Qed.

(** [_snapshot_locked] is the replay of the journal. *)
Lemma snapshot_spec s ss st ss' : faithful_cache s ss → _snapshot_locked root s ss = Ok (st, ss') →
  ∃ l, journal s JOURNAL = Ok l ∧ replay l = Ok (content st) ∧
    faithful_cache s ss' ∧ (∀ c, assoc root ss' = Some c → l_count c <= zlen l).
Proof.
  intros Hf H. unfold _snapshot_locked in H. bind H as [n t] Ht.
  destruct (checkpoint_journal _ _ _ _ Ht) as (l & Hl & Hn & _). exists l. split; [done|].
  set (stale := _ ≫= _) in H.
  assert (Hstale : stale = Ok (st, ss') → replay l = Ok (content st) ∧ faithful_cache s ss' ∧
    (∀ c, assoc root ss' = Some c → l_count c <= zlen l)).
  { intros R. unfold stale in R. bind R as c Hc. bind R as [[n' t'] rows] Hrows.
    unfold event_snapshot in Hrows. rewrite Ht, Hl in Hrows. cbn [mbind res_bind] in Hrows.
    bind Hrows as k Hk. apply count_Ok' in Hk as [Hk ->]. injection Hrows as <- <- <-.
    bind R as st' Hst. injection R as <- <-.
    assert (Hprefix : replay (take (Z.to_nat (l_count c)) l) = Ok (content c)).
    { unfold reusable in Hc. destruct (assoc root ss) as [c0|] eqn:Ec; [|injection Hc as <-; done].
      destruct (n <? l_count c0); [injection Hc as <-; done|].
      destruct (Hf _ Ec _ Hl) as (Hpos & H0 & Hrow).
      destruct (l_count c0 =? 0) eqn:E0; zbool.
      - injection Hc as <-. rewrite E0. change (Z.to_nat 0) with 0%nat. rewrite take_0. by rewrite H0.
      - bind Hc as row Hr. bind Hc as d Hd. injection Hc as <-. destruct (String.eqb_spec d (l_tip c0)) as [->|]; [|done].
        apply (Hrow row); [unfold zlen; lia|done|done]. }
    assert (Hrep : replay l = Ok (content st')).
    { rewrite <- (take_drop (Z.to_nat (l_count c)) l). unfold replay in *. rewrite foldM_app, Hprefix.
      cbn [mbind res_bind]. unfold content. by rewrite foldM_at_tip, Hst. }
    split_and!; [done| |].
    - intros c' ->%evicted. eapply (faithful_whole s l n t (content st')); [done|done|unfold zlen; lia|done].
    - intros c' ->%evicted. simpl. unfold zlen. lia. }
  destruct (assoc root ss) as [c|] eqn:Ec; [|by apply Hstale].
  destruct ((l_count c =? n) && String.eqb (l_tip c) t) eqn:Eq; [|by apply Hstale].
  injection H as <- <-. apply andb_true_iff in Eq as [E1 E2%String.eqb_eq]. zbool. subst t.
  split_and!; [|done|intros c' Hc'; rewrite Ec in Hc'; injection Hc' as <-; unfold zlen; lia].
  destruct (Hf _ Ec _ Hl) as (Hpos & H0 & Hrow). destruct (decide (l_count c = 0)) as [E|E].
  - rewrite H0 by done. destruct l; [done|simpl in Hn; lia].
  - destruct (checkpoint_tip _ _ _ _ Ht) as (row & Hr & Hd); [lia|]. rewrite <- E1 in Hr.
    specialize (Hrow row ltac:(unfold zlen; lia) Hr Hd). by rewrite take_ge in Hrow by lia.
Qed.

(** A cache no longer than the journal: what a snapshot leaves. *)
Definition current_cache (s : St) (ss : states) : Prop := faithful_cache s ss ∧
  ∀ c l, assoc root ss = Some c → journal s JOURNAL = Ok l → l_count c <= zlen l.

(** Appending to a journal keeps it; the lineage journal grows or stays. *)
Lemma current_append s ss other body x s' : is_ok (journal s JOURNAL) = true → current_cache s ss →
  Ledger.append s other body = Ok (x, s') → current_cache s' ss.
Proof.
  intros Hok [Hf Hlen] Happ. destruct (journal s JOURNAL) as [l|] eqn:Hl; [|done]. clear Hok.
  assert (Hgrow : ∀ l', journal s' JOURNAL = Ok l' → ∃ k, l' = l ++ k).
  { intros l' Hl'. destruct (decide (other = JOURNAL)) as [->|Hne].
    - destruct (append_same _ _ _ _ _ _ _ Hl Happ Hl') as (r & -> & _). by exists [r].
    - exists []. rewrite app_nil_r. by eapply (append_other s other JOURNAL); [apply not_eq_sym| | |]. }
  split.
  - intros c Hc l' Hl'. destruct (Hf _ Hc _ Hl) as (Hpos & H0 & Hrow). specialize (Hlen _ _ Hc eq_refl).
    destruct (Hgrow _ Hl') as [k ->]. unfold zlen in *. split_and!; [done|done|]. intros row Hn Hr Hd.
    rewrite take_app_le by lia. apply (Hrow row); [lia| |done]. eapply append_signed_at; [exact Happ|exact Hl|lia|done].
  - intros c l' Hc Hl'. destruct (Hgrow _ Hl') as [k ->]. specialize (Hlen _ _ Hc eq_refl).
    unfold zlen in *. rewrite length_app. lia.
Qed.

(** whatever the process cached (nothing, a state of this journal, or one
    whose rows were since rolled back), a snapshot's objects, edges and taints
    are the replay of the whole journal, and the cache it leaves is faithful
    again. *)
Theorem snapshot_is_replay p st p' : faithful_cache (ledger p) (cached p) → _snapshot root p = Ok (st, p') →
  ledger p' = ledger p ∧ current_cache (ledger p') (cached p') ∧
  ∃ l, journal (ledger p) JOURNAL = Ok l ∧ replay l = Ok (content st).
Proof.
  intros Hf H. unfold _snapshot in H. bind H as [st' ss'] Hs. injection H as <- <-.
  destruct (snapshot_spec _ _ _ _ Hf Hs) as (l & Hl & Hr & Hf' & Hlen). split_and!; [done| |by exists l].
  split; [done|]. intros c l' Hc Hl'. simpl in Hl'. rewrite Hl in Hl'. injection Hl' as <-. by apply Hlen.
Qed.

(** ** Attestations *)

Lemma event_step s ss kind identity value x s' : kind_ok kind = true → journal_name kind ≠ Ok JOURNAL →
  is_ok (journal s JOURNAL) = true → current_cache s ss → event s kind identity value = Ok (x, s') →
  current_cache s' ss ∧ ∀ l l', journal s JOURNAL = Ok l → journal s' JOURNAL = Ok l' → l' = l.
Proof.
  unfold event. intros _ Hne Hok Hc H. bind H as i _. bind H as u _. bind H as name Hname.
  split; [by eapply current_append|]. intros l l' Hl Hl'.
  refine (append_other s name JOURNAL _ _ _ l l' _ Hl H Hl'). congruence.
Qed.


Lemma stamp_step s ss record d at_ s' : is_ok (journal s JOURNAL) = true → current_cache s ss →
  stamp s record d at_ = Ok s' →
  current_cache s' ss ∧ ∀ l l', journal s JOURNAL = Ok l → journal s' JOURNAL = Ok l' → l' = l.
Proof.
  unfold stamp, capability_write. intros Hok Hc H. bind H as h _. bind H as i _. bind H as target _. bind H as c _.
  bind H as identity _. bind H as known _.
  destruct (assoc identity known); [injection H as <-; split; [done|congruence]|].
  bind H as chain _. bind H as ids _. bind H as purpose _. bind H as [x s1] He. injection H as <-.
  eapply event_step; [| |done|done|exact He]; [done|by vm_compute].
Qed.

(** The fields of a statement, signed or journalled. *)
Definition statement_field (prior : gmap string json) (t : attestation) (identity : string) (inputs : list string)
    (level : string) (k : string) : option json :=
  assoc k [("kind", JStr "attestation"); ("id", JStr identity); ("inputs", JList (map (parent_row prior) inputs));
           ("integrity", JStr level)]%string.

Lemma with_digest_get s d k : with_digest s = Ok d → String.eqb k "lineage_digest" = false → jget k d = jget k s.
Proof. unfold with_digest. intros H Hk. bind H as x _. injection H as <-. by apply jget_jset_other. Qed.

Lemma with_digest_obj s d : with_digest s = Ok d → is_obj d = is_obj s.
Proof. unfold with_digest. intros H. bind H as x _. injection H as <-. by apply is_obj_jset. Qed.

Lemma statement_field_keys prior t identity inputs level k v : statement_field prior t identity inputs level k = Some v →
  k ∈ ["kind"; "id"; "inputs"; "integrity"]%string.
Proof.
  unfold statement_field. intros H. apply mem_elem. cbn [assoc] in H. unfold mem. cbn [existsb].
  repeat (destruct (String.eqb k _); [done|]). done.
Qed.

Lemma statement_spec prior g a t identity inputs s : statement prior g a t identity inputs = Ok s →
  check_cycle g identity inputs = Ok () ∧ is_obj s = true ∧
  ∃ level, statement_level prior (a_receipt t) identity inputs = Ok level ∧
    ∀ k v, statement_field prior t identity inputs level k = Some v → jget k s = Some v.
Proof.
  unfold statement. intros H. bind H as [] Hcyc. bind H as level Hlev. bind H as roots _. bind H as operation _.
  bind H as model _. bind H as actor _. bind H as h _. bind H as labels _. bind H as s1 Hs1.
  set (base := JObj _) in Hs1.
  assert (Hother : ∀ k v x, statement_field prior t identity inputs level k = Some v →
    x ∈ ["delegation"; "experiment"; "arm"; "lineage_digest"]%string → String.eqb k x = false).
  { intros k v x Hk%statement_field_keys Hx. apply String.eqb_neq. intros ->. set_solver. }
  assert (Ho : is_obj s1 = true) by (rewrite (with_digest_obj _ _ Hs1); by destruct (delegation a)).
  assert (Hget : ∀ k v, statement_field prior t identity inputs level k = Some v → jget k s1 = Some v).
  { intros k v Hk. rewrite (with_digest_get _ _ _ Hs1) by (eapply Hother; [done|set_solver]).
    assert (jget k base = Some v) as Hb.
    { pose proof (statement_field_keys _ _ _ _ _ _ _ Hk) as Hin. rewrite !elem_of_cons in Hin.
      destruct Hin as [->|[->|[->|[->|Hin]]]]; [exact Hk..|set_solver]. }
    destruct (delegation a); [|done]. rewrite jget_jset_other; [done|]. eapply Hother; [done|set_solver]. }
  split; [done|]. destruct (experiment a) as [[e arm]|].
  - split; [by rewrite (with_digest_obj _ _ H), !is_obj_jset|]. exists level. split; [done|]. intros k v Hk.
    rewrite (with_digest_get _ _ _ H), !jget_jset_other; [by apply Hget|..]; (eapply Hother; [done|set_solver]).
  - injection H as <-. split; [done|]. by exists level.
Qed.

(** How [_attest] made its statement, and what publishing it did. *)
Lemma attest_made p a t publish s p' : faithful_cache (ledger p) (cached p) → _attest root p a t publish = Ok (s, p') →
  ∃ st l identity inputs ss', journal (ledger p) JOURNAL = Ok l ∧ replay l = Ok st ∧
    text_json (default (JStr "") (jget "id" (a_record t))) 512 = Ok identity ∧ (∀ i, i ∈ inputs ↔ i ∈ a_inputs t) ∧
    (identity ∉ inputs) ∧ statement (objects st) (up st) a t identity inputs = Ok s ∧ current_cache (ledger p) ss' ∧
    if publish : bool then ∃ l1 x, (l1 = ledger p ∨ ∃ d, stamp (ledger p) (a_record t) d (now a) = Ok l1) ∧
      Ledger.append l1 JOURNAL s = Ok (x, ledger p') ∧ cached p' = ss'
    else p' = Process (ledger p) ss' (log_trees p).
Proof.
  intros Hf H. unfold _attest in H. bind H as ok _. bind H as [] _. bind H as identity Hid. bind H as n _.
  bind H as inputs Hin. bind H as [] Hnot. bind H as [st p1] Hsnap.
  unfold _snapshot in Hsnap. bind Hsnap as [st' ss'] Hs. injection Hsnap as <- <-.
  destruct (snapshot_spec _ _ _ _ Hf Hs) as (l & Hl & Hr & Hf' & Hlen). cbn [ledger cached log_trees] in H.
  bind H as s' Hst. exists (content st'), l, identity, (sorted_set inputs), ss'.
  assert (s' = s) as -> by (destruct publish; [bind H as l1 _; bind H as [x l2] _|]; by injection H).
  split_and!; try done.
  - intros i. rewrite elem_sorted_set. apply mapR_Ok_Forall2 in Hin. clear -Hin.
    assert (inputs = a_inputs t) as ->; [|done]. induction Hin as [|x y l k Hxy Hlk IH]; [done|]. f_equal; [|done].
    unfold text in Hxy. by res_inv.
  - apply require_Ok, negb_true_iff in Hnot. intros Hi%mem_elem. congruence.
  - split; [done|]. intros c l' Hc Hl'. rewrite Hl in Hl'. injection Hl' as <-. by apply Hlen.
  - destruct publish; simpl in H; [|by injection H]. bind H as l1 Hstamp. bind H as [x l2] Happ. injection H as <-.
    exists l1, x. split_and!; [|exact Happ|done].
    destruct (delegation a) as [d|]; [destruct (String.eqb _ "journal")|]; [left|right; by exists d|left]; by injection Hstamp.
Qed.

(** What [attest] did. *)
Lemma attest_spec p a t s p' : faithful_cache (ledger p) (cached p) → attest root p a t = Ok (s, p') →
  ∃ st l identity inputs, journal (ledger p) JOURNAL = Ok l ∧ replay l = Ok st ∧
    text_json (default (JStr "") (jget "id" (a_record t))) 512 = Ok identity ∧ (∀ i, i ∈ inputs ↔ i ∈ a_inputs t) ∧
    (identity ∉ inputs) ∧ statement (objects st) (up st) a t identity inputs = Ok s ∧
    current_cache (ledger p') (cached p') ∧
    ∀ l', journal (ledger p') JOURNAL = Ok l' → ∃ r, l' = l ++ [r] ∧ stamped (zlen l) s r.
Proof.
  intros Hf (st & l & identity & inputs & ss' & Hl & Hr & Hid & Hin & Hnot & Hst & Hcur & l1 & x & Hl1 & Happ & Hc)%attest_made; [|done].
  assert (Hok : is_ok (journal (ledger p) JOURNAL) = true) by (by rewrite Hl).
  assert (current_cache l1 ss' ∧ ∀ k, journal l1 JOURNAL = Ok k → k = l) as [Hcur1 Hsame].
  { destruct Hl1 as [->|[d Hd]]; [split; [done|congruence]|].
    destruct (stamp_step _ _ _ _ _ _ Hok Hcur Hd) as [? Hsame]. split; [done|]. intros k. by apply Hsame. }
  pose proof (append_reads _ _ _ _ _ Happ) as Hok1. exists st, l, identity, inputs. split_and!; try done.
  - rewrite Hc. by eapply current_append.
  - intros l' Hl'. destruct (journal l1 JOURNAL) as [k|] eqn:Ek; [|done]. rewrite (Hsame k eq_refl) in Ek.
    destruct (append_same _ _ _ _ _ _ _ Ek Happ Hl') as (r & -> & _ & Hstd). by exists r.
Qed.

(** *** The graph *)

Definition acyclic (g : graph) : Prop := ∀ x, ¬ tc (edge g) x x.

Lemma neighbors_add g x y z : neighbors (add_edge g x y) z = if decide (z = x) then {[y]} ∪ neighbors g x else neighbors g z.
Proof.
  unfold add_edge, neighbors. destruct (decide (z = x)) as [->|]; [|by rewrite (lookup_insert_ne g) by done].
  by rewrite (lookup_insert_eq g).
Qed.

Lemma linked_up i ps st : let st' := foldl (λ st p, link i p st) st ps in
  (∀ x y, edge (up st') x y ↔ edge (up st) x y ∨ x = i ∧ y ∈ ps) ∧ tainted st' = tainted st ∧ objects st' = objects st.
Proof.
  revert st. induction ps as [|p ps IH]; intros st; simpl; [split_and!; [set_solver|done..]|].
  destruct (IH (link i p st)) as (He & Ht & Ho). split_and!; [|done..]. intros x y. rewrite He. unfold edge. simpl.
  rewrite neighbors_add. destruct (decide (x = i)) as [->|]; set_solver.
Qed.

(** New edges from [i] to nodes that do not reach it close no cycle. *)
Lemma tc_extended (g g' : graph) i (ps : list string) x y : (∀ a b, edge g' a b ↔ edge g a b ∨ a = i ∧ b ∈ ps) →
  (∀ p, p ∈ ps → ¬ reach g p i) → tc (edge g') x y → tc (edge g) x y ∨ reach g x i ∧ ∃ p, p ∈ ps ∧ reach g p y.
Proof.
  intros He Hp. unfold reach. induction 1 as [x y Hxy|x z y Hxz Hzy IH]; rewrite He in *.
  - destruct Hxy as [Hxy|[-> Hy]]; [left; by apply tc_once|right]. split; [done|]. by exists y.
  - destruct Hxz as [Hxz|[-> Hz]], IH as [IH|[IH1 IH2]].
    + left. by eapply tc_l.
    + right. split; [by eapply rtc_l|done].
    + right. split; [done|]. exists z. split; [done|]. apply tc_rtc, IH.
    + by destruct (Hp z Hz).
Qed.

Lemma acyclic_extended (g g' : graph) i (ps : list string) : (∀ a b, edge g' a b ↔ edge g a b ∨ a = i ∧ b ∈ ps) →
  (∀ p, p ∈ ps → ¬ reach g p i) → acyclic g → acyclic g'.
Proof.
  intros He Hp Hg x Hx. destruct (tc_extended _ _ _ _ _ _ He Hp Hx) as [H|[H1 (p & Hin & H2)]]; [by apply (Hg x)|].
  apply (Hp p Hin). unfold reach in *. by etrans.
Qed.

Lemma check_cycle_reach g identity inputs : identity ∉ inputs → check_cycle g identity inputs = Ok () →
  ∀ p, p ∈ inputs → ¬ reach g p identity.
Proof.
  intros Hni. induction inputs as [|q inputs IH]; intros H p Hp; [set_solver|]. cbn [check_cycle] in H.
  bind H as x _. bind H as l Hl. bind H as [] Hm. apply require_Ok, negb_true_iff in Hm.
  apply elem_of_cons in Hp as [->|Hp]; [|apply IH; set_solver].
  intros Hr. apply not_true_iff_false in Hm. apply Hm, mem_elem, (walk_in_elem _ _ _ Hl). set_solver.
Qed.

Lemma item_Ok k r v : jget k r = Some v → item k r = Ok v.
Proof. unfold item. by intros ->. Qed.
Lemma str_of_Ok k r x : jget k r = Some (JStr x) → str_of k r = Ok x.
Proof. unfold str_of. by intros ->%item_Ok. Qed.
Lemma list_of_Ok k r l : jget k r = Some (JList l) → list_of k r = Ok l.
Proof. unfold list_of. by intros ->%item_Ok. Qed.

(** The replay of a journalled statement. *)
Lemma replay_attested prior t identity inputs level l st s r n :
  replay l = Ok st → is_obj s = true → stamped n s r →
  (∀ k v, statement_field prior t identity inputs level k = Some v → jget k s = Some v) →
  ∃ st', replay (l ++ [r]) = Ok st' ∧ (∀ x y, edge (up st') x y ↔ edge (up st) x y ∨ x = identity ∧ y ∈ inputs) ∧
    objects st' = <[identity := r]> (objects st) ∧ jget "integrity" r = Some (JStr level).
Proof.
  intros Hl Ho (prev & at_ & Hr) Hget. destruct (chained_body s n prev at_ Ho) as (_ & _ & _ & Hk).
  assert (Hf : ∀ k v, statement_field prior t identity inputs level k = Some v → jget k r = Some v).
  { intros k v Hkv. pose proof (statement_field_keys _ _ _ _ _ _ _ Hkv) as Hin. rewrite Hr, Hk; [by apply Hget|].
    intros Hin'. set_solver. }
  unfold replay in *. rewrite foldM_app, Hl. cbn [mbind res_bind foldM].
  unfold apply_event. rewrite (str_of_Ok "id" r identity), (item_Ok "kind" r (JStr "attestation")) by (by apply Hf).
  cbn [mbind res_bind]. simpl jstr_eqb. cbv iota. rewrite (list_of_Ok "inputs" r (map (parent_row prior) inputs)) by (by apply Hf).
  cbn [mbind res_bind].
  assert (mapR (str_of "id") (map (parent_row prior) inputs) = Ok inputs) as ->
    by (clear; induction inputs as [|i inputs IH]; [done|]; cbn [map mapR]; rewrite IH; done).
  cbn [mbind res_bind]. eexists. split; [reflexivity|].
  destruct (linked_up identity inputs (with_object identity r st)) as (He & _ & Hob).
  split_and!; [done|by rewrite Hob|by apply Hf].
Qed.

(** *** Integrity *)








(** derivation stays acyclic: an attestation accepted over an acyclic
    lineage leaves an acyclic lineage, and a cache that is still faithful. *)
Theorem attest_keeps_acyclic p a t s p' l st l' : faithful_cache (ledger p) (cached p) →
  journal (ledger p) JOURNAL = Ok l → replay l = Ok st → acyclic (up st) →
  attest root p a t = Ok (s, p') → journal (ledger p') JOURNAL = Ok l' →
  faithful_cache (ledger p') (cached p') ∧ ∃ st', replay l' = Ok st' ∧ acyclic (up st').
Proof.
  intros Hf Hl Hr Hac H Hl'. destruct (attest_spec _ _ _ _ _ Hf H) as
    (st0 & l0 & identity & inputs & Hl0 & Hr0 & _ & _ & Hni & Hst & [Hf' _] & Hgrow). split; [done|].
  assert (l0 = l) as -> by congruence. assert (st0 = st) as -> by congruence.
  destruct (statement_spec _ _ _ _ _ _ _ Hst) as (Hcyc & Ho & level & _ & Hget).
  destruct (Hgrow _ Hl') as (r & -> & Hstd).
  destruct (replay_attested _ _ _ _ _ _ _ _ _ _ Hr Ho Hstd Hget) as (st' & Hr' & He & _).
  exists st'. split; [done|]. eapply acyclic_extended; [exact He| |done]. by apply check_cycle_reach.
Qed.

(** *** Taints *)

Definition taints_of (y : string) (row : json) : bool :=
  bool_decide (jget "kind" row = Some (JStr "taint") ∧ jget "id" row = Some (JStr y)).

Lemma apply_event_tainted st row st' y : apply_event st row = Ok st' →
  default [] (tainted st' !! y) = default [] (tainted st !! y) ++ (if taints_of y row then [row] else []).
Proof.
  unfold apply_event. intros H. bind H as i Hi. bind H as k Hk. unfold str_of in Hi. bind Hi as v Hv.
  destruct v; try done. injection Hi as ->. apply get_or_Ok in Hv, Hk.
  assert (Ht : taints_of y row = jstr_eqb k "taint" && String.eqb y i).
  { unfold taints_of. rewrite Hv, Hk. apply eq_true_iff_eq. rewrite bool_decide_eq_true, andb_true_iff, jstr_eqb_eq, String.eqb_eq.
    naive_solver. }
  rewrite Ht. destruct (jstr_eqb k "attestation") eqn:Ea.
  { apply jstr_eqb_eq in Ea as ->. bind H as inp _. bind H as ps _. injection H as <-.
    destruct (linked_up i ps (with_object i row st)) as (_ & -> & _). simpl. by rewrite app_nil_r. }
  bind H as o Ho. destruct o as [object|].
  { injection H as <-. simpl. assert (jstr_eqb k "taint" = false) as ->; [|simpl; by rewrite app_nil_r].
    destruct (jstr_eqb k "review") eqn:E1; [by apply jstr_eqb_eq in E1 as ->|].
    destruct (jstr_eqb k "corroboration") eqn:E2; [by apply jstr_eqb_eq in E2 as ->|done]. }
  injection H as <-. destruct (jstr_eqb k "taint"); simpl; [|by rewrite app_nil_r].
  destruct (String.eqb_spec y i) as [->|Hne]; [by rewrite lookup_insert_eq|]. by rewrite lookup_insert_ne, app_nil_r by done.
Qed.

Lemma replay_tainted l st : replay l = Ok st → ∀ y, default [] (tainted st !! y) = List.filter (taints_of y) l.
Proof.
  revert st. induction l as [|row l IH] using rev_ind; intros st H y.
  - injection H as <-. simpl. by rewrite lookup_empty.
  - unfold replay in *. rewrite foldM_app in H. bind H as st0 H0. cbn [foldM] in H. bind H as st1 H1. injection H as <-.
    rewrite (apply_event_tainted _ _ _ _ H1), (IH _ H0), List.filter_app. simpl. by destruct (taints_of y row).
Qed.

Lemma family_spec p x st family p' : faithful_cache (ledger p) (cached p) →
  (∃ l, journal (ledger p) JOURNAL = Ok l ∧ replay l = Ok (content st)) →
  (if decide (tainted st = ∅) then Ok ([x], p)
   else '(l, p) ← ancestors root p x; Ok (sorted_set (x :: l), p)) = Ok (family, p') →
  ∀ y, tainted st !! y ≠ None → y ∈ family ↔ reach (up st) x y.
Proof.
  intros Hf (l & Hl & Hr) H y Hy. destruct (decide (tainted st = ∅)) as [E|E].
  - by rewrite E, lookup_empty in Hy.
  - bind H as [anc p1] Ha. injection H as <- <-. unfold ancestors, walk in Ha. bind Ha as w _. bind Ha as [st2 p2] Hs.
    bind Ha as k Hk. injection Ha as <- <-. unfold _snapshot in Hs. bind Hs as [st3 ss3] Hs3. injection Hs as <- <-.
    destruct (snapshot_spec _ _ _ _ Hf Hs3) as (l' & Hl' & Hr' & _).
    assert (content st3 = content st) as Ec by congruence.
    change (up st3) with (up (content st3)) in Hk. rewrite Ec in Hk. simpl in Hk.
    change (y ∈ sorted_set (x :: k) ↔ reach (up st) x y).
    rewrite elem_sorted_set, elem_of_cons, (walk_in_elem _ _ _ Hk). split.
    + intros [->|[? _]]; [by apply rtc_refl|done].
    + intros Hry. destruct (decide (y = x)); [by left|by right].
Qed.

(** The taints of the family. *)
Lemma family_taints l st family (x : string) row : replay l = Ok (content st) →
  (∀ y, tainted st !! y ≠ None → y ∈ family ↔ reach (up st) x y) →
  row ∈ concat (map (λ m, default [] (tainted st !! m)) family) ↔
  ∃ y, reach (up st) x y ∧ row ∈ l ∧ taints_of y row = true.
Proof.
  intros Hr Hfam. pose proof (replay_tainted _ _ Hr) as Ht. simpl in Ht.
  rewrite list_elem_of_In, in_concat. split.
  - intros (ts & (y & <- & Hy)%in_map_iff & Hrow). exists y.
    assert (tainted st !! y ≠ None) as Hne by (destruct (tainted st !! y); [done|by simpl in Hrow]).
    rewrite Ht in Hrow. apply filter_In in Hrow as [Hrow Hty]. split_and!; [|by apply list_elem_of_In|done].
    apply Hfam; [done|by apply list_elem_of_In].
  - intros (y & Hy & Hrow & Hty). assert (Hin : In row (default [] (tainted st !! y)))
      by (rewrite Ht; apply filter_In; split; [by apply list_elem_of_In|done]).
    exists (default [] (tainted st !! y)). split; [|done]. apply in_map_iff. exists y. split; [done|].
    apply list_elem_of_In, Hfam; [|done]. destruct (tainted st !! y); [done|by simpl in Hin].
Qed.
(** a taint reaches every descendant.  [labels] asks for review exactly
    when the object or one of its ancestors was tainted; it then reports the
    integrity as external and lists those taints, otherwise the integrity is
    the attested one. *)
Theorem labels_reach_descendants p x lab p' : faithful_cache (ledger p) (cached p) → labels root p x = Ok (lab, p') →
  ∃ l st, journal (ledger p) JOURNAL = Ok l ∧ replay l = Ok st ∧
    (review_required lab = true ↔ ∃ y row, reach (up st) x y ∧ row ∈ l ∧ taints_of y row = true) ∧
    (∀ i reason, (i, reason) ∈ label_taints lab ↔ ∃ y row, reach (up st) x y ∧ row ∈ l ∧ taints_of y row = true ∧
       jget "id" row = Some i ∧ jget "reason" row = Some reason) ∧
    integrity lab = (if review_required lab then JStr "external" else integrity_of (objects st) x).
Proof.
  intros Hf H. unfold labels in H. bind H as [st p1] Hs. unfold _snapshot in Hs. bind Hs as [st' ss'] Hs'. injection Hs as <- <-.
  destruct (snapshot_spec _ _ _ _ Hf Hs') as (l & Hl & Hr & Hf' & _). exists l, (content st').
  bind H as [family p2] Hfam.
  pose proof (family_spec (Process (ledger p) ss' (log_trees p)) x st' family p2 Hf' (ex_intro _ l (conj Hl Hr)) Hfam) as Hfm.
  pose proof (family_taints l st' family x) as Hft. specialize (λ row, Hft row Hr Hfm) as Hft'.
  set (ts := concat _) in *. bind H as marks Hm. injection H as <- <-. simpl.
  assert (Hrev : (match ts with [] => false | _ => true end) = true ↔ ∃ row, row ∈ ts).
  { destruct ts as [|r ts']; split; try done; [intros [row Hrow]; set_solver|]. exists r. set_solver. }
  split_and!; [done|done| | |].
  - rewrite Hrev. setoid_rewrite Hft'. naive_solver.
  - intros i reason. apply mapR_Ok_Forall2 in Hm. split.
    + intros Hin. apply list_elem_of_lookup in Hin as [k Hk]. destruct (Forall2_lookup_r _ _ _ _ _ Hm Hk) as (row & Hrow & Hmk).
      apply list_elem_of_lookup_2, Hft' in Hrow as (y & Hy & Hl' & Hty). bind Hmk as i' Hi. bind Hmk as r' Hr'.
      injection Hmk as -> ->. apply get_or_Ok in Hi, Hr'. by exists y, row.
    + intros (y & row & Hy & Hrow & Hty & Hi & Hrs). assert (row ∈ ts) as Hin by (apply Hft'; by exists y).
      apply list_elem_of_lookup in Hin as [k Hk]. destruct (Forall2_lookup_l _ _ _ _ _ Hm Hk) as (m & Hmk & Hres).
      rewrite (item_Ok _ _ _ Hi), (item_Ok _ _ _ Hrs) in Hres. injection Hres as <-. by apply list_elem_of_lookup_2 with k.
  - destruct ts; [|done]. unfold integrity_of. by destruct (objects st' !! x).
Qed.
End snapshot.

(** ** Witnesses: a summary derived from a tool's output, then a taint *)

#[local] Existing Instances memory_ledger memory_ledger_laws memory_sealed memory_sealed_laws.

Definition demo_record (id : string) : json := JObj [("id", JStr id); ("text", JStr "t")]%string.
Definition demo_receipt (id authority : string) : json :=
  JObj [("record", demo_record id); ("principal", JStr "alice"); ("authority", JStr authority)]%string.
Definition demo_ambient : ambient := Ambient None None "2025-01-01T00:00:00+00:00".
Definition demo_attestation (id authority : string) (inputs : list string) : attestation :=
  Attestation (demo_record id) (demo_receipt id authority) inputs "derive" "m" "".

Definition demo_start : process memory := Process [] [] [].
Definition demo_attest (p : process memory) (t : attestation) : json * process memory :=
  ok_or (JNull, demo_start) (attest "store" p demo_ambient t).
Definition demo_source : attestation := demo_attestation "a" "external" [].
Definition demo_summary : attestation := demo_attestation "b" "operator" ["a"]%string.
Definition demo_one : json * process memory := demo_attest demo_start demo_source.
Definition demo_two : json * process memory := demo_attest demo_one.2 demo_summary.
Definition demo_lines (p : process memory) : list json := mem_records (ledger p) JOURNAL.

Lemma demo_journal (m : memory) (l : list json) : journal m JOURNAL = Ok l → l = mem_records m JOURNAL.
Proof. by intros [= <-]. Qed.

Lemma demo_one_ok : attest "store" demo_start demo_ambient demo_source = Ok (demo_one.1, demo_one.2).
Proof. rewrite <- surjective_pairing. unfold demo_one, demo_attest. apply is_ok_or. vm_compute. reflexivity. Qed.
Lemma demo_two_ok : attest "store" demo_one.2 demo_ambient demo_summary = Ok (demo_two.1, demo_two.2).
Proof. rewrite <- surjective_pairing. unfold demo_two, demo_attest. apply is_ok_or. vm_compute. reflexivity. Qed.

Lemma demo_start_faithful : faithful_cache "store" (ledger demo_start) (cached demo_start).
Proof. intros c Hc. discriminate Hc. Qed.
Lemma demo_one_faithful : faithful_cache "store" (ledger demo_one.2) (cached demo_one.2).
Proof. by destruct (attest_spec "store" _ _ _ _ _ demo_start_faithful demo_one_ok) as (? & ? & ? & ? & _ & _ & _ & _ & _ & _ & [? _] & _). Qed.
Lemma demo_two_faithful : faithful_cache "store" (ledger demo_two.2) (cached demo_two.2).
Proof. by destruct (attest_spec "store" _ _ _ _ _ demo_one_faithful demo_two_ok) as (? & ? & ? & ? & _ & _ & _ & _ & _ & _ & [? _] & _). Qed.

Definition demo_snapshot : lineage * process memory := ok_or (no_lineage, demo_start) (_snapshot "store" demo_two.2).
Lemma demo_snapshot_ok : _snapshot "store" demo_two.2 = Ok (demo_snapshot.1, demo_snapshot.2).
Proof. rewrite <- surjective_pairing. unfold demo_snapshot. apply is_ok_or. vm_compute. reflexivity. Qed.

Lemma snapshot_is_replay_witness : replay (demo_lines demo_two.2) = Ok (content demo_snapshot.1).
Proof.
  destruct (snapshot_is_replay "store" demo_two.2 demo_snapshot.1 demo_snapshot.2 demo_two_faithful demo_snapshot_ok)
    as (_ & _ & l & Hl & Hr).
  rewrite (demo_journal _ _ Hl) in Hr. exact Hr.
Defined.


(** An operator's statement is prepared; then the same record is attested as
    external; publishing the prepared statement raises it to operator again. *)
Definition stale_prepared : json * process memory :=
  ok_or (JNull, demo_start) (prepare "store" demo_start demo_ambient (demo_record "a") (demo_receipt "a" "operator") [] "derive").
Definition stale_attested : process memory := (demo_attest stale_prepared.2 demo_source).2.
Definition stale_published : process memory := ok_or demo_start (commit_prepared stale_attested stale_prepared.1).
Definition integrity_now (p : process memory) : json :=
  match replay (demo_lines p) with Ok st => integrity_of (objects st) "a" | Err _ => JNull end.

Lemma stale_statement_raises :
  length (demo_lines stale_published) = 2%nat ∧
  integrity_now stale_attested = JStr "external" ∧ integrity_now stale_published = JStr "operator".
Proof. vm_compute. repeat split. Qed.

Definition demo_state (p : process memory) : lineage := ok_or no_lineage (replay (demo_lines p)).
Lemma demo_one_replay : replay (demo_lines demo_one.2) = Ok (demo_state demo_one.2).
Proof. unfold demo_state. apply is_ok_or. vm_compute. reflexivity. Qed.

Lemma acyclic_empty : acyclic ∅.
Proof.
  assert (Hno : ∀ x y : string, ¬ edge ∅ x y) by (intros x y; unfold edge; change (neighbors ∅ x) with (∅ : gset string); set_solver).
  intros x Hx. destruct Hx as [x y Hxy|x y z Hxy _]; by apply Hno in Hxy.
Qed.

Lemma demo_one_acyclic : acyclic (up (demo_state demo_one.2)).
Proof. assert (up (demo_state demo_one.2) = ∅) as -> by (vm_compute; reflexivity). exact acyclic_empty. Qed.

Lemma attest_keeps_acyclic_witness : ∃ st', replay (demo_lines demo_two.2) = Ok st' ∧ acyclic (up st').
Proof.
  exact (proj2 (attest_keeps_acyclic "store" demo_one.2 demo_ambient demo_summary demo_two.1 demo_two.2
    (demo_lines demo_one.2) (demo_state demo_one.2) (demo_lines demo_two.2)
    demo_one_faithful eq_refl demo_one_replay demo_one_acyclic demo_two_ok eq_refl)).
Defined.

(** The source is tainted: so is the summary. *)
Definition demo_rows : list json :=
  [JObj [("kind", JStr "attestation"); ("id", JStr "a"); ("inputs", JList []); ("integrity", JStr "agent")];
   JObj [("kind", JStr "attestation"); ("id", JStr "b"); ("inputs", JList [JObj [("id", JStr "a")]]);
         ("integrity", JStr "agent")];
   JObj [("kind", JStr "taint"); ("id", JStr "a"); ("reason", JStr "poisoned")]]%string.
Definition demo_tainted : process memory := Process [(JOURNAL, demo_rows)] [] [].
Definition demo_labels : label * process memory :=
  ok_or (Label JNull JNull false [], demo_start) (labels "store" demo_tainted "b").
Lemma demo_labels_ok : labels "store" demo_tainted "b" = Ok (demo_labels.1, demo_labels.2).
Proof. rewrite <- surjective_pairing. unfold demo_labels. apply is_ok_or. vm_compute. reflexivity. Qed.

Lemma labels_witness : review_required demo_labels.1 = true ∧ integrity demo_labels.1 = JStr "external" ∧
  ∃ y row, row ∈ demo_lines demo_tainted ∧ taints_of y row = true.
Proof.
  assert (Hf : faithful_cache "store" (ledger demo_tainted) (cached demo_tainted)) by (intros c Hc; discriminate Hc).
  destruct (labels_reach_descendants "store" demo_tainted "b" demo_labels.1 demo_labels.2
    Hf demo_labels_ok) as (l & st & Hl & Hr & Hrev & _ & Hint).
  apply demo_journal in Hl. assert (Ht : review_required demo_labels.1 = true) by (vm_compute; reflexivity).
  rewrite Ht in Hint. split; [exact Ht|]. split; [exact Hint|].
  destruct (proj1 Hrev Ht) as (y & row & _ & Hrow & Hty). exists y, row. rewrite Hl in Hrow. exact (conj Hrow Hty).
Defined.
