(* ===== verification/Rotate.v ===== *)
(** * Journals that are rotated

    [fp.rotate] replaces a journal by a rotation link and the records carried
    over; what its clients rely on, and the signed journals' proof of it. *)

From S2P Require Import Prelude Sha256 Base64 Wire Origin Journal JournalSpec Ledger Seal.
Local Open Scope Z_scope.

Class Rotating (S : Type) := { rotate : S → string → list json → res pyexn S }.

(** The first record of a rotated journal. *)
Definition rotation_link (record : json) : Prop := ∃ tip n, stamped 0
  (JObj [("kind", JStr "rotation"); ("previous_tip", JStr tip); ("previous_count", JInt n)])%string record.

Class RotatingLaws (S : Type) `{Ledger S, Rotating S} := {
  rotate_same : ∀ s name carry s' l', rotate s name carry = Ok s' → journal s' name = Ok l' →
    ∃ link rows, l' = link :: rows ∧ rotation_link link ∧ Forall2 (λ body r, ∃ n, stamped n body r) carry rows;
  rotate_other : ∀ s name other carry s' l l', other ≠ name →
    journal s other = Ok l → rotate s name carry = Ok s' → journal s' other = Ok l' → l' = l;
}.

Section signed.
Context `{ED : Ed25519}.
Variable retained_size : list json → Z.
Variables (writer : string * string) (fresh : string) (clock : Z → string).

Definition store_rotate (st : store) (name : string) (carry : list json) : res pyexn store :=
  Journal.rotate retained_size (cold st) name carry writer fresh (clock (s_clock st)).

#[local] Instance signed_rotating : Rotating store := { rotate := store_rotate }.

Lemma rotate_rows_records records : ∀ i index t total now out i',
  rotate_rows i index t total records writer fresh now = Ok (out, i') →
  Forall2 (λ body row, ∃ n r, jget "record" row = Some r ∧ stamped n body r) records out ∧
  (∀ r rs, records = r :: rs → ∃ row rest d, out = row :: rest ∧
     jget "record" row = Some (jupdate r [("sequence", JInt index); ("previous", JStr t); ("recorded_at", JStr d)]%string)).
Proof.
  induction records as [|r records IH]; intros i index t total now out i' H; cbn [rotate_rows] in H.
  - injection H as <- <-. split; [constructor|done].
  - bind H as [row i1] Hsign. bind H as w _. bind H as [] _. bind H as [] _. bind H as d _.
    bind H as [out' i2] Hrest. injection H as <- <-. pose proof (sign_record _ _ _ _ _ _ Hsign) as Hr.
    destruct (IH _ _ _ _ _ _ _ Hrest) as [Hall _]. split.
    + constructor; [|done]. eexists _, _. split; [exact Hr|]. by eexists _, _.
    + intros r0 rs [= <- <-]. eexists _, _, _. split; [reflexivity|exact Hr].
Qed.

(** Reading back the lines of the rows gives the rows. *)
Lemma rows_loop_encoded out : ∀ total n vs, rows_loop total n (map encoded_line out) = Ok vs → vs = out.
Proof.
  induction out as [|row out IH]; intros total n vs H; cbn [map rows_loop] in H; [by injection H|].
  bind H as [] _. bind H as [] _. bind H as v Hv. bind H as [] _. bind H as w _. bind H as vs' Hvs. injection H as <-.
  rewrite (IH _ _ _ Hvs). f_equal. unfold loads_line in Hv. cbn [encoded_line l_value get_or] in Hv.
  bind Hv as [] _. bind Hv as x Hx. injection Hx as <-. bind Hv as [] _. by injection Hv.
Qed.

Lemma store_rotate_Ok st name carry st' : store_rotate st name carry = Ok st' →
  ∃ t n out, s_files st' = <[name := File (map encoded_line out) (s_clock st) false]> (s_files st) ∧
    ∃ i i', rotate_rows i 0 "" 0 (JObj [("kind", JStr "rotation"); ("previous_tip", JStr t); ("previous_count", JInt n)]%string :: carry)
      writer fresh (clock (s_clock st)) = Ok (out, i').
Proof.
  unfold store_rotate, Journal.rotate. intros H. bind H as c _. bind H as n [-> _]%filename_name. bind H as [j st1] Hj.
  bind H as [out i] Hrot. injection H as <-. pose proof (cold_state_chain _ _ _ _ _ Hj) as (_ & _ & _).
  pose proof (cold_state _ _ _ _ _ Hj) as (_ & Hf & _).
  assert (s_clock st1 = s_clock st) as Ec.
  { unfold _state in Hj. bind Hj as m _. simpl in Hj. bind Hj as vs _. bind Hj as p _. by injection Hj as _ <-. }
  eexists _, _, out. split; [simpl; rewrite Hf, Ec; reflexivity|]. eauto.
Qed.

#[local] Instance signed_rotating_laws :
  @RotatingLaws store (signed_ledger retained_size writer fresh clock) signed_rotating.
Proof.
  split.
  - intros s name carry s' l' (t & n & out & Hf & i & i' & Hrot)%store_rotate_Ok (j & st1 & Hj & Hl)%signed_journal_Ok.
    destruct (cold_state_chain _ _ _ _ _ Hj) as (Hrows & _). rewrite Hf, lookup_insert_eq in Hrows.
    apply rows_loop_encoded in Hrows. rewrite Hrows in Hl. apply rotate_rows_records in Hrot as [Hall Hhead].
    destruct (Hhead _ _ eq_refl) as (row & rest & d & -> & Hrow). simpl in Hl. rewrite Hrow in Hl.
    cbn [get_or mbind res_bind] in Hl. bind Hl as rows Hrest. injection Hl as <-. inversion Hall as [|? ? ? ? _ Hall']; subst.
    eexists _, rows. split_and!; [reflexivity| |].
    + exists t, n. by eexists _, _.
    + clear -Hall' Hrest. revert rows Hrest. induction Hall' as [|b row carry rest (n & r & Hr & Hs) _ IH]; intros rows H; simpl in H.
      * injection H as <-. constructor.
      * rewrite Hr in H. cbn [get_or mbind res_bind] in H. bind H as k Hk. injection H as <-. constructor; [by exists n|by apply IH].
  - intros s name other carry s' l l' Hne (j & st1 & Hj & Hl)%signed_journal_Ok (t & n & out & Hf & _)%store_rotate_Ok
      (j' & st2 & Hj' & Hl')%signed_journal_Ok.
    destruct (cold_state_chain _ _ _ _ _ Hj) as (Hrows & _). destruct (cold_state_chain _ _ _ _ _ Hj') as (Hrows' & _).
    rewrite Hf, lookup_insert_ne, Hrows in Hrows' by done. injection Hrows' as E. rewrite <- E in Hl'. congruence.
Qed.
End signed.

(** In memory, for examples. *)
#[local] Existing Instance memory_ledger.
Definition mem_carry (carry : list json) : list json :=
  imap (λ i body, jupdate body [("sequence", JInt (Z.of_nat i)); ("previous", JStr "p");
                                ("recorded_at", JStr "2025-01-01T00:00:00+00:00")]%string) carry.
#[local] Instance memory_rotating : Rotating memory := {
  rotate m name carry := Ok (assoc_set name (mem_carry
    (JObj [("kind", JStr "rotation"); ("previous_tip", JStr ""); ("previous_count", JInt 0)]%string :: carry)) m);
}.

#[local] Instance memory_rotating_laws : RotatingLaws memory.
Proof.
  split.
  - intros s name carry s' l' [= <-] [= <-]. unfold mem_records. rewrite assoc_assoc_set, String.eqb_refl. simpl.
    eexists _, _. split_and!; [reflexivity|by eexists _, _, _, _|].
    apply Forall2_lookup. intros i. rewrite list_lookup_imap. destruct (carry !! i); simpl; constructor. by eexists _, _, _.
  - intros s name other carry s' l l' Hne [= <-] [= <-] [= <-].
    unfold mem_records. by rewrite assoc_assoc_set, (proj2 (String.eqb_neq _ _) Hne).
Qed.
