(* ===== verification/Edge.v ===== *)
(** * The robot's edge cache and outcome queue ([unimem/robotics/edge.py])

    [EdgeCache] keeps signed context bundles in a journal, compacted by
    rotation, and answers offline recalls; [OutcomeQueue] keeps outcomes until
    the gateway acknowledges them.  The publishing side ([publish_update]) asks
    the admission services and is left out. *)

From S2P Require Import Prelude Sha256 Base64 Wire Origin Merkle Journal Strings Number Ledger Seal Vda Rotate Transparency Lineage.
Local Open Scope Z_scope.

(** ** Definitions *)

Definition EDGE_CACHE : string := "edge-cache.jsonl".
Definition EDGE_OUTCOMES : string := "edge-outcomes.jsonl".
Definition COMPACT_AFTER : Z := 32.
Definition ROTATE_OUTCOMES_AFTER : Z := 4096.

(** [for item in v]: an empty container of another type has no items. *)
Definition items_of (v : json) : res pyexn (list json) :=
  match v with JList l => Ok l | JObj [] | JStr "" => Ok [] | _ => Err TypeError end.

(** An item with the identity it is filed under. *)
Definition keyed (v : json) : res pyexn (string * json) := i ← str_of "id" v; Ok (i, v).

(** [manifest["record"]["items"]] of a bundle. *)
Definition bundle_items (bundle : json) : res pyexn (list json) :=
  manifest ← item "manifest" bundle; record ← item "record" manifest; items ← item "items" record; items_of items.

(** What a row of the cache contributes to [_hazards]. *)
Definition row_hazards (row : json) : res pyexn (list (string * json)) :=
  retained ← items_of (default (JList []) (jget "retained_hazards" row));
  retained ← mapR keyed retained;
  bundle ← item "bundle" row;
  items ← bundle_items bundle;
  flagged ← mapR (λ v, h ← item "hazard" v;
    if truthy_at "hazard" v then kv ← keyed v; Ok [kv] else Ok []) items;
  Ok (retained ++ concat flagged).

(** [found[k] = v] for each pair, in order. *)
Definition file_all (pairs : list (string * json)) (found : list (string * json)) : list (string * json) :=
  foldl (λ acc kv, assoc_set kv.1 kv.2 acc) found pairs.

Definition by_identity (found : list (string * json)) : list json :=
  omap (λ i, assoc i found) (sort_strings found.*1).

Definition _hazards (history : list json) : res pyexn (list json) :=
  rows ← mapR row_hazards history; Ok (by_identity (file_all (concat rows) [])).

(** [recall]'s order: hazards first, then by identity. *)
Definition recall_key (v : json) : bool * string :=
  (negb (truthy_at "hazard" v), match jget "id" v with Some (JStr i) => i | _ => ""%string end).
Definition recall_before (a b : json) : bool :=
  let '(x, i) := recall_key a in let '(y, j) := recall_key b in
  if x then y && str_ltb i j else y || str_ltb i j.

Definition consistency_args (old_size size old_root root proof : json) : bool :=
  match old_size, size, old_root, root, proof_strings proof with
  | JInt m, JInt n, JStr r, JStr r', Some p => verify_consistency m n r r' p
  | _, _, _, _, _ => false
  end.

(** [except (KeyError, TypeError, ValueError): raise PermissionError] *)
Definition enveloped {A} (r : res pyexn A) : res pyexn A :=
  match r with Err KeyError | Err TypeError | Err ValueError => Err PermissionError | _ => r end.

Section edge.
Context `{LG : Ledger St, SL : !Sealed St, RO : !Rotating St}.
(** The store whose keys authenticate updates. *)
Context `{VL : Ledger Sv, VS : !Sealed Sv}.

Definition history (s : St) : res pyexn (list json) :=
  rows ← journal s EDGE_CACHE; Ok (List.filter (has_key "bundle") rows).

(** The signatures, the anchor and the items of a bundle. *)
Definition check_bundle (v : Sv) (bundle : json) : res pyexn () :=
  manifest ← item "manifest" bundle;
  anchor ← item "anchor" bundle;
  ok ← Seal.verify v manifest;
  require ok PermissionError;;
  ok ← Transparency.verify v anchor;
  require ok PermissionError;;
  statement ← item "statement" anchor; record ← item "record" statement; inner ← item "statement" record;
  md ← item "manifest_digest" inner;
  d ← digest manifest;
  require (bool_decide (md = JStr d)) PermissionError;;
  record ← item "record" manifest;
  type ← item "type" record;
  require (bool_decide (type = JStr "edge-context-v1")) PermissionError;;
  items ← item "items" record;
  items ← items_of items;
  _ ← count (zlen items) 0 256;
  _ ← mapR (λ v, i ← item "id" v; _ ← text_json i 512; t ← item "text" v; _ ← text_json t 64000;
    h ← item "hazard" v; require (match h with JBool _ => true | _ => false end) ValueError) items;
  Ok ().

(** Continuity with the bundle held; [true] when it is the same manifest. *)
Definition check_continuity (bundle previous : json) : res pyexn bool :=
  anchor ← item "anchor" bundle; head ← item "head" anchor; head ← item "record" head;
  old_anchor ← item "anchor" previous; old ← item "head" old_anchor; old ← item "record" old;
  leaf ← int_item "leaf" anchor;
  old_leaf ← int_item "leaf" old_anchor;
  require (negb (leaf <? old_leaf)) PermissionError;;
  proof ← item "consistency" bundle;
  m ← item "tree_size" old; n ← item "tree_size" head; r ← item "root_hash" old; r' ← item "root_hash" head;
  p ← item "proof" proof;
  require (consistency_args m n r r' p) PermissionError;;
  if leaf =? old_leaf then
    manifest ← item "manifest" bundle; old_manifest ← item "manifest" previous;
    d ← digest manifest; d' ← digest old_manifest;
    require (String.eqb d d') PermissionError;; Ok true
  else Ok false.

Definition update (s : St) (v : Sv) (bundle : json) : res pyexn St :=
  enveloped (
    check_bundle v bundle;;
    previous ← history s;
    anchor ← item "anchor" bundle; head ← item "head" anchor; _ ← item "record" head;
    same ← match last previous with
      | Some row => old ← item "bundle" row; check_continuity bundle old
      | None => Ok false
      end;
    if (same : bool) then Ok s
    else if COMPACT_AFTER <=? zlen previous then
      hazards ← _hazards previous;
      rotate s EDGE_CACHE [JObj [("bundle", bundle); ("retained_hazards", JList hazards)]%string]
    else '(_, s) ← Ledger.append s EDGE_CACHE (JObj [("bundle", bundle)]%string); Ok s).

Definition recall (s : St) : res pyexn (list json) :=
  h ← history s;
  match last h with
  | None => Ok []
  | Some row =>
      bundle ← item "bundle" row;
      items ← bundle_items bundle;
      latest ← mapR keyed items;
      hazards ← _hazards h;
      hazards ← mapR keyed hazards;
      Ok (sort_by recall_before (file_all hazards (file_all latest [])).*2)
  end.

(** *** The outcome queue *)

Definition outcome_kind (row : json) (k : string) : bool := bool_decide (jget "kind" row = Some (JStr k)).

Definition outcome_rows (s : St) : res pyexn (list json) :=
  rows ← journal s EDGE_OUTCOMES;
  Ok (List.filter (λ r, outcome_kind r "enqueue" || outcome_kind r "ack") rows).

(** The queued outcomes with their occasions, and the acknowledged ones. *)
Definition queued (rows : list json) : res pyexn (list (string * json)) :=
  mapR (λ r, i ← str_of "occasion_id" r; b ← item "body" r; Ok (i, b)) (List.filter (λ r, outcome_kind r "enqueue") rows).
Definition acknowledged (rows : list json) : res pyexn (list string) :=
  mapR (str_of "occasion_id") (List.filter (λ r, outcome_kind r "ack") rows).

Definition pending_pairs (s : St) : res pyexn (list (string * json)) :=
  rows ← outcome_rows s;
  acked ← acknowledged rows;
  q ← queued rows;
  Ok (List.filter (λ ib, negb (mem ib.1 acked)) q).
Definition pending (s : St) : res pyexn (list json) := l ← pending_pairs s; Ok l.*2.

Definition enqueue (s : St) (body : json) : res pyexn St :=
  i ← item "occasion_id" body;
  identity ← text_json i 512;
  require (match jget "succeeded" body with Some (JBool _) => true | _ => false end) ValueError;;
  w ← wire body;
  require (byte_len w <=? 4096) ValueError;;
  rows ← journal s EDGE_OUTCOMES;
  q ← queued rows;
  match assoc identity q with
  | Some prior => require (py_eqb prior body) ValueError;; Ok s
  | None =>
      p ← pending s;
      _ ← count (zlen p) 0 1999;
      '(_, s) ← Ledger.append s EDGE_OUTCOMES
        (JObj [("kind", JStr "enqueue"); ("occasion_id", JStr identity); ("body", body)]%string);
      Ok s
  end.

Definition acknowledge (s : St) (occasion : string) : res pyexn St :=
  _ ← text occasion 512;
  p ← pending s;
  ids ← mapR (str_of "occasion_id") p;
  s ← (if mem occasion ids then
         '(_, s) ← Ledger.append s EDGE_OUTCOMES (JObj [("kind", JStr "ack"); ("occasion_id", JStr occasion)]%string); Ok s
       else Ok s);
  p ← pending s;
  match p with
  | [] =>
      '(n, _) ← checkpoint s EDGE_OUTCOMES;
      if ROTATE_OUTCOMES_AFTER <=? n then rotate s EDGE_OUTCOMES [] else Ok s
  | _ => Ok s
  end.

(** [flush]: [post] tells whether the gateway took the outcome; what was
    acknowledged before a failure stays acknowledged. *)
Fixpoint flush_loop (s : St) (post : json → bool) (bodies : list json) (sent : Z) : St * res pyexn Z :=
  match bodies with
  | [] => (s, Ok sent)
  | body :: rest =>
      if post body then
        match (i ← str_of "occasion_id" body; acknowledge s i) with
        | Ok s => flush_loop s post rest (sent + 1)
        | Err e => (s, Err e)
        end
      else (s, Err RuntimeError)
  end.

Definition flush (s : St) (post : json → bool) : St * res pyexn Z :=
  match pending s with Ok bodies => flush_loop s post bodies 0 | Err e => (s, Err e) end.
End edge.
