(* ===== verification/EdgeSpec.v ===== *)
(** * The edge cache forgets no hazard; the outcome queue is a queue

    A hazard any accepted update delivered is recalled after every later
    update, compaction included.  The queue's journal refines a list of
    unacknowledged outcomes. *)

From S2P Require Import Prelude Sha256 Base64 Wire Origin Merkle Journal JournalSpec Strings Number Ledger Seal Vda Rotate Transparency Lineage LineageSpec Edge.
Local Open Scope Z_scope.

(** ** Filing *)

Lemma assoc_file_all pairs : ∀ found k, assoc k (file_all pairs found) =
  match assoc k (rev pairs) with Some v => Some v | None => assoc k found end.
Proof.
  induction pairs as [|[k' v] pairs IH]; intros found k; simpl; [done|].
  rewrite IH, assoc_app, assoc_assoc_set. simpl. destruct (assoc k (rev pairs)); [done|]. by destruct (String.eqb k k').
Qed.

Lemma assoc_is_Some {A} k (l : list (string * A)) : is_Some (assoc k l) ↔ k ∈ l.*1.
Proof.
  induction l as [|[k' x] l IH]; simpl; [split; [by intros []|set_solver]|].
  destruct (String.eqb_spec k k') as [->|]; [split; [set_solver|by eexists]|]. rewrite IH. set_solver.
Qed.

Lemma file_all_elem pairs k v : assoc k (file_all pairs []) = Some v → (k, v) ∈ pairs.
Proof.
  rewrite assoc_file_all. simpl. destruct (assoc k (rev pairs)) eqn:E; [|done]. intros [= <-].
  apply assoc_elem in E. by apply elem_rev.
Qed.

Lemma file_all_keys pairs k : is_Some (assoc k (file_all pairs [])) ↔ k ∈ pairs.*1.
Proof.
  rewrite assoc_file_all. simpl. destruct (assoc k (rev pairs)) eqn:E.
  - split; [|by eexists]. intros _. apply assoc_elem in E. apply list_elem_of_fmap. eexists (k, _). split; [done|]. by apply elem_rev.
  - split; [by intros []|]. intros Hk.
    assert (is_Some (assoc k (rev pairs))) as [v Hv]; [|congruence].
    apply assoc_is_Some. apply list_elem_of_fmap in Hk as ([k' v] & -> & Hin). apply list_elem_of_fmap. exists (k', v).
    split; [done|]. by apply elem_rev.
Qed.

Lemma by_identity_elem found v : (∀ k x, (k, x) ∈ found → str_of "id" x = Ok k) →
  v ∈ by_identity found ↔ ∃ k, assoc k found = Some v.
Proof.
  intros Hid. unfold by_identity. rewrite list_elem_of_omap. split; [naive_solver|]. intros [k Hk].
  exists k. split; [|done]. unfold sort_strings. rewrite (sort_by_Permutation str_ltb). by apply assoc_is_Some.
Qed.

(** ** Hazards *)

(** The hazards on file, newest last. *)
Definition filed (h : list json) (pairs : list (string * json)) : Prop := ∃ rows, mapR row_hazards h = Ok rows ∧ pairs = concat rows.

Definition flagged (v : json) : Prop := truthy_at "hazard" v = true.

(** Retained hazards are hazards (they were collected by [_hazards]). *)
Definition retained_flagged (row : json) : Prop :=
  ∀ l, items_of (default (JList []) (jget "retained_hazards" row)) = Ok l → Forall flagged l.

Lemma keyed_Ok v kv : keyed v = Ok kv → str_of "id" v = Ok kv.1 ∧ kv.2 = v.
Proof. unfold keyed. intros H. bind H as i Hi. by injection H as <-. Qed.

Lemma mapR_keyed l kvs : mapR keyed l = Ok kvs → kvs.*2 = l ∧ ∀ k v, (k, v) ∈ kvs → str_of "id" v = Ok k.
Proof.
  intros H%mapR_Ok_Forall2. induction H as [|v [k w] l kvs Hv _ [IH1 IH2]]; [split; [done|set_solver]|].
  apply keyed_Ok in Hv as [Hi Hw]. simpl in *. subst w. split; [by f_equal|].
  intros k' v' [[= -> ->]|Hin]%elem_of_cons; [done|by apply IH2].
Qed.

Lemma row_hazards_pairs row pairs : retained_flagged row → row_hazards row = Ok pairs →
  ∀ k v, (k, v) ∈ pairs → str_of "id" v = Ok k ∧ flagged v.
Proof.
  intros Hret H. unfold row_hazards in H. bind H as l Hl. bind H as kept Hkept. bind H as bundle _. bind H as items _.
  bind H as fl Hfl. injection H as <-. destruct (mapR_keyed _ _ Hkept) as [Hk1 Hk2]. specialize (Hret _ Hl).
  intros k v [Hin|Hin]%elem_of_app.
  - split; [by apply Hk2|]. rewrite Forall_forall in Hret. apply Hret. rewrite <- Hk1. apply list_elem_of_fmap. by exists (k, v).
  - apply list_elem_of_In, in_concat in Hin as (r & Hr & Hin). apply list_elem_of_In, list_elem_of_lookup in Hr as [i Hi].
    apply mapR_Ok_Forall2 in Hfl. destruct (Forall2_lookup_r _ _ _ _ _ Hfl Hi) as (x & _ & Hx).
    bind Hx as hz _. destruct (truthy_at "hazard" x) eqn:Et; [|by injection Hx as <-].
    bind Hx as kv Hkv. injection Hx as <-. apply keyed_Ok in Hkv as [Hid Hx]. destruct Hin as [->|[]]. simpl in *. by subst.
Qed.

Lemma filed_pairs h pairs : Forall retained_flagged h → filed h pairs →
  ∀ k v, (k, v) ∈ pairs → str_of "id" v = Ok k ∧ flagged v.
Proof.
  intros Hret (rows & Hrows & ->) k v Hin. apply list_elem_of_In, in_concat in Hin as (r & Hr & Hin).
  apply list_elem_of_In, list_elem_of_lookup in Hr as [i Hi]. apply mapR_Ok_Forall2 in Hrows.
  destruct (Forall2_lookup_r _ _ _ _ _ Hrows Hi) as (row & Hrow & Hp). rewrite Forall_forall in Hret.
  eapply row_hazards_pairs; [by eapply Hret, list_elem_of_lookup_2|done|by apply list_elem_of_In].
Qed.

(** What is filed comes from the pairs or was filed before. *)
Lemma file_all_in pairs k v : ∀ found, (k, v) ∈ file_all pairs found → (k, v) ∈ pairs ∨ (k, v) ∈ found.
Proof.
  assert (Hs : ∀ k' v' l, (k, v) ∈ assoc_set k' v' l → (k, v) = (k', v') ∨ (k, v) ∈ l).
  { intros k' v'. induction l as [|[k2 x] l IHl]; simpl; [set_solver|]. destruct (String.eqb_spec k' k2) as [->|]; set_solver. }
  induction pairs as [|[k' v'] pairs IH]; intros found; simpl; [by right|].
  intros [Hin|[->|Hin]%Hs]%IH; set_solver.
Qed.

(** The hazards [_hazards] lists: flagged, and one for every filed identity. *)
Lemma hazards_spec h items : Forall retained_flagged h → _hazards h = Ok items →
  ∃ pairs, filed h pairs ∧ (∀ v, v ∈ items → flagged v ∧ ∃ k, str_of "id" v = Ok k ∧ (k, v) ∈ pairs) ∧
    ∀ k, k ∈ pairs.*1 → ∃ v, v ∈ items ∧ str_of "id" v = Ok k.
Proof.
  intros Hret H. unfold _hazards in H. bind H as rows Hrows. injection H as <-.
  assert (Hf : filed h (concat rows)) by (by exists rows). pose proof (filed_pairs _ _ Hret Hf) as Hp.
  assert (Hid : ∀ k x, (k, x) ∈ file_all (concat rows) [] → str_of "id" x = Ok k) by (intros k x [Hx|Hx]%file_all_in; [by apply Hp|set_solver]).
  exists (concat rows). split_and!; [done| |].
  - intros v [k Hk]%by_identity_elem; [|done]. apply file_all_elem in Hk as Hin. destruct (Hp _ _ Hin). split; [done|]. by exists k.
  - intros k Hk%file_all_keys. destruct Hk as [v Hv]. exists v. split; [apply by_identity_elem; [done|by exists k]|].
    apply file_all_elem in Hv. by apply Hp in Hv as [? _].
Qed.

Section edge.
Context {St} `{LG : Ledger St} `{LL : !LedgerLaws St} `{SL : !Sealed St} `{RO : !Rotating St} `{ROL : !RotatingLaws St}.
Context {Sv} `{VL : Ledger Sv} `{VS : !Sealed Sv}.

(** The identity is filed as a hazard. *)
Definition held (s : St) (k : string) : Prop := ∃ h pairs, history s = Ok h ∧ filed h pairs ∧ k ∈ pairs.*1.
Definition edge_ok (s : St) : Prop := ∀ h, history s = Ok h →
  Forall retained_flagged h ∧ ∃ pairs, filed h pairs.

(** [v] recalls the identity [k] as a hazard. *)
Definition recalled (r : list json) (k : string) : Prop := ∃ v, v ∈ r ∧ str_of "id" v = Ok k ∧ flagged v.

Lemma recall_inv (s : St) r : recall s = Ok r → ∃ h, history s = Ok h ∧
  ((h = [] ∧ r = []) ∨ ∃ row bundle items latest hazards kept, last h = Some row ∧ item "bundle" row = Ok bundle ∧
    bundle_items bundle = Ok items ∧ mapR keyed items = Ok latest ∧ _hazards h = Ok hazards ∧ mapR keyed hazards = Ok kept ∧
    r ≡ₚ (file_all kept (file_all latest [])).*2).
Proof.
  unfold recall. intros H. bind H as h Hh. exists h. split; [done|]. destruct (last h) as [row|] eqn:El.
  - right. bind H as bundle Hb. bind H as items Hi. bind H as latest Hl. bind H as hazards Hz. bind H as kept Hk.
    injection H as <-. exists row, bundle, items, latest, hazards, kept. split_and!; try done. apply sort_by_Permutation.
  - left. injection H as <-. by apply last_None in El.
Qed.

Lemma held_recalled (s : St) r k : edge_ok s → recall s = Ok r → held s k → recalled r k.
Proof.
  intros Hok Hr (h & pairs & Hh & Hf & Hk). destruct (recall_inv _ _ Hr) as (h' & Hh' & Hcase).
  assert (h' = h) as -> by congruence. destruct Hcase as [[-> ->]|(row & bundle & items & latest & hazards & kept & _ & _ & _ & _ & Hz & Hkept & Hperm)].
  { destruct Hf as (rows & [= <-] & ->). simpl in Hk. set_solver. }
  destruct (hazards_spec _ _ (proj1 (Hok _ Hh)) Hz) as (pairs' & Hf' & Hflag & Hall).
  assert (pairs' = pairs) as -> by (destruct Hf as (? & ? & ->), Hf' as (? & ? & ->); congruence).
  destruct (Hall _ Hk) as (v & Hv & Hid). destruct (mapR_keyed _ _ Hkept) as [Hk1 Hk2].
  assert (is_Some (assoc k (rev kept))) as [w Hw].
  { apply assoc_is_Some. rewrite <- Hk1 in Hv. apply list_elem_of_fmap in Hv as ([k' v'] & -> & Hin).
    assert (k' = k) as -> by (pose proof (Hk2 _ _ Hin); simpl in *; congruence).
    apply list_elem_of_fmap. exists (k, v'). split; [done|]. by apply elem_rev. }
  assert (Hin : (k, w) ∈ kept) by (apply assoc_elem in Hw; by apply elem_rev).
  exists w. split_and!.
  - rewrite Hperm. apply list_elem_of_fmap. exists (k, w). split; [done|]. apply assoc_elem. by rewrite assoc_file_all, Hw.
  - by apply Hk2.
  - apply Hflag. rewrite <- Hk1. apply list_elem_of_fmap. by exists (k, w).
Qed.

(** A flagged item of the row's own bundle is filed. *)
Lemma bundle_flagged row bundle items pairs v k : item "bundle" row = Ok bundle → bundle_items bundle = Ok items →
  row_hazards row = Ok pairs → v ∈ items → flagged v → str_of "id" v = Ok k → k ∈ pairs.*1.
Proof.
  intros Hb Hi H Hv Hf Hk. unfold row_hazards in H. bind H as l _. bind H as kept _. rewrite Hb in H. cbn [mbind res_bind] in H.
  rewrite Hi in H. cbn [mbind res_bind] in H. bind H as fl Hfl. injection H as <-.
  apply mapR_Ok_Forall2 in Hfl. apply list_elem_of_lookup in Hv as [i Hv].
  destruct (Forall2_lookup_l _ _ _ _ _ Hfl Hv) as (y & Hy & Hx). bind Hx as hz _. unfold flagged in Hf. rewrite Hf in Hx.
  bind Hx as kv Hkv. injection Hx as <-. apply keyed_Ok in Hkv as [Hid _]. rewrite Hk in Hid. injection Hid as Hid.
  apply list_elem_of_fmap. exists kv. split; [done|]. apply elem_of_app. right.
  apply list_elem_of_In, in_concat. exists [kv]. split; [|by left]. apply list_elem_of_In. by apply list_elem_of_lookup_2 with i.
Qed.

(** What [recall] flags is filed. *)
Lemma recalled_held (s : St) r k : edge_ok s → recall s = Ok r → recalled r k → held s k.
Proof.
  intros Hok Hr (v & Hv & Hid & Hfl). destruct (recall_inv _ _ Hr) as (h & Hh & Hcase).
  destruct Hcase as [[-> ->]|(row & bundle & items & latest & hazards & kept & El & Hb & Hi & Hl & Hz & Hkept & Hperm)];
    [set_solver|].
  destruct (hazards_spec _ _ (proj1 (Hok _ Hh)) Hz) as (pairs & Hf & Hflag & _). exists h, pairs. split_and!; [done|done|].
  destruct (mapR_keyed _ _ Hkept) as [Hk1 Hk2]. destruct (mapR_keyed _ _ Hl) as [Hl1 Hl2].
  rewrite Hperm in Hv. apply list_elem_of_fmap in Hv as ([k' v'] & -> & Hin). simpl in *.
  assert (Hin' : (k', v') ∈ kept ∨ (k', v') ∈ latest).
  { apply file_all_in in Hin as [Hin|Hin]; [by left|]. apply file_all_in in Hin as [Hin|Hin]; [by right|set_solver]. }
  destruct Hin' as [Hin'|Hin'].
  - assert (v' ∈ hazards) as Hvz by (rewrite <- Hk1; apply list_elem_of_fmap; by exists (k', v')).
    destruct (Hflag _ Hvz) as (_ & k2 & Hid2 & Hp). assert (k2 = k) as -> by congruence.
    apply list_elem_of_fmap. by exists (k, v').
  - destruct Hf as (rows & Hrows & ->). apply last_Some in El as [h' ->]. rewrite mapR_app in Hrows.
    bind Hrows as rows1 _. bind Hrows as rows2 Hr2. injection Hrows as <-. cbn [mapR] in Hr2. bind Hr2 as ps Hps. injection Hr2 as <-.
    rewrite concat_app. simpl. rewrite app_nil_r, fmap_app. apply elem_of_app. right.
    eapply bundle_flagged; [exact Hb|exact Hi|exact Hps| |exact Hfl|exact Hid].
    rewrite <- Hl1. apply list_elem_of_fmap. by exists (k', v').
Qed.

(** ** Updates *)

Lemma enveloped_Ok {A} (r : res pyexn A) a : enveloped r = Ok a ↔ r = Ok a.
Proof. unfold enveloped. destruct r as [|[]]; naive_solver. Qed.

(** A bundle that passed the checks contributes its flagged items. *)
Lemma check_bundle_hazards (v : Sv) bundle row : check_bundle v bundle = Ok () → jget "bundle" row = Some bundle →
  (∃ l kept, items_of (default (JList []) (jget "retained_hazards" row)) = Ok l ∧ mapR keyed l = Ok kept) →
  ∃ items pairs, bundle_items bundle = Ok items ∧ row_hazards row = Ok pairs ∧
    ∀ l kept, items_of (default (JList []) (jget "retained_hazards" row)) = Ok l → mapR keyed l = Ok kept → kept ⊆ pairs.
Proof.
  intros H Hrow (l & kept & Hl & Hkept). unfold check_bundle in H. bind H as manifest Hm. bind H as anchor _. bind H as ok1 _.
  bind H as u1 _. bind H as ok2 _. bind H as u2 _. bind H as s1 _. bind H as r1 _. bind H as i1 _. bind H as md _. bind H as d _.
  bind H as u3 _. bind H as record Hr. bind H as ty _. bind H as u4 _. bind H as its Hits. bind H as items Hitems.
  bind H as n _. bind H as checked Hchecked. clear H.
  assert (Hb : bundle_items bundle = Ok items).
  { unfold bundle_items. rewrite Hm. cbn [mbind res_bind]. rewrite Hr. cbn [mbind res_bind]. by rewrite Hits. }
  assert (∃ fl, mapR (λ v, h ← item "hazard" v; if truthy_at "hazard" v then kv ← keyed v; Ok [kv] else Ok []) items = Ok fl) as [fl Hfl].
  { clear -Hchecked. revert checked Hchecked. induction items as [|v items IH]; intros checked H; cbn [mapR] in *; [by eexists|].
    bind H as [] Hv. bind H as rest Hrest. destruct (IH _ Hrest) as [fl ->].
    bind Hv as i Hi. bind Hv as x Hx. bind Hv as t _. bind Hv as y _. bind Hv as h Hh. rewrite Hh. cbn [mbind res_bind].
    destruct (truthy_at "hazard" v); [|by eexists]. unfold keyed, str_of. rewrite Hi. cbn [mbind res_bind].
    destruct i; try done. by eexists. }
  exists items, (kept ++ concat fl). split_and!; [done| |].
  - unfold row_hazards. rewrite Hl. cbn [mbind res_bind]. rewrite Hkept. cbn [mbind res_bind]. rewrite (item_Ok _ _ _ Hrow).
    cbn [mbind res_bind]. rewrite Hb. cbn [mbind res_bind]. by rewrite Hfl.
  - intros l' kept' Hl' Hkept'. assert (l' = l) as -> by congruence. assert (kept' = kept) as -> by congruence. set_solver.
Qed.

(** A cache whose rows are [keep] and a row storing the bundle. *)
Lemma stored_spec (s s' : St) l' bundle keep row pairs items : journal s' EDGE_CACHE = Ok l' →
  List.filter (has_key "bundle") l' = keep ++ [row] → Forall retained_flagged (keep ++ [row]) →
  row_hazards row = Ok pairs → jget "bundle" row = Some bundle → bundle_items bundle = Ok items →
  (∃ rows, mapR row_hazards keep = Ok rows ∧ ∀ k, held s k → k ∈ (concat rows).*1 ∨ k ∈ pairs.*1) →
  edge_ok s' ∧ (∀ k, held s k → held s' k) ∧ (s' = s ∨ ∃ items, bundle_items bundle = Ok items ∧
     ∀ x k, x ∈ items → flagged x → str_of "id" x = Ok k → held s' k).
Proof.
  intros Hl' Hfilter Hrf Hpairs Hrow Hitems (rows & Hrows & Hheld).
  assert (Hh : history s' = Ok (keep ++ [row])) by (unfold history; rewrite Hl'; cbn [mbind res_bind]; by rewrite Hfilter).
  assert (Hfiled : filed (keep ++ [row]) (concat rows ++ pairs)).
  { exists (rows ++ [pairs]). rewrite mapR_app, Hrows. cbn [mbind res_bind mapR]. rewrite Hpairs. cbn [mbind res_bind].
    split; [done|]. rewrite concat_app. simpl. by rewrite app_nil_r. }
  split_and!.
  - intros h' Hh'. rewrite Hh in Hh'. injection Hh' as <-. split; [done|]. by eexists.
  - intros k Hk. exists (keep ++ [row]), (concat rows ++ pairs). split_and!; [done|done|]. rewrite fmap_app, elem_of_app. by apply Hheld.
  - right. exists items. split; [done|]. intros x k Hx Hfl Hid. exists (keep ++ [row]), (concat rows ++ pairs).
    split_and!; [done|done|]. rewrite fmap_app, elem_of_app. right.
    eapply (bundle_flagged row bundle items); [by unfold item; rewrite Hrow|done..].
Qed.

(** What [_hazards] lists can be filed again. *)
Lemma hazards_keyed h hazards : Forall retained_flagged h → _hazards h = Ok hazards →
  ∃ pairs kept, filed h pairs ∧ mapR keyed hazards = Ok kept ∧ Forall flagged hazards ∧ (∀ k, k ∈ pairs.*1 → k ∈ kept.*1).
Proof.
  intros Hret Hz. destruct (hazards_spec _ _ Hret Hz) as (pairs & Hf & Hflag & Hall).
  assert (∃ kept, mapR keyed hazards = Ok kept) as [kept Hkept].
  { clear -Hflag. induction hazards as [|x hazards IH]; [by eexists|]. cbn [mapR].
    destruct (Hflag x) as (_ & k & Hk & _); [set_solver|]. unfold keyed. rewrite Hk. cbn [mbind res_bind].
    destruct IH as [kept Hkept]; [intros; apply Hflag; set_solver|]. unfold keyed in Hkept. rewrite Hkept. by eexists. }
  exists pairs, kept. split_and!; [done|done|apply Forall_forall; intros x Hx; by apply Hflag|].
  intros k Hk. destruct (Hall _ Hk) as (x & Hx & Hid). destruct (mapR_keyed _ _ Hkept) as [Hk1 Hk2].
  rewrite <- Hk1 in Hx. apply list_elem_of_fmap in Hx as ([k' x'] & -> & Hin). simpl in Hid.
  assert (k' = k) as -> by (pose proof (Hk2 _ _ Hin); congruence). apply list_elem_of_fmap. by exists (k, x').
Qed.

(** The cache after an accepted update that stored its bundle. *)
Lemma update_spec s (v : Sv) bundle s' : edge_ok s → update s v bundle = Ok s' → is_ok (history s') = true →
  edge_ok s' ∧ (∀ k, held s k → held s' k) ∧
  (s' = s ∨ ∃ items, bundle_items bundle = Ok items ∧
     ∀ x k, x ∈ items → flagged x → str_of "id" x = Ok k → held s' k).
Proof.
  intros Hok H Hread. unfold update in H. rewrite enveloped_Ok in H. bind H as [] Hchk. bind H as previous Hprev.
  bind H as anchor _. bind H as h1 _. bind H as h2 _. bind H as same _.
  destruct same; [injection H as <-; split_and!; [done|done|by left]|].
  unfold history in Hprev, Hread. bind Hprev as l Hl. injection Hprev as <-.
  destruct (journal s' EDGE_CACHE) as [l'|] eqn:Hl'; [|done]. clear Hread.
  destruct (Hok (List.filter (has_key "bundle") l)) as [Hret (pairs0 & Hf0)]; [unfold history; by rewrite Hl|].
  destruct (COMPACT_AFTER <=? zlen (List.filter (has_key "bundle") l)).
  - bind H as hazards Hz. destruct (rotate_same _ _ _ _ _ H Hl') as (link & rows & -> & (t & n & (p & d & ->)) & Hcarry).
    inversion Hcarry as [|body row carry rows' (m & (p' & d' & ->)) Hnil]; subst. inversion Hnil; subst. clear Hcarry Hnil.
    set (row := jupdate (JObj [("bundle", bundle); ("retained_hazards", JList hazards)]%string) _) in *.
    assert (Hrow : jget "bundle" row = Some bundle) by reflexivity.
    assert (Hrh : jget "retained_hazards" row = Some (JList hazards)) by reflexivity.
    destruct (hazards_keyed _ _ Hret Hz) as (pairs1 & kept & Hf1 & Hkept & Hfl & Hall).
    assert (pairs1 = pairs0) as -> by (destruct Hf0 as (? & ? & ->), Hf1 as (? & ? & ->); congruence).
    destruct (check_bundle_hazards v bundle row Hchk Hrow) as (items & pairs & Hitems & Hpairs & Hsub);
      [rewrite Hrh; by exists hazards, kept|].
    apply (stored_spec s s' _ bundle [] row pairs items Hl'); try done.
    + constructor; [|constructor]. intros k Hk. rewrite Hrh in Hk. by injection Hk as <-.
    + exists []. split; [done|]. intros k (h & pairs' & Hh & Hf & Hk). right.
      unfold history in Hh. rewrite Hl in Hh. injection Hh as <-.
      assert (pairs' = pairs0) as -> by (destruct Hf as (? & ? & ->), Hf0 as (? & ? & ->); congruence).
      apply Hall in Hk. apply list_elem_of_fmap in Hk as (kv & -> & Hin). apply list_elem_of_fmap. exists kv. split; [done|].
      eapply Hsub; [by rewrite Hrh|exact Hkept|done].
  - bind H as [x s2] Happ. injection H as <-. destruct (append_same _ _ _ _ _ _ _ Hl Happ Hl') as (row & -> & _ & (p & d & ->)).
    set (row := jupdate _ _) in *.
    assert (Hrow : jget "bundle" row = Some bundle) by reflexivity.
    assert (Hrh : jget "retained_hazards" row = None) by reflexivity.
    destruct (check_bundle_hazards v bundle row Hchk Hrow) as (items & pairs & Hitems & Hpairs & _);
      [rewrite Hrh; by exists [], []|].
    destruct Hf0 as (rows & Hrows & ->).
    apply (stored_spec s _ _ bundle (List.filter (has_key "bundle") l) row pairs items Hl'); try done.
    + rewrite List.filter_app. f_equal.
    + apply Forall_app. split; [done|]. constructor; [|constructor]. intros k Hk. rewrite Hrh in Hk. injection Hk as <-. constructor.
    + exists rows. split; [done|]. intros k (h & pairs' & Hh & Hf & Hk). left.
      unfold history in Hh. rewrite Hl in Hh. injection Hh as <-. destruct Hf as (rows' & Hrows' & ->). congruence.
Qed.

(** A robot that is fed updates and keeps its cache when one is refused. *)
Definition run (s : St) (feed : list (Sv * json)) : St :=
  foldl (λ s vb, match update s vb.1 vb.2 with Ok s' => s' | Err _ => s end) s feed.

Lemma run_unreadable s feed : is_ok (history s) = false → run s feed = s.
Proof.
  intros Hs. induction feed as [|[v b] feed IH]; [done|]. unfold run in *. simpl.
  assert (is_ok (update s v b) = false) as E.
  { unfold update. destruct (check_bundle v b); simpl; [|by destruct e]. by destruct (history s) as [|[]]. }
  by destruct (update s v b).
Qed.

Lemma run_held feed : ∀ s, edge_ok s → is_ok (history (run s feed)) = true →
  edge_ok (run s feed) ∧ ∀ k, held s k → held (run s feed) k.
Proof.
  induction feed as [|[v b] feed IH]; intros s Hok Hread; [done|]. change (run s ((v, b) :: feed)) with
    (run (match update s v b with Ok s' => s' | Err _ => s end) feed) in *.
  destruct (update s v b) as [s1|] eqn:E; [|by apply IH].
  destruct (is_ok (history s1)) eqn:Eh.
  - destruct (update_spec _ _ _ _ Hok E Eh) as (Hok1 & Hheld & _). destruct (IH _ Hok1 Hread) as [Hok2 Hheld2].
    split; [done|]. auto.
  - rewrite run_unreadable in Hread by done. congruence.
Qed.

(** C37: the edge cache forgets no hazard.  Whatever updates follow (stored,
    compacted or refused), every hazard recalled before, and every hazard of
    a bundle the cache stored, is recalled as a hazard after them. *)
Theorem hazards_never_forgotten s v bundle s1 feed r : edge_ok s → update s v bundle = Ok s1 →
  is_ok (history s1) = true → recall (run s1 feed) = Ok r →
  (∀ r0 k, recall s = Ok r0 → recalled r0 k → recalled r k) ∧
  (s1 = s ∨ ∃ items, bundle_items bundle = Ok items ∧
     ∀ x k, x ∈ items → flagged x → str_of "id" x = Ok k → recalled r k).
Proof.
  intros Hok Hup Hread Hr. destruct (update_spec _ _ _ _ Hok Hup Hread) as (Hok1 & Hheld & Hnew).
  assert (Hread2 : is_ok (history (run s1 feed)) = true) by (destruct (recall_inv _ _ Hr) as (h & -> & _); done).
  destruct (run_held _ _ Hok1 Hread2) as [Hok2 Hheld2]. split.
  - intros r0 k Hr0 Hk. apply (held_recalled _ _ _ Hok2 Hr), Hheld2, Hheld. by eapply recalled_held.
  - destruct Hnew as [->|(items & Hi & Hnew)]; [by left|right]. exists items. split; [done|].
    intros x k Hx Hfl Hid. apply (held_recalled _ _ _ Hok2 Hr), Hheld2. by eapply Hnew.
Qed.
End edge.

(** ** The outcome queue *)

(** The abstract queue: the occasions it remembers and the outcomes that are
    not acknowledged, oldest first. *)
Definition queue := (list string * list (string * json))%type.

Inductive queue_op := Enqueue (body : json) | Acknowledge (occasion : string).

Definition without (i : string) (p : list (string * json)) : list (string * json) :=
  List.filter (λ ib, negb (String.eqb ib.1 i)) p.

Inductive queue_step : queue → queue_op → queue → Prop :=
  | queue_new known p body i : jget "occasion_id" body = Some (JStr i) → i ∉ known → zlen p < 2000 →
      queue_step (known, p) (Enqueue body) (known ++ [i], p ++ [(i, body)])
  | queue_known known p body i : jget "occasion_id" body = Some (JStr i) → i ∈ known →
      queue_step (known, p) (Enqueue body) (known, p)
  | queue_ack known p i : queue_step (known, p) (Acknowledge i) (known, without i p)
  | queue_restart known p i : without i p = [] → queue_step (known, p) (Acknowledge i) ([], []).

Section queue.
Context {St} `{LG : Ledger St} `{LL : !LedgerLaws St} `{SL : !Sealed St} `{RO : !Rotating St} `{ROL : !RotatingLaws St}.

Definition exec (s : St) (op : queue_op) : res pyexn St :=
  match op with Enqueue body => enqueue s body | Acknowledge i => acknowledge s i end.

(** The queue a journal stands for. *)
Definition rows_queue (rows : list json) : res pyexn queue :=
  acked ← acknowledged rows; q ← queued rows; Ok (q.*1, List.filter (λ ib, negb (mem ib.1 acked)) q).
Definition view_queue (s : St) : res pyexn queue := rows ← outcome_rows s; rows_queue rows.

(** Every queued outcome is filed under its own occasion, and only queued
    occasions are acknowledged. *)
Definition rows_ok (rows : list json) : Prop := ∀ acked q, acknowledged rows = Ok acked → queued rows = Ok q →
  (∀ i b, (i, b) ∈ q → jget "occasion_id" b = Some (JStr i)) ∧ ∀ i, i ∈ acked → i ∈ q.*1.
Definition queue_ok (s : St) : Prop := ∀ rows, outcome_rows s = Ok rows → rows_ok rows.

Definition is_outcome (r : json) : bool := outcome_kind r "enqueue" || outcome_kind r "ack".

Lemma outcome_rows_Ok (s : St) rows : outcome_rows s = Ok rows ↔ ∃ l, journal s EDGE_OUTCOMES = Ok l ∧ rows = List.filter is_outcome l.
Proof. unfold outcome_rows. destruct (journal s EDGE_OUTCOMES); simpl; naive_solver. Qed.

Lemma pending_pairs_view (s : St) p : pending_pairs s = Ok p ↔ ∃ known, view_queue s = Ok (known, p).
Proof.
  unfold pending_pairs, view_queue, rows_queue. destruct (outcome_rows s) as [rows|]; simpl; [|naive_solver].
  destruct (acknowledged rows); simpl; [|naive_solver]. destruct (queued rows); simpl; naive_solver.
Qed.

Lemma rows_queue_app rows r acked q acked' q' : acknowledged rows = Ok acked → queued rows = Ok q →
  acknowledged [r] = Ok acked' → queued [r] = Ok q' →
  acknowledged (rows ++ [r]) = Ok (acked ++ acked') ∧ queued (rows ++ [r]) = Ok (q ++ q').
Proof.
  unfold acknowledged, queued. intros Ha Hq Ha' Hq'. rewrite !List.filter_app, !mapR_app, Ha, Hq, Ha', Hq'. done.
Qed.

(** Queued rows of the whole journal are those of its outcomes. *)
Lemma queued_filter l : queued (List.filter is_outcome l) = queued l.
Proof.
  unfold queued. f_equal. induction l as [|r l IH]; [done|]. simpl. unfold is_outcome at 1.
  destruct (outcome_kind r "enqueue") eqn:E; simpl; [rewrite E; by f_equal|]. destruct (outcome_kind r "ack"); simpl; rewrite ?E; done.
Qed.

Lemma filter_acked acked (q : list (string * json)) i : List.filter (λ ib, negb (mem ib.1 (acked ++ [i]))) q
  = without i (List.filter (λ ib, negb (mem ib.1 acked)) q).
Proof.
  unfold without. induction q as [|[k b] q IH]; [done|]. simpl.
  assert (mem k (acked ++ [i]) = mem k acked || String.eqb k i) as ->.
  { apply eq_true_iff_eq. rewrite orb_true_iff, !mem_elem, String.eqb_eq. set_solver. }
  destruct (mem k acked); simpl; [done|]. destruct (String.eqb k i); simpl; [done|]. by rewrite IH.
Qed.

Lemma enqueue_refines (s : St) body s' a a' : queue_ok s → view_queue s = Ok a → enqueue s body = Ok s' → view_queue s' = Ok a' →
  queue_ok s' ∧ queue_step a (Enqueue body) a'.
Proof.
  intros Hok Ha H Ha'. unfold enqueue in H. bind H as v Hv. bind H as identity Hid. bind H as [] _. bind H as w _. bind H as [] _.
  bind H as l Hl. bind H as q Hq. apply get_or_Ok in Hv.
  assert (v = JStr identity) as -> by (unfold text_json in Hid; destruct v; [done..| |done|done]; unfold text in Hid; by res_inv).
  unfold view_queue in Ha. bind Ha as rows Hrows. pose proof Hrows as Hrows'. apply outcome_rows_Ok in Hrows' as (l0 & Hl0 & Erows).
  assert (l0 = l) as -> by congruence. unfold rows_queue in Ha. bind Ha as acked Hacked. bind Ha as q0 Hq0. injection Ha as <-.
  assert (q0 = q) as -> by (rewrite Erows, queued_filter in Hq0; congruence).
  destruct (assoc identity q) as [prior|] eqn:Ep.
  - bind H as [] _. injection H as <-. unfold view_queue in Ha'. rewrite Hrows in Ha'. cbn [mbind res_bind] in Ha'.
    unfold rows_queue in Ha'. rewrite Hacked, Hq0 in Ha'. injection Ha' as <-. split; [done|].
    eapply queue_known; [done|]. apply assoc_is_Some. by exists prior.
  - bind H as p Hp. bind H as n Hn. bind H as [x s2] Happ. injection H as <-. apply count_Ok' in Hn as [Hn _].
    unfold pending in Hp. bind Hp as pp Hpp. injection Hp as <-.
    apply pending_pairs_view in Hpp as (known & Hview). unfold view_queue in Hview. rewrite Hrows in Hview. cbn [mbind res_bind] in Hview.
    unfold rows_queue in Hview. rewrite Hacked, Hq0 in Hview. injection Hview as <- <-. unfold zlen in Hn. rewrite length_fmap in Hn.
    unfold view_queue in Ha'. bind Ha' as rows' Hrows'. pose proof Hrows' as Hr. apply outcome_rows_Ok in Hr as (l' & Hl' & ->).
    destruct (append_same _ _ _ _ _ _ _ Hl Happ Hl') as (r & -> & _ & (prev & at_ & ->)). rewrite List.filter_app, <- Erows in *.
    set (r := jupdate _ _) in *. change (List.filter is_outcome [r]) with [r] in *.
    destruct (rows_queue_app rows r acked q [] [(identity, body)] Hacked Hq0 eq_refl eq_refl) as [E1 E2].
    unfold rows_queue in Ha'. rewrite E1, E2 in Ha'. cbn [mbind res_bind] in Ha'. injection Ha' as <-. rewrite app_nil_r in *.
    assert (Hnot : mem identity acked = false).
    { apply not_true_iff_false. intros Hin%mem_elem. apply (Hok _ Hrows _ _ Hacked Hq0) in Hin. apply assoc_is_Some in Hin as [? ?]. congruence. }
    split.
    + intros rows2 Hrows2 acked2 q2 Hacked2 Hq2. rewrite Hrows' in Hrows2. injection Hrows2 as <-.
      rewrite E1 in Hacked2. rewrite E2 in Hq2. injection Hacked2 as <-. injection Hq2 as <-.
      destruct (Hok _ Hrows _ _ Hacked Hq0) as [H1 H2]. split.
      * intros i b [Hin|Hin]%elem_of_app; [by apply H1|]. apply list_elem_of_singleton in Hin as [= -> ->]. done.
      * intros i Hi%H2. rewrite fmap_app. set_solver.
    + rewrite fmap_app, List.filter_app. simpl. rewrite Hnot. simpl. apply queue_new; [done| |unfold zlen; lia].
      intros Hin%assoc_is_Some. rewrite Ep in Hin. by destruct Hin.
Qed.

Lemma without_absent i p : i ∉ p.*1 → without i p = p.
Proof.
  unfold without. induction p as [|[k b] p IH]; [done|]. simpl. intros Hi. rewrite not_elem_of_cons in Hi. destruct Hi as [Hk Hi].
  rewrite (proj2 (String.eqb_neq k i)) by congruence. simpl. by rewrite IH.
Qed.

(** The bodies' own occasions are those they are filed under. *)
Lemma body_ids rows acked q ids : rows_ok rows → acknowledged rows = Ok acked → queued rows = Ok q →
  mapR (str_of "occasion_id") (List.filter (λ ib, negb (mem ib.1 acked)) q).*2 = Ok ids →
  ids = (List.filter (λ ib, negb (mem ib.1 acked)) q).*1.
Proof.
  intros Hok Ha Hq. destruct (Hok _ _ Ha Hq) as [Hid _]. clear Ha Hq Hok.
  assert (Hid' : ∀ i b, (i, b) ∈ List.filter (λ ib, negb (mem ib.1 acked)) q → jget "occasion_id" b = Some (JStr i)).
  { intros i b Hin%list_elem_of_In. apply filter_In in Hin as [Hin _]. by apply Hid, list_elem_of_In. }
  clear Hid. revert ids. induction (List.filter _ q) as [|[i b] p IH]; intros ids H; cbn [fmap list_fmap mapR] in H; [by injection H as <-|].
  cbn [snd] in H. bind H as x Hx. bind H as k Hk. injection H as <-.
  rewrite (str_of_Ok "occasion_id" b i) in Hx by (apply Hid'; left). injection Hx as <-.
  simpl. f_equal. apply IH; [|done]. intros i' b' Hin. apply Hid'. by right.
Qed.

(** The acknowledgement itself, before the queue may restart. *)
Lemma ack_row (s : St) i s1 known p acked rows : queue_ok s → outcome_rows s = Ok rows → acknowledged rows = Ok acked →
  rows_queue rows = Ok (known, p) → mem i p.*1 = true → 
  Ledger.append s EDGE_OUTCOMES (JObj [("kind", JStr "ack"); ("occasion_id", JStr i)]%string) = Ok s1 → ∀ rows1,
  outcome_rows s1.2 = Ok rows1 → rows_ok rows1 ∧ rows_queue rows1 = Ok (known, without i p).
Proof.
  intros Hok Hrows Hacked Hv Hm Happ rows1 Hrows1. destruct s1 as [x s1]. simpl in *.
  pose proof Hrows as H. apply outcome_rows_Ok in H as (l & Hl & Erows). apply outcome_rows_Ok in Hrows1 as (l1 & Hl1 & ->).
  destruct (append_same _ _ _ _ _ _ _ Hl Happ Hl1) as (r & -> & _ & (prev & at_ & ->)).
  rewrite List.filter_app, <- Erows. set (r := jupdate _ _). change (List.filter is_outcome [r]) with [r].
  unfold rows_queue in Hv. rewrite Hacked in Hv. cbn [mbind res_bind] in Hv. bind Hv as q Hq. injection Hv as <- <-.
  destruct (rows_queue_app rows r acked q [i] [] Hacked Hq eq_refl eq_refl) as [E1 E2]. rewrite app_nil_r in E2.
  destruct (Hok _ Hrows _ _ Hacked Hq) as [H1 H2]. split.
  - intros acked2 q2 Ha2 Hq2. rewrite E1 in Ha2. rewrite E2 in Hq2. injection Ha2 as <-. injection Hq2 as <-. split; [done|].
    intros k [Hk|Hk]%elem_of_app; [by apply H2|]. apply list_elem_of_singleton in Hk as ->.
    apply mem_elem, list_elem_of_fmap in Hm as (ib & -> & Hin%list_elem_of_In). apply filter_In in Hin as [Hin _].
    apply list_elem_of_fmap. exists ib. split; [done|]. by apply list_elem_of_In.
  - unfold rows_queue. rewrite E1, E2. cbn [mbind res_bind]. by rewrite filter_acked.
Qed.

Lemma acknowledge_refines (s : St) i s' a a' : queue_ok s → view_queue s = Ok a → acknowledge s i = Ok s' → view_queue s' = Ok a' →
  queue_ok s' ∧ queue_step a (Acknowledge i) a'.
Proof.
  intros Hok Ha H Ha'. unfold acknowledge in H. bind H as t _. bind H as bodies Hp. bind H as ids Hids. bind H as s1 Hs1. bind H as p1 Hp1.
  unfold view_queue in Ha. bind Ha as rows Hrows. pose proof Ha as Ha0. unfold rows_queue in Ha0. bind Ha0 as acked Hacked. bind Ha0 as q Hq.
  destruct a as [known p]. injection Ha0 as Eknown Ep.
  assert (bodies = p.*2) as ->.
  { unfold pending in Hp. bind Hp as pp Hpp. injection Hp as <-. apply pending_pairs_view in Hpp as (k2 & Hv). unfold view_queue in Hv.
    rewrite Hrows in Hv. cbn [mbind res_bind] in Hv. congruence. }
  assert (ids = p.*1) as -> by (rewrite <- Ep in *; by eapply body_ids; eauto).
  unfold pending in Hp1. bind Hp1 as pp1 Hpp1. injection Hp1 as <-. apply pending_pairs_view in Hpp1 as (known1 & Hv1).
  unfold view_queue in Hv1. bind Hv1 as rows1 Hrows1.
  assert (Hstage : rows_ok rows1 ∧ rows_queue rows1 = Ok (known, without i p)).
  { destruct (mem i p.*1) eqn:Em.
    - bind Hs1 as [x s2] Happ. injection Hs1 as <-. by eapply (ack_row s i (x, s2)); eauto.
    - injection Hs1 as <-. assert (rows1 = rows) as -> by congruence. split; [by apply Hok|].
      rewrite without_absent; [done|]. intros Hin%mem_elem. congruence. }
  destruct Hstage as [Hok1 Hq1]. assert (pp1 = without i p ∧ known1 = known) as [-> ->] by (rewrite Hq1 in Hv1; by injection Hv1).
  assert (Hstay : s1 = s' → queue_ok s' ∧ queue_step (known, p) (Acknowledge i) a').
  { intros <-. split; [intros rows2 Hrows2; by assert (rows2 = rows1) as -> by congruence|].
    unfold view_queue in Ha'. rewrite Hrows1 in Ha'. cbn [mbind res_bind] in Ha'. assert (a' = (known, without i p)) as -> by congruence.
    apply queue_ack. }
  destruct (without i p) as [|ib rest] eqn:Ew; simpl in H; [|injection H as <-; by apply Hstay].
  bind H as [n tip] _. destruct (ROTATE_OUTCOMES_AFTER <=? n); [|injection H as <-; by apply Hstay].
  unfold view_queue in Ha'. bind Ha' as rows2 Hrows2. pose proof Hrows2 as Hr2. apply outcome_rows_Ok in Hr2 as (l2 & Hl2 & ->).
  destruct (rotate_same _ _ _ _ _ H Hl2) as (link & rs & -> & (t' & n' & (pv & d & ->)) & Hc). inversion Hc; subst.
  set (link := jupdate _ _) in *. change (List.filter is_outcome [link]) with (@nil json) in *. injection Ha' as <-.
  split; [|by apply queue_restart]. intros rows3 Hrows3. rewrite Hrows2 in Hrows3. injection Hrows3 as <-.
  intros a2 q2 [= <-] [= <-]. split; [set_solver|]. intros j Hj. simpl in Hj. set_solver.
Qed.

(** the outcome queue refines a FIFO of unacknowledged outcomes that takes
    each occasion once: enqueueing appends a new occasion and ignores a known
    one, acknowledging removes exactly that occasion, and the journal's
    restart forgets only when nothing is pending. *)
Theorem outcome_queue_refines (s : St) op s' a a' : queue_ok s → view_queue s = Ok a → exec s op = Ok s' →
  view_queue s' = Ok a' → queue_ok s' ∧ queue_step a op a' ∧ pending s' = Ok a'.2.*2.
Proof.
  intros Hok Ha H Ha'. assert (Hp : pending s' = Ok a'.2.*2).
  { unfold pending. destruct a' as [known p]. assert (pending_pairs s' = Ok p) as -> by (apply pending_pairs_view; by exists known). done. }
  destruct op as [body|i]; simpl in H.
  - destruct (enqueue_refines _ _ _ _ _ Hok Ha H Ha'). by split_and!.
  - destruct (acknowledge_refines _ _ _ _ _ Hok Ha H Ha'). by split_and!.
Qed.
End queue.

(** ** Witness: a hazard delivered, then repeated and forged updates *)

#[local] Existing Instances memory_ledger memory_ledger_laws memory_sealed memory_rotating memory_rotating_laws.

Definition demo_items : list json :=
  [JObj [("id", JStr "wet-floor"); ("text", JStr "aisle 3"); ("hazard", JBool true)];
   JObj [("id", JStr "shelf"); ("text", JStr "b"); ("hazard", JBool false)]]%string.
Definition demo_manifest : json :=
  mem_row (JObj [("type", JStr "edge-context-v1"); ("items", JList demo_items)])%string.
Definition demo_anchor_statement : json :=
  mem_row (JObj [("statement", JObj [("manifest_digest", JStr (ok_or ""%string (digest demo_manifest)))])])%string.
Definition demo_anchor : json :=
  JObj [("leaf", JInt 0); ("statement", demo_anchor_statement);
        ("head", mem_row (JObj [("tree_size", JInt 1);
                                ("root_hash", JStr (ok_or ""%string (leaf_hash demo_anchor_statement)))]));
        ("proof", JList [])]%string.
Definition demo_bundle : json :=
  JObj [("manifest", demo_manifest); ("anchor", demo_anchor);
        ("consistency", JObj [("proof", JList [])])]%string.
Definition demo_cache : memory := ok_or [] (update (Sv := memory) [] ([] : memory) demo_bundle).
Definition demo_feed : list (memory * json) := [([], demo_bundle); ([], JObj [])].
Definition demo_recall : list json := ok_or [] (recall (run demo_cache demo_feed)).

Lemma hazards_never_forgotten_witness : recalled demo_recall "wet-floor".
Proof.
  assert (Hok : edge_ok ([] : memory)) by (intros h [= <-]; split; [constructor|exists [], []; done]).
  assert (Hup : update (Sv := memory) [] ([] : memory) demo_bundle = Ok demo_cache)
    by (unfold demo_cache; apply is_ok_or; vm_compute; reflexivity).
  assert (Hr : recall (run demo_cache demo_feed) = Ok demo_recall)
    by (unfold demo_recall; apply is_ok_or; vm_compute; reflexivity).
  destruct (hazards_never_forgotten [] [] demo_bundle demo_cache demo_feed demo_recall Hok Hup) as [_ Hnew];
    [vm_compute; reflexivity|exact Hr|].
  destruct Hnew as [Hnew|(items & Hitems & Hnew)].
  - exfalso. apply (f_equal (@length _)) in Hnew. vm_compute in Hnew. discriminate Hnew.
  - assert (Ei : bundle_items demo_bundle = Ok demo_items) by reflexivity. rewrite Ei in Hitems. injection Hitems as <-.
    apply (Hnew (JObj [("id", JStr "wet-floor"); ("text", JStr "aisle 3"); ("hazard", JBool true)])%string);
      [left|reflexivity|reflexivity].
Defined.

Definition demo_outcome : json := JObj [("occasion_id", JStr "occ-1"); ("succeeded", JBool true)]%string.
Definition demo_queued : memory := ok_or [] (exec ([] : memory) (Enqueue demo_outcome)).
Definition demo_acked : memory := ok_or [] (exec demo_queued (Acknowledge "occ-1"%string)).

Lemma outcome_queue_witness : (∃ rows, pending demo_queued = Ok rows ∧ rows ≠ []) ∧ pending demo_acked = Ok [].
Proof.
  assert (Hok : queue_ok ([] : memory)).
  { intros rows [= <-] acked q [= <-] [= <-]. split; intros i; [intros b Hin|intros Hin]; by apply elem_of_nil in Hin. }
  assert (H1 : exec ([] : memory) (Enqueue demo_outcome) = Ok demo_queued)
    by (unfold demo_queued; apply is_ok_or; vm_compute; reflexivity).
  assert (H2 : exec demo_queued (Acknowledge "occ-1"%string) = Ok demo_acked)
    by (unfold demo_acked; apply is_ok_or; vm_compute; reflexivity).
  assert (V1 : view_queue demo_queued = Ok (["occ-1"%string], [("occ-1"%string, demo_outcome)])) by (vm_compute; reflexivity).
  assert (V2 : is_ok (view_queue demo_acked) = true) by (vm_compute; reflexivity).
  destruct (outcome_queue_refines [] _ _ ([], []) _ Hok eq_refl H1 V1) as (Hok1 & _ & P1).
  destruct (view_queue demo_acked) as [a2|] eqn:E2; [|discriminate V2].
  destruct (outcome_queue_refines _ _ _ _ _ Hok1 V1 H2 E2) as (_ & Hs & P2).
  split; [exists [demo_outcome]; split; [exact P1|discriminate]|].
  inversion Hs; subst; exact P2.
Defined.
