(* ===== verification/SqlGuard.v ===== *)
(** * The SELECT-only guard for generated SQL ([unimem/sql_guard.py])

    Texts are lists of code points.  Python's white space and the letters
    [re.IGNORECASE] identifies with ASCII ones are written out; for the rest
    of the Unicode database (which other code points are alphanumeric, their
    decimal digit, their lower case) the functions are parametric.  The
    regular expressions are the matchers they denote.  SQLite itself is not
    modelled: the result loop takes the sizes of the rows it would fetch. *)

From stdpp Require Import pretty.
From S2P Require Import Prelude Unicode Wire.
Local Open Scope Z_scope.

(** ** Definitions *)

Abbreviation text := ustr (only parsing).

Inductive sql_exn := SqlGuardError | Python (e : pyexn).

Definition MAX_SQL_BYTES : Z := 64 * 1024.
Definition MAX_RESULT_BYTES : Z := 8 * 1024 * 1024.
Definition MAX_ROWS : Z := 10000.

Definition _FORBIDDEN_KEYWORDS : list string :=
  ["insert"; "update"; "delete"; "drop"; "alter"; "create"; "truncate"; "grant"; "revoke"; "copy"; "attach"; "detach";
   "vacuum"; "pragma"; "call"; "merge"; "execute"; "exec"; "replace"; "set"; "reindex"]%string.

Definition is_letter (c : Z) : bool := between 97 122 c || between 65 90 c.

(** A text character that [re.IGNORECASE] matches with the small letter [k];
    dotless and dotted i, long s and the Kelvin sign are letters' variants. *)
Definition letter_of (c : Z) : Z :=
  if between 65 90 c then c + 32 else if (c =? 304) || (c =? 305) then 105
  else if c =? 383 then 115 else if c =? 8490 then 107 else c.

(** [_FENCE_RE.sub("", s)]: an opening fence with its language tag at the
    start, a closing one with the white space before it at the end. *)
Fixpoint letters_dropped (s : text) : text :=
  match s with c :: s' => if is_letter c then letters_dropped s' else s | [] => [] end.
Definition open_fence (s : text) : text :=
  if starts_with (u "```") s then lstrip (letters_dropped (drop 3 s)) else s.
Fixpoint close_fence (s : text) : text :=
  if bool_decide (lstrip s = u "```") then [] else match s with [] => [] | c :: s' => c :: close_fence s' end.
Definition drop_fences (s : text) : text := close_fence (open_fence s).

(** ** [_scan_sql] *)

(** The rest of a text from the first newline on. *)
Fixpoint from_newline (s : text) : text :=
  match s with [] => [] | c :: s' => if c =? 10 then s else from_newline s' end.
(** The rest of a text after the first end of comment. *)
Fixpoint after_comment (s : text) : option text :=
  match s with
  | [] => None
  | c :: s' => if starts_with (u "*/") s then Some (drop 2 s) else after_comment s'
  end.
(** The rest of a text after the quoted text it starts inside of. *)
Fixpoint after_quote (quote : Z) (s : text) : option text :=
  match s with
  | [] => None
  | c :: s' =>
      if c =? quote then
        match s' with
        | c' :: s'' => if negb (quote =? 93) && (c' =? quote) then after_quote quote s'' else Some s'
        | [] => Some s'
        end
      else after_quote quote s'
  end.

Definition closing (c : Z) : Z := if c =? 91 then 93 else c.
Definition opens_quote (c : Z) : bool := (c =? 39) || (c =? 34) || (c =? 96) || (c =? 91).
Definition spaces (n : nat) : text := repeat 32 n.
(** The part of a text before a suffix of it. *)
Definition before (s rest : text) : text := take (length s - length rest) s.

(** A step blanks a comment, masks a quoted text or copies one character. *)
Inductive piece := Comment (s : text) | Quoted (s : text) | Plain (c : Z).
Definition next_piece (s : text) (c : Z) (s' : text) : option (piece * text) :=
  if starts_with (u "--") s then
    let rest := from_newline (drop 2 s) in Some (Comment (before s rest), rest)
  else if starts_with (u "/*") s then
    rest ← after_comment (drop 2 s); Some (Comment (before s rest), rest)
  else if opens_quote c then
    rest ← after_quote (closing c) s'; Some (Quoted (before s rest), rest)
  else Some (Plain c, s').
Fixpoint pieces_from (fuel : nat) (s : text) : option (list piece) :=
  match fuel, s with
  | O, _ => None
  | S _, [] => Some []
  | S fuel', c :: s' => '(p, rest) ← next_piece s c s'; ps ← pieces_from fuel' rest; Some (p :: ps)
  end.
Definition pieces (s : text) : option (list piece) := pieces_from (S (length s)) s.

Definition char_of (p : piece) : text :=
  match p with Comment s => spaces (length s) | Quoted s => s | Plain c => [c] end.
Definition mask_of (p : piece) : text :=
  match p with Comment s | Quoted s => spaces (length s) | Plain c => [c] end.

Definition _scan_sql (sql : text) : res sql_exn (text * text) :=
  ps ← get_or (pieces sql) SqlGuardError; Ok (concat (map char_of ps), concat (map mask_of ps)).
Definition _mask_string_literals (sql : text) : res sql_exn text := '(_, m) ← _scan_sql sql; Ok m.

(** The argument of [strip_sql]: Python passes anything. *)
Inductive sql_arg := NoSql | NotText | Text (s : text).

Definition strip_sql (sql : sql_arg) : res sql_exn text :=
  match sql with
  | NoSql | NotText => Err SqlGuardError
  | Text s =>
      n ← get_or (encoded_len s) (Python ValueError);
      require (n <=? MAX_SQL_BYTES) SqlGuardError;;
      '(cleaned, _) ← _scan_sql (strip (drop_fences (strip s)));
      let cleaned := strip cleaned in
      Ok (if bool_decide (last cleaned = Some 59) then rstrip (removelast cleaned) else cleaned)
  end.

(** ** Words and keywords *)

Section unicode.
Variable uni_alnum : Z → bool.
Variable uni_digit : Z → option (fin 10).
(** The lower case of a character between the texts around it. *)
Variable uni_lower : text → Z → text → text.

(** [\w]; white space is never alphanumeric. *)
Definition is_word (c : Z) : bool :=
  if c <? 128 then is_letter c || between 48 57 c || (c =? 95)
  else (c =? 304) || (c =? 305) || (c =? 383) || (c =? 8490) || (negb (is_space c) && uni_alnum c).
Abbreviation digit_of := (Unicode.digit_of uni_digit).
Abbreviation is_digit := (Unicode.is_digit uni_digit).
Abbreviation lower := (Unicode.lower uni_lower).

Fixpoint take_while (p : Z → bool) (s : text) : text :=
  match s with c :: s' => if p c then c :: take_while p s' else [] | [] => [] end.
Fixpoint drop_while (p : Z → bool) (s : text) : text :=
  match s with c :: s' => if p c then drop_while p s' else s | [] => [] end.

(** [\b] between two characters, [None] at an end of the text. *)
Definition word_at (c : option Z) : bool := match c with Some c => is_word c | None => false end.
Definition boundary (c d : option Z) : bool := xorb (word_at c) (word_at d).

(** A word of small ASCII letters, ignoring case. *)
Fixpoint icase_prefix (k s : text) : bool :=
  match k, s with
  | [], _ => true
  | _ :: _, [] => false
  | a :: k', c :: s' => (letter_of c =? a) && icase_prefix k' s'
  end.
(** [\bk\b] at the start of [s], after the character [prev]. *)
Definition word_match (k : text) (prev : option Z) (s : text) : bool :=
  boundary prev (head s) && icase_prefix k s && boundary (last (take (length k) s)) (head (drop (length k) s)).
(** [re.search(rf"\bk\b", s, re.IGNORECASE)] *)
Fixpoint word_search (k : text) (prev : option Z) (s : text) : bool :=
  word_match k prev s || match s with [] => false | c :: s' => word_search k (Some c) s' end.

Definition validate_select (sql : sql_arg) : res sql_exn text :=
  cleaned ← strip_sql sql;
  require (negb (bool_decide (cleaned = []))) SqlGuardError;;
  '(_, scannable) ← _scan_sql cleaned;
  require (negb (existsb (Z.eqb 59) scannable)) SqlGuardError;;
  let first_token := lower (take_while is_word (lstrip scannable)) in
  require (bool_decide (first_token = u "select") || bool_decide (first_token = u "with")) SqlGuardError;;
  require (negb (existsb (λ k, word_search (u k) None scannable) _FORBIDDEN_KEYWORDS)) SqlGuardError;;
  Ok cleaned.

(** ** [ensure_limit] *)

(** Where the last [limit] outside parentheses starts.  Nothing can match
    inside of the word [limit], so going on one character after a match
    finds what [finditer] finds. *)
Fixpoint outer_limit (depth : Z) (i : nat) (prev : option Z) (found : option nat) (s : text) : option nat :=
  match s with
  | [] => found
  | c :: s' =>
      if c =? 40 then outer_limit (depth + 1) (S i) (Some c) found s'
      else if c =? 41 then outer_limit (depth - 1) (S i) (Some c) found s'
      else outer_limit depth (S i) (Some c)
             (if word_match (u "limit") prev s && (depth =? 0) then Some i else found) s'
  end.
Definition limit_start (masked : text) : option nat := outer_limit 0 0 None None masked.

(** The optional offset and the end of a literal limit. *)
Definition offset_tail (s : text) : bool :=
  let r := drop_while is_space s in
  negb (bool_decide (r = s)) && icase_prefix (u "offset") r &&
  (let a := drop 6 r in let b := drop_while is_space a in
   negb (bool_decide (b = a)) && negb (bool_decide (drop_while is_digit b = b)) &&
   forallb is_space (drop_while is_digit b)).
(** The first digit, the digits and what follows them, when the text from
    [limit] on is [limit\s+(\d+)(\s+offset\s+\d+)?\s*]. *)
Definition literal_limit (tail : text) : option (nat * text) :=
  let r := drop 5 tail in
  let s := drop_while is_space r in
  let digits := take_while is_digit s in
  let rest := drop_while is_digit s in
  if icase_prefix (u "limit") tail && negb (bool_decide (s = r)) && negb (bool_decide (digits = [])) &&
     (offset_tail rest || forallb is_space rest)
  then Some (5 + (length r - length s), digits)%nat else None.

(** [int(digits)]; Python refuses more than 4300 digits. *)
Definition int_of (digits : text) : res sql_exn Z :=
  require (Z.of_nat (length digits) <=? 4300) (Python ValueError);;
  Ok (foldl (λ acc c, 10 * acc + default 0 (digit_of c)) 0 digits).
Definition str_of_int (n : Z) : text := u (pretty n).

Definition ensure_limit (sql : text) (max_rows : json) : res sql_exn text :=
  n ← match max_rows with JInt n => Ok n | _ => Err SqlGuardError end;
  require ((1 <=? n) && (n <=? MAX_ROWS)) SqlGuardError;;
  masked ← _mask_string_literals sql;
  match limit_start masked with
  | None => Ok (sql ++ u " LIMIT " ++ str_of_int n)
  | Some i =>
      match literal_limit (drop i masked) with
      | Some (b, digits) =>
          value ← int_of digits;
          Ok (take (i + b) sql ++ str_of_int (Z.min value n) ++ drop (i + b + length digits) sql)
      | None => Ok (u "SELECT * FROM (" ++ sql ++ u ") AS guarded_query LIMIT " ++ str_of_int n)
      end
  end.

(** ** Authorizers *)

Definition SQLITE_OK : Z := 0.
Definition SQLITE_DENY : Z := 1.
Definition SQLITE_READ : Z := 20.
Definition SQLITE_SELECT : Z := 21.
Definition SQLITE_FUNCTION : Z := 31.
Definition SQLITE_RECURSIVE : Z := 33.

(** [a or b or ""] *)
Definition or_text (a b : option text) : text :=
  match a with Some (c :: s) => c :: s | _ => default [] b end.
Definition one_of (l : list string) (s : text) : bool := existsb (λ x, bool_decide (u x = s)) l.

Definition _read_only_authorizer (action : Z) (arg1 arg2 : option text) : Z :=
  if action =? SQLITE_READ then
    if starts_with (u "pragma_") (lower (default [] arg1)) then SQLITE_DENY else SQLITE_OK
  else if action =? SQLITE_FUNCTION then
    if one_of ["load_extension"; "readfile"; "writefile"; "eval"]%string (lower (or_text arg2 arg1)) then SQLITE_DENY
    else SQLITE_OK
  else if (action =? SQLITE_SELECT) || (action =? SQLITE_RECURSIVE) then SQLITE_OK
  else SQLITE_DENY.

Definition _LEGACY_SAFE_FUNCTIONS : list string :=
  ["count"; "sum"; "avg"; "min"; "max"; "total"; "length"; "typeof"; "abs"; "round"; "coalesce"; "ifnull"; "nullif";
   "instr"; "unicode"]%string.

Definition _legacy_authorizer (action : Z) (arg1 arg2 : option text) : Z :=
  if (action =? SQLITE_FUNCTION) && negb (one_of _LEGACY_SAFE_FUNCTIONS (lower (or_text arg2 arg1))) then SQLITE_DENY
  else _read_only_authorizer action arg1 arg2.

(** ** The result loop of [execute_guarded_sql] *)

(** A cell as far as its size goes. *)
Inductive cell := CText (bytes : Z) | CBytes (n : Z) | CScalar.
Definition cell_bytes (c : cell) : Z := 64 + match c with CText n | CBytes n => n | CScalar => 8 end.
Definition row_bytes (row : list cell) : Z := 64 + foldr (λ c n, cell_bytes c + n) 0 row.
Fixpoint fetch_rows (n : nat) (result_bytes : Z) (cursor : list (list cell)) : res sql_exn (list (list cell)) :=
  match n, cursor with
  | O, _ | _, [] => Ok []
  | S n', row :: cursor' =>
      let result_bytes := result_bytes + row_bytes row in
      require (result_bytes <=? MAX_RESULT_BYTES) SqlGuardError;;
      rows ← fetch_rows n' result_bytes cursor'; Ok (row :: rows)
  end.

(** What runs against the database and what is returned, for the rows the
    cursor would yield on a text. *)
Definition execute_guarded_sql (run : text → list (list cell)) (sql : sql_arg) (max_rows : json) :
    res sql_exn (text * list (list cell)) :=
  cleaned ← validate_select sql;
  guarded ← ensure_limit cleaned max_rows;
  n ← match max_rows with JInt n => Ok n | _ => Err SqlGuardError end;
  rows ← fetch_rows (Z.to_nat n) 0 (run guarded);
  Ok (guarded, rows).
End unicode.
