(* ===== verification/SqlGuardSpec.v ===== *)
(** * What the SQL guard guarantees

    The scanner as a deterministic lexer ([lexed]) that is stable under
    blanking comments and trimming; the words a validated statement is made
    of; the limit an outer query runs under. *)

From stdpp Require Import pretty.
From S2P Require Import Prelude Wire Unicode SqlGuard.
Local Open Scope Z_scope.

Abbreviation text := (list Z) (only parsing).

(** ** The lexer as a relation *)

Definition raw (p : piece) : text := match p with Comment s | Quoted s => s | Plain c => [c] end.
Definition no_comment (p : piece) : Prop := match p with Comment _ => False | _ => True end.

Inductive lexed : text → list piece → Prop :=
  | lexed_nil : lexed [] []
  | lexed_cons c s p rest ps : next_piece (c :: s) c s = Some (p, rest) → lexed rest ps → lexed (c :: s) (p :: ps).

Lemma starts_with_app p s t : starts_with p s = true → starts_with p (s ++ t) = true.
Proof. revert s. induction p as [|a p IH]; [done|]. intros [|b s]; [done|]. simpl. intros [-> H]%andb_prop. by rewrite IH. Qed.

Lemma starts_with_one a b c : starts_with [a; b] [c] = false.
Proof. apply andb_false_r. Qed.

Lemma from_newline_split s : ∃ a, s = a ++ from_newline s.
Proof. induction s as [|c s [a E]]; [by exists []|]. simpl. destruct (c =? 10); [by exists []|]. exists (c :: a). simpl. congruence. Qed.
Lemma after_comment_split s rest : after_comment s = Some rest → ∃ a, s = a ++ rest ∧ a ≠ [].
Proof.
  revert rest. induction s as [|c s IH]; [done|]. intros rest. cbn [after_comment].
  destruct (starts_with (u "*/") (c :: s)) eqn:E.
  - intros [= <-]. exists (take 2 (c :: s)). by destruct s.
  - intros (a & -> & Ha)%IH. by exists (c :: a).
Qed.
Lemma after_quote_split q s rest : after_quote q s = Some rest → ∃ a, s = a ++ q :: rest.
Proof.
  remember (length s) as n eqn:En. revert s rest En. induction n as [n IH] using lt_wf_ind.
  intros [|c s] rest ->; [done|]. simpl. destruct (Z.eqb_spec c q) as [->|Hne].
  - destruct s as [|d s].
    + intros [= <-]. by exists [].
    + destruct (negb (q =? 93) && (d =? q)) eqn:E.
      * apply andb_prop in E as [_ ->%Z.eqb_eq]. intros (a & ->)%(IH (length s)); [|simpl; lia|done]. by exists (q :: q :: a).
      * intros [= <-]. by exists [].
  - intros (a & ->)%(IH (length s)); [|simpl; lia|done]. by exists (c :: a).
Qed.

Lemma before_app a rest : before (a ++ rest) rest = a.
Proof. unfold before. rewrite length_app, Nat.add_sub. apply take_app_length. Qed.

Lemma before_app2 c d a rest : before (c :: d :: a ++ rest) rest = c :: d :: a.
Proof. apply (before_app (c :: d :: a)). Qed.
Lemma before_mid c a d rest : before (c :: a ++ d :: rest) rest = c :: a ++ [d].
Proof.
  assert (c :: a ++ d :: rest = (c :: a ++ [d]) ++ rest) as -> by (simpl; by rewrite <- app_assoc). apply before_app.
Qed.

(** A step consumes the text of its piece, which is not empty. *)
Lemma next_piece_raw s c s' p rest : s = c :: s' → next_piece s c s' = Some (p, rest) → s = raw p ++ rest ∧ raw p ≠ [].
Proof.
  intros -> H. unfold next_piece in H.
  destruct (starts_with (u "--") (c :: s')) eqn:E1.
  { destruct s' as [|d s']; [by rewrite (starts_with_one 45 45 c : starts_with (u "--") [c] = false) in E1|].
    change (drop 2 (c :: d :: s')) with s' in H. injection H as <- <-. cbn [raw].
    destruct (from_newline_split s') as [a Ea]. set (r := from_newline s') in *. clearbody r. subst s'.
    by rewrite before_app2. }
  destruct (starts_with (u "/*") (c :: s')) eqn:E2.
  { destruct s' as [|d s']; [by rewrite (starts_with_one 47 42 c : starts_with (u "/*") [c] = false) in E2|].
    change (drop 2 (c :: d :: s')) with s' in H. destruct (after_comment s') as [r|] eqn:E; [|done]. injection H as <- <-.
    destruct (after_comment_split _ _ E) as (a & -> & _). cbn [raw]. by rewrite before_app2. }
  destruct (opens_quote c).
  { destruct (after_quote (closing c) s') as [r|] eqn:E; [|done]. injection H as <- <-.
    destruct (after_quote_split _ _ _ E) as (a & ->). cbn [raw].
    rewrite before_mid. simpl. by rewrite <- app_assoc. }
  by injection H as <- <-.
Qed.

Lemma next_piece_shorter c s p rest : next_piece (c :: s) c s = Some (p, rest) → (length rest < length (c :: s))%nat.
Proof.
  intros H. destruct (next_piece_raw _ _ _ _ _ eq_refl H) as [E Hne]. rewrite E, length_app. destruct (raw p); [done|simpl; lia].
Qed.

Lemma pieces_from_lexed fuel s ps : pieces_from fuel s = Some ps → lexed s ps.
Proof.
  revert s ps. induction fuel as [|fuel IH]; [done|]. intros [|c s] ps H; cbn [pieces_from] in H.
  - injection H as <-. constructor.
  - destruct (next_piece (c :: s) c s) as [[p rest]|] eqn:E; [|done]. cbn in H.
    destruct (pieces_from fuel rest) as [ps'|] eqn:E'; [|done]. injection H as <-. econstructor; eauto.
Qed.
(** The length of the text is enough fuel. *)
Lemma lexed_pieces_from fuel s ps : lexed s ps → (length s < fuel)%nat → pieces_from fuel s = Some ps.
Proof.
  intros H. revert fuel. induction H as [|c s p rest ps Hn Hl IH]; intros [|fuel] Hf; try (simpl in Hf; lia); [done|].
  cbn [pieces_from]. rewrite Hn. cbn. apply next_piece_shorter in Hn. rewrite IH by (simpl in *; lia). done.
Qed.
Lemma pieces_lexed s ps : pieces s = Some ps ↔ lexed s ps.
Proof. split; [apply pieces_from_lexed|]. intros H. apply lexed_pieces_from; [done|lia]. Qed.

Lemma lexed_fun s ps qs : lexed s ps → lexed s qs → ps = qs.
Proof. intros H%pieces_lexed H'%pieces_lexed. congruence. Qed.
Lemma lexed_raw s ps : lexed s ps → concat (map raw ps) = s.
Proof. induction 1 as [|c s p rest ps Hn Hl IH]; [done|]. simpl. rewrite IH. by destruct (next_piece_raw _ _ _ _ _ eq_refl Hn) as [<- _]. Qed.
Lemma lexed_inv c s ps : lexed (c :: s) ps → ∃ p rest ps', ps = p :: ps' ∧ next_piece (c :: s) c s = Some (p, rest) ∧ lexed rest ps'.
Proof. inversion 1; subst. eauto 10. Qed.

Lemma scan_lexed s a m : _scan_sql s = Ok (a, m) ↔
  ∃ ps, lexed s ps ∧ a = concat (map char_of ps) ∧ m = concat (map mask_of ps).
Proof.
  unfold _scan_sql. split.
  - intros H. bind H as ps Hps. injection H as <- <-. apply get_or_Ok, pieces_lexed in Hps. eauto.
  - intros (ps & H%pieces_lexed & -> & ->). by rewrite H.
Qed.
Lemma clean_raw ps : Forall no_comment ps → map char_of ps = map raw ps.
Proof. induction 1 as [|[] ps ? ? IH]; simpl; try done; by rewrite IH. Qed.
Lemma clean_scan s ps : lexed s ps → Forall no_comment ps → _scan_sql s = Ok (s, concat (map mask_of ps)).
Proof. intros H Hc. apply scan_lexed. exists ps. split_and!; [done| |done]. rewrite clean_raw by done. symmetry. by apply lexed_raw. Qed.

(** ** What follows a piece may change *)

(** A text that cannot continue the piece before it. *)
Definition calm (t : text) : Prop := ∀ d, head t = Some d → d ∉ [45; 42; 39; 34; 96].
Definition agree (rest t : text) : Prop := head t = head rest ∨ calm t.

Lemma starts_with_head b t : starts_with [b] t = match head t with Some d => b =? d | None => false end.
Proof. destruct t; [done|]. apply andb_true_r. Qed.
Lemma starts_with_two a b c t : starts_with [a; b] (c :: t) = (a =? c) && match head t with Some d => b =? d | None => false end.
Proof. rewrite <- starts_with_head. done. Qed.
Lemma calm_not t b : calm t → b ∈ [45; 42; 39; 34; 96] → match head t with Some d => b =? d | None => false end = false.
Proof.
  intros H Hb. destruct (head t) as [d|] eqn:E; [|done]. apply Z.eqb_neq. intros ->. by apply (H d).
Qed.
Lemma agree_not rest t b : agree rest t → b ∈ [45; 42; 39; 34; 96] →
  match head rest with Some d => b =? d | None => false end = false → match head t with Some d => b =? d | None => false end = false.
Proof. intros [->|H] Hb; [done|]. intros _. by apply calm_not. Qed.

Lemma after_quote_replace q s rest t : after_quote q s = Some rest → q ∈ [39; 34; 96; 93] → agree rest t →
  ∃ a, s = a ++ q :: rest ∧ after_quote q (a ++ q :: t) = Some t.
Proof.
  intros H Hq Ht. remember (length s) as n eqn:En. revert s rest t H Ht En. induction n as [n IH] using lt_wf_ind.
  intros [|c s] rest t H Ht ->; [done|]. simpl in H. destruct (Z.eqb_spec c q) as [->|Hne].
  - assert (Hend : (negb (q =? 93) && match head rest with Some d => d =? q | None => false end = false) → s = rest →
      ∃ a, q :: s = a ++ q :: rest ∧ after_quote q (a ++ q :: t) = Some t).
    { intros E ->. exists []. split; [done|]. simpl. rewrite Z.eqb_refl. destruct t as [|d t]; [done|].
      destruct (q =? 93) eqn:E93; [done|]. simpl in E |- *.
      assert (Hnd : match head rest with Some d => q =? d | None => false end = false)
        by (destruct (head rest); [by rewrite Z.eqb_sym|done]).
      apply (agree_not _ _ _ Ht) in Hnd; [|apply Z.eqb_neq in E93; set_solver]. simpl in Hnd. by rewrite Z.eqb_sym, Hnd. }
    destruct s as [|d s].
    + injection H as <-. apply Hend; [apply andb_false_r|done].
    + destruct (negb (q =? 93) && (d =? q)) eqn:E.
      * apply andb_prop in E as [E1 ->%Z.eqb_eq].
        destruct (IH (length s)) with (s := s) (rest := rest) (t := t) as (a & -> & Ha); [simpl; lia|done|done|done|].
        exists (q :: q :: a). split; [done|]. simpl. by rewrite !Z.eqb_refl, E1.
      * injection H as <-. by apply Hend.
  - destruct (IH (length s)) with (s := s) (rest := rest) (t := t) as (a & -> & Ha); [simpl; lia|done|done|done|].
    exists (c :: a). split; [done|]. simpl. by rewrite (proj2 (Z.eqb_neq _ _) Hne).
Qed.

Lemma opens_quote_cases c : opens_quote c = true → c = 39 ∨ c = 34 ∨ c = 96 ∨ c = 91.
Proof. unfold opens_quote. intros [[[->%Z.eqb_eq| ->%Z.eqb_eq]%orb_prop| ->%Z.eqb_eq]%orb_prop| ->%Z.eqb_eq]%orb_prop; auto. Qed.

Lemma next_piece_replace c s p rest t : next_piece (c :: s) c s = Some (p, rest) → no_comment p → agree rest t →
  ∃ a, raw p = c :: a ∧ next_piece (c :: a ++ t) c (a ++ t) = Some (p, t).
Proof.
  intros H Hp Ht. unfold next_piece in *.
  destruct (starts_with (u "--") (c :: s)) eqn:E1; [by injection H as <- <-|].
  destruct (starts_with (u "/*") (c :: s)) eqn:E2.
  { destruct (after_comment _); [|done]. by injection H as <- <-. }
  change (u "--") with [45; 45] in *. change (u "/*") with [47; 42] in *. rewrite starts_with_two in E1, E2.
  destruct (opens_quote c) eqn:Eq.
  - destruct (after_quote (closing c) s) as [r|] eqn:E; [|done]. injection H as <- <-.
    destruct (after_quote_replace _ _ _ t E) as (a & -> & Ha); [|done|].
    { by apply opens_quote_cases in Eq as [->|[->|[->| ->]]]; set_solver. }
    exists (a ++ [closing c]). split.
    { apply before_mid. }
    rewrite <- app_assoc. cbn [app]. rewrite !starts_with_two, Ha.
    assert (c ≠ 45 ∧ c ≠ 47) as [H1%not_eq_sym%Z.eqb_neq H2%not_eq_sym%Z.eqb_neq] by (by apply opens_quote_cases in Eq as [->|[->|[->| ->]]]).
    rewrite H1, H2. cbn [andb mbind option_bind]. by rewrite !before_mid.
  - injection H as <- <-. exists []. split; [done|]. cbn [app]. rewrite !starts_with_two.
    destruct (45 =? c), (47 =? c); cbn [andb] in *; rewrite ?(agree_not s t 45), ?(agree_not s t 42) by (done || set_solver); rewrite ?Eq; done.
Qed.

(** Dropping the comments, the text lexes to the same pieces with blanks. *)
Lemma lexed_replace s ps1 ps2 rest t qs : lexed s (ps1 ++ ps2) → Forall no_comment ps1 →
  rest = concat (map raw ps2) → agree rest t → lexed t qs → lexed (concat (map raw ps1) ++ t) (ps1 ++ qs).
Proof.
  intros H Hc -> Ht Hq. revert s H. induction Hc as [|p ps1 Hp Hc IH]; intros s H; [done|].
  inversion H as [|c s' p' r ps Hn Hl]; subst. pose proof (lexed_raw _ _ Hl) as Er.
  destruct (next_piece_replace _ _ _ _ (concat (map raw ps1) ++ t) Hn Hp) as (a & Ea & Hn').
  { destruct ps1 as [|p1 ps1].
    - simpl in *. by rewrite <- Er.
    - left. rewrite <- Er, map_app, concat_app. simpl. inversion Hl as [|c1 s1 ? r1 ? Hn1 Hl1]; subst.
      destruct (next_piece_raw _ _ _ _ _ eq_refl Hn1) as [_ Hne]. by destruct (raw p1). }
  simpl. rewrite Ea. simpl. rewrite <- app_assoc. econstructor; [exact Hn'|]. by eapply IH.
Qed.

Lemma lexed_prefix s ps1 ps2 : lexed s (ps1 ++ ps2) → Forall no_comment ps1 → lexed (concat (map raw ps1)) ps1.
Proof.
  intros H Hc. rewrite <- (app_nil_r ps1) at 2. rewrite <- (app_nil_r (concat _)).
  eapply lexed_replace; [exact H|done|done|right; by intros d|constructor].
Qed.
Lemma lexed_suffix s ps1 ps2 : lexed s (ps1 ++ ps2) → lexed (concat (map raw ps2)) ps2.
Proof.
  revert s. induction ps1 as [|p ps1 IH]; intros s H.
  - simpl in H. by rewrite (lexed_raw _ _ H).
  - inversion H; subst. by eapply IH.
Qed.

Lemma lexed_app s ps t qs : lexed s ps → Forall no_comment ps → calm t → lexed t qs → lexed (s ++ t) (ps ++ qs).
Proof.
  intros H Hc Ht Hq. rewrite <- (lexed_raw _ _ H). rewrite <- (app_nil_r ps) in H.
  eapply lexed_replace; [exact H|done|reflexivity|by right|done].
Qed.

(** ** Blanking comments and trimming *)

Definition ordinary (c : Z) : Prop := c ∉ [45; 47; 39; 34; 96; 91].
Lemma next_piece_plain c s : ordinary c → next_piece (c :: s) c s = Some (Plain c, s).
Proof.
  intros H. unfold ordinary in H. rewrite !not_elem_of_cons in H. destruct H as (H1 & H2 & H3 & H4 & H5 & H6 & _). unfold next_piece.
  change (u "--") with [45; 45]. change (u "/*") with [47; 42]. rewrite !starts_with_two.
  unfold opens_quote. by rewrite !(proj2 (Z.eqb_neq _ _)) by congruence.
Qed.
Lemma lexed_plain l t qs : Forall ordinary l → lexed t qs → lexed (l ++ t) (map Plain l ++ qs).
Proof. induction 1 as [|c l Hc _ IH]; [done|]. intros Ht. simpl. econstructor; [by apply next_piece_plain|by apply IH]. Qed.
Lemma lexed_plain_all l : Forall ordinary l → lexed l (map Plain l).
Proof. intros H. rewrite <- (app_nil_r l), <- (app_nil_r (map _ _)). rewrite app_nil_r at 2. apply lexed_plain; [done|constructor]. Qed.
Lemma lexed_plain_inv c s ps : lexed (c :: s) ps → ordinary c → ∃ ps', ps = Plain c :: ps' ∧ lexed s ps'.
Proof.
  intros (p & rest & ps' & -> & Hn & Hl)%lexed_inv Hc. rewrite next_piece_plain in Hn by done. injection Hn as <- <-. eauto.
Qed.

(** Membership in a list of concrete characters. *)
Ltac not_in := let Hin := fresh in intros Hin; repeat (apply elem_of_cons in Hin as [Hin|Hin]; [try discriminate Hin|]);
  try (by apply elem_of_nil in Hin).

Lemma space_ordinary c : is_space c = true → ordinary c ∧ c ∉ [39; 34; 96; 93].
Proof.
  intros H. split; intros Hin; repeat (apply elem_of_cons in Hin as [->|Hin]; [discriminate H|]); by apply elem_of_nil in Hin.
Qed.
Lemma spaces_ordinary n : Forall ordinary (spaces n).
Proof. apply Forall_forall. intros c Hc%list_elem_of_In%repeat_spec. subst c. by apply space_ordinary. Qed.

Definition blank (p : piece) : list piece := match p with Comment s => map Plain (spaces (length s)) | _ => [p] end.

Lemma blank_char p : concat (map raw (blank p)) = char_of p.
Proof.
  destruct p as [s|s|c]; [|apply app_nil_r|done]. cbn [blank char_of]. rewrite map_map. cbn [raw].
  induction (spaces (length s)); simpl; congruence.
Qed.
Lemma blank_clean ps : Forall no_comment (concat (map blank ps)).
Proof.
  induction ps as [|[s|s|c] ps IH]; [constructor| | |]; simpl; try by constructor.
  apply Forall_app. split; [|done]. apply Forall_map, Forall_forall. done.
Qed.

Lemma lexed_blank s ps : lexed s ps → lexed (concat (map char_of ps)) (concat (map blank ps)).
Proof.
  induction 1 as [|c s p rest ps Hn Hl IH]; [constructor|].
  assert (Hag : agree rest (concat (map char_of ps))).
  { destruct Hl as [|c1 s1 p1 r1 ps1 Hn1 Hl1]; [by left|]. cbn [map concat].
    destruct (next_piece_raw _ _ _ _ _ eq_refl Hn1) as [E1 Hne].
    destruct p1 as [y|y|y]; cbn [raw char_of] in *;
      [right; destruct y as [|z y]; [done|]; intros e [= <-]; not_in
      |left; rewrite E1; by destruct y|left; by injection E1 as -> _]. }
  destruct p as [x|x|d]; [by apply lexed_plain; [apply spaces_ordinary|]| |];
    destruct (next_piece_replace _ _ _ _ _ Hn I Hag) as (a & Ea & Hn'); cbn [raw] in Ea.
  - subst x. change (lexed (c :: a ++ concat (map char_of ps)) (Quoted (c :: a) :: concat (map blank ps))).
    econstructor; [exact Hn'|exact IH].
  - injection Ea as -> <-. change (lexed (c :: concat (map char_of ps)) (Plain c :: concat (map blank ps))).
    econstructor; [exact Hn'|exact IH].
Qed.

Lemma snoc_lexed s x ps : lexed (s ++ [x]) ps → Forall no_comment ps → x ∉ [39; 34; 96; 93] →
  ∃ ps', ps = ps' ++ [Plain x] ∧ lexed s ps' ∧ Forall no_comment ps'.
Proof.
  intros H Hc Hx. destruct ps as [|p ps _] using rev_ind.
  { inversion H as [E|]. by destruct s. }
  apply Forall_app in Hc as [Hc Hp]. apply Forall_inv in Hp. pose proof (lexed_raw _ _ H) as E. pose proof H as Hs.
  apply lexed_suffix in Hs. apply lexed_prefix in H as Hl; [|done].
  rewrite map_app, concat_app in E. cbn [map concat] in *. rewrite app_nil_r in *. exists ps.
  destruct p as [y|y|c]; [done| |].
  - exfalso. inversion Hs as [|c s' ? rest ? Hn Hr]; subst. inversion Hr; subst. unfold next_piece in Hn.
    destruct (starts_with _ _); [done|]. destruct (starts_with _ _); [by destruct (after_comment _)|].
    destruct (opens_quote c) eqn:Eq; [|done]. destruct (after_quote _ _) as [r|] eqn:Ea; [|done].
    cbn in Hn. injection Hn as _ ->. destruct (after_quote_split _ _ _ Ea) as (b & ->). cbn [raw] in *.
    match goal with H0 : c :: _ = y |- _ => rewrite <- H0 in E end. rewrite app_comm_cons, app_assoc in E. apply app_inj_tail in E as [_ <-].
    apply Hx, list_elem_of_In. apply opens_quote_cases in Eq as [->|[->|[->| ->]]]; cbn; tauto.
  - cbn [raw] in E. apply app_inj_tail in E as [E ->]. by rewrite <- E.
Qed.

Definition clean (s : text) : Prop := ∃ ps, lexed s ps ∧ Forall no_comment ps.

Lemma clean_lstrip s : clean s → clean (lstrip s).
Proof.
  induction s as [|c s IH]; [done|]. intros H. simpl. destruct (is_space c) eqn:E; [|done]. apply IH.
  destruct H as (ps & H & Hc). apply space_ordinary in E as [E _].
  destruct (lexed_plain_inv _ _ _ H E) as (ps' & -> & Hl). exists ps'. split; [done|]. by apply Forall_inv_tail in Hc.
Qed.
Lemma clean_snoc s x : clean (s ++ [x]) → x ∉ [39; 34; 96; 93] → clean s.
Proof. intros (ps & H & Hc) Hx. destruct (snoc_lexed _ _ _ H Hc Hx) as (ps' & -> & ? & ?). by exists ps'. Qed.
Lemma clean_rstrip s : clean s → clean (rstrip s).
Proof.
  unfold rstrip. induction s as [|x s IH] using rev_ind; [done|]. intros H. rewrite rev_app_distr. simpl.
  destruct (is_space x) eqn:E.
  - apply IH. eapply clean_snoc; [exact H|]. by apply space_ordinary.
  - simpl. by rewrite rev_involutive.
Qed.

(** What [strip_sql] returns has no comment left in it. *)
Lemma strip_sql_clean sql c : strip_sql sql = Ok c → clean c.
Proof.
  intros H. destruct sql as [| |s]; [done|done|]. unfold strip_sql in H.
  bind H as n _. bind H as [] _. bind H as [a m] Hs. apply scan_lexed in Hs as (ps & Hl & -> & ->).
  assert (Hclean : clean (strip (concat (map char_of ps)))).
  { unfold strip. apply clean_rstrip, clean_lstrip. exists (concat (map blank ps)). split; [by eapply lexed_blank|apply blank_clean]. }
  injection H as <-. case_bool_decide as E; [|done]. apply clean_rstrip.
  revert E Hclean. generalize (strip (concat (map char_of ps))). intros w E Hclean.
  destruct w as [|x l _] using rev_ind; [done|]. rewrite last_snoc in E. injection E as ->.
  rewrite removelast_last. eapply clean_snoc; [exact Hclean|]. not_in.
Qed.

(** ** Words *)

Definition small_word (k : text) : Prop := k ≠ [] ∧ Forall (λ c, between 97 122 c = true) k.

Section words.
Variable uni_alnum : Z → bool.
Variable uni_digit : Z → option (fin 10).
Variable uni_lower : text → Z → text → text.

Abbreviation is_word := (is_word uni_alnum).
Abbreviation word_at := (word_at uni_alnum).

(** A maximal run of word characters. *)
Definition word_of (w m : text) : Prop := ∃ a b, m = a ++ w ++ b ∧ w ≠ [] ∧ Forall (λ c, is_word c = true) w ∧
  word_at (last a) = false ∧ word_at (head b) = false.

Lemma letter_is_word c : between 97 122 (letter_of c) = true → is_word c = true.
Proof.
  unfold letter_of, SqlGuard.is_word, is_letter, between. intros H.
  destruct ((65 <=? c) && (c <=? 90)) eqn:E1; [apply andb_prop in E1 as [? ?]; assert ((c <? 128) = true) as -> by lia; by rewrite orb_true_r|].
  destruct (c =? 304) eqn:E2; [by apply Z.eqb_eq in E2 as ->|]. destruct (c =? 305) eqn:E3; [by apply Z.eqb_eq in E3 as ->|].
  destruct (c =? 383) eqn:E4; [by apply Z.eqb_eq in E4 as ->|]. destruct (c =? 8490) eqn:E5; [by apply Z.eqb_eq in E5 as ->|].
  simpl in H. assert ((c <? 128) = true) as -> by lia. by rewrite H.
Qed.

Lemma icase_prefix_spec k s : icase_prefix k s = true ↔ ∃ w b, s = w ++ b ∧ map letter_of w = k.
Proof.
  revert s. induction k as [|x k IH]; intros s; simpl.
  - split; [by exists [], s|done].
  - destruct s as [|c s]; [split; [done|by intros ([|] & ? & [=] & [=])]|]. rewrite andb_true_iff, IH, Z.eqb_eq. split.
    + intros (<- & w & b & -> & <-). by exists (c :: w), b.
    + intros ([|c' w] & b & E & [= <- <-]); injection E as -> ->. eauto.
Qed.

Lemma word_match_spec k prev s : small_word k → word_match uni_alnum k prev s = true ↔
  ∃ w b, s = w ++ b ∧ map letter_of w = k ∧ word_at prev = false ∧ word_at (head b) = false.
Proof.
  intros [Hne Hk]. unfold word_match.
  assert (Hw : ∀ w, map letter_of w = k → Forall (λ c, is_word c = true) w ∧ w ≠ []).
  { intros w <-. apply Forall_map in Hk. split; [|by intros ->]. eapply Forall_impl; [exact Hk|]. apply letter_is_word. }
  assert (Hb : ∀ w b, map letter_of w = k → boundary uni_alnum prev (head (w ++ b)) = negb (word_at prev) ∧
    boundary uni_alnum (last (take (length k) (w ++ b))) (head (drop (length k) (w ++ b))) = negb (word_at (head b))).
  { intros w b E. destruct (Hw w E) as [Hall Hnn]. assert (length k = length w) as -> by (subst k; apply length_map).
    rewrite take_app_length, drop_app_length. unfold boundary. split.
    - destruct w as [|c w]; [done|]. simpl. apply Forall_inv in Hall. rewrite Hall. by destruct (word_at prev).
    - destruct w as [|c w _] using rev_ind; [done|]. rewrite last_snoc. apply Forall_app in Hall as [_ Hall%Forall_inv].
      simpl. rewrite Hall. by destruct (word_at (head b)). }
  rewrite !andb_true_iff, icase_prefix_spec. split.
  - intros [[H1 (w & b & -> & E)] H2]. destruct (Hb w b E) as [E1 E2]. rewrite E1 in H1. rewrite E2 in H2.
    apply negb_true_iff in H1, H2. exists w, b. done.
  - intros (w & b & -> & E & H1 & H2). destruct (Hb w b E) as [-> ->]. rewrite H1, H2. split_and!; eauto.
Qed.

Lemma word_search_spec k prev s : small_word k → word_search uni_alnum k prev s = true ↔
  ∃ a w b, s = a ++ w ++ b ∧ map letter_of w = k ∧
    word_at (match last a with Some x => Some x | None => prev end) = false ∧ word_at (head b) = false.
Proof.
  intros Hk. revert prev. induction s as [|c s IH]; intros prev; cbn [word_search]; rewrite orb_true_iff, word_match_spec by done.
  - split.
    + intros [(w & b & E & H)|[=]]. by exists [], w, b.
    + intros ([|] & w & b & E & H); [|done]. left. by exists w, b.
  - rewrite IH. split.
    + intros [(w & b & E & H)|(a & w & b & E & Em & H1 & H2)]; [by exists [], w, b|].
      exists (c :: a), w, b. split_and!; [by rewrite E|done| |done]. rewrite last_cons. by destruct (last a).
    + intros ([|x a] & w & b & E & Em & H1 & H2); [left; by exists w, b|]. right. injection E as -> ->.
      exists a, w, b. split_and!; [done|done| |done]. rewrite last_cons in H1. by destruct (last a).
Qed.

Lemma keyword_found k m : small_word k → word_search uni_alnum k None m = true ↔ ∃ w, word_of w m ∧ map letter_of w = k.
Proof.
  intros Hk. rewrite word_search_spec by done. destruct Hk as [Hne Hall]. split.
  - intros (a & w & b & E & Em & H1 & H2). exists w. split; [|done]. exists a, b. split_and!; [done| | |by destruct (last a)|done].
    + intros ->. by subst k.
    + subst k. apply Forall_map in Hall. eapply Forall_impl; [exact Hall|]. apply letter_is_word.
  - intros (w & (a & b & E & _ & _ & H1 & H2) & Em). exists a, w, b. split_and!; [done|done|by destruct (last a)|done].
Qed.

Lemma keywords_small k : k ∈ _FORBIDDEN_KEYWORDS → small_word (u k).
Proof.
  assert (H : Forall (λ k, small_word (u k)) _FORBIDDEN_KEYWORDS).
  { repeat (constructor; [split; [discriminate|repeat constructor]|]). constructor. }
  intros Hin. by apply (proj1 (Forall_forall _ _) H).
Qed.

(** What must hold of a statement once literals, identifiers and comments
    are out of the way. *)
Definition read_only_select (m : text) : Prop :=
  (59 ∉ m) ∧ (∀ w k, word_of w m → k ∈ _FORBIDDEN_KEYWORDS → map letter_of w ≠ u k) ∧
  ∃ a w b, m = a ++ w ++ b ∧ Forall (λ c, is_space c = true) a ∧ Forall (λ c, is_word c = true) w ∧ word_at (head b) = false ∧
    (lower uni_lower w = u "select" ∨ lower uni_lower w = u "with").

Lemma lstrip_spec s : ∃ a, s = a ++ lstrip s ∧ Forall (λ c, is_space c = true) a ∧
  match head (lstrip s) with Some c => is_space c = false | None => True end.
Proof.
  induction s as [|c s (a & E & Ha & Hh)]; [by exists []|]. simpl. destruct (is_space c) eqn:Ec; [|by exists []].
  exists (c :: a). split_and!; [simpl; congruence|by constructor|done].
Qed.
Lemma take_while_spec p s : s = take_while p s ++ drop_while p s ∧ Forall (λ c, p c = true) (take_while p s) ∧
  match head (drop_while p s) with Some c => p c = false | None => True end.
Proof.
  induction s as [|c s (E & Ha & Hh)]; [done|]. simpl. destruct (p c) eqn:Ec; [|done].
  split_and!; [simpl; congruence|by constructor|done].
Qed.
Lemma take_while_app p w b : Forall (λ c, p c = true) w → match head b with Some c => p c | None => false end = false →
  take_while p (w ++ b) = w ∧ drop_while p (w ++ b) = b.
Proof.
  induction 1 as [|c w Hc _ IH]; intros Hb; simpl.
  - destruct b as [|d b]; [done|]. simpl in *. by rewrite Hb.
  - rewrite Hc. destruct (IH Hb) as [-> ->]. done.
Qed.
Lemma word_not_space c : is_word c = true → is_space c = false.
Proof.
  unfold SqlGuard.is_word. destruct (c <? 128) eqn:E.
  - unfold is_space, is_letter, between. lia.
  - intros [[[[->%Z.eqb_eq| ->%Z.eqb_eq]%orb_prop| ->%Z.eqb_eq]%orb_prop| ->%Z.eqb_eq]%orb_prop|H]%orb_prop; try done.
    by apply andb_prop in H as [?%negb_true_iff _].
Qed.

(** C38: a statement passes exactly when the stripped text (which has no
    comment left) has, outside its literals and quoted identifiers, no
    statement separator, no forbidden word in any letter case, and the word
    [select] or [with] first. *)
Theorem validate_select_spec sql c : validate_select uni_alnum uni_lower sql = Ok c ↔
  strip_sql sql = Ok c ∧ ∃ ps, lexed c ps ∧ Forall no_comment ps ∧ read_only_select (concat (map mask_of ps)).
Proof.
  unfold validate_select. split.
  - intros H. bind H as c' Hc. bind H as [] _. bind H as [a m] Hs. bind H as [] Hsep%require_Ok. bind H as [] Hfirst%require_Ok.
    bind H as [] Hkey%require_Ok. injection H as <-. split; [done|].
    destruct (strip_sql_clean _ _ Hc) as (ps & Hl & Hclean). exists ps. split_and!; [done|done|].
    rewrite (clean_scan _ _ Hl Hclean) in Hs. injection Hs as _ <-. apply negb_true_iff in Hsep, Hkey. split_and!.
    + intros Hin%list_elem_of_In. apply not_true_iff_false in Hsep. apply Hsep, existsb_exists. by exists 59.
    + intros w k Hw Hk E. apply not_true_iff_false in Hkey. apply Hkey, existsb_exists. exists k. split; [by apply list_elem_of_In|].
      apply keyword_found; [by apply keywords_small|eauto].
    + destruct (lstrip_spec (concat (map mask_of ps))) as (x & E & Hx & _).
      destruct (take_while_spec is_word (lstrip (concat (map mask_of ps)))) as (E' & Hw & Hb).
      exists x, (take_while is_word (lstrip (concat (map mask_of ps)))), (drop_while is_word (lstrip (concat (map mask_of ps)))).
      split_and!; [by rewrite <- E'|done|done|by destruct (head _)|].
      apply orb_prop in Hfirst as [?%bool_decide_eq_true|?%bool_decide_eq_true]; auto.
  - intros (Hc & ps & Hl & Hclean & Hsep & Hkey & a & w & b & Em & Ha & Hw & Hb & Hfirst). rewrite Hc. cbn [mbind res_bind].
    assert (Hwne : w ≠ []) by (intros ->; by destruct Hfirst).
    assert (c ≠ []) as Hne. { intros ->. inversion Hl; subst. by destruct a, w. }
    rewrite bool_decide_false by done. cbn [negb require mbind res_bind].
    rewrite (clean_scan _ _ Hl Hclean). cbn [mbind res_bind].
    assert (existsb (Z.eqb 59) (concat (map mask_of ps)) = false) as ->.
    { apply not_true_iff_false. intros (y & Hin & <-%Z.eqb_eq)%existsb_exists. by apply Hsep, list_elem_of_In. }
    assert (existsb (λ k, word_search uni_alnum (u k) None (concat (map mask_of ps))) _FORBIDDEN_KEYWORDS = false) as ->.
    { apply not_true_iff_false. intros (k & Hin%list_elem_of_In & Hs)%existsb_exists.
      apply keyword_found in Hs as (w' & Hw' & E); [by apply (Hkey w' k)|by apply keywords_small]. }
    assert (take_while is_word (lstrip (concat (map mask_of ps))) = w) as ->.
    { rewrite Em. assert (Hls : lstrip (a ++ w ++ b) = w ++ b).
      { clear -Ha Hw Hwne. induction Ha as [|d a Hd _ IH]; simpl; [|by rewrite Hd].
        destruct w as [|d w]; [done|]. simpl. apply Forall_inv in Hw. by rewrite (word_not_space _ Hw). }
      rewrite Hls. by apply take_while_app. }
    cbn [negb require mbind res_bind]. assert (bool_decide (lower uni_lower w = u "select") || bool_decide (lower uni_lower w = u "with") = true) as ->.
    { destruct Hfirst; [rewrite bool_decide_true by done; done|]. rewrite orb_comm, bool_decide_true by done. done. }
    done.
Qed.

(** ** The outer limit *)

Abbreviation is_digit := (is_digit uni_digit).

(** Parentheses opened less those closed. *)
Fixpoint net (s : text) : Z :=
  match s with [] => 0 | c :: s' => (if c =? 40 then 1 else if c =? 41 then -1 else 0) + net s' end.
Lemma net_app s t : net (s ++ t) = net s + net t.
Proof. induction s as [|c s IH]; [done|]. simpl. rewrite IH. lia. Qed.

Definition prev_of (prev : option Z) (a : text) : option Z := match last a with Some x => Some x | None => prev end.
Lemma prev_of_cons prev c a : prev_of prev (c :: a) = prev_of (Some c) a.
Proof. unfold prev_of. rewrite last_cons. by destruct (last a). Qed.

Lemma limit_small : small_word (u "limit").
Proof. split; [discriminate|repeat constructor]. Qed.

(** Text joined on at a word boundary does not change the matches in [a]. *)
Lemma word_match_app k prev a b : small_word k → a ≠ [] → word_at (head b) = false ∨ word_at (last a) = false →
  word_match uni_alnum k prev (a ++ b) = word_match uni_alnum k prev a.
Proof.
  intros Hk Ha Hb. apply eq_true_iff_eq. rewrite !word_match_spec by done. destruct Hk as [Hne Hall]. split.
  - intros (w & b' & E & Em & H1 & H2).
    assert (Hw : Forall (λ c, is_word c = true) w).
    { subst k. apply Forall_map in Hall. eapply Forall_impl; [exact Hall|]. apply letter_is_word. }
    apply app_eq_inv in E as [(l & -> & ->)|(l & -> & ->)].
    + exists w, l. split_and!; [done|done|done|]. destruct l as [|d l]; [|done]. by destruct b.
    + destruct l as [|d l]; [exists a, []; rewrite app_nil_r in *; done|]. exfalso.
      apply Forall_app in Hw as [Hwa Hwl]. destruct Hb as [Hb|Hb]; [apply Forall_inv in Hwl; simpl in Hb; congruence|].
      destruct a as [|x a _] using rev_ind; [done|]. rewrite last_snoc in Hb. apply Forall_app in Hwa as [_ Hwa%Forall_inv].
      simpl in Hb. congruence.
  - intros (w & b' & -> & Em & H1 & H2). exists w, (b' ++ b). rewrite <- app_assoc. split_and!; [done|done|done|].
    destruct b' as [|d b']; [|done]. simpl. destruct Hb as [Hb|Hb]; [done|]. rewrite app_nil_r in *.
    exfalso. destruct w as [|x w _] using rev_ind; [done|]. rewrite last_snoc in Hb. subst k. rewrite map_app in Hall.
    apply Forall_app in Hall as [_ Hall%Forall_inv]. apply letter_is_word in Hall. simpl in Hb. congruence.
Qed.

Lemma outer_limit_app d i prev f a b : word_at (head b) = false ∨ word_at (last a) = false →
  outer_limit uni_alnum d i prev f (a ++ b) =
  outer_limit uni_alnum (d + net a) (i + length a) (prev_of prev a) (outer_limit uni_alnum d i prev f a) b.
Proof.
  revert d i prev f. induction a as [|c a IH]; intros d i prev f Hb.
  - simpl. by rewrite Z.add_0_r, Nat.add_0_r.
  - assert (Hb' : word_at (head b) = false ∨ word_at (last a) = false).
    { destruct Hb as [Hb|Hb]; [by left|right]. rewrite last_cons in Hb. by destruct (last a). }
    rewrite prev_of_cons. cbn [app outer_limit]. change (c :: a ++ b) with ((c :: a) ++ b).
    rewrite word_match_app by (apply limit_small || done). cbn [net length].
    destruct (c =? 40), (c =? 41); rewrite IH by done; f_equal; lia.
Qed.

(** Text without parentheses and without the letter l. *)
Definition quiet (c : Z) : Prop := c ≠ 40 ∧ c ≠ 41 ∧ letter_of c ≠ 108.
Lemma outer_limit_quiet d i prev f s : Forall quiet s → outer_limit uni_alnum d i prev f s = f.
Proof.
  intros H. revert d i prev f. induction H as [|c s (H1 & H2 & H3) _ IH]; intros d i prev f; [done|]. cbn [outer_limit].
  rewrite !(proj2 (Z.eqb_neq _ _)) by done. rewrite IH.
  assert (word_match uni_alnum (u "limit") prev (c :: s) = false) as ->; [|done].
  unfold word_match. change (u "limit") with [108; 105; 109; 105; 116] at 1. cbn [icase_prefix].
  by rewrite (proj2 (Z.eqb_neq (letter_of c) 108)), andb_false_r.
Qed.

Lemma outer_limit_found d i prev f s j : outer_limit uni_alnum d i prev f s = Some j → f = Some j ∨
  ∃ a b, s = a ++ b ∧ j = (i + length a)%nat ∧ d + net a = 0 ∧ word_match uni_alnum (u "limit") (prev_of prev a) b = true.
Proof.
  revert d i prev f. induction s as [|c s IH]; intros d i prev f H; [by left|]. cbn [outer_limit] in H.
  assert (Hstep : ∀ d', d' = d + net [c] → ∀ f', outer_limit uni_alnum d' (S i) (Some c) f' s = Some j → f' = Some j ∨
    ∃ a b, c :: s = a ++ b ∧ j = (i + length a)%nat ∧ d + net a = 0 ∧ word_match uni_alnum (u "limit") (prev_of prev a) b = true).
  { intros d' -> f' [->|(a & b & -> & -> & Hn & Hm)]%IH; [by left|]. right. exists (c :: a), b.
    split_and!; [done|simpl; lia|simpl in *; lia|by rewrite prev_of_cons]. }
  cbn [net] in Hstep. destruct (c =? 40); [apply Hstep in H; [done|lia]|].
  destruct (c =? 41); [apply Hstep in H; [done|lia]|]. apply Hstep in H as [H|H]; [|by right|lia].
  destruct (word_match _ _ _ _ && _) eqn:E; [|by left]. apply andb_prop in E as [Em Ed%Z.eqb_eq]. injection H as <-.
  right. exists [], (c :: s). split_and!; [done|simpl; lia|simpl; lia|done].
Qed.

Lemma letter_108 c : letter_of c = 108 → c = 108 ∨ c = 76.
Proof. unfold letter_of, between. repeat (case_match; try lia). Qed.
Lemma space_quiet c : is_space c = true → quiet c.
Proof.
  intros H. unfold quiet. split_and!; [by intros ->|by intros ->|]. intros [-> | ->]%letter_108; discriminate H.
Qed.
Lemma digit_quiet c : is_digit c = true → quiet c ∧ is_space c = false ∧ c ≠ 32.
Proof.
  intros H. assert (Hs : is_space c = false).
  { unfold Unicode.is_digit, digit_of in H. destruct (c <? 128) eqn:E; [|by destruct (is_space c)].
    unfold between in H. destruct ((48 <=? c) && (c <=? 57)) eqn:E'; [|done]. unfold is_space, between. lia. }
  split_and!; [|done|by intros ->]. split_and!; [by intros ->|by intros ->|]. intros [-> | ->]%letter_108; discriminate H.
Qed.
Lemma icase_quiet k w : map letter_of w = k → Forall (λ c, between 97 122 c = true ∧ c ≠ 108) k → Forall quiet w.
Proof.
  intros <- H. apply Forall_map in H. eapply Forall_impl; [exact H|]. intros c [H1 H2]. split_and!; [by intros ->|by intros ->|done].
Qed.

Lemma Forall_quiet p s : (∀ c, p c = true → quiet c) → Forall (λ c, p c = true) s → Forall quiet s.
Proof. intros H Hs. eapply Forall_impl; [exact Hs|done]. Qed.

(** What may follow the digits. *)
Definition tail_ok (rest : text) : bool := offset_tail uni_digit rest || forallb is_space rest.
Lemma tail_ok_quiet rest : tail_ok rest = true → Forall quiet rest ∧
  match head rest with Some c => is_digit c | None => false end = false.
Proof.
  intros [H|H]%orb_prop.
  - unfold offset_tail in H. destruct (take_while_spec is_space rest) as (E & Hs & Hh).
    set (r := drop_while is_space rest) in *. apply andb_prop in H as [[H1 H2]%andb_prop [[_ _]%andb_prop H4]%andb_prop].
    apply icase_prefix_spec in H2 as (w & b & Er & Ew). assert (length w = 6%nat) by (by rewrite <- (length_map letter_of), Ew).
    assert (drop 6 r = b) as Eb by (rewrite Er; rewrite drop_app_ge by lia; by replace (6 - length w)%nat with 0%nat by lia).
    rewrite Eb in H4. destruct (take_while_spec is_space b) as (E2 & Hs2 & _).
    destruct (take_while_spec is_digit (drop_while is_space b)) as (E3 & Hd & _).
    apply forallb_Forall in H4. split.
    + rewrite E, Er, E2, E3. rewrite !Forall_app. split_and!.
      * by eapply Forall_quiet; [apply space_quiet|].
      * eapply icase_quiet; [exact Ew|]. by repeat constructor.
      * by eapply Forall_quiet; [apply space_quiet|].
      * by eapply Forall_quiet; [apply digit_quiet|].
      * by eapply Forall_quiet; [apply space_quiet|].
    + rewrite E. destruct (take_while is_space rest) as [|c x]; [by rewrite E, bool_decide_true in H1|]. simpl.
      apply Forall_inv in Hs. apply not_true_iff_false. intros (_ & ? & _)%digit_quiet. congruence.
  - apply forallb_Forall in H. split; [by eapply Forall_quiet; [apply space_quiet|]|]. destruct rest as [|c rest]; [done|].
    simpl. apply Forall_inv in H. apply not_true_iff_false. intros (_ & ? & _)%digit_quiet. congruence.
Qed.

Record literal_text (kw ws ds rest : text) : Prop := {
  lit_kw : map letter_of kw = u "limit";
  lit_ws : ws ≠ [] ∧ Forall (λ c, is_space c = true) ws;
  lit_ds : ds ≠ [] ∧ Forall (λ c, is_digit c = true) ds;
  lit_rest : tail_ok rest = true;
}.

Lemma drop_while_app p w b : Forall (λ c, p c = true) w → match head b with Some c => p c | None => false end = false →
  drop_while p (w ++ b) = b.
Proof. intros Hw Hb. by destruct (take_while_app p w b Hw Hb). Qed.

Lemma literal_text_limit kw ws ds rest : literal_text kw ws ds rest →
  literal_limit uni_digit (kw ++ ws ++ ds ++ rest) = Some (5 + length ws, ds)%nat.
Proof.
  intros [Hk [Hw1 Hw2] [Hd1 Hd2] Hr]. unfold literal_limit.
  assert (length kw = 5%nat) as Hl by (by rewrite <- (length_map letter_of), Hk).
  assert (drop 5 (kw ++ ws ++ ds ++ rest) = ws ++ ds ++ rest) as -> by (rewrite drop_app_ge by lia; by replace (5 - length kw)%nat with 0%nat by lia).
  assert (Hds : match head (ds ++ rest) with Some c => is_space c | None => false end = false).
  { destruct ds as [|d ds]; [done|]. simpl. apply Forall_inv in Hd2. by apply digit_quiet in Hd2 as (_ & ? & _). }
  rewrite (drop_while_app is_space ws (ds ++ rest)) by done.
  destruct (tail_ok_quiet _ Hr) as [_ Hh]. destruct (take_while_app is_digit ds rest Hd2 Hh) as [-> ->].
  assert (icase_prefix (u "limit") (kw ++ ws ++ ds ++ rest) = true) as -> by (apply icase_prefix_spec; eauto).
  rewrite bool_decide_false; [|intros E; apply Hw1; apply (f_equal length) in E; rewrite !length_app in E; destruct ws; [done|simpl in E; lia]].
  rewrite bool_decide_false by done. unfold tail_ok in Hr. rewrite Hr. cbn [negb andb]. do 2 f_equal. rewrite !length_app. lia.
Qed.
Lemma literal_limit_text tail b ds : literal_limit uni_digit tail = Some (b, ds) →
  ∃ kw ws rest, tail = kw ++ ws ++ ds ++ rest ∧ literal_text kw ws ds rest ∧ b = (5 + length ws)%nat.
Proof.
  unfold literal_limit. set (r := drop 5 tail). destruct (take_while_spec is_space r) as (E & Hs & _).
  set (s := drop_while is_space r) in *. destruct (take_while_spec is_digit s) as (E' & Hd & _).
  destruct (_ && _) eqn:H; [|done]. intros [= <- <-]. apply andb_prop in H as [[[H1 H2]%andb_prop H3]%andb_prop H4].
  apply icase_prefix_spec in H1 as (kw & b & Et & Ek). assert (length kw = 5%nat) as Hl by (by rewrite <- (length_map letter_of), Ek).
  assert (r = b) as -> by (unfold r; rewrite Et, drop_app_ge by lia; by replace (5 - length kw)%nat with 0%nat by lia).
  exists kw, (take_while is_space b), (drop_while is_digit s). split_and!.
  - rewrite Et. by rewrite <- E', <- E.
  - apply negb_true_iff, bool_decide_eq_false in H2, H3. split; [done| |done|done]. split; [|done].
    intros Ew. rewrite Ew in E. by apply H2.
  - f_equal. apply (f_equal length) in E. rewrite length_app in E. lia.
Qed.

(** A literal limit outside parentheses is the one found. *)
Lemma limit_start_found pre kw ws ds rest : literal_text kw ws ds rest → net pre = 0 → word_at (last pre) = false →
  limit_start uni_alnum (pre ++ kw ++ ws ++ ds ++ rest) = Some (length pre).
Proof.
  intros HL Hn Hp. unfold limit_start. rewrite outer_limit_app by auto. rewrite Hn. simpl.
  destruct HL as [Hk [Hw1 Hw2] [Hd1 Hd2] Hr]. destruct kw as [|c kw]; [done|].
  assert (Hm : word_match uni_alnum (u "limit") (prev_of None pre) ((c :: kw) ++ ws ++ ds ++ rest) = true).
  { apply word_match_spec; [apply limit_small|]. exists (c :: kw), (ws ++ ds ++ rest). split_and!; [done|done|unfold prev_of; by destruct (last pre)|].
    destruct ws as [|d ws]; [done|]. simpl. apply Forall_inv in Hw2. apply not_true_iff_false. intros ?%word_not_space. congruence. }
  cbn [app] in Hm |- *. cbn [outer_limit]. rewrite Hm. injection Hk as Hc Hk. cbn [andb Z.eqb].
  assert (c ≠ 40 ∧ c ≠ 41) as [->%Z.eqb_neq ->%Z.eqb_neq] by (by split; intros ->).
  apply outer_limit_quiet. rewrite !Forall_app. split_and!.
  - eapply icase_quiet; [exact Hk|]. by repeat constructor.
  - by eapply Forall_quiet; [apply space_quiet|].
  - by eapply Forall_quiet; [apply digit_quiet|].
  - by apply tail_ok_quiet.
Qed.

(** ** Printed numbers *)

Definition step_digit (acc c : Z) : Z := 10 * acc + default 0 (digit_of uni_digit c).

Lemma digit_char k : (k < 10)%N → let c := Z.of_nat (nat_of_ascii (pretty_N_char k)) in
  between 48 57 c = true ∧ digit_of uni_digit c = Some (Z.of_N k).
Proof.
  intros H. assert (k = 0 ∨ k = 1 ∨ k = 2 ∨ k = 3 ∨ k = 4 ∨ k = 5 ∨ k = 6 ∨ k = 7 ∨ k = 8 ∨ k = 9)%N as Hk by lia.
  by destruct Hk as [->|[->|[->|[->|[->|[->|[->|[->|[->| ->]]]]]]]]].
Qed.

Lemma pretty_go_digits x : ∀ s, Forall (λ c, between 48 57 c = true) (u s) →
  Forall (λ c, between 48 57 c = true) (u (pretty_N_go x s)) ∧
  foldl step_digit 0 (u (pretty_N_go x s)) = foldl step_digit (Z.of_N x) (u s) ∧
  (u s ≠ [] ∨ (0 < x)%N → u (pretty_N_go x s) ≠ []) ∧
  ∀ k : nat, Z.of_N x < 10 ^ Z.of_nat k → (length (u (pretty_N_go x s)) <= k + length (u s))%nat.
Proof.
  induction (N.lt_wf_0 x) as [x _ IH]. intros s Hs.
  assert (x = 0 ∨ 0 < x)%N as [->|Hx] by lia.
  { rewrite pretty_N_go_0. split_and!; [done|done|by intros [|]|intros; lia]. }
  rewrite pretty_N_go_step by done. destruct (digit_char (x `mod` 10)) as [Hc Hd]; [apply N.mod_lt; lia|].
  set (c := pretty_N_char (x `mod` 10)) in *. change (u (String c s)) with (Z.of_nat (nat_of_ascii c) :: u s) in *.
  destruct (IH (x `div` 10)%N ltac:(apply N.div_lt; lia) (String c s)) as (I1 & I2 & I3 & I4); [by constructor|].
  change (u (String c s)) with (Z.of_nat (nat_of_ascii c) :: u s) in *. split_and!.
  - done.
  - rewrite I2. cbn [foldl]. unfold step_digit at 2. rewrite Hd. simpl default. f_equal.
    rewrite N2Z.inj_mod, N2Z.inj_div. pose proof (Z.div_mod (Z.of_N x) 10). lia.
  - intros _. apply I3. by left.
  - intros [|k] Hk; [simpl in Hk; lia|]. etrans; [apply (I4 k)|simpl; lia].
    rewrite N2Z.inj_div. apply Z.div_lt_upper_bound; [lia|]. rewrite Nat2Z.inj_succ, Z.pow_succ_r in Hk by lia. lia.
Qed.

Lemma ascii_digit c : between 48 57 c = true → is_digit c = true ∧ ordinary c ∧ c ∉ [45; 42; 39; 34; 96].
Proof.
  intros H. unfold between in H. split_and!.
  - unfold Unicode.is_digit, digit_of, between. assert ((c <? 128) = true) as -> by lia. by rewrite H.
  - unfold ordinary. not_in; subst; discriminate H.
  - not_in; subst; discriminate H.
Qed.

Lemma printed_spec n : 0 <= n <= 10000 → let ds := str_of_int n in
  ds ≠ [] ∧ Forall (λ c, is_digit c = true) ds ∧ Forall ordinary ds ∧ int_of uni_digit ds = Ok n ∧ ∀ t, calm (ds ++ t).
Proof.
  intros Hn. cbv zeta.
  assert (H : Forall (λ c, between 48 57 c = true) (str_of_int n) ∧ str_of_int n ≠ [] ∧
    foldl step_digit 0 (str_of_int n) = n ∧ (length (str_of_int n) <= 5)%nat).
  { unfold str_of_int. destruct n as [|n|n]; [|change (pretty (Zpos n)) with (pretty (Npos n))|lia].
    - by repeat constructor.
    - unfold pretty, pretty_N. rewrite decide_False by done. destruct (pretty_go_digits (Npos n) "") as (H1 & H2 & H3 & H4); [constructor|].
      split_and!; [done|apply H3; lia|by rewrite H2|]. etrans; [apply (H4 5%nat)|simpl; lia]. change (10 ^ Z.of_nat 5) with 100000. lia. }
  destruct H as (H1 & H2 & H3 & H4). split_and!.
  - done.
  - eapply Forall_impl; [exact H1|]. intros c Hc. by apply ascii_digit.
  - eapply Forall_impl; [exact H1|]. intros c Hc. by apply ascii_digit.
  - unfold int_of. assert ((Z.of_nat (length (str_of_int n)) <=? 4300) = true) as -> by lia. cbn [require mbind res_bind].
    by rewrite <- H3 at 2.
  - intros t d. destruct (str_of_int n) as [|c ds]; [done|]. intros [= <-]. apply Forall_inv in H1. by apply ascii_digit.
Qed.

Lemma int_of_nonneg ds v : int_of uni_digit ds = Ok v → 0 <= v.
Proof.
  unfold int_of. intros H. bind H as [] _. injection H as <-.
  assert (Hg : ∀ acc, 0 <= acc → 0 <= foldl (λ acc c, 10 * acc + default 0 (digit_of uni_digit c)) acc ds).
  { induction ds as [|c ds IH]; intros acc Ha; [done|]. simpl. apply IH. unfold digit_of, between.
    destruct (c <? 128); [destruct (_ && _) eqn:E; simpl; lia|]. destruct (is_space c); [simpl; lia|].
    destruct (uni_digit c); simpl; lia. }
  by apply Hg.
Qed.

(** ** The capped query *)

(** The bound of the outer limit of a statement, when it is a literal. *)
Definition outer_literal (sql : text) : option Z :=
  match _mask_string_literals sql with
  | Ok m => i ← limit_start uni_alnum m; '(_, ds) ← literal_limit uni_digit (drop i m);
            match int_of uni_digit ds with Ok v => Some v | Err _ => None end
  | Err _ => None
  end.

Lemma concat_masks_plain l : concat (map mask_of (map Plain l)) = l ∧ concat (map raw (map Plain l)) = l.
Proof. induction l as [|c l [IH1 IH2]]; [done|]. simpl. by rewrite IH1, IH2. Qed.
Lemma plain_clean l : Forall no_comment (map Plain l).
Proof. by induction l; constructor. Qed.

Lemma mask_length ps : length (concat (map raw ps)) = length (concat (map mask_of ps)).
Proof. induction ps as [|[] ps IH]; simpl; rewrite ?length_app, ?IH; unfold spaces; rewrite ?repeat_length; done. Qed.

Lemma spaces_split n x d y t : spaces n ++ t = x ++ d :: y → d ≠ 32 → ∃ x', x = spaces n ++ x' ∧ t = x' ++ d :: y.
Proof.
  revert x. induction n as [|n IH]; intros x E Hd; [by exists x|]. simpl in E.
  destruct x as [|e x]; [by injection E as <-|]. injection E as <- E. destruct (IH _ E Hd) as (x' & -> & ->). by exists x'.
Qed.
(** A masked character other than a space is a character of the text. *)
Lemma mask_split ps x d y : Forall no_comment ps → concat (map mask_of ps) = x ++ d :: y → d ≠ 32 →
  ∃ p1 p2, ps = p1 ++ Plain d :: p2 ∧ concat (map mask_of p1) = x ∧ concat (map mask_of p2) = y.
Proof.
  intros H. revert x. induction H as [|p ps Hp _ IH]; intros x E Hd; [by destruct x|].
  assert (Hrec : ∀ x', x = mask_of p ++ x' → concat (map mask_of ps) = x' ++ d :: y → ∃ p1 p2,
    p :: ps = p1 ++ Plain d :: p2 ∧ concat (map mask_of p1) = x ∧ concat (map mask_of p2) = y).
  { intros x' -> E'. destruct (IH _ E' Hd) as (p1 & p2 & -> & <- & <-). by exists (p :: p1), p2. }
  destruct p as [s|s|c]; [done| |].
  - simpl in E. apply spaces_split in E as (x' & -> & E); [|done]. by apply (Hrec x').
  - simpl in E. destruct x as [|e x]; [|injection E as -> E; by apply (Hrec x)].
    injection E as -> <-. by exists [], ps.
Qed.
Lemma lexed_raws s ps : lexed s ps → Forall (λ p, raw p ≠ []) ps.
Proof. induction 1 as [|c s p rest ps Hn _ IH]; constructor; [|done]. by destruct (next_piece_raw _ _ _ _ _ eq_refl Hn). Qed.

Lemma mask_split_list ds : ∀ ps x y, Forall no_comment ps → Forall (λ p, raw p ≠ []) ps →
  concat (map mask_of ps) = x ++ ds ++ y → Forall (λ d, d ≠ 32) ds → ds ≠ [] →
  ∃ p1 p2, ps = p1 ++ map Plain ds ++ p2 ∧ concat (map mask_of p1) = x ∧ concat (map mask_of p2) = y.
Proof.
  induction ds as [|d ds IH]; [done|]. intros ps x y Hc Hr E Hall _. apply Forall_cons in Hall as [Hd Hall].
  destruct (mask_split _ _ _ _ Hc E Hd) as (p1 & p2 & -> & <- & E2). destruct ds as [|d' ds]; [by exists p1, p2|].
  apply Forall_app in Hc as [_ Hc%Forall_inv_tail]. apply Forall_app in Hr as [_ Hr%Forall_inv_tail].
  destruct (IH p2 [] y Hc Hr E2 Hall) as (p3 & p4 & -> & E3 & <-); [done|]. exists p1, p4.
  assert (p3 = []) as ->; [|done]. destruct p3 as [|q p3]; [done|exfalso]. apply Forall_inv in Hr.
  simpl in E3. apply app_eq_nil in E3 as [E3 _]. destruct q as [[]|[]|]; done.
Qed.

Lemma split_at_digits s ps x ds y : lexed s ps → Forall no_comment ps → concat (map mask_of ps) = x ++ ds ++ y →
  Forall (λ c, is_digit c = true) ds → ds ≠ [] →
  ∃ p1 p2, ps = p1 ++ map Plain ds ++ p2 ∧ concat (map mask_of p1) = x ∧ concat (map mask_of p2) = y ∧
    s = concat (map raw p1) ++ ds ++ concat (map raw p2) ∧ length (concat (map raw p1)) = length x.
Proof.
  intros H Hc E Hd Hne. destruct (mask_split_list ds ps x y) as (p1 & p2 & -> & <- & <-); [done|by eapply lexed_raws|done| |done|].
  { eapply Forall_impl; [exact Hd|]. intros c Hcd. by apply digit_quiet in Hcd as (_ & _ & ?). }
  exists p1, p2. split_and!; [done|done|done| |apply mask_length].
  rewrite <- (lexed_raw _ _ H), !map_app, !concat_app. by destruct (concat_masks_plain ds) as [_ ->].
Qed.

(** A literal limit within the bound stands as it is. *)
Lemma literal_capped s ps pre kw ws rest v n : lexed s ps → Forall no_comment ps →
  concat (map mask_of ps) = pre ++ kw ++ ws ++ str_of_int v ++ rest → literal_text kw ws (str_of_int v) rest →
  net pre = 0 → word_at (last pre) = false → 0 <= v <= n → 1 <= n <= 10000 →
  outer_literal s = Some v ∧ ensure_limit uni_alnum uni_digit s (JInt n) = Ok s.
Proof.
  intros H Hc Em HL Hnet Hp Hv Hn. destruct (printed_spec v) as (Pne & Pd & _ & Pint & _); [lia|].
  assert (Hs : limit_start uni_alnum (concat (map mask_of ps)) = Some (length pre)) by (rewrite Em; by apply limit_start_found).
  assert (Hl : literal_limit uni_digit (drop (length pre) (concat (map mask_of ps))) = Some (5 + length ws, str_of_int v)%nat)
    by (rewrite Em, drop_app_length; by apply literal_text_limit).
  pose proof (clean_scan _ _ H Hc) as Hscan. split.
  - unfold outer_literal, _mask_string_literals. rewrite Hscan. cbn [mbind res_bind option_bind]. rewrite Hs. cbn [mbind option_bind].
    rewrite Hl. cbn [mbind option_bind]. by rewrite Pint.
  - unfold ensure_limit, _mask_string_literals. cbn [mbind res_bind].
    assert ((1 <=? n) && (n <=? MAX_ROWS) = true) as -> by (unfold MAX_ROWS; lia). cbn [require mbind res_bind].
    rewrite Hscan. cbn [mbind res_bind]. rewrite Hs, Hl, Pint. cbn [mbind res_bind]. rewrite Z.min_l by lia. f_equal.
    destruct (split_at_digits s ps (pre ++ kw ++ ws) (str_of_int v) rest) as (p1 & p2 & _ & _ & _ & -> & Hlen);
      [done|done|by rewrite Em, <- !app_assoc|done|done|].
    assert (length kw = 5%nat) as Hk by (rewrite <- (length_map letter_of); by rewrite (lit_kw _ _ _ _ HL)).
    rewrite !length_app, Hk in Hlen. rewrite <- Hlen by lia.
    replace (length pre + (5 + length ws))%nat with (length (concat (map raw p1))) by lia.
    by rewrite take_app_length, drop_app_add, drop_app_length.
Qed.

Lemma limit_literal_text n : 0 <= n <= 10000 → literal_text (u "LIMIT") [32] (str_of_int n) [].
Proof. intros Hn. destruct (printed_spec n Hn) as (? & ? & _). by repeat constructor. Qed.
Lemma limit_ordinary n : 0 <= n <= 10000 → Forall ordinary (u "LIMIT " ++ str_of_int n).
Proof.
  intros Hn. apply Forall_app. split; [|by apply printed_spec]. repeat (constructor; [not_in|]). constructor.
Qed.

(** The three forms of the result. *)
Lemma append_capped c ps n : lexed c ps → Forall no_comment ps → net (concat (map mask_of ps)) = 0 → 1 <= n <= 10000 →
  let g := c ++ u " LIMIT " ++ str_of_int n in
  (∃ v, outer_literal g = Some v ∧ 0 <= v <= n) ∧ ensure_limit uni_alnum uni_digit g (JInt n) = Ok g.
Proof.
  intros Hl Hc Hnet Hn g.
  assert (Hg : lexed g (ps ++ map Plain (u " LIMIT " ++ str_of_int n))).
  { apply lexed_app; [done|done| |].
    - intros d [= <-]. not_in.
    - apply lexed_plain_all.
      constructor; [not_in|]. apply limit_ordinary. lia. }
  destruct (literal_capped g _ (concat (map mask_of ps) ++ [32]) (u "LIMIT") [32] [] n n Hg) as [H1 H2];
    [| |apply limit_literal_text; lia| | |lia|lia|by split; [exists n; split; [|lia]|]].
  - apply Forall_app. split; [done|apply plain_clean].
  - rewrite map_app, concat_app. destruct (concat_masks_plain (u " LIMIT " ++ str_of_int n)) as [-> _]. by rewrite <- app_assoc, app_nil_r.
  - rewrite net_app, Hnet. done.
  - by rewrite last_snoc.
Qed.

Lemma wrap_capped c ps n : lexed c ps → Forall no_comment ps → net (concat (map mask_of ps)) = 0 → 1 <= n <= 10000 →
  let g := u "SELECT * FROM (" ++ c ++ u ") AS guarded_query LIMIT " ++ str_of_int n in
  (∃ v, outer_literal g = Some v ∧ 0 <= v <= n) ∧ ensure_limit uni_alnum uni_digit g (JInt n) = Ok g.
Proof.
  intros Hl Hc Hnet Hn g.
  assert (Hg : lexed g (map Plain (u "SELECT * FROM (") ++ ps ++ map Plain (u ") AS guarded_query LIMIT " ++ str_of_int n))).
  { unfold g. apply lexed_plain; [repeat (constructor; [not_in|]); constructor|].
    apply lexed_app; [done|done| |].
    - intros d [= <-]. not_in.
    - apply lexed_plain_all.
      change (u ") AS guarded_query LIMIT ") with (u ") AS guarded_query " ++ u "LIMIT "). rewrite <- app_assoc.
      apply Forall_app. split; [repeat (constructor; [not_in|]); constructor|]. apply limit_ordinary. lia. }
  destruct (literal_capped g _ (u "SELECT * FROM (" ++ concat (map mask_of ps) ++ u ") AS guarded_query ") (u "LIMIT") [32] [] n n Hg)
    as [H1 H2]; [| |apply limit_literal_text; lia| | |lia|lia|by split; [exists n; split; [|lia]|]].
  - rewrite !Forall_app. split_and!; [apply plain_clean|done|apply plain_clean].
  - rewrite !map_app, !concat_app. destruct (concat_masks_plain (u "SELECT * FROM (")) as [-> _].
    destruct (concat_masks_plain (u ") AS guarded_query LIMIT ")) as [-> _]. destruct (concat_masks_plain (str_of_int n)) as [-> _].
    by rewrite <- !app_assoc, app_nil_r.
  - rewrite !net_app, Hnet. done.
  - by rewrite app_assoc, last_app.
Qed.

Lemma clamp_capped c ps n i b ds g : lexed c ps → Forall no_comment ps → 1 <= n <= 10000 →
  limit_start uni_alnum (concat (map mask_of ps)) = Some i →
  literal_limit uni_digit (drop i (concat (map mask_of ps))) = Some (b, ds) →
  (value ← int_of uni_digit ds; Ok (take (i + b) c ++ str_of_int (Z.min value n) ++ drop (i + b + length ds) c)) = Ok g →
  (∃ v, outer_literal g = Some v ∧ 0 <= v <= n) ∧ ensure_limit uni_alnum uni_digit g (JInt n) = Ok g.
Proof.
  intros Hl Hc Hn Ei El H. bind H as value Hv. injection H as <-. pose proof (int_of_nonneg _ _ Hv) as Hpos.
  set (v := Z.min value n) in *. destruct (printed_spec v) as (Pne & Pd & Po & _ & Pcalm); [lia|].
  apply outer_limit_found in Ei as [[=]|(pre & tail & Em & -> & Hnet & Hm)]. simpl in Hnet, El |- *.
  rewrite Em, drop_app_length in El. apply literal_limit_text in El as (kw & ws & rest & -> & HL & ->).
  assert (Hp : word_at (last pre) = false).
  { apply word_match_spec in Hm as (? & ? & _ & _ & Hp & _); [|apply limit_small]. unfold prev_of in Hp. by destruct (last pre). }
  destruct (split_at_digits c ps (pre ++ kw ++ ws) ds rest) as (p1 & p2 & -> & E1 & E2 & -> & Hlen);
    [done|done|by rewrite Em, <- !app_assoc|apply HL|apply HL|].
  assert (length kw = 5%nat) as Hk by (rewrite <- (length_map letter_of); by rewrite (lit_kw _ _ _ _ HL)).
  rewrite !length_app, Hk in Hlen. replace (length pre + (5 + length ws))%nat with (length (concat (map raw p1))) by lia.
  rewrite take_app_length. rewrite drop_app_add, drop_app_length. apply Forall_app in Hc as [Hc1 [_ Hc2]%Forall_app].
  assert (Hg : lexed (concat (map raw p1) ++ str_of_int v ++ concat (map raw p2)) (p1 ++ map Plain (str_of_int v) ++ p2)).
  { eapply lexed_replace; [exact Hl|done|reflexivity|right; apply Pcalm|]. apply lexed_plain; [done|].
    eapply (lexed_suffix _ (p1 ++ map Plain ds)). rewrite <- (app_assoc p1). exact Hl. }
  destruct (literal_capped _ _ pre kw ws rest v n Hg) as [H1 H2]; [| | |done|done|lia|lia|by split; [exists v; split; [|lia]|]].
  - rewrite !Forall_app. split_and!; [done|apply plain_clean|done].
  - rewrite !map_app, !concat_app, E1, E2. destruct (concat_masks_plain (str_of_int v)) as [-> _]. by rewrite <- !app_assoc.
  - destruct HL. by split.
Qed.

(** the query that runs has its outermost limit outside parentheses,
    literals and comments, as a plain number no larger than the caller's
    bound, and guarding it again changes nothing. *)
Theorem ensure_limit_caps sql c c' m n g : strip_sql sql = Ok c → _scan_sql c = Ok (c', m) → net m = 0 →
  ensure_limit uni_alnum uni_digit c (JInt n) = Ok g →
  (∃ v, outer_literal g = Some v ∧ 0 <= v <= n) ∧ ensure_limit uni_alnum uni_digit g (JInt n) = Ok g.
Proof.
  intros Hstrip Hscan Hnet H. destruct (strip_sql_clean _ _ Hstrip) as (ps & Hl & Hc).
  rewrite (clean_scan _ _ Hl Hc) in Hscan. injection Hscan as <- <-. unfold ensure_limit, _mask_string_literals in H.
  cbn [mbind res_bind] in H. bind H as [] Hn%require_Ok. rewrite (clean_scan _ _ Hl Hc) in H. cbn [mbind res_bind] in H.
  unfold MAX_ROWS in Hn. assert (1 <= n <= 10000) as Hn' by lia.
  destruct (printed_spec n) as (Pne & Pd & Po & Pint & Pcalm); [lia|].
  destruct (limit_start _ _) as [i|] eqn:Ei; [destruct (literal_limit _ _) as [[b ds]|] eqn:El|].
  - by eapply clamp_capped.
  - injection H as <-. by eapply wrap_capped.
  - injection H as <-. by eapply append_capped.
Qed.

(** The rows returned are the first ones of the cursor, at most [n] and
    within the byte budget; otherwise the query is refused. *)
Lemma fetch_rows_first n total cursor rows : fetch_rows n total cursor = Ok rows →
  rows = take n cursor ∧ (total <= MAX_RESULT_BYTES → total + foldr (λ r k, row_bytes r + k) 0 rows <= MAX_RESULT_BYTES).
Proof.
  revert total cursor rows. induction n as [|n IH]; intros total [|r cursor] rows H; cbn [fetch_rows] in H;
    try (injection H as <-; split; [done|simpl; lia]).
  bind H as [] Hb%require_Ok. bind H as rs Hr. injection H as <-. apply IH in Hr as [-> Hsum]. split; [done|].
  intros Ht. simpl. specialize (Hsum ltac:(lia)). lia.
Qed.
End words.

Definition ascii_only : Z → bool := λ _, false.
Definition ascii_digits : Z → option (fin 10) := λ _, None.

Lemma ensure_limit_caps_witness : ∃ g, ensure_limit ascii_only ascii_digits (u "select 1 from t limit 500 offset 2") (JInt 100) = Ok g ∧
  ∃ v, outer_literal ascii_only ascii_digits g = Some v ∧ 0 <= v <= 100.
Proof.
  eexists. split; [vm_compute; reflexivity|].
  destruct (ensure_limit_caps ascii_only ascii_digits (Text (u "```sql
select 1 from t limit 500 offset 2 ;
```")) (u "select 1 from t limit 500 offset 2") _ _ 100 _ ltac:(vm_compute; reflexivity) ltac:(vm_compute; reflexivity)
    ltac:(vm_compute; reflexivity) ltac:(vm_compute; reflexivity)) as [Hv _]. exact Hv.
Defined.
