(* ===== verification/ChangeStream.v ===== *)
(** * Change publication and the canonical-change outbox ([unimem/change_stream.py])

    Events are rows of one signed journal, taken once per event identity.  A
    write to a canonical namespace (facts, lessons) stages the metadata of its
    changes in a signed intent file before it commits and publishes them after;
    what a crash leaves behind is settled by [recover] before the next write.
    Subscriptions, cursors and deliveries are left out. *)

From S2P Require Import Prelude Sha256 Base64 Wire Origin Merkle Journal Strings Number Ledger Seal Vda Lineage.
Local Open Scope Z_scope.

Definition KINDS : list string := ["assert"; "retract"; "contradict"; "supersede"; "erase"; "quarantine"]%string.
Definition JOURNAL : string := "memory-changes.jsonl".

(** [bool(v)] *)
Definition truthy (v : json) : bool := truthy_at "v" (JObj [("v"%string, v)]).

(** The code points of a text, each as a text. *)
Fixpoint code_points (s : string) : list string :=
  match s with
  | EmptyString => []
  | String c s' =>
      match code_points s', s' with
      | p :: ps, String d _ => if starts_code_point d then String c EmptyString :: p :: ps else String c p :: ps
      | ps, _ => String c EmptyString :: ps
      end
  end.
(** [list(v)] where [len(v)] is defined too. *)
Definition elements (v : json) : res pyexn (list json) :=
  match v with
  | JList l => Ok l
  | JObj kvs => Ok (map JStr kvs.*1)
  | JStr s => Ok (map JStr (code_points s))
  | _ => Err TypeError
  end.
(** [v in {...}] of a set of texts. *)
Definition in_set (v : json) (l : list string) : res pyexn bool :=
  match v with JList _ | JObj _ => Err TypeError | JStr s => Ok (mem s l) | _ => Ok false end.

(** The keyword arguments of [publish]. *)
Record change := Change {
  c_kind : json; c_identity : json; c_scopes : json; c_namespace : json; c_entity : json; c_predicate : json;
  c_revision : json;
}.

Definition optional_text (v : json) : res pyexn () :=
  if truthy v then _ ← text_json v 256; Ok () else Ok ().
Definition labels_of (scopes : json) : res pyexn (list string) :=
  l ← elements scopes;
  _ ← count (Z.of_nat (length l)) 0 128;
  ts ← mapR (λ s, text_json s 256) l; Ok (sorted_set ts).

Section stream.
Context {St} `{LG : Ledger St} `{SL : !Sealed St}.
(** [fp.now()] *)
Variable now : string.

(** What a repeated event is compared with. *)
Definition expected (c : change) (target : string) (labels : list string) : list (string * json) :=
  [("kind", c_kind c); ("target", JStr target); ("scopes", JList (map JStr labels)); ("namespace", c_namespace c);
   ("entity", c_entity c); ("predicate", c_predicate c); ("revision", c_revision c)]%string.
Definition same_event (prior : json) (fields : list (string * json)) : res pyexn () :=
  foldM (λ _ kv, x ← item kv.1 prior; require (py_eqb x kv.2) ValueError) () fields.
Definition has_event (event_id : string) (row : json) : bool :=
  match jget "event_id" row with Some v => py_eqb v (JStr event_id) | None => false end.

Definition publish (s : St) (c : change) (event_id : string) : res pyexn (json * St) :=
  known ← in_set (c_kind c) KINDS;
  require known ValueError;;
  target ← text_json (c_identity c) 512;
  labels ← labels_of (c_scopes c);
  optional_text (c_namespace c);; optional_text (c_entity c);;
  optional_text (c_predicate c);; optional_text (c_revision c);;
  _ ← (if String.eqb event_id "" then Ok ""%string else text event_id 512);
  prior ← (if String.eqb event_id "" then Ok [] else
             rows ← journal s JOURNAL; Ok (List.filter (has_event event_id) rows));
  match prior with
  | first :: _ => same_event first (expected c target labels);; Ok (first, s)
  | [] =>
      '(signed, s) ← append s JOURNAL
        (JObj (expected c target labels ++ [("at"%string, JStr now); ("event_id"%string, JStr event_id)]));
      record ← item "record" signed; Ok (record, s)
  end.

(** ** Snapshots of a namespace *)

(** A namespace's metadata by identity. *)
Definition snap := list (string * json).

Definition get_default (k : string) (d v : json) : json := default d (jget k v).
Definition metadata (body : json) : res pyexn json :=
  h ← digest body;
  Ok (JObj [("scopes", get_default "scopes" (JList []) body); ("revision", get_default "revision" (JStr "") body);
            ("status", get_default "status" (JStr "active") body);
            ("forgotten", get_default "forgotten" (JBool false) body);
            ("content_hash", JStr h); ("predicate", get_default "category" (JStr "") body)]%string).
Definition snapshot (values : list (string * json)) : res pyexn snap :=
  _ ← count (Z.of_nat (length values)) 0 10000;
  foldM (λ acc kv, m ← metadata kv.2; Ok (assoc_set kv.1 m acc)) [] values.

Definition state_hash (state : snap) : res pyexn string :=
  lines ← mapR (λ kv, wire (JList [JStr kv.1; kv.2])) (sort_by (λ a b, str_ltb a.1 b.1) state);
  Ok (sha256_hex (foldr (λ l acc, l +:+ String "010" acc) ""%string lines)).

(** ** The outbox *)

(** The journals and the intent file of each namespace. *)
Record stream := Stream { s_log : St; intents : list (string * json) }.

(** [json.dumps(value, indent=2, sort_keys=True, ensure_ascii=False)] *)
Definition indent (n : nat) : string := of_bytes ("010"%char :: repeat " "%char (2 * n)).
Fixpoint pretty_dumps (depth : nat) (v : json) : string :=
  match v with
  | JList [] => "[]"
  | JObj [] => "{}"
  | JList l =>
      "[" +:+ String.concat "," (map (λ x, indent (S depth) +:+ pretty_dumps (S depth) x) l) +:+ indent depth +:+ "]"
  | JObj kvs =>
      "{" +:+ String.concat "," (map snd (sort_by (λ a b, str_ltb a.1 b.1)
        (map (λ '(k, x), (k, indent (S depth) +:+ dumps (JStr k) +:+ ": " +:+ pretty_dumps (S depth) x)) kvs))) +:+
      indent depth +:+ "}"
  | _ => dumps v
  end.
(** The bytes of a file [_jsonl.write_json] wrote; reading it back gives the
    value, up to the order of keys, which nothing here observes. *)
Definition file_bytes (v : json) : Z := byte_len (pretty_dumps 0 v) + 1.

Definition NAMESPACES : list string := ["facts"; "lessons"]%string.
Definition intent_path (namespace : string) : res pyexn () := require (mem namespace NAMESPACES) ValueError.

Definition change_kind (old new : option json) : res pyexn string :=
  match new with
  | None => Ok "erase"%string
  | Some n =>
      match old with
      | None => Ok "assert"%string
      | Some _ =>
          let status := get_default "status" JNull n in
          if bool_decide (status = JStr "superseded") then Ok "supersede"%string
          else retracted ← (if truthy_at "forgotten" n then Ok true else in_set status ["retracted"; "retired"]%string);
            if (retracted : bool) then Ok "retract"%string
            else quarantined ← in_set status ["quarantined"; "review"]%string;
              Ok (if (quarantined : bool) then "quarantine" else "assert")%string
      end
  end.
Definition same_state (old new : option json) : bool :=
  match old, new with Some a, Some b => py_eqb a b | None, None => true | _, _ => false end.

Definition change_row (namespace : string) (before after : snap) (identity : string) : res pyexn (list json) :=
  let old := assoc identity before in let new := assoc identity after in
  if same_state old new then Ok []
  else
    let value := match new with Some n => n | None => default (JObj []) old end in
    kind ← change_kind old new;
    scopes ← item "scopes" value; revision ← item "revision" value; predicate ← item "predicate" value;
    Ok [JObj [("kind", JStr kind); ("identity", JStr identity); ("scopes", scopes); ("namespace", JStr namespace);
              ("revision", revision); ("predicate", predicate)]%string].
Definition changes_of (namespace : string) (before after : snap) : res pyexn (list json) :=
  ls ← mapR (change_row namespace before after) (sorted_set (before.*1 ++ after.*1)); Ok (List.concat ls).

Definition stage (st : stream) (namespace : string) (before after : snap) : res pyexn (bool * stream) :=
  changes ← changes_of namespace before after;
  if bool_decide (changes = []) then Ok (false, st)
  else
    intent_path namespace;;
    require (match assoc namespace (intents st) with Some _ => false | None => true end) ValueError;;
    b ← state_hash before; a ← state_hash after;
    let intent := JObj [("type", JStr "unimem.canonical-change-intent"); ("namespace", JStr namespace);
                        ("before", JStr b); ("after", JStr a); ("changes", JList changes)]%string in
    d ← digest intent;
    '(signed, log) ← sign (s_log st) (jset "transaction" (JStr d) intent);
    _ ← wire signed;
    Ok (true, Stream log (assoc_set namespace signed (intents st))).

Definition _intent (st : stream) (namespace : string) : res pyexn (option json) :=
  intent_path namespace;;
  match assoc namespace (intents st) with
  | None => Ok None
  | Some signed =>
      require (file_bytes signed <=? MAX_BYTES) ValueError;;
      ok ← verify (s_log st) signed;
      require (ok : bool) PermissionError;;
      value ← item "record" signed;
      require (match value with JObj _ => true | _ => false end) AttributeError;;
      require (bool_decide (jget "namespace" value = Some (JStr namespace))) PermissionError;;
      require (bool_decide (jget "type" value = Some (JStr "unimem.canonical-change-intent"))) ValueError;;
      d ← digest (jdel "transaction" value);
      require (bool_decide (jget "transaction" value = Some (JStr d))) ValueError;;
      changes ← list_of "changes" value;
      _ ← count (Z.of_nat (length changes)) 1 2048;
      Ok (Some value)
  end.

(** [publish(root, **change, event_id=...)]: unknown and missing arguments
    are type errors. *)
Definition keywords (v : json) : res pyexn change :=
  require (forallb (λ k, mem k ["kind"; "identity"; "scopes"; "namespace"; "entity"; "predicate"; "revision"]%string)
             (jkeys v)) TypeError;;
  kind ← get_or (jget "kind" v) TypeError; identity ← get_or (jget "identity" v) TypeError;
  let arg k d := get_default k d v in
  Ok (Change kind identity (arg "scopes" (JList [])) (arg "namespace" (JStr "")) (arg "entity" (JStr ""))
        (arg "predicate" (JStr "")) (arg "revision" (JStr "")))%string.

(** Iteration [i] of the loop of [complete]. *)
Definition publish_change (s : St) (transaction : json) (i : Z) (v : json) : res pyexn St :=
  event_id ← digest (JList [transaction; JInt i]);
  c ← keywords v;
  '(_, s) ← publish s c event_id; Ok s.
(** The loop; what was published before an exception stays published. *)
Fixpoint publish_all (s : St) (transaction : json) (i : Z) (changes : list json) : St * res pyexn () :=
  match changes with
  | [] => (s, Ok ())
  | v :: rest =>
      match publish_change s transaction i v with
      | Ok s => publish_all s transaction (i + 1) rest
      | Err e => (s, Err e)
      end
  end.

(** [except (OSError, ValueError, PermissionError, TypeError)] *)
Definition publication_pending (e : pyexn) : bool :=
  bool_decide (e ∈ [OSError; FileNotFoundError; PermissionError; ValueError; TypeError]).

Definition complete_intent (st : stream) (namespace : string) (intent : json) : stream * res pyexn bool :=
  match list_of "changes" intent, item "transaction" intent with
  | Ok changes, Ok transaction =>
      let '(log, r) := publish_all (s_log st) transaction 0 changes in
      match r with
      | Ok _ => (Stream log (assoc_del namespace (intents st)), Ok true)
      | Err e => (Stream log (intents st), Err e)
      end
  | Err e, _ | _, Err e => (st, Err e)
  end.
Definition complete (st : stream) (namespace : string) : stream * res pyexn bool :=
  let '(st', r) := match _intent st namespace with
    | Ok None => (st, Ok true)
    | Ok (Some intent) => complete_intent st namespace intent
    | Err e => (st, Err e)
    end in
  match r with
  | Err e => (st', if publication_pending e then Ok false else Err e)
  | r => (st', r)
  end.

Definition recover (st : stream) (namespace : string) (current : snap) : stream * res pyexn () :=
  match _intent st namespace with
  | Err e => (st, Err e)
  | Ok None => (st, Ok ())
  | Ok (Some intent) =>
      match (h ← state_hash current; after ← str_of "after" intent; before ← str_of "before" intent; Ok (h, after, before)) with
      | Err e => (st, Err e)
      | Ok (h, after, before) =>
          if String.eqb h after then
            let '(st', r) := complete st namespace in
            (st', ok ← r; require (ok : bool) RuntimeError)
          else if String.eqb h before then (Stream (s_log st) (assoc_del namespace (intents st)), Ok ())
          else (st, Err RuntimeError)
      end
  end.

(** [fact_transactions]: what the body of the [with] statement makes of the
    values, and whether the commit at its end succeeds. *)
Definition fact_transaction (enabled : bool) (st : stream) (values : list (string * json))
    (body : list (string * json) → res pyexn (list (string * json))) (commits : bool) :
    stream * list (string * json) * res pyexn () :=
  if negb enabled then
    match body values with
    | Ok values' => if commits then (st, values', Ok ()) else (st, values, Err OSError)
    | Err e => (st, values, Err e)
    end
  else
    match snapshot values with
    | Err e => (st, values, Err e)
    | Ok before =>
        match recover st "facts" before with
        | (st, Err e) => (st, values, Err e)
        | (st, Ok _) =>
            match (values' ← body values; after ← snapshot values'; '(_, st') ← stage st "facts" before after; Ok (values', st')) with
            | Err e => (st, values, Err e)
            | Ok (values', st') =>
                if commits then
                  let '(st', r) := complete st' "facts" in (st', values', _ ← r; Ok ())
                else (st', values, Err OSError)
            end
        end
    end.
End stream.
