(* ===== verification/ChangeStreamSpec.v ===== *)
(** * What the outbox guarantees

    A transaction's events are published exactly once, in order, whatever the
    crashes between its commit and the next write; a transition that repeats
    an earlier one is not announced again. *)

From S2P Require Import Prelude Sha256 Base64 Wire Origin Merkle Journal JournalSpec Strings Number Ledger Seal Vda Lineage LineageSpec ChangeStream.
Local Open Scope Z_scope.

(** The event identities of a transaction's changes, from the [i]th on. *)
Fixpoint event_ids (tx : json) (i : Z) (changes : list json) : res pyexn (list string) :=
  match changes with
  | [] => Ok []
  | _ :: rest => e ← digest (JList [tx; JInt i]); es ← event_ids tx (i + 1) rest; Ok (e :: es)
  end.

(** The events that no row has yet, with their changes. *)
Definition unannounced (rows : list json) (events : list (string * json)) : list (string * json) :=
  List.filter (λ ev, bool_decide (List.filter (has_event ev.1) rows = [])) events.

(** A row that announces a change. *)
Definition announces (e : string) (v row : json) : Prop :=
  jget "event_id" row = Some (JStr e) ∧ jget "kind" row = jget "kind" v ∧ jget "target" row = jget "identity" v ∧
  jget "namespace" row = Some (get_default "namespace" (JStr "") v).

Section outbox.
Context {St} `{LG : Ledger St} `{LL : !LedgerLaws St} `{SL : !Sealed St} `{SLL : !SealedLaws St}.
Variable now : string.

(** Crashes in the loop of [complete]: each attempt gets as far as its number
    of changes. *)
Fixpoint attempts (s : St) (tx : json) (changes : list json) (ks : list nat) : St :=
  match ks with [] => s | k :: ks => attempts (publish_all now s tx 0 (take k changes)).1 tx changes ks end.

Lemma has_event_eq e f row : jget "event_id" row = Some (JStr f) → has_event e row = String.eqb f e.
Proof. intros H. unfold has_event. by rewrite H. Qed.

Lemma text_json_JStr v m t : text_json v m = Ok t → v = JStr t.
Proof. destruct v; try done. simpl. unfold text. intros H. bind H as [] _. by injection H as <-. Qed.

(** A new event is one more row; a known one changes nothing. *)
Lemma publish_rows s c e r s' J : e ≠ ""%string → publish now s c e = Ok (r, s') → journal s JOURNAL = Ok J →
  (List.filter (has_event e) J ≠ [] ∧ s' = s) ∨
  (List.filter (has_event e) J = [] ∧ ∀ J', journal s' JOURNAL = Ok J' → ∃ row, J' = J ++ [row] ∧
     jget "event_id" row = Some (JStr e) ∧ jget "kind" row = Some (c_kind c) ∧ jget "target" row = Some (c_identity c) ∧
     jget "namespace" row = Some (c_namespace c)).
Proof.
  intros He%String.eqb_neq H HJ. unfold publish in H. bind H as known _. bind H as [] _. bind H as target Ht. bind H as labels _.
  bind H as [] _. bind H as [] _. bind H as [] _. bind H as [] _. bind H as x _. rewrite He in H. bind H as prior Hp. rewrite HJ in Hp. cbn [mbind res_bind] in Hp. injection Hp as <-.
  destruct (List.filter (has_event e) J) as [|first rest] eqn:Ef; [right|left].
  - split; [done|]. bind H as [signed s2] Happ. bind H as record _. injection H as _ <-. intros J' HJ'.
    destruct (append_same _ _ _ _ _ _ _ HJ Happ HJ') as (row & -> & _ & (prev & at_ & ->)).
    apply text_json_JStr in Ht. eexists. split; [reflexivity|]. by rewrite Ht.
  - bind H as [] _. injection H as _ <-. done.
Qed.

(** The journal after the first [m] changes. *)
Definition published (J0 : list json) (ids : list string) (changes : list json) (m : nat) (s : St) : Prop :=
  ∀ J, journal s JOURNAL = Ok J → ∃ rows, J = J0 ++ rows ∧
    Forall2 (λ ev row, announces ev.1 ev.2 row) (unannounced J0 (zip (take m ids) (take m changes))) rows.

Lemma announced_ids (events : list (string * json)) rows : Forall2 (λ ev row, announces ev.1 ev.2 row) events rows →
  ∀ e, List.filter (has_event e) rows = [] ↔ e ∉ events.*1.
Proof.
  intros H e. induction H as [|[i v] row events rows [Hi _] _ IH]; simpl in *; [split; [intros _; set_solver|done]|].
  rewrite (has_event_eq e _ _ Hi). destruct (String.eqb_spec i e) as [->|Hne]; [split; [done|set_solver]|]. set_solver.
Qed.

Lemma elem_unannounced J0 events ev : ev ∈ unannounced J0 events ↔ ev ∈ events ∧ List.filter (has_event ev.1) J0 = [].
Proof. unfold unannounced. by rewrite list_elem_of_In, filter_In, <- list_elem_of_In, bool_decide_eq_true. Qed.

Lemma event_ids_length tx i changes ids : event_ids tx i changes = Ok ids → length ids = length changes.
Proof.
  revert i ids. induction changes as [|v changes IH]; intros i ids H; cbn [event_ids] in H; [by injection H as <-|].
  bind H as e _. bind H as es Hes. injection H as <-. simpl. f_equal. by eapply IH.
Qed.
Lemma event_ids_nth tx i changes ids k v : event_ids tx i changes = Ok ids → changes !! k = Some v →
  ∃ e, ids !! k = Some e ∧ digest (JList [tx; JInt (i + Z.of_nat k)]) = Ok e.
Proof.
  revert i ids k. induction changes as [|x changes IH]; intros i ids k H Hk; [done|]. cbn [event_ids] in H.
  bind H as e He. bind H as es Hes. injection H as <-. destruct k as [|k].
  - exists e. split; [done|]. by rewrite Z.add_0_r.
  - destruct (IH _ _ _ Hes Hk) as (e' & ? & Hd). exists e'. split; [done|].
    by replace (i + Z.of_nat (S k)) with (i + 1 + Z.of_nat k) by lia.
Qed.

Lemma digest_nonempty v e : digest v = Ok e → e ≠ ""%string.
Proof.
  unfold digest. destruct (wire v) as [w|]; [|done]. intros [= <-] H. pose proof (is_hash_sha256_hex w) as Hh. by rewrite H in Hh.
Qed.

Section loop.
Variables (J0 : list json) (tx : json) (changes : list json) (ids : list string).
Hypothesis ids_of : event_ids tx 0 changes = Ok ids.
Hypothesis ids_distinct : NoDup ids.

Lemma zip_next k (e : string) (v : json) : ids !! k = Some e → changes !! k = Some v →
  zip (take (S k) ids) (take (S k) changes) = zip (take k ids) (take k changes) ++ [(e, v)].
Proof.
  intros He Hv. pose proof (event_ids_length _ _ _ _ ids_of). rewrite (take_S_r ids k e), (take_S_r changes k v) by done.
  by rewrite zip_with_app by (rewrite !length_take; lia).
Qed.

Lemma elem_events k (e : string) (v : json) m : ids !! k = Some e → changes !! k = Some v →
  (e ∈ (zip (take m ids) (take m changes)).*1 ↔ (k < m)%nat) ∧
  ((k < m)%nat → (e, v) ∈ zip (take m ids) (take m changes)).
Proof.
  intros He Hv. pose proof (event_ids_length _ _ _ _ ids_of). split.
  - rewrite fst_zip by (rewrite !length_take; lia). split.
    + intros (j & Hj)%list_elem_of_lookup. apply lookup_take_Some in Hj as [Hj Hjm].
      assert (j = k) by (by eapply NoDup_lookup). lia.
    + intros Hlt. apply list_elem_of_lookup. exists k. by apply lookup_take_Some.
  - intros Hlt. apply list_elem_of_lookup. exists k. apply lookup_zip_with_Some. exists e, v.
    split_and!; [done|by apply lookup_take_Some|by apply lookup_take_Some].
Qed.

(** One iteration publishes the next change or finds it published. *)
Lemma publish_change_step m s v s' k : published J0 ids changes m s → (k <= m)%nat → changes !! k = Some v →
  publish_change now s tx (Z.of_nat k) v = Ok s' →
  published J0 ids changes (Nat.max m (S k)) s'.
Proof.
  intros Hinv Hkm Hv H. unfold publish_change in H. destruct (event_ids_nth _ _ _ _ _ _ ids_of Hv) as (e & He & Hd).
  rewrite Z.add_0_l in Hd. rewrite Hd in H. cbn [mbind res_bind] in H. bind H as c Hc. bind H as [r s2] Hp. injection H as ->.
  assert (He0 := digest_nonempty _ _ Hd). destruct (elem_events k e v m He Hv) as [Hin Hmem].
  assert (∃ J, journal s JOURNAL = Ok J) as [J HJ].
  { unfold publish in Hp. bind Hp as ? _. bind Hp as [] _. bind Hp as ? _. bind Hp as ? _. do 4 bind Hp as [] _. bind Hp as ? _.
    rewrite (proj2 (String.eqb_neq _ _) He0) in Hp. bind Hp as prior Hpr. bind Hpr as J HJ. eauto. }
  destruct (Hinv J HJ) as (rows & -> & Hrows). pose proof (announced_ids _ _ Hrows e) as Hann.
  assert (Hsplit : List.filter (has_event e) (J0 ++ rows) = [] ↔ List.filter (has_event e) J0 = [] ∧ List.filter (has_event e) rows = []).
  { rewrite List.filter_app. split; [apply app_eq_nil|by intros [-> ->]]. }
  destruct (decide (k < m)%nat) as [Hlt|Hge].
  - replace (Nat.max m (S k)) with m by lia. destruct (publish_rows _ _ _ _ _ _ He0 Hp HJ) as [[_ ->]|[Hf _]]; [done|].
    exfalso. apply Hsplit in Hf as [H0 Hr]. apply Hann in Hr. apply Hr, list_elem_of_fmap. exists (e, v). split; [done|].
    apply elem_unannounced. split; [by apply Hmem|done].
  - assert (m = k) as -> by lia. replace (Nat.max k (S k)) with (S k) by lia.
    assert (Hr : List.filter (has_event e) rows = []).
    { apply Hann. intros ([i w] & -> & Hi)%list_elem_of_fmap. apply elem_unannounced in Hi as [Hi _]. simpl in *.
      assert (i ∈ (zip (take k ids) (take k changes)).*1) as Hi' by (apply list_elem_of_fmap; by exists (i, w)).
      apply Hin in Hi'. lia. }
    unfold published. rewrite (zip_next _ _ _ He Hv). unfold unannounced. rewrite List.filter_app. cbn [List.filter fst].
    destruct (publish_rows _ _ _ _ _ _ He0 Hp HJ) as [[Hf ->]|[Hf Hnew]].
    + rewrite bool_decide_eq_false_2 by tauto. rewrite app_nil_r. exact Hinv.
    + rewrite bool_decide_eq_true_2 by tauto. intros J' HJ'. destruct (Hnew J' HJ') as (row & -> & R1 & R2 & R3 & R4).
      exists (rows ++ [row]). split; [by rewrite app_assoc|]. apply Forall2_app; [done|]. constructor; [|constructor].
      unfold keywords in Hc. bind Hc as [] _. bind Hc as kd Hkd. bind Hc as idn Hidn. injection Hc as <-.
      apply get_or_Ok in Hkd, Hidn. cbn [fst snd]. split_and!; [done|by rewrite R2, Hkd|by rewrite R3, Hidn|done].
Qed.

Lemma publish_all_inv k rest m s : published J0 ids changes m s → (k <= m <= length changes)%nat → 
  drop k changes = rest ∨ (∃ n, rest = take n (drop k changes)) →
  ∃ m', (m' <= length changes)%nat ∧ published J0 ids changes m' (publish_all now s tx (Z.of_nat k) rest).1 ∧
    ((publish_all now s tx (Z.of_nat k) rest).2 = Ok () → (k + length rest <= m')%nat).
Proof.
  intros Hinv Hk Hrest. assert (∃ n, rest = take n (drop k changes)) as [n ->].
  { destruct Hrest as [<-|?]; [|done]. exists (length (drop k changes)). by rewrite take_ge. }
  clear Hrest. revert k m s Hinv Hk. induction n as [|n IH]; intros k m s Hinv Hk.
  { exists m. split_and!; [lia|done|simpl; lia]. }
  destruct (changes !! k) as [v|] eqn:Hv.
  - rewrite (drop_S _ _ _ Hv). cbn [take publish_all length]. pose proof (lookup_lt_Some _ _ _ Hv).
    destruct (publish_change now s tx (Z.of_nat k) v) as [s'|er] eqn:E.
    + pose proof (publish_change_step _ _ _ _ _ Hinv (proj1 Hk) Hv E) as Hinv'.
      replace (Z.of_nat k + 1) with (Z.of_nat (S k)) by lia.
      destruct (IH (S k) (Nat.max m (S k)) s' Hinv' ltac:(lia)) as (m' & ? & ? & Hok). exists m'.
      split_and!; [done|done|]. intros Hr. specialize (Hok Hr). lia.
    + exists m. split_and!; [lia|done|done].
  - apply lookup_ge_None in Hv. rewrite drop_ge by done. simpl. exists m. split_and!; [lia|done|simpl; lia].
Qed.

Lemma attempts_inv ks m s : published J0 ids changes m s → (m <= length changes)%nat →
  ∃ m', (m' <= length changes)%nat ∧ published J0 ids changes m' (attempts s tx changes ks).
Proof.
  revert m s. induction ks as [|k ks IH]; intros m s Hinv Hm; [by exists m|]. simpl.
  destruct (publish_all_inv 0 (take k changes) m s Hinv ltac:(lia)) as (m' & ? & ? & _); [right; by exists k|].
  by eapply IH.
Qed.
End loop.

(** What [stage] leaves: the intent, signed, with the hashes of both states
    and its own commitment. *)
Definition intent_of (namespace b a : string) (changes : list json) : json :=
  JObj [("type", JStr "unimem.canonical-change-intent"); ("namespace", JStr namespace);
        ("before", JStr b); ("after", JStr a); ("changes", JList changes)]%string.
(** The changes of a transaction, its identity and the hashes of its states. *)
Definition transaction_of (namespace : string) (before after : snap) (changes : list json) (tx b a : string) : Prop :=
  changes_of namespace before after = Ok changes ∧ state_hash before = Ok b ∧ state_hash after = Ok a ∧
  digest (intent_of namespace b a changes) = Ok tx.
Record staged (st : @stream St) (namespace : string) (before after : snap) (changes : list json) (tx b a : string)
    (st1 : @stream St) : Prop := {
  st_before : state_hash before = Ok b;
  st_after : state_hash after = Ok a;
  st_file : ∃ signed, assoc namespace (intents st1) = Some signed ∧
    jget "record" signed = Some (jset "transaction" (JStr tx) (intent_of namespace b a changes));
  st_log : ∀ l, journal (s_log st) JOURNAL = Ok l → journal (s_log st1) JOURNAL = Ok l;
}.

Lemma stage_staged (st : @stream St) namespace before after st1 changes tx b a : sound (s_log st) →
  stage st namespace before after = Ok (true, st1) → transaction_of namespace before after changes tx b a →
  staged st namespace before after changes tx b a st1.
Proof.
  intros Hs H (Hc & Hb & Ha & Htx). unfold stage in H. rewrite Hc in H. cbn [mbind res_bind] in H.
  case_bool_decide as Hne; [by injection H|].
  bind H as [] _. bind H as [] _. rewrite Hb, Ha in H. cbn [mbind res_bind] in H. cbv zeta in H.
  change (JObj [("type", _); ("namespace", _); _; _; _]%string) with (intent_of namespace b a changes) in H.
  rewrite Htx in H. cbn [mbind res_bind] in H.
  bind H as [signed log] Hsign. bind H as w _. injection H as <-.
  destruct (sign_sound _ _ _ _ Hs Hsign) as (_ & _ & Hrec). split; try done.
  - exists signed. split; [|done]. simpl. apply assoc_set_same.
  - intros l Hl. simpl. by eapply sign_journal.
Qed.

Lemma intent_staged st namespace before after changes tx b a (st1 st2 : @stream St) intent :
  staged st namespace before after changes tx b a st1 → intents st2 = intents st1 →
  _intent st2 namespace = Ok (Some intent) →
  intent = jset "transaction" (JStr tx) (intent_of namespace b a changes) ∧ Z.of_nat (length changes) <= 2048.
Proof.
  intros [_ _ (signed & Hf & Hrec) _] Heq H. unfold _intent in H. bind H as [] _. rewrite Heq, Hf in H.
  bind H as [] _. bind H as ok _. bind H as [] _. bind H as value Hv. rewrite (item_Ok _ _ _ Hrec) in Hv. injection Hv as <-.
  bind H as [] _. bind H as [] _. bind H as [] _. bind H as d _. bind H as [] _. bind H as cs Hcs. bind H as n Hn. injection H as <-.
  injection Hcs as <-. unfold count in Hn. bind Hn as [] Hr%require_Ok. split; [done|lia].
Qed.

Lemma st_filed st namespace before after changes tx b a (st1 : @stream St) :
  staged st namespace before after changes tx b a st1 → is_Some (assoc namespace (intents st1)).
Proof. intros H. destruct (st_file _ _ _ _ _ _ _ _ _ H) as (signed & -> & _). by eexists. Qed.

(** What a recovery does with a staged intent. *)
Lemma recover_staged namespace before after changes tx b a st (st1 st2 : @stream St) current h st3 r :
  staged st namespace before after changes tx b a st1 → intents st2 = intents st1 → a ≠ b →
  state_hash current = Ok h → recover now st2 namespace current = (st3, r) →
  (r ≠ Ok () ∧ st3 = st2) ∨
  (h = a ∧ let '(log, r') := publish_all now (s_log st2) (JStr tx) 0 changes in s_log st3 = log ∧
     (r' = Ok () ∧ r = Ok () ∧ intents st3 = assoc_del namespace (intents st2) ∨ r' ≠ Ok () ∧ r ≠ Ok () ∧ intents st3 = intents st2)) ∨
  (h = b ∧ r = Ok () ∧ st3 = Stream (s_log st2) (assoc_del namespace (intents st2))).
Proof.
  intros HS Heq Hne Hh H. unfold recover in H. destruct (_intent st2 namespace) as [[intent|]|e] eqn:Ei; [| |injection H as <- <-; by left].
  - destruct (intent_staged _ _ _ _ _ _ _ _ _ st2 _ HS Heq Ei) as [-> _]. rewrite Hh in H. cbn [mbind res_bind] in H.
    change (str_of "after" _) with (@Ok pyexn _ a) in H. change (str_of "before" _) with (@Ok pyexn _ b) in H. cbn [mbind res_bind] in H.
    destruct (String.eqb_spec h a) as [->|Hna].
    + right. left. split; [done|]. unfold complete in H. rewrite Ei in H. unfold complete_intent in H.
      change (list_of "changes" _) with (@Ok pyexn _ changes) in H. change (item "transaction" _) with (@Ok pyexn _ (JStr tx)) in H.
      cbn iota in H. destruct (publish_all now (s_log st2) (JStr tx) 0 changes) as [log [[]|e]].
      * injection H as <- <-. split; [done|by left].
      * split; [by destruct (publication_pending e); injection H as <- <-|right].
        destruct (publication_pending e); injection H as <- <-; done.
    + destruct (String.eqb_spec h b) as [->|]; injection H as <- <-; [right; right|left]; done.
  - exfalso. destruct (st_filed _ _ _ _ _ _ _ _ _ HS) as [signed Hsome]. rewrite <- Heq in Hsome. unfold _intent in Ei.
    bind Ei as [] _. rewrite Hsome in Ei. bind Ei as [] _. bind Ei as ? _. bind Ei as [] _.
    bind Ei as ? _. do 3 bind Ei as [] _. bind Ei as ? _. bind Ei as [] _. bind Ei as ? _. bind Ei as ? _. done.
Qed.

(** C39: no event of a transaction is announced twice, in the wrong order, or
    without its commit, whatever a crash leaves behind.  Let a transaction be
    staged whose states and whose events have distinct digests, its canonical
    state commit or not, [complete] stop anywhere any number of times if it
    committed, and a recovery run.  If it did not commit,
    the journal is as it was.  If it did, the journal is followed by one row,
    in order, for each of the first changes whose event it did not have before
    (the events of a transition that repeats an earlier one are in it
    already): for all of them when the recovery succeeds, and then the intent
    is gone; for as many as were published when it fails, and then the intent
    stays for the next.  (A recovery of over 2048 changes always fails:
    [oversized_outbox_stuck].) *)
Theorem outbox_exactly_once (st : @stream St) namespace before after st1 changes tx b a ids J0 (committed : bool) ks st3 r J3 :
  sound (s_log st) → journal (s_log st) JOURNAL = Ok J0 →
  stage st namespace before after = Ok (true, st1) → transaction_of namespace before after changes tx b a → a ≠ b →
  event_ids (JStr tx) 0 changes = Ok ids → NoDup ids → (committed = false → ks = []) →
  recover now (Stream (attempts (s_log st1) (JStr tx) changes ks) (intents st1)) namespace
    (if committed then after else before) = (st3, r) →
  journal (s_log st3) JOURNAL = Ok J3 →
  ∃ m rows, J3 = J0 ++ rows ∧
    Forall2 (λ ev row, announces ev.1 ev.2 row) (unannounced J0 (zip (take m ids) (take m changes))) rows ∧
    (committed = false → m = 0%nat) ∧
    (r = Ok () → assoc namespace (intents st3) = None ∧ (committed = true → (length changes <= m)%nat)) ∧
    (r ≠ Ok () → intents st3 = intents st1).
Proof.
  intros Hs HJ0 Hstage HT Hne Hids Hnd Hks Hrec HJ3. pose proof (stage_staged _ _ _ _ _ _ _ _ _ Hs Hstage HT) as HS.
  assert (H0 : published J0 ids changes 0 (s_log st1)).
  { intros J HJ. rewrite (st_log _ _ _ _ _ _ _ _ _ HS _ HJ0) in HJ. injection HJ as <-. exists []. rewrite app_nil_r. by split; [|constructor]. }
  destruct (attempts_inv J0 (JStr tx) changes ids Hids Hnd ks 0 _ H0 ltac:(lia)) as (m & Hm & Hpub).
  assert (∃ m, (m <= length changes)%nat ∧ published J0 ids changes m (attempts (s_log st1) (JStr tx) changes ks) ∧
    (committed = false → m = 0%nat)) as (m1 & Hm1 & Hpub1 & Hz).
  { destruct committed; [by exists m|]. rewrite Hks by done. exists 0%nat. split_and!; [lia|exact H0|done]. }
  clear m Hm Hpub. set (st2 := Stream (attempts (s_log st1) (JStr tx) changes ks) (intents st1)) in *.
  assert (state_hash (if committed then after else before) = Ok (if committed then a else b)) as Hh.
  { destruct committed; [exact (st_after _ _ _ _ _ _ _ _ _ HS)|exact (st_before _ _ _ _ _ _ _ _ _ HS)]. }
  assert (Hend : ∀ m, published J0 ids changes m (s_log st3) → ∃ rows, J3 = J0 ++ rows ∧
    Forall2 (λ ev row, announces ev.1 ev.2 row) (unannounced J0 (zip (take m ids) (take m changes))) rows) by (intros m Hp; by apply Hp).
  destruct (recover_staged _ _ _ _ _ _ _ _ _ st2 _ _ _ _ HS eq_refl Hne Hh Hrec) as [[Hr ->]|[[Ha H]|(Hb & -> & ->)]].
  - destruct (Hend m1 Hpub1) as (rows & ? & ?). by exists m1, rows.
  - assert (committed = true) as -> by (destruct committed; [done|congruence]).
    destruct (publish_all_inv J0 (JStr tx) changes ids Hids Hnd 0 changes m1 (s_log st2) Hpub1 ltac:(lia)) as (m' & _ & Hpub' & Hfull); [by left|].
    change (Z.of_nat 0) with 0 in *. destruct (publish_all now (s_log st2) (JStr tx) 0 changes) as [log r']. simpl in Hpub', Hfull.
    destruct H as [<- [(-> & -> & Hi)|(_ & Hr & Hi)]]; destruct (Hend m' Hpub') as (rows & ? & ?); exists m', rows; split_and!; try done.
    intros _. split; [rewrite Hi; apply assoc_del_same|]. intros _. specialize (Hfull eq_refl). lia.
  - assert (committed = false) as -> by (destruct committed; [congruence|done]).
    destruct (Hend m1 Hpub1) as (rows & ? & ?). exists m1, rows. split_and!; try done. intros _. split; [apply assoc_del_same|done].
Qed.

Lemma publish_all_known J0 tx i changes ids s : event_ids tx i changes = Ok ids → journal s JOURNAL = Ok J0 →
  (∀ e, e ∈ ids → List.filter (has_event e) J0 ≠ []) → (publish_all now s tx i changes).1 = s.
Proof.
  revert i ids. induction changes as [|v changes IH]; intros i ids H HJ Hall; [done|]. cbn [event_ids] in H.
  bind H as e He. bind H as es Hes. injection H as <-. cbn [publish_all].
  destruct (publish_change now s tx i v) as [s'|er] eqn:E; [|done].
  unfold publish_change in E. rewrite He in E. cbn [mbind res_bind] in E. bind E as c _. bind E as [r s2] Hp. injection E as ->.
  destruct (publish_rows _ _ _ _ _ _ (digest_nonempty _ _ He) Hp HJ) as [[_ ->]|[Hf _]].
  - eapply IH; [exact Hes|done|]. intros e' He'. apply Hall. by right.
  - exfalso. apply (Hall e); [left|done].
Qed.

(** a transition from and to states the namespace went through before has
    the same event identities as the first time: its completion reports
    success and announces nothing. *)
Theorem repeated_transition_unannounced (st : @stream St) namespace before after st1 changes tx b a ids J0 st3 :
  sound (s_log st) → journal (s_log st) JOURNAL = Ok J0 →
  stage st namespace before after = Ok (true, st1) → transaction_of namespace before after changes tx b a →
  event_ids (JStr tx) 0 changes = Ok ids → (∀ e, e ∈ ids → List.filter (has_event e) J0 ≠ []) →
  complete now st1 namespace = (st3, Ok true) → changes ≠ [] ∧ journal (s_log st3) JOURNAL = Ok J0.
Proof.
  intros Hs HJ0 Hstage HT Hids Hall Hc. pose proof (stage_staged _ _ _ _ _ _ _ _ _ Hs Hstage HT) as HS. split.
  { destruct HT as (Hch & _). unfold stage in Hstage. rewrite Hch in Hstage. cbn [mbind res_bind] in Hstage. by case_bool_decide; [injection Hstage|]. }
  pose proof (st_log _ _ _ _ _ _ _ _ _ HS _ HJ0) as HJ1. unfold complete in Hc.
  destruct (_intent st1 namespace) as [[intent|]|e] eqn:Ei; [|by injection Hc as <-|by destruct (publication_pending e)].
  destruct (intent_staged _ _ _ _ _ _ _ _ _ st1 _ HS eq_refl Ei) as [-> _]. unfold complete_intent in Hc.
  change (list_of "changes" _) with (@Ok pyexn _ changes) in Hc. change (item "transaction" _) with (@Ok pyexn _ (JStr tx)) in Hc.
  cbn iota in Hc. pose proof (publish_all_known _ _ _ _ _ _ Hids HJ1 Hall) as Hsame.
  destruct (publish_all now (s_log st1) (JStr tx) 0 changes) as [log r]. simpl in Hsame. subst log.
  destruct r as [[]|e]; [by injection Hc as <-|by destruct (publication_pending e)].
Qed.

(** A transaction of more than 2048 changes is staged, and from then on
    neither published nor recovered. *)
Lemma oversized_outbox_stuck (st : @stream St) namespace before after st1 changes tx b a current : sound (s_log st) →
  stage st namespace before after = Ok (true, st1) → transaction_of namespace before after changes tx b a →
  2048 < Z.of_nat (length changes) →
  intents (complete now st1 namespace).1 = intents st1 ∧ (complete now st1 namespace).2 ≠ Ok true ∧
  (recover now st1 namespace current).2 ≠ Ok ().
Proof.
  intros Hs Hstage HT Hlen. pose proof (stage_staged _ _ _ _ _ _ _ _ _ Hs Hstage HT) as HS.
  unfold complete, recover. destruct (_intent st1 namespace) as [[intent|]|e] eqn:Ei.
  - destruct (intent_staged _ _ _ _ _ _ _ _ _ st1 _ HS eq_refl Ei) as [_ Hle]. lia.
  - exfalso. destruct (st_filed _ _ _ _ _ _ _ _ _ HS) as [signed Hsome].
    unfold _intent in Ei. bind Ei as [] _. rewrite Hsome in Ei. bind Ei as [] _. bind Ei as ? _. bind Ei as [] _.
    bind Ei as ? _. do 3 bind Ei as [] _. bind Ei as ? _. bind Ei as [] _. bind Ei as ? _. bind Ei as ? _. done.
  - simpl. split_and!; [done| |done]. by destruct (publication_pending e).
Qed.
End outbox.

(** ** Witness: a lesson retired, reactivated and retired again *)

#[local] Existing Instances memory_ledger memory_ledger_laws memory_sealed memory_sealed_laws.

Definition demo_lesson (status : string) : snap :=
  [("l"%string, JObj [("scopes", JList []); ("revision", JStr "r1"); ("status", JStr status);
                      ("forgotten", JBool false); ("content_hash", JStr status); ("predicate", JStr "")])]%string.
Definition demo_now : string := "2025-01-01T00:00:00+00:00".
(** Stage, commit and complete. *)
Definition demo_run (st : @stream memory) (before after : snap) : @stream memory :=
  (complete demo_now (ok_or (true, st) (stage st "lessons" before after)).2 "lessons").1.
Definition demo_start : @stream memory := Stream [] [].
Definition demo_once : @stream memory := demo_run demo_start (demo_lesson "active") (demo_lesson "retired").
Definition demo_back : @stream memory := demo_run demo_once (demo_lesson "retired") (demo_lesson "active").
Definition demo_staged (st : @stream memory) : @stream memory :=
  (ok_or (true, st) (stage st "lessons" (demo_lesson "active") (demo_lesson "retired"))).2.

Definition demo_changes : list json := ok_or [] (changes_of "lessons" (demo_lesson "active") (demo_lesson "retired")).
Definition demo_hash (status : string) : string := ok_or ""%string (state_hash (demo_lesson status)).
Definition demo_tx : string := ok_or ""%string (digest (intent_of "lessons" (demo_hash "active") (demo_hash "retired") demo_changes)).
Definition demo_ids : list string := ok_or [] (event_ids (JStr demo_tx) 0 demo_changes).
Example demo_announced : map (jget "kind") (ok_or [] (journal (s_log demo_back) JOURNAL)) = [Some (JStr "retract"); Some (JStr "assert")]%string.
Proof. vm_compute. reflexivity. Qed.

Lemma demo_transaction : transaction_of "lessons" (demo_lesson "active") (demo_lesson "retired") demo_changes demo_tx
  (demo_hash "active") (demo_hash "retired").
Proof.
  unfold transaction_of, demo_tx, demo_changes, demo_hash. split_and!; apply is_ok_or; vm_compute; reflexivity.
Qed.
Lemma demo_event_ids : event_ids (JStr demo_tx) 0 demo_changes = Ok demo_ids.
Proof. unfold demo_ids. apply is_ok_or. vm_compute. reflexivity. Qed.
Lemma demo_ids_one : ∃ e, demo_ids = [e].
Proof.
  assert (length demo_ids = 1%nat) as H by (vm_compute; reflexivity). revert H. generalize demo_ids. intros [|e [|? ?]] H; try discriminate H.
  by exists e.
Qed.
Lemma demo_stage_Ok (st : @stream memory) : is_ok (stage st "lessons" (demo_lesson "active") (demo_lesson "retired")) = true →
  (ok_or (true, st) (stage st "lessons" (demo_lesson "active") (demo_lesson "retired"))).1 = true →
  stage st "lessons" (demo_lesson "active") (demo_lesson "retired") = Ok (true, demo_staged st).
Proof.
  unfold demo_staged. destruct (stage st _ _ _) as [[r st']|]; [|discriminate]. simpl. by intros _ ->.
Qed.

Lemma memory_sound (s : memory) : sound s.
Proof. exact I. Qed.

Definition demo_crashed : @stream memory :=
  let st := demo_staged demo_start in Stream (attempts demo_now (s_log st) (JStr demo_tx) demo_changes [1; 0; 1]%nat) (intents st).
Definition demo_recovered : @stream memory := (recover demo_now demo_crashed "lessons" (demo_lesson "retired")).1.

Lemma outbox_exactly_once_witness : ∃ m rows, journal (s_log demo_recovered) JOURNAL = Ok rows ∧
  Forall2 (λ ev row, announces ev.1 ev.2 row) (unannounced [] (zip (take m demo_ids) (take m demo_changes))) rows ∧
  (length demo_changes <= m)%nat ∧ assoc "lessons" (intents demo_recovered) = None.
Proof.
  destruct (outbox_exactly_once demo_now demo_start "lessons" (demo_lesson "active") (demo_lesson "retired") (demo_staged demo_start)
    demo_changes demo_tx (demo_hash "active") (demo_hash "retired") demo_ids [] true [1; 0; 1]%nat demo_recovered (Ok ())
    (mem_records (s_log demo_recovered) JOURNAL) (memory_sound _) eq_refl) as (m & rows & E & Hr & _ & Hok & _).
  - apply demo_stage_Ok; vm_compute; reflexivity.
  - exact demo_transaction.
  - apply String.eqb_neq. vm_compute. reflexivity.
  - exact demo_event_ids.
  - destruct demo_ids_one as [e ->]. apply NoDup_singleton.
  - discriminate.
  - change (Stream _ _) with demo_crashed. unfold demo_recovered.
    assert (Hr : bool_decide ((recover demo_now demo_crashed "lessons" (demo_lesson "retired")).2 = Ok ()) = true) by (vm_compute; reflexivity).
    apply bool_decide_eq_true in Hr. destruct (recover demo_now demo_crashed "lessons" (demo_lesson "retired")) as [st3 r].
    cbn [fst snd] in *. by subst r.
  - reflexivity.
  - destruct (Hok eq_refl) as [Hi Hm]. exists m, rows. split; [|exact (conj Hr (conj (Hm eq_refl) Hi))].
    change (Ok (mem_records (s_log demo_recovered) JOURNAL) = Ok rows (E := pyexn)). by rewrite E.
Defined.

Lemma repeated_transition_witness : ∃ st3, complete demo_now (demo_staged demo_back) "lessons" = (st3, Ok true) ∧
  demo_changes ≠ [] ∧ journal (s_log st3) JOURNAL = journal (s_log demo_back) JOURNAL.
Proof.
  assert (Hc : bool_decide ((complete demo_now (demo_staged demo_back) "lessons").2 = Ok true) = true) by (vm_compute; reflexivity).
  apply bool_decide_eq_true in Hc. destruct (complete demo_now (demo_staged demo_back) "lessons") as [st3 r] eqn:E.
  simpl in Hc. subst r. exists st3. split; [reflexivity|].
  apply (repeated_transition_unannounced demo_now demo_back "lessons" (demo_lesson "active") (demo_lesson "retired")
    (demo_staged demo_back) demo_changes demo_tx (demo_hash "active") (demo_hash "retired") demo_ids
    (mem_records (s_log demo_back) JOURNAL) st3 (memory_sound _) eq_refl).
  - apply demo_stage_Ok; vm_compute; reflexivity.
  - exact demo_transaction.
  - exact demo_event_ids.
  - assert (Hall : forallb (λ e, negb (bool_decide (List.filter (has_event e) (mem_records (s_log demo_back) JOURNAL) = []))) demo_ids = true)
      by (vm_compute; reflexivity).
    intros e He%list_elem_of_In. rewrite forallb_forall in Hall. apply Hall in He. by apply negb_true_iff, bool_decide_eq_false in He.
  - exact E.
Defined.
