(* ===== verification/KvCapsules.v ===== *)
(** * Key/value capsules ([unimem/kv_capsules.py])

    Opaque model data of a memory, held in several pools under a key bound to
    the tenant, the memory's content and the model; a signed journal says
    which capsules are active.  The reference pools are modelled from the
    source; registered adapters are an instance of the same class.  Whether a
    memory is admitted, its statement and the tenant's secret are inputs.
    [register_pool] and [register_compressor] fill process tables at start-up
    and are left out. *)

From S2P Require Import Prelude Sha256 Base64 Wire Origin Merkle Journal Strings Number Ledger Seal Vda Lineage ChangeStream.
Local Open Scope Z_scope.

Definition INDEX : string := "kv-capsules.jsonl".
Definition MAX_KV_BYTES : Z := 64 * 1024 * 1024.

(** ** Pools *)

(** [put], [get] and [delete] of the pool of a name; an operation that raises
    may have had an effect. *)
Class Pools (P : Type) := {
  installed : P → string → bool;
  pool_put : P → string → string → string → P * res pyexn ();
  pool_get : P → string → string → res pyexn string;
  pool_delete : P → string → string → P * res pyexn ();
}.

(** What a pool promises: it returns what was put last, nothing after a
    deletion, and the pools and keys are independent. *)
Class PoolLaws (P : Type) `{Pools P} := {
  put_get : ∀ p n k v p', pool_put p n k v = (p', Ok ()) → pool_get p' n k = Ok v;
  put_other : ∀ p n k v p' r m j, pool_put p n k v = (p', r) → (m, j) ≠ (n, k) → pool_get p' m j = pool_get p m j;
  delete_get : ∀ p n k p', pool_delete p n k = (p', Ok ()) → is_ok (pool_get p' n k) = false;
  delete_other : ∀ p n k p' r m j, pool_delete p n k = (p', r) → (m, j) ≠ (n, k) → pool_get p' m j = pool_get p m j;
}.

(** *** [MemoryPool] and [DiskPool] *)

Module MemoryPool.
Definition values := list (string * string).
Definition put (m : values) (key value : string) : values := assoc_set key value m.
Definition get (m : values) (key : string) : res pyexn string := get_or (assoc key m) KeyError.
Definition delete (m : values) (key : string) : values := assoc_del key m.
End MemoryPool.

Module DiskPool.
(** The files of the pool's directory by key. *)
Definition files := list (string * string).
Definition _path (key : string) : res pyexn () := require (is_hash key) ValueError.
Definition put (d : files) (key value : string) : files * res pyexn () :=
    if byte_len value <=? MAX_KV_BYTES then
      match _path key with Ok _ => (assoc_set key value d, Ok ()) | Err e => (d, Err e) end
    else (d, Err ValueError).
Definition get (d : files) (key : string) : res pyexn string :=
    _path key;;
    value ← get_or (assoc key d) FileNotFoundError;
    require (byte_len value <=? MAX_KV_BYTES) ValueError;; Ok value.
Definition delete (d : files) (key : string) : files * res pyexn () :=
    match _path key with Ok _ => (assoc_del key d, Ok ()) | Err e => (d, Err e) end.
End DiskPool.

(** The two reference pools under their names. *)
Record reference_pools := ReferencePools { memory_pool : MemoryPool.values; disk_pool : DiskPool.files }.
#[local] Instance reference_pools_ops : Pools reference_pools := {
  installed _ n := String.eqb n "memory" || String.eqb n "disk";
  pool_put p n k v :=
    if String.eqb n "disk" then let '(d, r) := DiskPool.put (disk_pool p) k v in (ReferencePools (memory_pool p) d, r)
    else if String.eqb n "memory" then (ReferencePools (MemoryPool.put (memory_pool p) k v) (disk_pool p), Ok ())
    else (p, Err KeyError);
  pool_get p n k :=
    if String.eqb n "disk" then DiskPool.get (disk_pool p) k
    else if String.eqb n "memory" then MemoryPool.get (memory_pool p) k else Err KeyError;
  pool_delete p n k :=
    if String.eqb n "disk" then let '(d, r) := DiskPool.delete (disk_pool p) k in (ReferencePools (memory_pool p) d, r)
    else if String.eqb n "memory" then (ReferencePools (MemoryPool.delete (memory_pool p) k) (disk_pool p), Ok ())
    else (p, Err KeyError);
}.

(** ** Compressors *)

Record compressor := Compressor { compress : string → string; decompress : string → string }.
Module IdentityCompression.
Definition compress (value : string) : string := value.
Definition decompress (value : string) : string := value.
End IdentityCompression.
Definition identity : compressor := Compressor IdentityCompression.compress IdentityCompression.decompress.

(** ** Capsules *)

Section capsules.
Context {St P} `{LG : Ledger St} `{SL : !Sealed St} `{PO : Pools P}.
Variable compressors : list (string * compressor).
(** The tenant's secret, when it is initialized. *)
Variable secret : option string.
Variable now : string.

Record capsules := Capsules { log : St; pools : P }.

Definition _model (value : string) : res pyexn string := require (is_hash value) ValueError;; Ok value.

Definition _tenant_key (source_hash model : string) : res pyexn string :=
  s ← get_or secret PermissionError;
  a ← get_or (unhex source_hash) ValueError; b ← get_or (unhex model) ValueError;
  Ok (hmac_hex s (String.append "unimem-kv-capsule-v1" (String "000" (String.append a b)))).

(** The hash of the admitted statement. *)
Definition _source (statement : option string) : res pyexn string :=
  s ← get_or statement PermissionError; Ok (sha256_hex s).

Definition is_id (key : string) (row : json) : bool := bool_decide (jget "id" row = Some (JStr key)).
Definition is_status (st : string) (row : json) : bool := bool_decide (jget "status" row = Some (JStr st)).
Definition of_memory (memory_id : string) (row : json) : bool := bool_decide (jget "memory_id" row = Some (JStr memory_id)).

(** The loop over the tiers; a failure leaves the completed ones for the
    rollback. *)
Fixpoint put_all (p : P) (key value : string) (names completed : list string) : P * res (list string) () :=
  match names with
  | [] => (p, Ok ())
  | n :: rest =>
      match pool_put p n key value with
      | (p, Ok _) => put_all p key value rest (completed ++ [n])
      | (p, Err _) => (p, Err completed)
      end
  end.
Definition roll_back (p : P) (key : string) (completed : list string) : P :=
  foldl (λ p n, (pool_delete p n key).1) p (rev completed).

Definition below (a b : json) : bool :=
  match num_value a, num_value b with Some x, Some y => dec_ltb x y | _, _ => false end.

Definition build (c : capsules) (memory_id model_fingerprint kv_bytes : string) (promotion_score promotion_threshold : json)
    (tiers : list string) (compressor_name : string) (statement : option string) : capsules * res pyexn json :=
  match (model ← _model model_fingerprint;
         score ← number promotion_score 0 1;
         threshold ← number promotion_threshold 0 1;
         require (negb (below score threshold)) PermissionError;;
         require (negb (String.eqb kv_bytes "") && (byte_len kv_bytes <=? MAX_KV_BYTES)) ValueError;;
         ts ← mapR (λ n, text n 64) tiers;
         let names := sorted_set ts in
         _ ← count (Z.of_nat (length names)) 1 16;
         require (forallb (λ n, installed (pools c) n || String.eqb n "disk") names) ValueError;;
         comp ← get_or (assoc compressor_name compressors) ValueError;
         source_hash ← _source statement;
         key ← _tenant_key source_hash model;
         let compressed := compress comp kv_bytes in
         require (byte_len compressed <=? MAX_KV_BYTES) ValueError;;
         let record := JObj [("id", JStr key); ("memory_id", JStr memory_id); ("memory_hash", JStr source_hash);
                             ("model_fingerprint", JStr model); ("kv_digest", JStr (sha256_hex compressed));
                             ("kv_bytes", JInt (byte_len compressed)); ("tiers", JList (map JStr names));
                             ("compressor", JStr compressor_name); ("promotion_score", score);
                             ("promotion_threshold", threshold); ("status", JStr "active")]%string in
         rows ← journal (log c) INDEX;
         Ok (key, names, compressed, record, List.filter (λ r, is_id key r && is_status "active" r) rows))
  with
  | Err e => (c, Err e)
  | Ok (key, names, compressed, record, prior) =>
      match last prior with
      | Some p => (c, if py_eqb p record then Ok p else Err ValueError)
      | None =>
          match put_all (pools c) key compressed names [] with
          | (ps, Err completed) => (Capsules (log c) (roll_back ps key completed), Err RuntimeError)
          | (ps, Ok _) =>
              match append (log c) INDEX record with
              | Err e => (Capsules (log c) ps, Err e)
              | Ok (signed, l) => (Capsules l ps, item "record" signed)
              end
          end
      end
  end.

(** The first tier that holds the capsule's bytes. *)
Fixpoint first_tier (p : P) (key : string) (kv_digest : json) (comp : json) (names : list json) : res pyexn string :=
  match names with
  | [] => Err FileNotFoundError
  | n :: rest =>
      match (name ← match n with JStr s => Ok s | _ => Err TypeError end;
             compressed ← pool_get p name key;
             require (bool_decide (kv_digest = JStr (sha256_hex compressed))) ValueError;;
             name ← match comp with JStr s => Ok s | _ => Err TypeError end;
             d ← get_or (assoc name compressors) KeyError; Ok (decompress d compressed)) with
      | Ok v => Ok v
      | Err _ => first_tier p key kv_digest comp rest
      end
  end.

Definition get (c : capsules) (memory_id model_fingerprint : string) (statement : option string) : res pyexn string :=
  model ← _model model_fingerprint;
  source_hash ← _source statement;
  key ← _tenant_key source_hash model;
  rows ← journal (log c) INDEX;
  record ← get_or (last (List.filter (is_id key) rows)) KeyError;
  require (is_status "active" record) KeyError;;
  h ← item "memory_hash" record; m ← item "model_fingerprint" record;
  require (bool_decide (h = JStr source_hash) && bool_decide (m = JStr model)) PermissionError;;
  names ← list_of "tiers" record; kv_digest ← item "kv_digest" record; comp ← item "compressor" record;
  first_tier (pools c) key kv_digest comp names.

(** ** Eviction *)

(** One capsule out of its tiers: those it was removed from and those that
    failed. *)
Fixpoint delete_all (p : P) (key : string) (names : list string) : P * list string * list string :=
  match names with
  | [] => (p, [], [])
  | n :: rest =>
      let '(p, r) := pool_delete p n key in
      let '(p, removed, failed) := delete_all p key rest in
      match r with Ok _ => (p, n :: removed, failed) | Err _ => (p, removed, n :: failed) end
  end.
Definition tier_names (record : json) : res pyexn (list string) :=
  l ← list_of "tiers" record; mapR (λ n, match n with JStr s => Ok s | _ => Err TypeError end) l.

(** The loop over the matching records; [Err] keeps the state reached. *)
Fixpoint evict_rows (c : capsules) (reason : string) (matches : list json) (removed failed tiers : list string) :
    capsules * res pyexn (list string * list string * list string) :=
  match matches with
  | [] => (c, Ok (removed, failed, tiers))
  | record :: rest =>
      match (key ← str_of "id" record; names ← tier_names record; Ok (key, names)) with
      | Err e => (c, Err e)
      | Ok (key, names) =>
          let '(p, gone, lost) := delete_all (pools c) key names in
          let next l := evict_rows (Capsules l p) reason rest (removed ++ gone) (failed ++ lost) (tiers ++ names) in
          match lost with
          | [] =>
              match append (log c) INDEX (jupdate record [("status", JStr "evicted"); ("reason", JStr reason)]%string) with
              | Err e => (Capsules (log c) p, Err e)
              | Ok (_, l) => next l
              end
          | _ => next (log c)
          end
      end
  end.

Definition REASONS : list string := ["retract"; "erase"; "quarantine"; "supersede"]%string.

Definition evict (c : capsules) (memory_id reason : string) : capsules * res pyexn json :=
  match (require (mem reason REASONS) ValueError;;
         _ ← text memory_id 512;
         rows ← journal (log c) INDEX;
         Ok (List.filter (λ r, of_memory memory_id r && is_status "active" r) rows)) with
  | Err e => (c, Err e)
  | Ok matches =>
      match evict_rows c reason matches [] [] [] with
      | (c, Err e) => (c, Err e)
      | (c, Ok (removed, failed, tiers)) =>
          match (revision ← digest (JList (map JStr (sort_strings removed)));
                 d ← digest (JList [JStr reason; JStr memory_id; JStr now]);
                 '(event, l) ← publish now (log c)
                   (Change (JStr reason) (JStr memory_id) (JList []) (JStr "") (JStr "") (JStr "") (JStr revision))
                   ("kv-" +:+ String.substring 0 32 d);
                 n ← item "sequence" event; Ok (n, l)) with
          | Err e => (c, Err e)
          | Ok (n, l) =>
              (Capsules l (pools c), Ok (JObj [("memory_id", JStr memory_id); ("reason", JStr reason);
                 ("capsule_tiers", JList (map JStr (sorted_set tiers)));
                 ("removed_tiers", JList (map JStr (sorted_set removed)));
                 ("failed_tiers", JList (map JStr (sorted_set failed))); ("event_sequence", n)]%string))
          end
      end
  end.

(** [evict_sources]: the memories with an active capsule, in order. *)
Fixpoint evict_each (c : capsules) (identities : list string) : capsules * res pyexn (list json) :=
  match identities with
  | [] => (c, Ok [])
  | i :: rest =>
      match journal (log c) INDEX with
      | Err e => (c, Err e)
      | Ok rows =>
          match List.filter (λ r, of_memory i r && is_status "active" r) rows with
          | [] => evict_each c rest
          | _ =>
              match evict c i "erase" with
              | (c, Err e) => (c, Err e)
              | (c, Ok receipt) =>
                  match evict_each c rest with
                  | (c, Ok receipts) => (c, Ok (receipt :: receipts))
                  | (c, Err e) => (c, Err e)
                  end
              end
          end
      end
  end.
Definition evict_sources (c : capsules) (identities : list string) : capsules * res pyexn (list json) :=
  match journal (log c) INDEX with
  | Err e => (c, Err e)
  | Ok rows => evict_each c (List.filter (λ i, existsb (of_memory i) rows) (sorted_set identities))
  end.

Definition status (c : capsules) (memory_id : string) : res pyexn (list json) :=
  rows ← journal (log c) INDEX; Ok (List.filter (of_memory memory_id) rows).
End capsules.
