(* ===== verification/KvCapsulesSpec.v ===== *)
(** * What the capsules guarantee

    The reference pools keep the pool laws; a built capsule is read back as
    it was; an eviction that reports no failed tier leaves the capsule in no
    tier and without an active record. *)

From S2P Require Import Prelude Sha256 Base64 Wire Origin Merkle Journal JournalSpec Strings Number Ledger Seal Vda Lineage LineageSpec EdgeSpec ChangeStream ChangeStreamSpec KvCapsules.
Local Open Scope Z_scope.

Lemma assoc_del_other {A} k j (l : list (string * A)) : j ≠ k → assoc j (assoc_del k l) = assoc j l.
Proof.
  intros Hne. unfold assoc_del. induction l as [|[i x] l IH]; [done|]. simpl. destruct (String.eqb_spec k i) as [->|]; simpl.
  - destruct (String.eqb_spec j i) as [->|]; [done|]. exact IH.
  - by rewrite IH.
Qed.
Lemma assoc_set_neq {A} k j (x : A) l : j ≠ k → assoc j (assoc_set k x l) = assoc j l.
Proof. intros Hne. rewrite assoc_assoc_set. by rewrite (proj2 (String.eqb_neq _ _)) by congruence. Qed.

#[local] Existing Instance reference_pools_ops.
#[local] Instance reference_pools_laws : PoolLaws reference_pools.
Proof.
  split; simpl.
  - intros p n k v p'. destruct (String.eqb n "disk").
    + unfold DiskPool.put. destruct (byte_len v <=? MAX_KV_BYTES) eqn:Eb; [|done]. destruct (DiskPool._path k) as [[]|] eqn:Ep; [|done].
      intros [= <-]. simpl. unfold DiskPool.get. rewrite Ep. cbn [mbind res_bind]. rewrite assoc_set_same. cbn [get_or mbind res_bind].
      by rewrite Eb.
    + destruct (String.eqb n "memory"); [|done]. intros [= <-]. simpl. unfold MemoryPool.get, MemoryPool.put. by rewrite assoc_set_same.
  - intros p n k v p' r m j H Hne.
    assert (Hnk : String.eqb n m = true → j ≠ k) by (intros ->%String.eqb_eq ->; done).
    destruct (String.eqb_spec n "disk") as [->|], (String.eqb_spec m "disk") as [->|]; simpl in *.
    + unfold DiskPool.put in H. destruct (byte_len v <=? MAX_KV_BYTES); [|by injection H as <-].
      destruct (DiskPool._path k); [|by injection H as <-]. injection H as <- _. simpl. unfold DiskPool.get.
      by rewrite assoc_set_neq by auto.
    + destruct (DiskPool.put _ _ _). by injection H as <-.
    + destruct (String.eqb n "memory"); by injection H as <-.
    + destruct (String.eqb_spec n "memory") as [->|]; [|by injection H as <-]. injection H as <- _. simpl.
      destruct (String.eqb_spec m "memory") as [->|]; [|done]. unfold MemoryPool.get, MemoryPool.put. by rewrite assoc_set_neq by auto.
  - intros p n k p'. destruct (String.eqb n "disk").
    + unfold DiskPool.delete. destruct (DiskPool._path k) as [[]|] eqn:Ep; [|done]. intros [= <-]. simpl. unfold DiskPool.get. rewrite Ep.
      cbn [mbind res_bind]. by rewrite assoc_del_same.
    + destruct (String.eqb n "memory"); [|done]. intros [= <-]. simpl. unfold MemoryPool.get, MemoryPool.delete. by rewrite assoc_del_same.
  - intros p n k p' r m j H Hne.
    assert (Hnk : String.eqb n m = true → j ≠ k) by (intros ->%String.eqb_eq ->; done).
    destruct (String.eqb_spec n "disk") as [->|], (String.eqb_spec m "disk") as [->|]; simpl in *.
    + unfold DiskPool.delete in H. destruct (DiskPool._path k); [|by injection H as <-]. injection H as <- _. simpl. unfold DiskPool.get.
      by rewrite assoc_del_other by auto.
    + destruct (DiskPool.delete _ _). by injection H as <-.
    + destruct (String.eqb n "memory"); by injection H as <-.
    + destruct (String.eqb_spec n "memory") as [->|]; [|by injection H as <-]. injection H as <- _. simpl.
      destruct (String.eqb_spec m "memory") as [->|]; [|done]. unfold MemoryPool.get, MemoryPool.delete. by rewrite assoc_del_other by auto.
Qed.

(** Rows of a journal are not equal to the bodies they were made of. *)
Lemma py_eqb_keys l k key : py_eqb (JObj l) (JObj k) = true → key ∈ l.*1 → key ∈ k.*1.
Proof.
  intros [_ H]%andb_prop Hin. induction l as [|[a x] l IH]; [by apply elem_of_nil in Hin|].
  apply andb_prop in H as [Ha Hl]. apply elem_of_cons in Hin as [->|Hin]; [|by apply IH]. simpl.
  destruct (assoc a k) as [y|] eqn:E; [|done]. apply assoc_is_Some. by rewrite E.
Qed.
Lemma sequenced_neq p record : is_Some (jget "sequence" p) → jget "sequence" record = None → (∃ k, record = JObj k) → py_eqb p record = false.
Proof.
  intros Hx Hr [k ->]. apply not_true_iff_false. intros H. destruct p as [| | | | | |l]; try by destruct Hx.
  assert (Hin : "sequence"%string ∈ l.*1) by (by apply assoc_is_Some).
  apply (py_eqb_keys _ _ _ H), assoc_is_Some in Hin. destruct Hin as [x Hin]. unfold jget in Hr. congruence.
Qed.

Section capsules.
Context {St P} `{LG : Ledger St} `{LL : !LedgerLaws St} `{SL : !Sealed St} `{SLL : !SealedLaws St} `{PO : Pools P} `{PL : !PoolLaws P}.
Variable compressors : list (string * compressor).
Variable secret : option string.
Variable now : string.

Lemma put_all_get p key v names completed p' : put_all p key v names completed = (p', Ok ()) → NoDup names →
  (∀ n, n ∈ names → pool_get p' n key = Ok v) ∧ (∀ m j, (j ≠ key ∨ m ∉ names) → pool_get p' m j = pool_get p m j).
Proof.
  revert p completed. induction names as [|n names IH]; intros p completed H Hnd; cbn [put_all] in H.
  - injection H as <-. split; [intros ? []%elem_of_nil|done].
  - destruct (pool_put p n key v) as [p1 [[]|e]] eqn:E; [|done]. apply NoDup_cons in Hnd as [Hn Hnd].
    destruct (IH _ _ H Hnd) as [I1 I2]. split.
    + intros m [->|Hm]%elem_of_cons; [|by apply I1]. rewrite I2 by (right; done). by eapply put_get.
    + intros m j Hmj. rewrite I2 by (destruct Hmj; [by left|right; set_solver]). eapply put_other; [exact E|].
      intros [= -> ->]. destruct Hmj; [done|set_solver].
Qed.

Lemma last_filter_snoc {A} (f : A → bool) l x : f x = true → last (List.filter f (l ++ [x])) = Some x.
Proof. intros H. rewrite List.filter_app. simpl. rewrite H. apply last_snoc. Qed.

(** a capsule that was just built is read back byte for byte, from the
    first of its tiers, when its compressor is lossless. *)
Theorem built_capsule_reads_back (c : @capsules St P) memory_id model kv score threshold tiers comp_name comp statement c' record rows rows' :
  build compressors secret c memory_id model kv score threshold tiers comp_name statement = (c', Ok record) →
  assoc comp_name compressors = Some comp → decompress comp (compress comp kv) = kv →
  journal (log c) INDEX = Ok rows → Forall (λ r, is_Some (jget "sequence" r)) rows → journal (log c') INDEX = Ok rows' →
  get compressors secret c' memory_id model statement = Ok kv.
Proof.
  intros H Hcomp Hloss Hrows Hseq Hrows'. unfold build in H.
  match type of H with context [match ?m with Ok _ => _ | Err _ => _ end] => destruct m as [[[[[key names] z] record0] prior]|e] eqn:E end;
    [|done].
  bind E as md Hmd. bind E as sc _. bind E as th _. bind E as [] _. bind E as [] _. bind E as ts _. cbv zeta in E. bind E as n Hn.
  bind E as [] _. bind E as comp' Hc. apply get_or_Ok in Hc. rewrite Hcomp in Hc. injection Hc as <-. bind E as sh Hsh. bind E as k Hk.
  bind E as [] _. rewrite Hrows in E. cbn [mbind res_bind] in E. injection E as <- <- <- <- <-.
  destruct (last _) as [p|] eqn:El.
  { exfalso. assert (Hp : is_Some (jget "sequence" p)).
    { apply last_Some_elem_of, list_elem_of_In, filter_In in El as [Hin _]. rewrite Forall_forall in Hseq. by apply Hseq, list_elem_of_In. }
    injection H as _ H. rewrite (sequenced_neq _ _ Hp) in H; [done|done|eauto]. }
  destruct (put_all _ _ _ _ _) as [ps [[]|completed]] eqn:Eput; [|done].
  destruct (append _ _ _) as [[signed l]|e] eqn:Eapp; [|done]. injection H as <- Hrec. cbn [log pools] in *.
  destruct (append_same _ _ _ _ _ _ _ Hrows Eapp Hrows') as (r & -> & _ & (prev & at_ & ->)).
  apply put_all_get in Eput as [Hget _]; [|apply sorted_set_NoDup].
  unfold get. rewrite Hmd. cbn [mbind res_bind]. rewrite Hsh. cbn [mbind res_bind].
  assert (md = model) as -> by (unfold _model in Hmd; bind Hmd as [] _; by injection Hmd). rewrite Hk. cbn [mbind res_bind log].
  rewrite Hrows'. cbn [mbind res_bind]. rewrite last_filter_snoc by (apply bool_decide_eq_true; reflexivity). cbn [get_or mbind res_bind].
  assert (Hst : ∀ b, b = true → require b KeyError = Ok ()) by (by intros b ->).
  rewrite Hst by (apply bool_decide_eq_true; reflexivity). cbn [mbind res_bind].
  set (r := jupdate _ _).
  assert (item "memory_hash" r = Ok (JStr sh)) as -> by reflexivity. cbn [mbind res_bind].
  assert (item "model_fingerprint" r = Ok (JStr model)) as -> by reflexivity. cbn [mbind res_bind].
  rewrite !bool_decide_true by done. cbn [andb require mbind res_bind].
  assert (list_of "tiers" r = Ok (map JStr (sorted_set ts))) as -> by reflexivity. cbn [mbind res_bind].
  assert (item "kv_digest" r = Ok (JStr (sha256_hex (compress comp kv)))) as -> by reflexivity. cbn [mbind res_bind].
  assert (item "compressor" r = Ok (JStr comp_name)) as -> by reflexivity. cbn [mbind res_bind pools].
  destruct (sorted_set ts) as [|n1 ns]; [by unfold count in Hn; bind Hn as [] Hz%require_Ok; simpl in Hz|].
  cbn [map first_tier mbind res_bind]. rewrite (Hget n1) by left. cbn [mbind res_bind].
  rewrite bool_decide_true by done. cbn [require mbind res_bind]. rewrite Hcomp. cbn [get_or mbind res_bind]. by rewrite Hloss.
Qed.

(** *** Eviction *)

Lemma delete_all_gone p key names p' removed : delete_all p key names = (p', removed, []) →
  (∀ n, n ∈ names → is_ok (pool_get p' n key) = false) ∧
  (∀ m j, is_ok (pool_get p m j) = false → is_ok (pool_get p' m j) = false).
Proof.
  revert p removed. induction names as [|n names IH]; intros p removed H; cbn [delete_all] in H.
  - injection H as <- <-. split; [intros ? []%elem_of_nil|done].
  - destruct (pool_delete p n key) as [p1 r] eqn:E. destruct (delete_all p1 key names) as [[p2 gone] lost] eqn:E2.
    destruct r as [[]|e]; [|done]. injection H as -> <- ->. destruct (IH _ _ E2) as [I1 I2].
    assert (Hstay : ∀ m j, is_ok (pool_get p m j) = false → is_ok (pool_get p1 m j) = false).
    { intros m j Hm. destruct (decide ((m, j) = (n, key))) as [[= -> ->]|Hne]; [by eapply delete_get|].
      by rewrite (delete_other _ _ _ _ _ _ _ E Hne). }
    split; [|auto]. intros m [->|Hm]%elem_of_cons; [|auto]. apply I2. by eapply delete_get.
Qed.

(** The rows an eviction appends. *)
Definition evicted_row (record row : json) : Prop :=
  jget "id" row = jget "id" record ∧ jget "status" row = Some (JStr "evicted").

Lemma jupdate_evicted record reason n row : is_obj record = true →
  stamped n (jupdate record [("status", JStr "evicted"); ("reason", JStr reason)]%string) row → evicted_row record row.
Proof.
  intros Ho (prev & at_ & ->). unfold evicted_row, jupdate. cbn [fold_left fst snd].
  rewrite !jget_jset_other by done. rewrite jget_jset_same by done. done.
Qed.

Lemma evict_rows_failed reason ms : ∀ (c : @capsules St P) g f t c2 r2 t2,
  evict_rows c reason ms g f t = (c2, Ok (r2, [], t2)) → f = [].
Proof.
  induction ms as [|m ms IH]; intros c g f t c2 r2 t2 H; cbn [evict_rows] in H; [by injection H|].
  destruct (_ ≫= _) as [[k ns]|]; [|by injection H]. destruct (delete_all _ _ _) as [[p gone] lost].
  destruct lost as [|x lost]; [destruct (append _ _ _) as [[sg l]|]; [|by injection H]|];
    apply IH in H; [by rewrite app_nil_r in H|by destruct f].
Qed.

(** A record whose tiers all gave it up is followed by its evicted row. *)
Lemma evict_rows_cons reason r ms (c : @capsules St P) g f t c2 r2 t2 : evict_rows c reason (r :: ms) g f t = (c2, Ok (r2, [], t2)) →
  ∃ key names p gone signed l, str_of "id" r = Ok key ∧ tier_names r = Ok names ∧ delete_all (pools c) key names = (p, gone, []) ∧
  append (log c) INDEX (jupdate r [("status", JStr "evicted"); ("reason", JStr reason)]%string) = Ok (signed, l) ∧
  evict_rows (Capsules l p) reason ms (g ++ gone) [] (t ++ names) = (c2, Ok (r2, [], t2)).
Proof.
  intros H. pose proof (evict_rows_failed _ _ _ _ _ _ _ _ _ H) as ->. cbn [evict_rows] in H.
  destruct (str_of "id" r) as [key|e] eqn:Ek; [|by injection H]. cbn [mbind res_bind] in H.
  destruct (tier_names r) as [names|e] eqn:En; [|by injection H]. cbn [mbind res_bind] in H.
  destruct (delete_all (pools c) key names) as [[p gone] lost] eqn:Ed. destruct lost as [|x lost].
  - destruct (append (log c) INDEX _) as [[signed l]|e] eqn:Ea; [|by injection H]. eauto 15.
  - by apply evict_rows_failed in H.
Qed.

Lemma evict_rows_reads reason ms (c : @capsules St P) g f t c2 r2 t2 rows' : evict_rows c reason ms g f t = (c2, Ok (r2, [], t2)) →
  journal (log c2) INDEX = Ok rows' → ∃ rows, journal (log c) INDEX = Ok rows.
Proof.
  intros H Hr. destruct ms as [|r ms]; [injection H as <- _ _ _; eauto|].
  apply evict_rows_cons in H as (key & names & p & gone & signed & l & _ & _ & _ & Ha & _). apply append_reads in Ha.
  destruct (journal (log c) INDEX); [eauto|done].
Qed.

Lemma evict_rows_spec reason matches : ∀ (c : @capsules St P) removed failed tiers c' removed' tiers' rows rows',
  evict_rows c reason matches removed failed tiers = (c', Ok (removed', [], tiers')) → Forall (λ r, is_obj r = true) matches →
  journal (log c) INDEX = Ok rows → journal (log c') INDEX = Ok rows' →
  (∃ evs, rows' = rows ++ evs ∧ Forall2 evicted_row matches evs) ∧
  (∀ r k ns, r ∈ matches → str_of "id" r = Ok k → tier_names r = Ok ns → ∀ n, n ∈ ns → is_ok (pool_get (pools c') n k) = false) ∧
  (∀ m j, is_ok (pool_get (pools c) m j) = false → is_ok (pool_get (pools c') m j) = false).
Proof.
  induction matches as [|r matches IH]; intros c removed failed tiers c' removed' tiers' rows rows' H Hobj Hrows Hrows'.
  - cbn [evict_rows] in H. injection H as <- <- -> <-. split_and!; [|by intros ? ? ? []%elem_of_nil|done].
    exists []. rewrite app_nil_r. split; [congruence|constructor].
  - apply Forall_cons in Hobj as [Hr Hobj]. apply evict_rows_cons in H as (key & names & p & gone & signed & l & Ek & En & Ed & Ea & H).
    destruct (evict_rows_reads _ _ _ _ _ _ _ _ _ _ H Hrows') as [rows1 Hrows1]. cbn [log] in Hrows1.
    destruct (append_same _ _ _ _ _ _ _ Hrows Ea Hrows1) as (row & -> & _ & Hst).
    destruct (IH _ _ _ _ _ _ _ _ _ H Hobj Hrows1 Hrows') as ((evs & -> & Hevs) & I2 & I3). cbn [pools] in I3.
    destruct (delete_all_gone _ _ _ _ _ Ed) as [D1 D2]. split_and!.
    + exists (row :: evs). rewrite <- app_assoc. split; [done|]. constructor; [by eapply jupdate_evicted|done].
    + intros r0 k ns [->|Hin]%elem_of_cons Hk Hns n Hn; [|by eapply I2]. rewrite Ek in Hk. rewrite En in Hns.
      injection Hk as <-. injection Hns as <-. by apply I3, D1.
    + intros m j Hm. by apply I3, D2.
Qed.

Lemma last_app_some {A} (l k : list A) x : last k = Some x → last (l ++ k) = Some x.
Proof. intros H. by rewrite last_app, H. Qed.

(** an eviction that reports no failed tier left the capsule in no tier
    of any of the memory's active records, and reading it under any of their
    keys finds no active capsule, whatever the memory asked for. *)
Theorem evicted_capsule_is_gone (c c' c1 : @capsules St P) memory_id reason receipt rows rows1 rows' out :
  evict now c memory_id reason = (c', Ok receipt) → jget "failed_tiers" receipt = Some (JList []) →
  journal (log c) INDEX = Ok rows →
  let active := List.filter (λ r, of_memory memory_id r && is_status "active" r) rows in
  evict_rows c reason active [] [] [] = (c1, out) → journal (log c1) INDEX = Ok rows1 → journal (log c') INDEX = Ok rows' →
  ∀ r key names, r ∈ active → str_of "id" r = Ok key → tier_names r = Ok names →
  (∀ n, n ∈ names → is_ok (pool_get (pools c') n key) = false) ∧
  ∀ other model statement sh, _model model = Ok model → _source statement = Ok sh → _tenant_key secret sh model = Ok key →
    get compressors secret c' other model statement = Err KeyError.
Proof.
  intros H Hfailed Hrows active Hev Hrows1 Hrows' r key names Hr Hk Hns. unfold evict in H.
  destruct (mem reason REASONS); [|done]. cbn [require mbind res_bind] in H. destruct (text memory_id 512); [|done].
  cbn [mbind res_bind] in H. rewrite Hrows in H. cbn [mbind res_bind] in H. fold active in H. rewrite Hev in H.
  destruct out as [[[removed failed] tiers]|e]; [|done].
  match type of H with context [match ?m with Ok _ => _ | Err _ => _ end] => destruct m as [[n l]|e] eqn:E end; [|done].
  injection H as <- <-. injection Hfailed as Hf.
  assert (failed = []) as ->.
  { destruct failed as [|x failed]; [done|]. exfalso. assert (x ∈ sorted_set (x :: failed)) as Hx by (apply elem_sorted_set; left).
    destruct (sorted_set (x :: failed)); [by apply elem_of_nil in Hx|done]. }
  assert (Hobj : Forall (λ r, is_obj r = true) active).
  { apply Forall_forall. intros x Hx%list_elem_of_In. apply filter_In in Hx as [_ [Hx _]%andb_prop].
    unfold of_memory in Hx. apply bool_decide_eq_true in Hx. by destruct x. }
  destruct (evict_rows_spec _ _ _ _ _ _ _ _ _ _ _ Hev Hobj Hrows Hrows1) as ((evs & -> & Hevs) & Hgone & _).
  bind E as revision _. bind E as d _. bind E as [event l'] Hpub. bind E as sq _. injection E as <- <-. cbn [log pools] in *.
  assert (rows' = rows ++ evs) as ->.
  { unfold publish in Hpub. bind Hpub as ? _. bind Hpub as [] _. bind Hpub as ? _. bind Hpub as ? _. do 4 bind Hpub as [] _.
    bind Hpub as ? _. bind Hpub as prior _. destruct prior as [|first prior].
    - bind Hpub as [sg l2] Happ. bind Hpub as rec _. injection Hpub as _ <-. symmetry.
      symmetry. by eapply (append_other (log c1) JOURNAL INDEX); [..|exact Hrows'].
    - bind Hpub as [] _. injection Hpub as _ <-. congruence. }
  split; [by apply (Hgone r)|].
  intros other model statement sh Hm Hs Ht. unfold get. rewrite Hm. cbn [mbind res_bind]. rewrite Hs. cbn [mbind res_bind].
  rewrite Ht. cbn [mbind res_bind log]. rewrite Hrows'. cbn [mbind res_bind].
  assert (∃ e, last (List.filter (is_id key) (rows ++ evs)) = Some e ∧ is_status "active" e = false) as (e & -> & He).
  { apply list_elem_of_lookup in Hr as [i Hi]. destruct (Forall2_lookup_l _ _ _ _ _ Hevs Hi) as (ev & Hiv & Hid & _).
    assert (Hkey : is_id key ev = true).
    { unfold is_id. apply bool_decide_eq_true. rewrite Hid. clear -Hk. unfold str_of in Hk. bind Hk as x Hx. destruct x; try done.
      injection Hk as ->. unfold item in Hx. by apply get_or_Ok in Hx. }
    rewrite List.filter_app.
    assert (Hin : ev ∈ List.filter (is_id key) evs).
    { apply list_elem_of_In, filter_In. split; [|done]. by eapply list_elem_of_In, list_elem_of_lookup_2. }
    destruct (last (List.filter (is_id key) evs)) as [e|] eqn:El; [|apply last_None in El; rewrite El in Hin; by apply elem_of_nil in Hin].
    exists e. split; [by apply last_app_some|]. apply last_Some_elem_of, list_elem_of_In, filter_In in El as [Hle _].
    apply list_elem_of_In, list_elem_of_lookup in Hle as [j Hj]. destruct (Forall2_lookup_r _ _ _ _ _ Hevs Hj) as (x & _ & _ & Hst).
    unfold is_status. by rewrite Hst. }
  cbn [get_or mbind res_bind]. by rewrite He.
Qed.
End capsules.

(** ** Witness: a capsule built in both reference pools, read and evicted *)

#[local] Existing Instances memory_ledger memory_ledger_laws memory_sealed memory_sealed_laws.

Definition demo_model : string := "00000000000000000000000000000000000000000000000000000000000000ff".
Definition demo_compressors : list (string * compressor) := [("identity"%string, identity)].
Definition demo_empty : @capsules memory reference_pools := Capsules [] (ReferencePools [] []).
Definition demo_build : @capsules memory reference_pools * res pyexn json :=
  build demo_compressors (Some "secret"%string) demo_empty "m1" demo_model "kv" (JFloat "0.9") (JFloat "0.5")
    ["memory"; "disk"]%string "identity" (Some "statement"%string).
Definition demo_built : @capsules memory reference_pools := demo_build.1.
Definition demo_evict : @capsules memory reference_pools * res pyexn json := evict demo_now demo_built "m1" "retract".
Definition demo_evicted : @capsules memory reference_pools := demo_evict.1.
Definition demo_receipt : json := ok_or JNull demo_evict.2.

Lemma demo_build_Ok : ∃ record, demo_build = (demo_built, Ok record).
Proof.
  assert (H : is_ok demo_build.2 = true) by (vm_compute; reflexivity). unfold demo_built. revert H.
  generalize demo_build. intros [c [r|e]] H; [by exists r|discriminate H].
Qed.
Lemma demo_evict_Ok : demo_evict = (demo_evicted, Ok demo_receipt).
Proof.
  assert (H : is_ok demo_evict.2 = true) by (vm_compute; reflexivity). unfold demo_evicted, demo_receipt. revert H.
  generalize demo_evict. intros [c [r|e]] H; [done|discriminate H].
Qed.

Lemma built_capsule_witness :
  get demo_compressors (Some "secret"%string) demo_built "m1" demo_model (Some "statement"%string) = Ok "kv"%string.
Proof.
  destruct demo_build_Ok as [record H].
  exact (built_capsule_reads_back demo_compressors (Some "secret"%string) demo_empty "m1" demo_model "kv" _ _ _ "identity" identity _ _ record
    [] (mem_records (log demo_built) INDEX) H eq_refl eq_refl eq_refl (List.Forall_nil _) eq_refl).
Defined.

Definition demo_active : list json :=
  List.filter (λ r, of_memory "m1" r && is_status "active" r) (mem_records (log demo_built) INDEX).
Definition demo_row : json := default JNull (head demo_active).
Definition demo_key : string := ok_or ""%string (str_of "id" demo_row).
Definition demo_evict_rows := evict_rows demo_built "retract" demo_active [] [] [].

Lemma evicted_capsule_witness : is_ok (pool_get (pools demo_evicted) "disk" demo_key) = false ∧
  get demo_compressors (Some "secret"%string) demo_evicted "m1" demo_model (Some "statement"%string) = Err KeyError.
Proof.
  assert (Hin : demo_row ∈ demo_active).
  { unfold demo_row. assert (length demo_active = 1%nat) as H by (vm_compute; reflexivity). revert H. generalize demo_active.
    intros [|x l] H; [discriminate H|left]. }
  destruct (evicted_capsule_is_gone demo_compressors (Some "secret"%string) demo_now demo_built demo_evicted demo_evict_rows.1 "m1" "retract"
    demo_receipt (mem_records (log demo_built) INDEX) (mem_records (log demo_evict_rows.1) INDEX) (mem_records (log demo_evicted) INDEX)
    demo_evict_rows.2 demo_evict_Ok ltac:(vm_compute; reflexivity) eq_refl (surjective_pairing _) eq_refl eq_refl
    demo_row demo_key ["disk"; "memory"]%string Hin ltac:(unfold demo_key; apply is_ok_or; vm_compute; reflexivity)
    ltac:(vm_compute; reflexivity)) as [H1 H2].
  split; [apply H1; left|].
  apply (H2 "m1"%string demo_model (Some "statement"%string) (sha256_hex "statement")); [reflexivity|reflexivity|vm_compute; reflexivity].
Defined.
