(* ===== verification/Royalties.v ===== *)
(** * Listings and royalties ([unimem/cleanroom.py])

    Sealed listings are signed records.  Royalties group near-duplicate
    listings, share the budget over the groups by their value and each
    group's reward over its sellers by stake, both times by largest
    remainders on exact fractions.  A finite float is the rational it stands
    for; the one float division (the Jaccard estimate) is rounded as binary64
    rounds it.  Trials, escrow, slashing, the private release and payments ask
    services and are left out. *)

From Stdlib Require Import QArith Qround.
From S2P Require Import Prelude Sha256 Base64 Wire Origin Merkle Journal Strings Ledger Seal.
Local Open Scope Z_scope.

Record offer := Offer { o_id : string; seller : string; o_minhash : list Z; stake_cents : option Z }.

(** [listing] *)
Section listing.
Context {St} `{LG : Ledger St} `{SL : !Sealed St}.

Definition listing (s : St) (seller handle content_digest : string) (minhash : list Z) (stake_cents : Z) : res pyexn (json * St) :=
  _ ← text seller 512; _ ← text handle 512;
  require (is_hash content_digest) ValueError;;
  _ ← count (Z.of_nat (length minhash)) 16 256;
  _ ← mapR (λ x, count x 0 (2 ^ 64 - 1)) minhash;
  _ ← count stake_cents 1 100000000;
  sign s (JObj [("id", JStr ("sealed-" +:+ str_take 24 content_digest)); ("seller", JStr seller); ("handle", JStr handle);
                ("content_digest", JStr content_digest); ("minhash", JList (map JInt minhash));
                ("stake_cents", JInt stake_cents)]%string).
End listing.

(** ** Near-duplicates *)

(** [m / n] of two integers, [0 <= m <= n], rounded to nearest, ties to
    even, with 53 bits. *)
Definition float_quotient (m n : Z) : Q :=
  if m =? 0 then 0%Q
  else
    let k := 53 + Z.log2 n - Z.log2 m in
    let k := if 2 ^ 53 <=? m * 2 ^ k / n then k - 1 else k in
    let q := m * 2 ^ k / n in let r := m * 2 ^ k mod n in
    let q := if (n <? 2 * r) || ((n =? 2 * r) && Z.odd q) then q + 1 else q in
    Qmake q (Z.to_pos (2 ^ k)).

Definition estimate_jaccard (sig_a sig_b : list Z) : res pyexn Q :=
  require (negb (bool_decide (sig_a = [])) && negb (bool_decide (sig_b = [])) && (length sig_a =? length sig_b)%nat) ValueError;;
  Ok (float_quotient (Z.of_nat (length (List.filter (λ xy : Z * Z, xy.1 =? xy.2) (zip sig_a sig_b)))) (Z.of_nat (length sig_a))).

(** [any(... for x in l)], which stops at the first true one. *)
Fixpoint anyR {A} (f : A → res pyexn bool) (l : list A) : res pyexn bool :=
  match l with [] => Ok false | x :: l' => b ← f x; if (b : bool) then Ok true else anyR f l' end.
(** The groups that match and those that do not. *)
Fixpoint split_groups {A} (f : A → res pyexn bool) (l : list A) : res pyexn (list A * list A) :=
  match l with
  | [] => Ok ([], [])
  | g :: l' => b ← f g; '(yes, no) ← split_groups f l'; Ok (if (b : bool) then (g :: yes, no) else (yes, g :: no))
  end.

Definition value_of (values : list (string * Q)) (o : offer) : Q := default 0%Q (assoc (o_id o) values).
Definition check_offer (values : list (string * Q)) (o : offer) : res pyexn () :=
  _ ← text (o_id o) 512; _ ← text (seller o) 512;
  _ ← count (Z.of_nat (length (o_minhash o))) 16 256;
  _ ← mapR (λ x, count x 0 (2 ^ 64 - 1)) (o_minhash o);
  require (Qle_bool (-1) (value_of values o) && Qle_bool (value_of values o) 1) ValueError.

(** One offer joins every group that holds a near-duplicate of it. *)
Definition add_offer (values : list (string * Q)) (threshold : Q) (groups : list (list offer)) (o : offer) : res pyexn (list (list offer)) :=
  check_offer values o;;
  '(matches, rest) ← split_groups (anyR (λ i, j ← estimate_jaccard (o_minhash o) (o_minhash i); Ok (Qle_bool threshold j))) groups;
  Ok (rest ++ [o :: concat matches]).

(** ** Largest remainders *)

Definition Qltb (a b : Q) : bool := negb (Qle_bool b a).
(** [l[:n]] *)
Definition slice_to {A} (n : Z) (l : list A) : list A :=
  take (Z.to_nat (if n <? 0 then Z.of_nat (length l) + n else n)) l.
Definition sumZ (l : list Z) : Z := foldr Z.add 0 l.

(** The floors of the quotas, and one more for the first of [order] until
    the total is reached. *)
Definition apportion (total : Z) (quotas : list Q) (order : list nat) : list Z :=
  let floors := map Qfloor quotas in
  let winners := slice_to (total - sumZ floors) order in
  imap (λ i r, if existsb (Nat.eqb i) winners then r + 1 else r) floors.
Definition remainder (quotas : list Q) (i : nat) : Q := let q := nth i quotas 0%Q in (q - inject_Z (Qfloor q))%Q.

(** Tuples of texts in lexicographic order. *)
Fixpoint texts_ltb (l k : list string) : bool :=
  match l, k with
  | [], _ :: _ => true
  | _, [] => false
  | x :: l', y :: k' => str_ltb x y || (String.eqb x y && texts_ltb l' k')
  end.

Definition group_key (g : list offer) : list string := sort_strings (map o_id g).
Definition cluster_before (groups : list (list offer)) (quotas : list Q) (i j : nat) : bool :=
  Qltb (remainder quotas j) (remainder quotas i) ||
  (Qeq_bool (remainder quotas i) (remainder quotas j) && texts_ltb (group_key (nth i groups [])) (group_key (nth j groups []))).

Definition Qmax_of (a b : Q) : Q := if Qle_bool a b then b else a.
Definition weight (values : list (string * Q)) (g : list offer) : Q :=
  Qmax_of 0 (match map (value_of values) g with [] => 0%Q | v :: vs => foldl Qmax_of v vs end).
Definition sumQ (l : list Q) : Q := foldr Qplus 0%Q l.

Definition cluster_quotas (budget : Z) (weights : list Q) : list Q :=
  map (λ w, (inject_Z budget * w / sumQ weights)%Q) weights.
Definition cluster_rewards (budget : Z) (groups : list (list offer)) (weights : list Q) : list Z :=
  if Qltb 0 (sumQ weights) && (0 <? budget) then
    let quotas := cluster_quotas budget weights in
    apportion budget quotas (sort_by (cluster_before groups quotas) (seq 0 (length groups)))
  else map (λ _, 0) groups.

(** ** Sellers *)

Definition add_stake (stakes : list (string * Z)) (o : offer) : res pyexn (list (string * Z)) :=
  stake ← count (default 1 (stake_cents o)) 1 100000000;
  Ok (assoc_set (seller o) (default 0 (assoc (seller o) stakes) + stake) stakes).
Definition by_key {A} (l : list (string * A)) : list (string * A) := sort_by (λ a b, str_ltb a.1 b.1) l.

Definition seller_quotas (reward : Z) (stakes : list (string * Z)) : list Q :=
  map (λ st, (inject_Z (reward * st.2) / inject_Z (sumZ stakes.*2))%Q) stakes.
Definition seller_before (stakes : list (string * Z)) (quotas : list Q) (i j : nat) : bool :=
  let stake k := (nth k stakes (""%string, 0)).2 in let name k := (nth k stakes (""%string, 0)).1 in
  Qltb (remainder quotas j) (remainder quotas i) ||
  (Qeq_bool (remainder quotas i) (remainder quotas j) &&
     ((stake j <? stake i) || ((stake i =? stake j) && str_ltb (name i) (name j)))).
(** What each seller gets of a reward, the sellers in order of their names. *)
Definition seller_rewards (reward : Z) (stakes : list (string * Z)) : list (string * Z) :=
  let quotas := seller_quotas reward stakes in
  zip stakes.*1 (apportion reward quotas (sort_by (seller_before stakes quotas) (seq 0 (length stakes)))).
Definition pay (payouts : list (string * Z)) (sa : string * Z) : list (string * Z) :=
  assoc_set sa.1 (default 0 (assoc sa.1 payouts) + sa.2) payouts.

Record cluster := Cluster { listings : list string; reward_cents : Z; interventional_value : Q; stakes : list (string * Z) }.
Record settlement := Settlement { payouts : list (string * Z); clusters : list cluster; paid_cents : Z }.

(** One iteration of the loop over the clusters. *)
Definition settle_cluster (acc : list (string * Z) * list cluster) (c : list offer * Q * Z) : res pyexn (list (string * Z) * list cluster) :=
  let '(group, w, reward) := c in
  s ← foldM add_stake [] group;
  let payouts := if reward =? 0 then acc.1 else foldl pay acc.1 (seller_rewards reward (by_key s)) in
  Ok (payouts, acc.2 ++ [Cluster (sorted_set (map o_id group)) reward w (by_key s)]).

Definition royalties (offers : list offer) (values : list (string * Q)) (budget : Z) (threshold : Q) : res pyexn settlement :=
  _ ← count (Z.of_nat (length offers)) 0 256;
  _ ← count budget 0 100000000;
  require (Qle_bool (1 # 2) threshold && Qle_bool threshold 1) ValueError;;
  groups ← foldM (add_offer values threshold) [] offers;
  let groups := sort_by (λ g h, texts_ltb (group_key g) (group_key h)) groups in
  let weights := map (weight values) groups in
  let rewards := cluster_rewards budget groups weights in
  '(payouts, clusters) ← foldM settle_cluster ([], []) (zip (zip groups weights) rewards);
  Ok (Settlement payouts clusters (sumZ payouts.*2)).
