(* ===== verification/RoyaltiesSpec.v ===== *)
(** * Royalties: the budget is paid out exactly *)

From Stdlib Require Import QArith Qround Lqa.
From S2P Require Import Prelude Wire Strings Ledger Royalties.
Local Open Scope Z_scope.

(** ** Sums *)

Lemma sumZ_app l k : sumZ (l ++ k) = sumZ l + sumZ k.
Proof. induction l as [|x l IH]; [done|]. simpl. rewrite IH. lia. Qed.
Lemma sumZ_zeros {A} (l : list A) : sumZ (map (λ _, 0) l) = 0.
Proof. induction l; simpl; lia. Qed.
Lemma sumQ_nonneg l : Forall (λ q, 0 <= q)%Q l → (0 <= sumQ l)%Q.
Proof. induction 1 as [|q l Hq _ IH]; simpl; [done|lra]. Qed.
Lemma sumQ_pos l : Forall (λ q, 0 <= q)%Q l → (0 < sumQ l)%Q ↔ ∃ q, q ∈ l ∧ (0 < q)%Q.
Proof.
  induction 1 as [|q l Hq Hl IH]; simpl.
  - split; [intros H; by apply Qlt_irrefl in H|by intros (? & []%elem_of_nil & _)].
  - pose proof (sumQ_nonneg l Hl). split.
    + intros H1. destruct (Qlt_le_dec 0 q) as [Hp|Hn]; [exists q; split; [left|done]|].
      destruct (proj1 IH) as (x & Hx & Hp); [lra|]. exists x. split; [by right|done].
    + intros (x & [->|Hx]%elem_of_cons & Hp); [lra|]. assert (0 < sumQ l)%Q by (apply IH; eauto). lra.
Qed.
Lemma sumQ_scale c l : (sumQ (map (λ q, c * q) l) == c * sumQ l)%Q.
Proof. induction l as [|q l IH]; simpl; [ring|]. rewrite IH. ring. Qed.
Lemma Qltb_lt a b : Qltb a b = true ↔ (a < b)%Q.
Proof.
  unfold Qltb. rewrite negb_true_iff. split.
  - intros H. apply Qnot_le_lt. intros Hle%Qle_bool_iff. congruence.
  - intros H. apply not_true_iff_false. intros Hle%Qle_bool_iff. by apply Qlt_not_le in H.
Qed.

(** The floors fall short of the sum by less than one each. *)
Lemma floors_short l : let short := (sumQ l - inject_Z (sumZ (map Qfloor l)))%Q in
  (0 <= short <= inject_Z (Z.of_nat (length l)))%Q.
Proof.
  cbv zeta. induction l as [|q l IH]; [simpl; split; discriminate|]. cbn [sumQ foldr map sumZ length] in *.
  fold (sumQ l) in *. fold (sumZ (map Qfloor l)) in *. rewrite Nat2Z.inj_succ, <- Z.add_1_l, !inject_Z_plus.
  pose proof (Qfloor_le q). pose proof (Qlt_floor q) as Hlt. rewrite inject_Z_plus in Hlt. change (inject_Z 1) with 1%Q in *. lra.
Qed.

(** ** Largest remainders *)

Lemma filter_seq_perm (W : list nat) n : NoDup W → (∀ i, i ∈ W → (i < n)%nat) →
  List.filter (λ i, existsb (Nat.eqb i) W) (seq 0 n) ≡ₚ W.
Proof.
  intros HW Hlt. apply NoDup_Permutation; [apply NoDup_ListNoDup, List.NoDup_filter, seq_NoDup|done|]. intros i.
  rewrite list_elem_of_In, filter_In, existsb_exists. split.
  - intros [_ (j & Hj & ->%Nat.eqb_eq)]. by apply list_elem_of_In.
  - intros Hi. split; [apply in_seq; pose proof (Hlt i Hi); lia|]. exists i. split; [by apply list_elem_of_In|apply Nat.eqb_refl].
Qed.

Lemma sumZ_imap (w : nat → bool) l : ∀ k, sumZ (imap (λ i r, if w (k + i)%nat then r + 1 else r) l) =
  sumZ l + Z.of_nat (length (List.filter w (seq k (length l)))).
Proof.
  induction l as [|r l IH]; intros k; [done|]. rewrite imap_cons. cbn [sumZ foldr seq List.filter length].
  fold (sumZ l). rewrite Nat.add_0_r. specialize (IH (S k)).
  assert (imap ((λ i r, if w (k + i)%nat then r + 1 else r) ∘ S) l = imap (λ i r, if w (S k + i)%nat then r + 1 else r) l) as ->.
  { apply imap_ext. intros i x _. simpl. by rewrite Nat.add_succ_r. }
  fold (sumZ (imap (λ i r, if w (S k + i)%nat then r + 1 else r) l)). rewrite IH. destruct (w k); simpl length; lia.
Qed.

Lemma apportion_sum total quotas order : (sumQ quotas == inject_Z total)%Q → order ≡ₚ seq 0 (length quotas) →
  sumZ (apportion total quotas order) = total ∧ length (apportion total quotas order) = length quotas ∧
  ∀ i q r, quotas !! i = Some q → apportion total quotas order !! i = Some r → Qfloor q <= r <= Qfloor q + 1.
Proof.
  intros Hsum Hord. unfold apportion. set (floors := map Qfloor quotas). set (left := total - sumZ floors).
  assert (Hleft : 0 <= left <= Z.of_nat (length quotas)).
  { destruct (floors_short quotas) as [H1 H2]. fold floors in H1, H2. rewrite Hsum in H1, H2. unfold left.
    assert (E : (inject_Z total - inject_Z (sumZ floors) == inject_Z (total - sumZ floors))%Q).
    { unfold Qminus. by rewrite <- inject_Z_opp, <- inject_Z_plus. }
    rewrite E in H1, H2. change 0%Q with (inject_Z 0) in H1. rewrite <- Zle_Qle in H1, H2. done. }
  set (W := slice_to left order).
  assert (HW : NoDup W ∧ (∀ i, i ∈ W → (i < length quotas)%nat) ∧ length W = Z.to_nat left).
  { unfold W, slice_to. rewrite (proj2 (Z.ltb_ge _ _)) by lia. pose proof (Permutation_length Hord) as Hlen. rewrite length_seq in Hlen.
    split_and!.
    - eapply sublist_NoDup; [|apply sublist_take]. rewrite Hord. apply NoDup_seq.
    - intros i Hi%elem_of_take. destruct Hi as (j & Hj & _). apply list_elem_of_lookup_2 in Hj. rewrite Hord in Hj.
      apply list_elem_of_In, in_seq in Hj. lia.
    - rewrite length_take. lia. }
  destruct HW as (HW1 & HW2 & HW3). assert (Hfl : length floors = length quotas) by apply length_map. split_and!.
  - pose proof (sumZ_imap (λ i, existsb (Nat.eqb i) W) floors 0) as E. cbn [Nat.add] in E. rewrite E, Hfl.
    rewrite (Permutation_length (filter_seq_perm W _ HW1 HW2)), HW3. unfold left in *. lia.
  - by rewrite length_imap.
  - intros i q r Hq Hr. rewrite list_lookup_imap in Hr. unfold floors in Hr.
    change (map Qfloor quotas) with (Qfloor <$> quotas) in Hr. rewrite list_lookup_fmap, Hq in Hr. cbn in Hr. injection Hr as <-.
    destruct (existsb _ _); lia.
Qed.

(** ** Groups *)

Lemma split_groups_perm {A} f (l : list A) yes no : split_groups f l = Ok (yes, no) → l ≡ₚ yes ++ no.
Proof.
  revert yes no. induction l as [|g l IH]; intros yes no H; cbn [split_groups] in H; [by injection H as <- <-|].
  bind H as b _. bind H as [y n] Hr. destruct b; injection H as <- <-; rewrite (IH _ _ Hr); [done|].
  by rewrite Permutation_middle.
Qed.

Definition grouping (offers : list offer) (groups : list (list offer)) : Prop :=
  concat groups ≡ₚ offers ∧ Forall (λ g, g ≠ []) groups.

Lemma add_offer_grouping values thr groups o groups' done_ : grouping done_ groups → add_offer values thr groups o = Ok groups' →
  grouping (o :: done_) groups'.
Proof.
  intros [Hp Hne] H. unfold add_offer in H. bind H as [] _. bind H as [yes no] Hs. injection H as <-.
  apply split_groups_perm in Hs. rewrite Hs in Hne. apply Forall_app in Hne as [_ Hno]. split.
  - rewrite concat_app. simpl. rewrite app_nil_r, <- Permutation_middle. constructor. rewrite <- Hp.
    rewrite (Permutation_app_comm (concat no)), <- concat_app. clear -Hs. revert Hs. generalize (yes ++ no). intros k Hs.
    induction Hs; simpl; [done|by apply Permutation_app_head| |by etrans].
    rewrite !app_assoc. by apply Permutation_app_tail, Permutation_app_comm.
  - apply Forall_app. split; [done|by constructor].
Qed.
Lemma groups_grouping values thr offers : ∀ groups groups' done_, grouping done_ groups →
  foldM (add_offer values thr) groups offers = Ok groups' → grouping (rev offers ++ done_) groups'.
Proof.
  induction offers as [|o offers IH]; intros groups groups' done_ Hg H; cbn [foldM] in H; [by injection H as <-|].
  bind H as g1 H1. simpl. rewrite <- app_assoc. simpl. eapply IH; [|exact H]. by eapply add_offer_grouping.
Qed.

(** ** Weights *)

Lemma Qmax_of_spec a b : (a <= Qmax_of a b)%Q ∧ (b <= Qmax_of a b)%Q ∧ (Qmax_of a b = a ∨ Qmax_of a b = b).
Proof.
  unfold Qmax_of. destruct (Qle_bool a b) eqn:E; [apply Qle_bool_iff in E; split_and!; [done|apply Qle_refl|by right]|].
  assert (b < a)%Q by (apply Qltb_lt; unfold Qltb; by rewrite E). split_and!; [apply Qle_refl|by apply Qlt_le_weak|by left].
Qed.
Lemma fold_max_spec vs : ∀ v, (v <= foldl Qmax_of v vs)%Q ∧ (∀ x, x ∈ vs → (x <= foldl Qmax_of v vs)%Q) ∧
  (foldl Qmax_of v vs = v ∨ foldl Qmax_of v vs ∈ vs).
Proof.
  induction vs as [|x vs IH]; intros v; simpl.
  - split_and!; [apply Qle_refl|by intros ? []%elem_of_nil|by left].
  - destruct (Qmax_of_spec v x) as (M1 & M2 & M3). destruct (IH (Qmax_of v x)) as (I1 & I2 & I3). split_and!.
    + by eapply Qle_trans.
    + intros y [->|Hy]%elem_of_cons; [by eapply Qle_trans|auto].
    + destruct I3 as [->|I3]; [|right; by right]. destruct M3 as [->| ->]; [by left|right; left].
Qed.
Lemma weight_spec values g : g ≠ [] → (0 <= weight values g)%Q ∧ ((0 < weight values g)%Q ↔ ∃ o, o ∈ g ∧ (0 < value_of values o)%Q).
Proof.
  intros Hne. unfold weight. destruct g as [|o g]; [done|]. simpl map. cbn iota beta.
  destruct (fold_max_spec (map (value_of values) g) (value_of values o)) as (F1 & F2 & F3).
  destruct (Qmax_of_spec 0 (foldl Qmax_of (value_of values o) (map (value_of values) g))) as (M1 & M2 & M3). split; [done|]. split.
  - intros Hp. destruct M3 as [M3|M3]; rewrite M3 in Hp; [by apply Qlt_irrefl in Hp|].
    destruct F3 as [F3|F3]; [rewrite F3 in Hp; exists o; split; [left|done]|].
    apply list_elem_of_In, in_map_iff in F3 as (o' & E & Hin). exists o'. split; [right; by apply list_elem_of_In|by rewrite E].
  - intros (o' & Hin & Hp). eapply Qlt_le_trans; [exact Hp|]. eapply Qle_trans; [|exact M2].
    apply elem_of_cons in Hin as [->|Hin]; [done|]. apply F2, list_elem_of_In, in_map_iff. exists o'. split; [done|by apply list_elem_of_In].
Qed.

(** ** Payouts *)

Lemma pay_sum acc sa : sumZ (pay acc sa).*2 = sumZ acc.*2 + sa.2.
Proof.
  unfold pay. destruct sa as [s a]. cbn [fst snd]. induction acc as [|[k x] acc IH]; [simpl; lia|].
  cbn [assoc assoc_set fmap list_fmap snd]. destruct (String.eqb s k); cbn [fmap list_fmap snd sumZ foldr default].
  - unfold sumZ, id. lia.
  - unfold sumZ, default in *. rewrite IH. unfold id in *. lia.
Qed.
Lemma pays_sum rewards : ∀ acc, sumZ (foldl pay acc rewards).*2 = sumZ acc.*2 + sumZ rewards.*2.
Proof.
  induction rewards as [|sa rewards IH]; intros acc; cbn [foldl fmap list_fmap]; [simpl; lia|].
  change (sumZ (sa.2 :: rewards.*2)) with (sa.2 + sumZ rewards.*2). rewrite IH, pay_sum. lia.
Qed.
Lemma zip_snd {A B} (l : list A) (k : list B) : length l = length k → (zip l k).*2 = k.
Proof. revert k. induction l as [|x l IH]; intros [|y k] H; try done. simpl. f_equal. apply IH. by injection H. Qed.

Lemma stakes_pos group : ∀ s s', Forall (λ x, 1 <= x) s.*2 → foldM add_stake s group = Ok s' →
  Forall (λ x, 1 <= x) s'.*2 ∧ (s ≠ [] ∨ group ≠ [] → s' ≠ []).
Proof.
  induction group as [|o group IH]; intros s s' Hs H; cbn [foldM] in H; [injection H as <-; split; [done|naive_solver]|].
  bind H as s1 H1. unfold add_stake in H1. bind H1 as stake Hst. injection H1 as <-.
  unfold count in Hst. bind Hst as [] Hr%require_Ok. injection Hst as <-.
  assert (Hs1 : Forall (λ x, 1 <= x) (assoc_set (seller o) (default 0 (assoc (seller o) s) + default 1 (stake_cents o)) s).*2 ∧
    assoc_set (seller o) (default 0 (assoc (seller o) s) + default 1 (stake_cents o)) s ≠ []).
  { set (d := default 1 (stake_cents o)) in *. assert (1 <= d) by lia. clear -Hs H0.
    assert (Hd : 0 <= default 0 (assoc (seller o) s)).
    { clear H0. induction s as [|[k x] s IH]; [done|]. simpl in *. apply Forall_cons in Hs as [Hx Hs].
      destruct (String.eqb _ _); [simpl; lia|auto]. }
    revert Hd. generalize (default 0 (assoc (seller o) s)). intros b Hb. split; [|by destruct s as [|[k x] s]; simpl; [|destruct (String.eqb _ _)]].
    induction s as [|[k x] s IH]; simpl in *; [constructor; [lia|constructor]|]. apply Forall_cons in Hs as [Hx Hs].
    destruct (String.eqb _ _); simpl; constructor; auto; lia. }
  destruct (IH _ _ (proj1 Hs1) H) as [I1 I2]. split; [done|]. intros _. apply I2. left. apply Hs1.
Qed.

Lemma sumZ_perm l k : l ≡ₚ k → sumZ l = sumZ k.
Proof. induction 1; simpl; lia. Qed.
Lemma sumZ_pos l : Forall (λ x, 1 <= x) l → l ≠ [] → 0 < sumZ l.
Proof.
  intros H Hne. destruct H as [|x l Hx H]; [done|]. assert (0 <= sumZ l); [|simpl; fold (sumZ l); lia].
  clear -H. induction H; simpl; [lia|]. fold (sumZ l). lia.
Qed.

Lemma seller_quotas_sum reward st : 0 < sumZ st.*2 → (sumQ (seller_quotas reward st) == inject_Z reward)%Q.
Proof.
  intros Ht. unfold seller_quotas. set (T := sumZ st.*2) in *.
  assert (HT : ¬ (inject_Z T == 0)%Q) by (change 0%Q with (inject_Z 0); rewrite inject_Z_injective; lia).
  assert (Hg : ∀ l, (sumQ (map (λ s : string * Z, inject_Z (reward * s.2) / inject_Z T) l) ==
    inject_Z (reward * sumZ l.*2) / inject_Z T)%Q).
  { induction l as [|x l IH]; cbn [map sumQ foldr fmap list_fmap sumZ]; [rewrite Z.mul_0_r; field; done|].
    fold (sumQ (map (λ s : string * Z, inject_Z (reward * s.2) / inject_Z T) l)%Q). rewrite IH. fold (sumZ l.*2).
    rewrite Z.mul_add_distr_l, inject_Z_plus. field. done. }
  rewrite Hg. fold T. rewrite inject_Z_mult. field. done.
Qed.

(** A cluster's reward is paid out to its sellers to the last cent. *)
Lemma seller_rewards_sum reward st : Forall (λ x, 1 <= x) st.*2 → st ≠ [] → sumZ (seller_rewards reward st).*2 = reward.
Proof.
  intros Hall Hne. assert (Ht : 0 < sumZ st.*2) by (apply sumZ_pos; [done|by destruct st]).
  destruct (apportion_sum reward (seller_quotas reward st) (sort_by (seller_before st (seller_quotas reward st)) (seq 0 (length st))))
    as (H1 & H2 & _).
  - by apply seller_quotas_sum.
  - unfold seller_quotas at 2. rewrite length_map. apply sort_by_Permutation.
  - unfold seller_rewards. rewrite zip_snd; [done|]. rewrite H2. unfold seller_quotas. by rewrite !length_map.
Qed.

Lemma settle_cluster_sum acc g w reward acc' : g ≠ [] → settle_cluster acc (g, w, reward) = Ok acc' →
  sumZ acc'.1.*2 = sumZ acc.1.*2 + reward ∧ ∃ c, acc'.2 = acc.2 ++ [c] ∧ reward_cents c = reward ∧ interventional_value c = w.
Proof.
  intros Hg H. unfold settle_cluster in H. bind H as s Hs. cbv zeta in H. injection H as <-.
  destruct (stakes_pos g [] s) as [Hpos Hne]; [constructor|done|]. specialize (Hne (or_intror Hg)). split; [|by eexists].
  cbn [fst]. destruct (Z.eqb_spec reward 0) as [->|Hr]; [lia|]. rewrite pays_sum. f_equal.
  assert (Hp : by_key s ≡ₚ s) by apply sort_by_Permutation. apply seller_rewards_sum.
  - by rewrite Hp.
  - intros E. rewrite E in Hp. apply Permutation_nil in Hp. congruence.
Qed.

Lemma settle_all_sum groups : ∀ weights rewards acc acc', length weights = length groups → length rewards = length groups →
  Forall (λ g, g ≠ []) groups → foldM settle_cluster acc (zip (zip groups weights) rewards) = Ok acc' →
  sumZ acc'.1.*2 = sumZ acc.1.*2 + sumZ rewards ∧
  ∃ cs, acc'.2 = acc.2 ++ cs ∧ map reward_cents cs = rewards ∧ map interventional_value cs = weights.
Proof.
  induction groups as [|g groups IH]; intros [|w weights] [|r rewards] acc acc' Hw Hr Hall H; try done.
  - injection H as <-. split; [simpl; lia|]. exists []. by rewrite app_nil_r.
  - cbn [zip zip_with foldM] in H. bind H as acc1 H1. apply Forall_cons in Hall as [Hg Hall].
    destruct (settle_cluster_sum _ _ _ _ _ Hg H1) as (S1 & c & S2 & S3 & S4).
    destruct (IH weights rewards acc1 acc') as (I1 & cs & I2 & I3 & I4); [by injection Hw|by injection Hr|done|done|].
    split; [change (sumZ (r :: rewards)) with (r + sumZ rewards); lia|].
    exists (c :: cs). rewrite I2, S2, <- app_assoc. simpl. by rewrite S3, S4, I3, I4.
Qed.

Lemma cluster_rewards_sum budget groups weights : length weights = length groups → 
  length (cluster_rewards budget groups weights) = length groups ∧
  sumZ (cluster_rewards budget groups weights) = (if Qltb 0 (sumQ weights) && (0 <? budget) then budget else 0) ∧
  (Qltb 0 (sumQ weights) && (0 <? budget) = true → ∀ i w r, weights !! i = Some w → cluster_rewards budget groups weights !! i = Some r →
     let share := (inject_Z budget * w / sumQ weights)%Q in Qfloor share <= r <= Qfloor share + 1).
Proof.
  intros Hlen. unfold cluster_rewards. destruct (Qltb 0 (sumQ weights) && (0 <? budget)) eqn:E.
  - apply andb_prop in E as [Hpos%Qltb_lt _]. cbv zeta.
    set (quotas := cluster_quotas budget weights).
    assert (Hq : length quotas = length groups) by (unfold quotas, cluster_quotas; by rewrite length_map).
    destruct (apportion_sum budget quotas (sort_by (cluster_before groups quotas) (seq 0 (length groups)))) as (H1 & H2 & H3).
    + unfold quotas, cluster_quotas. assert (Hne : ¬ (sumQ weights == 0)%Q) by (intros E; rewrite E in Hpos; by apply Qlt_irrefl in Hpos).
      assert (Hg : ∀ l, (sumQ (map (λ w, inject_Z budget * w / sumQ weights) l) == inject_Z budget / sumQ weights * sumQ l)%Q).
      { induction l as [|x l IH]; cbn [map sumQ foldr]; [field; done|].
        fold (sumQ (map (λ w, inject_Z budget * w / sumQ weights) l)%Q). rewrite IH. fold (sumQ l). field. done. }
      rewrite Hg. field. done.
    + rewrite Hq. apply sort_by_Permutation.
    + split_and!; [by rewrite H2|done|]. intros _ i w r Hw Hr. eapply H3; [|exact Hr]. unfold quotas, cluster_quotas.
      change (map ?f weights) with (f <$> weights). by rewrite list_lookup_fmap, Hw.
  - split_and!; [apply length_map|apply sumZ_zeros|done].
Qed.

(** C40: royalties pay out the whole budget to the cent when some listing has
    a positive value, and nothing otherwise; each cluster's reward is its
    proportional share of the budget rounded down or up. *)
Theorem royalties_conserve offers values budget threshold s : royalties offers values budget threshold = Ok s →
  paid_cents s = (if existsb (λ o, Qltb 0 (value_of values o)) offers then budget else 0) ∧
  paid_cents s = sumZ (map reward_cents (clusters s)) ∧
  (0 < paid_cents s → ∀ c, c ∈ clusters s →
     let share := (inject_Z budget * interventional_value c / sumQ (map interventional_value (clusters s)))%Q in
     Qfloor share <= reward_cents c <= Qfloor share + 1).
Proof.
  intros H. unfold royalties in H. bind H as n _. bind H as b Hb. bind H as [] _. bind H as groups Hgroups. cbv zeta in H.
  set (gs := sort_by _ groups) in *. bind H as [ps cls] Hset. injection H as <-. cbn [paid_cents clusters].
  unfold count in Hb. bind Hb as [] Hbud%require_Ok.
  destruct (groups_grouping values threshold offers [] groups []) as [Hp Hne]; [by split; [|constructor]|done|]. rewrite app_nil_r in Hp.
  assert (Hgs : gs ≡ₚ groups) by apply sort_by_Permutation.
  assert (Hne' : Forall (λ g, g ≠ []) gs) by (by rewrite Hgs).
  assert (Hoff : concat gs ≡ₚ offers) by (rewrite (concat_perm _ _ Hgs), Hp; symmetry; apply Permutation_rev).
  set (weights := map (weight values) gs) in *. assert (Hw : length weights = length gs) by apply length_map.
  destruct (cluster_rewards_sum budget gs weights Hw) as (C1 & C2 & C3).
  destruct (settle_all_sum _ _ _ _ _ Hw C1 Hne' Hset) as (S1 & cs & S2 & S3 & S4). cbn [fst snd] in S1, S2. simpl in S2. subst cls.
  assert (Hpos : Qltb 0 (sumQ weights) = existsb (λ o, Qltb 0 (value_of values o)) offers).
  { apply eq_true_iff_eq. rewrite Qltb_lt, existsb_exists, sumQ_pos.
    - unfold weights. split.
      + intros (q & Hq & Hlt). apply list_elem_of_In, in_map_iff in Hq as (g & <- & Hg%list_elem_of_In).
        rewrite Forall_forall in Hne'. apply weight_spec in Hlt as (o & Ho & Hlt); [|by apply Hne'].
        exists o. split; [|by apply Qltb_lt]. apply list_elem_of_In. rewrite <- Hoff. apply list_elem_of_In, in_concat.
        exists g. split; by apply list_elem_of_In.
      + intros (o & Ho%list_elem_of_In & Hlt%Qltb_lt). rewrite <- Hoff in Ho. apply list_elem_of_In, in_concat in Ho as (g & Hg & Ho).
        exists (weight values g). split; [apply list_elem_of_In, in_map_iff; eauto|].
        rewrite Forall_forall in Hne'. apply weight_spec; [by apply Hne', list_elem_of_In|]. exists o. split; [by apply list_elem_of_In|done].
    - unfold weights. apply Forall_forall. intros q Hq. apply list_elem_of_In, in_map_iff in Hq as (g & <- & Hg%list_elem_of_In).
      rewrite Forall_forall in Hne'. by apply weight_spec, Hne'. }
  rewrite S1, C2, S3, S4. change (sumZ [].*2) with 0. rewrite Hpos in *. split_and!.
  - destruct (existsb _ _); [|done]. cbn [andb]. destruct (Z.ltb_spec 0 budget); lia.
  - rewrite C2. lia.
  - intros Hpaid c [i Hi]%list_elem_of_lookup. destruct (existsb _ _ && (0 <? budget)) eqn:E; [|lia].
    apply (C3 eq_refl i).
    + rewrite <- S4. change (map ?f cs) with (f <$> cs). by rewrite list_lookup_fmap, Hi.
    + rewrite <- S3. change (map ?f cs) with (f <$> cs). by rewrite list_lookup_fmap, Hi.
Qed.

(** ** Witness: two copies of a listing and an original one *)

Definition demo_offers : list offer :=
  [Offer "a" "ann" (repeat 7 16) None; Offer "b" "bob" (repeat 7 16) (Some 3); Offer "c" "cid" (repeat 9 16) (Some 5)]%string.
Definition demo_values : list (string * Q) := [("a"%string, 1 # 2); ("c"%string, 1 # 4)]%Q.
Definition demo_settlement : settlement :=
  match royalties demo_offers demo_values 100 (4 # 5)%Q with Ok s => s | Err _ => Settlement [] [] 0 end.

Example demo_payouts : payouts demo_settlement = [("ann", 17); ("bob", 50); ("cid", 33)]%string.
Proof. vm_compute. reflexivity. Qed.

Lemma royalties_conserve_witness : paid_cents demo_settlement = 100.
Proof.
  assert (H : royalties demo_offers demo_values 100 (4 # 5)%Q = Ok demo_settlement) by (vm_compute; reflexivity).
  destruct (royalties_conserve _ _ _ _ _ H) as [E _]. rewrite E. vm_compute. reflexivity.
Defined.
