(* ===== verification/Shield.v ===== *)
(** * The robot shield's temporal-logic monitor ([unimem/robotics/shield.py])

    Formulas are validated and normalized from JSON; the monitor computes
    their robustness at a sample of a trace, counting its work.  Floats are
    the members of a class that states what the monitor relies on of binary64:
    a total order, a subtraction whose sign is right and the two neighbours of
    a number; any addition will do.  [check] around the monitor asks the
    recovery registry and clock and is left out. *)

From S2P Require Import Prelude Sha256 Wire Origin Journal Strings Number Ledger Vda.
Local Open Scope Z_scope.

Definition MAX_MONITOR_WORK : Z := 1000000.
Definition MAX_FORMULA_NODES : Z := 256.

(** ** Formulas *)

Inductive comparison := Ge | Gt | Le | Lt.

(** Numbers stay JSON floats, as [fp.number] leaves them. *)
Inductive formula :=
  | Predicate (signal : string) (cmp : comparison) (value : json)
  | Always (from to : json) (arg : formula)
  | Eventually (from to : json) (arg : formula)
  | Until (from to : json) (left right : formula).

Definition cmp_of (v : json) : res pyexn comparison :=
  match v with
  | JStr ">=" => Ok Ge | JStr ">" => Ok Gt | JStr "<=" => Ok Le | JStr "<" => Ok Lt
  | _ => Err ValueError
  end.

(** [re.fullmatch(r"[a-zA-Z][a-zA-Z0-9_.-]*", signal)] *)
Definition in_span (lo hi : nat) (c : ascii) : bool := (lo <=? nat_of_ascii c)%nat && (nat_of_ascii c <=? hi)%nat.
Definition is_alpha (c : ascii) : bool := in_span 97 122 c || in_span 65 90 c.
Definition signal_char (c : ascii) : bool :=
  is_alpha c || in_span 48 57 c || Ascii.eqb c "_" || Ascii.eqb c "." || Ascii.eqb c "-".
Definition signal_ok (s : string) : bool :=
  match str_bytes s with c :: l => is_alpha c && forallb signal_char l | [] => false end.

Definition not_below (a b : json) : bool :=
  match num_value a, num_value b with Some x, Some y => dec_leb y x | _, _ => false end.
Definition has_keys (ks : list string) (node : json) : bool :=
  (length (jkeys node) =? length ks)%nat && forallb (λ k, mem k (jkeys node)) ks.
Definition interval (node : json) : res pyexn (json * json) :=
  f ← item "from" node; start ← number f 0 1000000;
  t ← item "to" node; end_ ← number t 0 1000000;
  require (not_below end_ start) ValueError;; Ok (start, end_).

(** The fuel is more than the depth allowed. *)
Fixpoint _formula_f (fuel : nat) (node : json) (depth work : Z) : res pyexn (formula * Z) :=
  let work := work + 1 in
  require (work <=? MAX_FORMULA_NODES) ValueError;;
  require ((depth <=? 16) && is_obj node) ValueError;;
  op ← match jget "op" node with Some (JStr op) => Ok op | _ => Err ValueError end;
  match fuel with
  | O => Err RecursionError
  | S fuel' =>
      if String.eqb op "predicate" then
        require (has_keys ["op"; "signal"; "cmp"; "value"]%string node) ValueError;;
        s ← item "signal" node; signal ← text_json s 96;
        require (signal_ok signal) ValueError;;
        c ← item "cmp" node; cmp ← cmp_of c;
        v ← item "value" node; value ← number v (-1000000000000) 1000000000000;
        Ok (Predicate signal cmp value, work)
      else if mem op ["always"; "eventually"]%string then
        require (has_keys ["op"; "from"; "to"; "arg"]%string node) ValueError;;
        '(start, end_) ← interval node;
        a ← item "arg" node; '(arg, work) ← _formula_f fuel' a (depth + 1) work;
        Ok (if String.eqb op "always" then Always start end_ arg else Eventually start end_ arg, work)
      else if String.eqb op "until" then
        require (has_keys ["op"; "from"; "to"; "left"; "right"]%string node) ValueError;;
        '(start, end_) ← interval node;
        l ← item "left" node; '(lhs, work) ← _formula_f fuel' l (depth + 1) work;
        r ← item "right" node; '(rhs, work) ← _formula_f fuel' r (depth + 1) work;
        Ok (Until start end_ lhs rhs, work)
      else Err ValueError
  end.
Definition _formula (node : json) : res pyexn formula := '(f, _) ← _formula_f 18 node 0 0; Ok f.

(** The normalized formula as the JSON that is stored. *)
Definition cmp_text (c : comparison) : string := match c with Ge => ">=" | Gt => ">" | Le => "<=" | Lt => "<" end.
Fixpoint formula_json (f : formula) : json :=
  match f with
  | Predicate s c v => JObj [("op", JStr "predicate"); ("signal", JStr s); ("cmp", JStr (cmp_text c)); ("value", v)]%string
  | Always a b g => JObj [("op", JStr "always"); ("from", a); ("to", b); ("arg", formula_json g)]%string
  | Eventually a b g => JObj [("op", JStr "eventually"); ("from", a); ("to", b); ("arg", formula_json g)]%string
  | Until a b l r => JObj [("op", JStr "until"); ("from", a); ("to", b); ("left", formula_json l); ("right", formula_json r)]%string
  end.

(** ** Floats

    The floats that are not NaN, and [of_json] the float of a formula's
    number.  [fadd], [fsub] and [next_up] are Python's [+], [-] and
    [math.nextafter] towards infinity. *)

Class Floats (F : Type) := {
  of_json : json → F;
  finite : F → bool;
  zero : F; pos_inf : F; neg_inf : F;
  fadd : F → F → F;
  fsub : F → F → F;
  next_up : F → F;
  next_down : F → F;
  fleb : F → F → bool;
}.
Class FloatLaws (F : Type) `{Floats F} := {
  fleb_refl : ∀ a, fleb a a = true;
  fleb_trans : ∀ a b c, fleb a b = true → fleb b c = true → fleb a c = true;
  fleb_total : ∀ a b, fleb a b = true ∨ fleb b a = true;
  zero_inf : fleb zero pos_inf = true ∧ fleb zero neg_inf = false;
  sub_sign : ∀ a b, finite a = true → finite b = true → fleb zero (fsub a b) = fleb b a;
  next_up_least : ∀ a b, finite a = true → fleb (next_up a) b = negb (fleb b a);
  next_down_greatest : ∀ a b, finite a = true → fleb b (next_down a) = negb (fleb a b);
  threshold_finite : ∀ u v, number u (-1000000000000) 1000000000000 = Ok v →
    finite (of_json v) = true ∧ finite (next_up (of_json v)) = true ∧ finite (next_down (of_json v)) = true;
}.

(** ** The monitor *)

Inductive stl_exn := Raised (e : pyexn) | MonitorBudgetExceeded | IncompleteTelemetry.

Section monitor.
Context {F} `{FL : Floats F}.

Definition flt (a b : F) : bool := negb (fleb b a).
(** [min(a, b)] and [max(a, b)] keep the first of equals. *)
Definition fmin (a b : F) : F := if flt b a then b else a.
Definition fmax (a b : F) : F := if flt a b then b else a.

(** A sample: its time and its signals. *)
Definition sample : Type := F * list (string * F).
Definition times (trace : list sample) : list F := trace.*1.
(** [trace[index[at]]] *)
Definition row_at (trace : list sample) (at_ : F) : option (list (string * F)) :=
  snd <$> List.find (λ s, fleb s.1 at_ && fleb at_ s.1) trace.

(** [bisect_left] and [bisect_right] of a sorted list. *)
Fixpoint bisect_left (l : list F) (x : F) : nat :=
  match l with y :: l' => if flt y x then S (bisect_left l' x) else O | [] => O end.
Fixpoint bisect_right (l : list F) (x : F) : nat :=
  match l with y :: l' => if fleb y x then S (bisect_right l' x) else O | [] => O end.
Definition slice (lo hi : nat) (l : list F) : list F := take (hi - lo) (drop lo l).

Definition monitored := res stl_exn (F * Z).

(** [min(f(t) for t in l)] and [max(...)], threading the work. *)
Fixpoint fold_best (pick : F → F → F) (f : F → Z → monitored) (best : F) (l : list F) (work : Z) : monitored :=
  match l with
  | [] => Ok (best, work)
  | t :: l' => '(v, work) ← f t work; fold_best pick f (pick best v) l' work
  end.
Definition best_of (pick : F → F → F) (f : F → Z → monitored) (l : list F) (work : Z) : monitored :=
  match l with
  | [] => Err (Raised ValueError)
  | t :: l' => '(v, work) ← f t work; fold_best pick f v l' work
  end.

(** The loop of [until] over the samples from [at] to the end of the
    interval; [start] is its lower bound. *)
Fixpoint until_loop (left right : F → Z → monitored) (start : F) (l : list F) (best prefix : F) (work : Z) : monitored :=
  match l with
  | [] => Ok (best, work)
  | t :: l' =>
      '(best, work) ← (if fleb start t then '(r, work) ← right t work; Ok (fmax best (fmin prefix r), work)
                       else Ok (best, work));
      '(prefix, work) ← match l' with
        | [] => Ok (prefix, work)
        | _ => '(r, work) ← left t work; Ok (fmin prefix r, work)
        end;
      until_loop left right start l' best prefix work
  end.

Definition predicate_robust (cmp : comparison) (value threshold : F) : F :=
  match cmp with
  | Ge => fsub value threshold
  | Gt => fsub value (next_up threshold)
  | Le => fsub threshold value
  | Lt => fsub (next_down threshold) value
  end.

Definition in_time (trace : list sample) (at_ to : F) : bool :=
  match last (times trace) with Some t => fleb (fadd at_ to) t | None => false end.
Definition window (trace : list sample) (at_ from to : F) : list F :=
  slice (bisect_left (times trace) (fadd at_ from)) (bisect_right (times trace) (fadd at_ to)) (times trace).

Fixpoint _robust (node : formula) (trace : list sample) (at_ : F) (work : Z) : monitored :=
  let work := work + 1 in
  require (work <=? MAX_MONITOR_WORK) MonitorBudgetExceeded;;
  match node with
  | Predicate signal cmp v =>
      row ← get_or (row_at trace at_) (Raised KeyError);
      value ← get_or (assoc signal row) (Raised ValueError);
      Ok (predicate_robust cmp value (of_json v), work)
  | Always a b g =>
      require (in_time trace at_ (of_json b)) IncompleteTelemetry;;
      best_of fmin (λ t w, _robust g trace t w) (window trace at_ (of_json a) (of_json b)) work
  | Eventually a b g =>
      require (in_time trace at_ (of_json b)) IncompleteTelemetry;;
      best_of fmax (λ t w, _robust g trace t w) (window trace at_ (of_json a) (of_json b)) work
  | Until a b l r =>
      require (in_time trace at_ (of_json b)) IncompleteTelemetry;;
      require (negb (bool_decide (length (window trace at_ (of_json a) (of_json b)) = 0%nat))) (Raised ValueError);;
      until_loop (λ t w, _robust l trace t w) (λ t w, _robust r trace t w) (fadd at_ (of_json a))
        (slice (bisect_left (times trace) at_) (bisect_right (times trace) (fadd at_ (of_json b))) (times trace))
        neg_inf pos_inf work
  end.

(** [{str(k): number(v) for k, v in row.items() if k != "t"}] *)
Definition clean_values (kvs : list (string * json)) : res pyexn (list (string * F)) :=
  mapR (λ kv : string * json, v ← number kv.2 (-1000000000000) 1000000000000; Ok (kv.1, of_json v))
    (List.filter (λ kv : string * json, negb (String.eqb kv.1 "t")) kvs).
(** The samples of [check], their times strictly after [last] and increasing. *)
Fixpoint clean_rows (last : option F) (rows : list json) : res pyexn (list sample) :=
  match rows with
  | [] => Ok []
  | row :: rows' =>
      kvs ← match row with JObj kvs => Ok kvs | _ => Err ValueError end;
      t ← get_or (jget "t" row) ValueError; t ← number t 0 1000000000;
      require (match last with Some u => flt u (of_json t) | None => true end) ValueError;;
      values ← clean_values kvs;
      later ← clean_rows (Some (of_json t)) rows'; Ok ((of_json t, values) :: later)
  end.
Definition clean_trace (trace : json) : res pyexn (list sample) :=
  match trace with
  | JList rows => require ((1 <=? Z.of_nat (length rows)) && (Z.of_nat (length rows) <=? 100000)) ValueError;; clean_rows None rows
  | _ => Err ValueError
  end.

(** The verdict of [check] on a trace whose first sample is at [at]. *)
Inductive verdict := Safe | Violated | BudgetExceeded | Incomplete.
Definition verdict_of (spec : formula) (trace : list sample) (at_ : F) : res pyexn (verdict * option F) :=
  match _robust spec trace at_ 0 with
  | Ok (r, _) => Ok (if fleb zero r then Safe else Violated, Some r)
  | Err MonitorBudgetExceeded => Ok (BudgetExceeded, None)
  | Err IncompleteTelemetry => Ok (Incomplete, None)
  | Err (Raised e) => Err e
  end.
End monitor.

(** ** The registry of specifications *)

Section registry.
Context {St} `{LG : Ledger St}.
Variable now : string.

Definition JOURNAL : string := "robot-shield.jsonl".

(** [re.fullmatch(r"[a-z][a-z0-9_-]{0,95}", spec_id)] *)
Definition spec_char (c : ascii) : bool := in_span 97 122 c || in_span 48 57 c || Ascii.eqb c "_" || Ascii.eqb c "-".
Definition spec_ok (s : string) : bool :=
  match str_bytes s with c :: l => in_span 97 122 c && (length l <=? 95)%nat && forallb spec_char l | [] => false end.

Definition is_spec (row : json) : bool := bool_decide (jget "type" row = Some (JStr "spec")).
Definition names_spec (spec_id : string) (row : json) : res pyexn bool :=
  if is_spec row then i ← item "spec_id" row; Ok (bool_decide (i = JStr spec_id)) else Ok false.
(** [any(...)] *)
Fixpoint any_row (f : json → res pyexn bool) (rows : list json) : res pyexn bool :=
  match rows with [] => Ok false | r :: rows' => b ← f r; if (b : bool) then Ok true else any_row f rows' end.

Definition register (s : St) (spec_id : string) (node : json) (memory_id embodiment description : string) : res pyexn (json * St) :=
  _ ← text spec_id 96;
  require (spec_ok spec_id) ValueError;;
  normalized ← _formula node;
  _ ← text memory_id 256; _ ← text embodiment 96; _ ← text description 1024;
  rows ← journal s JOURNAL;
  known ← any_row (names_spec spec_id) rows;
  require (negb known) ValueError;;
  '(signed, s) ← append s JOURNAL
    (JObj [("type", JStr "spec"); ("spec_id", JStr spec_id); ("formula", formula_json normalized);
           ("memory_id", JStr memory_id); ("embodiment", JStr embodiment); ("description", JStr description);
           ("at", JStr now)]%string);
  record ← item "record" signed; Ok (record, s).

Definition list_specs (s : St) : res pyexn (list json) := rows ← journal s JOURNAL; Ok (List.filter is_spec rows).
End registry.
