(* ===== verification/ShieldSpec.v ===== *)
(** * The shield's monitor: the sign of the robustness is satisfaction *)

From S2P Require Import Prelude Wire Number Ledger Vda Shield.
Local Open Scope Z_scope.

Section laws.
Context {F} {FO : Floats F} {FL : FloatLaws F}.
Implicit Types (t x y : F) (l : list F) (trace : list (@sample F)).

Lemma flt_false x y : flt x y = false ↔ fleb y x = true.
Proof. unfold flt. by rewrite negb_false_iff. Qed.
Lemma flt_true x y : flt x y = true ↔ fleb y x = false.
Proof. unfold flt. by rewrite negb_true_iff. Qed.
Lemma flt_leb x y : flt x y = true → fleb x y = true.
Proof. rewrite flt_true. destruct (fleb_total x y); congruence. Qed.
Lemma leb_flt_trans x y t : fleb x y = true → flt y t = true → flt x t = true.
Proof.
  rewrite !flt_true. intros H1 H2. destruct (fleb t x) eqn:E; [|done]. by rewrite (fleb_trans _ _ _ E H1) in H2.
Qed.
Lemma flt_leb_trans x y t : flt x y = true → fleb y t = true → flt x t = true.
Proof.
  rewrite !flt_true. intros H1 H2. destruct (fleb t x) eqn:E; [|done]. by rewrite (fleb_trans _ _ _ H2 E) in H1.
Qed.

Lemma fmin_sign a b : fleb zero (fmin a b) = fleb zero a && fleb zero b.
Proof.
  apply eq_true_iff_eq. unfold fmin. rewrite andb_true_iff. destruct (flt b a) eqn:E.
  - apply flt_leb in E. split; [|tauto]. intros H. split; [by eapply fleb_trans|done].
  - apply flt_false in E. split; [|tauto]. intros H. split; [done|by eapply fleb_trans].
Qed.
Lemma fmax_sign a b : fleb zero (fmax a b) = fleb zero a || fleb zero b.
Proof.
  apply eq_true_iff_eq. unfold fmax. rewrite orb_true_iff. destruct (flt a b) eqn:E.
  - apply flt_leb in E. split; [tauto|]. intros [H|H]; [by eapply fleb_trans|done].
  - apply flt_false in E. split; [tauto|]. intros [H|H]; [done|by eapply fleb_trans].
Qed.

(** ** Windows of a trace *)

(** The times strictly increase. *)
Definition increasing l : Prop := StronglySorted (λ x y, flt x y = true) l.

Lemma bisect_left_zero x l : Forall (λ y, fleb x y = true) l → bisect_left l x = 0%nat.
Proof. intros [|y k Hy _]; [done|]. simpl. unfold flt. by rewrite Hy. Qed.

Lemma slice_between l x y : increasing l →
  slice (bisect_left l x) (bisect_right l y) l = List.filter (λ t, fleb x t && fleb t y) l.
Proof.
  intros Hl. unfold slice. rewrite take_drop_commute.
  transitivity (drop (bisect_left l x) (take (bisect_right l y) l)).
  { destruct (decide (bisect_left l x ≤ bisect_right l y)%nat) as [H|H]; [do 2 f_equal; lia|].
    rewrite !drop_ge; [done| |]; rewrite length_take; lia. }
  induction Hl as [|t l Hl IH Hlt]; [done|]. simpl.
  assert (Hup : fleb t y = false → List.filter (λ t, fleb x t && fleb t y) l = []).
  { intros Ey. apply filter_none. eapply Forall_impl; [apply Hlt|]. intros s Hs. apply andb_false_iff. right.
    destruct (fleb s y) eqn:E; [|done]. apply flt_leb in Hs. by rewrite (fleb_trans _ _ _ Hs E) in Ey. }
  unfold flt at 1. destruct (fleb x t) eqn:Ex; simpl.
  - rewrite drop_0. destruct (fleb t y) eqn:Ey; simpl; [|by rewrite Hup]. f_equal. rewrite <- IH.
    rewrite bisect_left_zero; [by rewrite drop_0|]. eapply Forall_impl; [apply Hlt|]. intros s Hs.
    apply flt_leb in Hs. by eapply fleb_trans.
  - destruct (fleb t y) eqn:Ey; simpl; [done|by rewrite Hup].
Qed.
Lemma between_spec l x y t : t ∈ List.filter (λ t, fleb x t && fleb t y) l ↔ t ∈ l ∧ fleb x t = true ∧ fleb t y = true.
Proof. rewrite list_elem_of_In, filter_In, andb_true_iff, <- list_elem_of_In. done. Qed.
Lemma window_spec trace at_ from to t : increasing (times trace) →
  t ∈ window trace at_ from to ↔ t ∈ times trace ∧ fleb (fadd at_ from) t = true ∧ fleb t (fadd at_ to) = true.
Proof. intros H. unfold window. by rewrite slice_between, between_spec. Qed.
Lemma increasing_filter (f : F → bool) l : increasing l → increasing (List.filter f l).
Proof.
  induction 1 as [|t l _ IH Hlt]; [constructor|]. simpl. destruct (f t); [|done]. constructor; [done|].
  rewrite Forall_forall in Hlt |- *. intros s Hs%list_elem_of_In. apply filter_In in Hs as [Hs _]. apply Hlt. by apply list_elem_of_In.
Qed.

(** ** Satisfaction *)

Definition compares (cmp : comparison) (value threshold : F) : bool :=
  match cmp with
  | Ge => fleb threshold value
  | Gt => flt threshold value
  | Le => fleb value threshold
  | Lt => flt value threshold
  end.

(** Bounded-time STL over the samples. *)
Fixpoint sat (node : formula) (trace : list sample) (at_ : F) : Prop :=
  match node with
  | Predicate signal cmp v => ∃ row value, row_at trace at_ = Some row ∧ assoc signal row = Some value ∧
      compares cmp value (of_json v) = true
  | Always a b g => ∀ t, t ∈ times trace → fleb (fadd at_ (of_json a)) t = true → fleb t (fadd at_ (of_json b)) = true →
      sat g trace t
  | Eventually a b g => ∃ t, t ∈ times trace ∧ fleb (fadd at_ (of_json a)) t = true ∧
      fleb t (fadd at_ (of_json b)) = true ∧ sat g trace t
  | Until a b l r => ∃ t, t ∈ times trace ∧ fleb at_ t = true ∧ fleb (fadd at_ (of_json a)) t = true ∧
      fleb t (fadd at_ (of_json b)) = true ∧ sat r trace t ∧
      ∀ s, s ∈ times trace → fleb at_ s = true → flt s t = true → sat l trace s
  end.

(** The thresholds are what [number] returned. *)
Fixpoint normalized (node : formula) : Prop :=
  match node with
  | Predicate _ _ v => ∃ u, number u (-1000000000000) 1000000000000 = Ok v
  | Always _ _ g | Eventually _ _ g => normalized g
  | Until _ _ l r => normalized l ∧ normalized r
  end.
Lemma formula_normalized fuel : ∀ node depth work f w, _formula_f fuel node depth work = Ok (f, w) → normalized f.
Proof.
  induction fuel as [|fuel IH]; intros node depth work f w H; cbn [_formula_f] in H; [by res_inv|].
  bind H as ? Hw. bind H as ? Hd. bind H as op Hop.
  repeat first [progress res_inv | match goal with x : _ * _ |- _ => destruct x end | case_match]; simpl; eauto.
Qed.

Lemma accepted_normalized node f : _formula node = Ok f → normalized f.
Proof.
  unfold _formula. generalize 18%nat as fuel. intros fuel H. bind H as [g w] Hf. injection H as <-.
  by eapply formula_normalized.
Qed.

(** Every signal of the trace is a finite number. *)
Definition finite_signals (trace : list (@sample F)) : Prop :=
  Forall (λ s, Forall (λ p, finite p.2 = true) s.2) trace.
Lemma signal_finite (trace : list sample) at_ row signal value : finite_signals trace →
  row_at trace at_ = Some row → assoc signal row = Some value → finite value = true.
Proof.
  unfold finite_signals, row_at. rewrite Forall_forall. intros Hfin Hrow Hval. apply fmap_Some in Hrow as (s & Hs & ->).
  apply find_some in Hs as [Hs _]. apply list_elem_of_In, Hfin in Hs. rewrite Forall_forall in Hs.
  apply assoc_elem in Hval. by apply (Hs _ Hval).
Qed.

Lemma predicate_sign cmp value v u : number u (-1000000000000) 1000000000000 = Ok v → finite value = true →
  fleb zero (predicate_robust cmp value (of_json v)) = compares cmp value (of_json v).
Proof.
  intros Hv Hfin. apply threshold_finite in Hv as (? & ? & ?).
  destruct cmp; simpl; rewrite sub_sign by done; [done|by apply next_up_least|done|by apply next_down_greatest].
Qed.

(** ** The loops *)

(** A monitored function whose sign decides [P], counting its work. *)
Definition decides (f : F → Z → monitored) (P : F → Prop) : Prop := ∀ t w r w', f t w = Ok (r, w') →
  (fleb zero r = true ↔ P t) ∧ w < w' ∧ w' <= MAX_MONITOR_WORK.

Lemma fold_best_min f P l : decides f P → ∀ best w r w', fold_best fmin f best l w = Ok (r, w') → w <= MAX_MONITOR_WORK →
  (fleb zero r = true ↔ fleb zero best = true ∧ ∀ t, t ∈ l → P t) ∧ w <= w' ∧ w' <= MAX_MONITOR_WORK.
Proof.
  intros Hf. induction l as [|t l IH]; intros best w r w'; simpl.
  - intros [= -> ->] ?. split; [|lia]. split; [intros H1; split; [done|intros ? []%elem_of_nil]|tauto].
  - intros H Hw. bind H as [v w1] Hv. destruct (Hf _ _ _ _ Hv) as (HP & Hlt & Hm).
    destruct (IH _ _ _ _ H Hm) as [E ?]. split; [|lia]. rewrite E, fmin_sign, andb_true_iff, HP. setoid_rewrite elem_of_cons.
    naive_solver.
Qed.
Lemma fold_best_max f P l : decides f P → ∀ best w r w', fold_best fmax f best l w = Ok (r, w') → w <= MAX_MONITOR_WORK →
  (fleb zero r = true ↔ fleb zero best = true ∨ ∃ t, t ∈ l ∧ P t) ∧ w <= w' ∧ w' <= MAX_MONITOR_WORK.
Proof.
  intros Hf. induction l as [|t l IH]; intros best w r w'; simpl.
  - intros [= -> ->] ?. split; [|lia]. split; [tauto|]. intros [H1|(? & []%elem_of_nil & _)]. done.
  - intros H Hw. bind H as [v w1] Hv. destruct (Hf _ _ _ _ Hv) as (HP & Hlt & Hm).
    destruct (IH _ _ _ _ H Hm) as [E ?]. split; [|lia]. rewrite E, fmax_sign, orb_true_iff, HP. setoid_rewrite elem_of_cons.
    naive_solver.
Qed.
Lemma best_of_min f P l w r w' : decides f P → best_of fmin f l w = Ok (r, w') →
  (fleb zero r = true ↔ ∀ t, t ∈ l → P t) ∧ w < w' ∧ w' <= MAX_MONITOR_WORK.
Proof.
  intros Hf. destruct l as [|t l]; [done|]. cbn [best_of]. intros H. bind H as [v w1] Hv.
  destruct (Hf _ _ _ _ Hv) as (HP & Hlt & Hm). destruct (fold_best_min _ _ _ Hf _ _ _ _ H Hm) as [E ?].
  split; [|lia]. rewrite E, HP. setoid_rewrite elem_of_cons. naive_solver.
Qed.
Lemma best_of_max f P l w r w' : decides f P → best_of fmax f l w = Ok (r, w') →
  (fleb zero r = true ↔ ∃ t, t ∈ l ∧ P t) ∧ w < w' ∧ w' <= MAX_MONITOR_WORK.
Proof.
  intros Hf. destruct l as [|t l]; [done|]. cbn [best_of]. intros H. bind H as [v w1] Hv.
  destruct (Hf _ _ _ _ Hv) as (HP & Hlt & Hm). destruct (fold_best_max _ _ _ Hf _ _ _ _ H Hm) as [E ?].
  split; [|lia]. rewrite E, HP. setoid_rewrite elem_of_cons. naive_solver.
Qed.

Lemma flt_irrefl x : flt x x = false.
Proof. apply flt_false, fleb_refl. Qed.
Lemma flt_asym x y : flt x y = true → flt y x = false.
Proof. intros H. apply flt_false. by apply flt_leb. Qed.

(** Some sample from [start] on has [PR], and all those before it [PL]. *)
Definition reached (PL PR : F → Prop) (start : F) (l : list F) : Prop :=
  ∃ t, t ∈ l ∧ fleb start t = true ∧ PR t ∧ ∀ s, s ∈ l → flt s t = true → PL s.

Lemma reached_cons PL PR start t l : increasing (t :: l) →
  reached PL PR start (t :: l) ↔ (fleb start t = true ∧ PR t) ∨ (l ≠ [] ∧ PL t ∧ reached PL PR start l).
Proof.
  intros [_ Hlt]%StronglySorted_inv. rewrite Forall_forall in Hlt. unfold reached. setoid_rewrite elem_of_cons. split.
  - intros (s & [->|Hs] & Hst & HR & HL); [by left|]. right. split_and!.
    + intros ->. by apply elem_of_nil in Hs.
    + apply HL; [by left|by apply Hlt].
    + exists s. split_and!; try done. intros u Hu. apply HL. by right.
  - intros [[Hst HR]|(_ & HL & s & Hs & Hst & HR & HLs)].
    + exists t. split_and!; [by left|done|done|]. intros s [->|Hs] Hst'; [by rewrite flt_irrefl in Hst'|].
      rewrite (flt_asym t s) in Hst'; [done|]. by apply Hlt.
    + exists s. split_and!; [by right|done|done|]. intros u [->|Hu] Hus; [done|by apply HLs].
Qed.

Lemma until_loop_sign left right PL PR start : decides left PL → decides right PR → ∀ l, increasing l →
  ∀ best prefix w r w', until_loop left right start l best prefix w = Ok (r, w') → w <= MAX_MONITOR_WORK →
  (fleb zero r = true ↔ fleb zero best = true ∨ fleb zero prefix = true ∧ reached PL PR start l) ∧
  w <= w' ∧ w' <= MAX_MONITOR_WORK.
Proof.
  intros Hl Hr l Hinc. induction l as [|t l IH]; intros best prefix w r w' H Hw; simpl in H.
  { injection H as -> ->. split; [|lia]. split; [tauto|]. intros [H|[_ (? & []%elem_of_nil & _)]]; done. }
  rewrite (reached_cons _ _ _ _ _ Hinc). apply StronglySorted_inv in Hinc as [Hinc _].
  bind H as [best' w1] Hbest. bind H as [prefix' w2] Hprefix.
  assert (Hb : (fleb zero best' = true ↔ fleb zero best = true ∨ fleb zero prefix = true ∧ fleb start t = true ∧ PR t) ∧
    w <= w1 <= MAX_MONITOR_WORK).
  { destruct (fleb start t); [|injection Hbest as -> ->; split; [split; [by left|by intros [?|(_ & ? & _)]]|lia]].
    bind Hbest as [v w3] Hv. injection Hbest as <- ->. destruct (Hr _ _ _ _ Hv) as (HP & ? & ?). split; [|lia].
    rewrite fmax_sign, fmin_sign, orb_true_iff, andb_true_iff, HP. tauto. }
  assert (Hp : (fleb zero prefix' = true ↔ fleb zero prefix = true ∧ (l = [] ∨ PL t)) ∧ w1 <= w2 <= MAX_MONITOR_WORK).
  { destruct l as [|t' l']; [injection Hprefix as -> ->; split; [tauto|lia]|].
    bind Hprefix as [v w3] Hv. injection Hprefix as <- ->. destruct (Hl _ _ _ _ Hv) as (HP & ? & ?). split; [|lia].
    rewrite fmin_sign, andb_true_iff, HP. assert (t' :: l' ≠ []) by done. tauto. }
  destruct (IH Hinc _ _ _ _ _ H ltac:(lia)) as [E ?]. split; [|lia]. rewrite E, (proj1 Hb), (proj1 Hp).
  assert (l = [] → ¬ reached PL PR start l) by (intros -> (? & []%elem_of_nil & _)).
  destruct l as [|t' l']; [tauto|]. assert (t' :: l' ≠ []) by done. tauto.
Qed.

(** ** The monitor *)

Lemma reached_slice PL PR start l x y : increasing l →
  reached PL PR start (List.filter (λ t, fleb x t && fleb t y) l) ↔
  ∃ t, t ∈ l ∧ fleb x t = true ∧ fleb start t = true ∧ fleb t y = true ∧ PR t ∧
    ∀ s, s ∈ l → fleb x s = true → flt s t = true → PL s.
Proof.
  intros _. unfold reached. setoid_rewrite between_spec. split.
  - intros (t & (Ht & Hx & Hy) & Hst & HR & HL). exists t. split_and!; try done. intros s Hs Hxs Hlt.
    apply HL; [|done]. split_and!; [done|done|]. apply flt_leb in Hlt. by eapply fleb_trans.
  - intros (t & Ht & Hx & Hst & Hy & HR & HL). exists t. split_and!; try done. intros s (Hs & Hxs & _). by apply HL.
Qed.

Lemma inf_signs : fleb zero pos_inf = true ∧ fleb zero neg_inf = false.
Proof. apply zero_inf. Qed.

Lemma robust_decides (trace : list sample) : increasing (times trace) → finite_signals trace →
  ∀ node, normalized node → decides (λ t w, _robust node trace t w) (sat node trace).
Proof.
  intros Hinc Hfin node. induction node as [signal cmp v|a b g IH|a b g IH|a b l IHl r IHr]; intros Hn at_ w x w' H;
    simpl in Hn, H; destruct (Z.leb_spec (w + 1) MAX_MONITOR_WORK) as [Hw|]; try done; cbn [require mbind res_bind] in H.
  - bind H as row Hrow. bind H as value Hval. injection H as <- <-. apply get_or_Ok in Hrow, Hval. destruct Hn as [u Hu].
    split; [|lia]. rewrite (predicate_sign _ _ _ _ Hu) by by eapply signal_finite. simpl. split; [eauto|].
    intros (row' & value' & Hrow' & Hval' & Hc). congruence.
  - destruct (in_time _ _ _); [|done]. cbn [require mbind res_bind] in H. apply (best_of_min _ _ _ _ _ _ (IH Hn)) in H as [E ?].
    split; [|lia]. rewrite E. simpl. setoid_rewrite window_spec; [|done]. naive_solver.
  - destruct (in_time _ _ _); [|done]. cbn [require mbind res_bind] in H. apply (best_of_max _ _ _ _ _ _ (IH Hn)) in H as [E ?].
    split; [|lia]. rewrite E. simpl. setoid_rewrite window_spec; [|done]. naive_solver.
  - destruct Hn as [Hl Hr]. destruct (in_time _ _ _); [|done]. destruct (bool_decide _); [done|].
    cbn [require negb mbind res_bind] in H. rewrite slice_between in H by done.
    apply (until_loop_sign _ _ _ _ _ (IHl Hl) (IHr Hr)) in H as [E ?]; [|by apply increasing_filter|lia].
    split; [|lia]. rewrite E, reached_slice by done. destruct inf_signs as [-> ->]. simpl.
    split; [by intros [?|[_ Hsat]]|by right].
Qed.

(** ** What the trace must hold for a verdict *)

(** The trace covers every interval, which holds a sample, and the signals are
    there at every sample looked at. *)
Fixpoint covers (node : formula) (trace : list sample) (at_ : F) : Prop :=
  match node with
  | Predicate signal _ _ => ∃ row value, row_at trace at_ = Some row ∧ assoc signal row = Some value
  | Always a b g | Eventually a b g => in_time trace at_ (of_json b) = true ∧
      window trace at_ (of_json a) (of_json b) ≠ [] ∧ ∀ t, t ∈ window trace at_ (of_json a) (of_json b) → covers g trace t
  | Until a b l r => in_time trace at_ (of_json b) = true ∧ window trace at_ (of_json a) (of_json b) ≠ [] ∧
      ∀ t, t ∈ times trace → covers l trace t ∧ covers r trace t
  end.

(** Evaluation ends with a value, unless the budget runs out. *)
Definition ends (x : monitored (F := F)) : Prop := x = Err MonitorBudgetExceeded ∨ ∃ p, x = Ok p.
Lemma ends_bind (x : res stl_exn (F * Z)) (k : F * Z → res stl_exn (F * Z)) : ends x → (∀ p, ends (k p)) → ends (x ≫= k).
Proof. intros [->|[p ->]] H; [by left|apply H]. Qed.

Lemma fold_best_ends pick f l : (∀ t, t ∈ l → ∀ w, ends (f t w)) → ∀ best w, ends (fold_best pick f best l w).
Proof.
  induction l as [|t l IH]; intros Hf best w; simpl; [right; eauto|].
  apply ends_bind; [apply Hf; left|]. intros [v w1]. apply IH. intros s Hs. apply Hf. by right.
Qed.
Lemma best_of_ends pick f l w : l ≠ [] → (∀ t, t ∈ l → ∀ w, ends (f t w)) → ends (best_of pick f l w).
Proof.
  destruct l as [|t l]; [done|]. intros _ Hf. simpl. apply ends_bind; [apply Hf; left|]. intros [v w1].
  apply fold_best_ends. intros s Hs. apply Hf. by right.
Qed.
Lemma until_loop_ends left right start l : (∀ t, t ∈ l → ∀ w, ends (left t w) ∧ ends (right t w)) →
  ∀ best prefix w, ends (until_loop left right start l best prefix w).
Proof.
  induction l as [|t l IH]; intros Hf best prefix w; simpl; [right; eauto|]. apply ends_bind.
  { destruct (fleb start t); [|right; eauto]. apply ends_bind; [apply Hf; left|]. intros []; right; eauto. }
  intros [best' w1]. apply ends_bind.
  { destruct l; [right; eauto|]. apply ends_bind; [apply Hf; left|]. intros []; right; eauto. }
  intros [prefix' w2]. apply IH. intros s Hs. apply Hf. by right.
Qed.

Lemma slice_incl lo hi l t : t ∈ slice lo hi l → t ∈ l.
Proof.
  unfold slice. intros H%elem_of_take. destruct H as (i & H & _). apply list_elem_of_lookup_2 in H.
  rewrite <- (take_drop lo l), elem_of_app. by right.
Qed.

Lemma robust_ends (trace : list sample) node : ∀ at_, covers node trace at_ → ∀ w, ends (_robust node trace at_ w).
Proof.
  induction node as [signal cmp v|a b g IH|a b g IH|a b l IHl r IHr]; intros at_ Hc w; simpl in *;
    (destruct (w + 1 <=? MAX_MONITOR_WORK); [|by left]); cbn [require mbind res_bind].
  - destruct Hc as (row & value & -> & Hv). simpl. rewrite Hv. right. eauto.
  - destruct Hc as (-> & Hne & Hall). cbn [require mbind res_bind]. apply best_of_ends; eauto.
  - destruct Hc as (-> & Hne & Hall). cbn [require mbind res_bind]. apply best_of_ends; eauto.
  - destruct Hc as (-> & Hne & Hall). cbn [require mbind res_bind]. rewrite bool_decide_eq_false_2.
    + apply until_loop_ends. intros t Ht%slice_incl w'. destruct (Hall t Ht). split; [by apply IHl|by apply IHr].
    + intros E%nil_length_inv. done.
Qed.

(** ** The trace [check] cleaned *)

Lemma clean_values_finite kvs vs : clean_values kvs = Ok vs → Forall (λ p : string * F, finite p.2 = true) vs.
Proof.
  unfold clean_values. intros H%mapR_Ok_Forall2. eapply Forall2_Forall_r; [exact H|]. apply Forall_forall. intros kv _ p Hp.
  bind Hp as v Hn. injection Hp as <-. by apply threshold_finite in Hn as [? _].
Qed.
Lemma clean_rows_ok rows : ∀ last trace, clean_rows last rows = Ok trace →
  increasing (times trace) ∧ finite_signals trace ∧
  match last with Some u => Forall (λ t, flt u t = true) (times trace) | None => True end.
Proof.
  induction rows as [|row rows IH]; intros last trace H; cbn [clean_rows] in H.
  { injection H as <-. split_and!; [constructor|constructor|]. destruct last; [constructor|done]. }
  bind H as kvs Hkvs. bind H as t0 Ht0. bind H as t Ht. bind H as [] Hlast. bind H as values Hv. bind H as later Hl.
  injection H as <-. destruct (IH _ _ Hl) as (Hinc & Hfin & Hlater). apply clean_values_finite in Hv. split_and!.
  - constructor; done.
  - constructor; done.
  - destruct last as [u|]; [|done]. apply require_Ok in Hlast. constructor; [done|].
    eapply Forall_impl; [exact Hlater|]. intros s Hs. simpl in Hs. apply flt_leb in Hs. by eapply flt_leb_trans.
Qed.
Lemma clean_trace_ok v trace : clean_trace v = Ok trace → increasing (times trace) ∧ finite_signals trace.
Proof. destruct v; try done. simpl. intros H. bind H as [] Hlen. apply clean_rows_ok in H. tauto. Qed.

(** C29: the shield's verdict is right.  For a formula that [_formula] accepted
    and telemetry that [check] accepted, a [Safe] verdict means that the formula
    holds at a sample under bounded-time STL over the samples, a [Violated] one
    that it does not; and where the telemetry covers the formula the monitor
    never errs or asks for more of it: the verdict is one of these two, or the
    work budget was used up. *)
Theorem verdict_correct (spec telemetry : json) (phi : formula) (trace : list sample) at_ :
  _formula spec = Ok phi → clean_trace telemetry = Ok trace →
  (∀ v r, verdict_of phi trace at_ = Ok (v, r) → (v = Safe → sat phi trace at_) ∧ (v = Violated → ¬ sat phi trace at_)) ∧
  (covers phi trace at_ → ∃ v r, verdict_of phi trace at_ = Ok (v, r) ∧ (v = Safe ∨ v = Violated ∨ v = BudgetExceeded)).
Proof.
  intros Hf%accepted_normalized [Hinc Hfin]%clean_trace_ok. split.
  - unfold verdict_of. intros v r H. destruct (_robust phi trace at_ 0) as [[x w']|e] eqn:E.
    + destruct (robust_decides _ Hinc Hfin phi Hf _ _ _ _ E) as [Hsat _]. injection H as <- <-.
      destruct (fleb zero x); split; intros Hv; try done; [by apply Hsat|]. intros Hs. by apply Hsat in Hs.
    + destruct e; [done| |]; injection H as <- <-; done.
  - intros Hc. unfold verdict_of. destruct (robust_ends trace phi at_ Hc 0) as [->|[[x w'] ->]]; [by eauto 6|].
    destruct (fleb zero x); eauto 6.
Qed.
End laws.

(** ** An instance

    Whole numbers between two infinities. *)

Inductive ext := NInf | Fin (z : Z) | PInf.
Definition ext_leb (a b : ext) : bool :=
  match a, b with
  | NInf, _ | _, PInf => true
  | Fin x, Fin y => x <=? y
  | _, _ => false
  end.
Definition ext_fin (a : ext) : bool := match a with Fin _ => true | _ => false end.
Definition ext_map (f : Z → Z) (a : ext) : ext := match a with Fin x => Fin (f x) | _ => a end.
Definition ext_op (f : Z → Z → Z) (a b : ext) : ext := match a, b with Fin x, Fin y => Fin (f x y) | _, _ => Fin 0 end.
Definition floor_of (v : json) : Z :=
  match num_value v with
  | Some d => if expo d <? 0 then mantissa d / 10 ^ (- expo d) else mantissa d * 10 ^ expo d
  | None => 0
  end.
#[export] Instance ext_floats : Floats ext := {
  of_json v := Fin (floor_of v); finite := ext_fin; zero := Fin 0; pos_inf := PInf; neg_inf := NInf;
  fadd := ext_op Z.add; fsub := ext_op Z.sub; next_up := ext_map Z.succ; next_down := ext_map Z.pred; fleb := ext_leb;
}.
#[export] Instance ext_laws : FloatLaws ext.
Proof.
  split.
  - intros []; simpl; try done. apply Z.leb_refl.
  - intros [] [] []; simpl; try done. rewrite !Z.leb_le. lia.
  - intros [] []; simpl; auto. rewrite !Z.leb_le. lia.
  - done.
  - intros [] []; simpl; try done. intros _ _. apply eq_true_iff_eq. rewrite !Z.leb_le. lia.
  - intros [] []; simpl; try done. intros _. apply eq_true_iff_eq. rewrite negb_true_iff, Z.leb_le, Z.leb_gt. lia.
  - intros [] []; simpl; try done. intros _. apply eq_true_iff_eq. rewrite negb_true_iff, Z.leb_le, Z.leb_gt. lia.
  - done.
Qed.

(** "Within 10 units of time the arm stops, and until then the gripper holds". *)
Definition stop_spec : json := JObj [
  ("op", JStr "until"); ("from", JInt 0); ("to", JFloat "10.0");
  ("left", JObj [("op", JStr "predicate"); ("signal", JStr "grip"); ("cmp", JStr ">"); ("value", JFloat "5.0")]);
  ("right", JObj [("op", JStr "predicate"); ("signal", JStr "speed"); ("cmp", JStr "<="); ("value", JInt 0)])]%string.
Definition stop_phi : formula := Until (JFloat "0.0") (JFloat "10.0")
  (Predicate "grip" Gt (JFloat "5.0")) (Predicate "speed" Le (JFloat "0.0")).
Definition stop_sample (t grip speed : Z) : json := JObj [("t", JInt t); ("grip", JInt grip); ("speed", JInt speed)]%string.
Definition stop_telemetry (grip : Z) : json :=
  JList [stop_sample 0 7 3; stop_sample 4 grip 2; stop_sample 9 0 0; stop_sample 12 0 0].
Definition stop_trace (grip : Z) : list (@sample ext) :=
  [(Fin 0, [("grip", Fin 7); ("speed", Fin 3)]); (Fin 4, [("grip", Fin grip); ("speed", Fin 2)]);
   (Fin 9, [("grip", Fin 0); ("speed", Fin 0)]); (Fin 12, [("grip", Fin 0); ("speed", Fin 0)])]%string.

(** The grip of exactly 5 breaks the strict bound, 6 meets it. *)
Lemma verdict_witness :
  verdict_of stop_phi (stop_trace 6) (Fin 0) = Ok (Safe, Some (Fin 0)) ∧ sat stop_phi (stop_trace 6) (Fin 0) ∧
  verdict_of stop_phi (stop_trace 5) (Fin 0) = Ok (Violated, Some (Fin (-1))) ∧ ¬ sat stop_phi (stop_trace 5) (Fin 0).
Proof.
  assert (Hphi : _formula stop_spec = Ok stop_phi) by (vm_compute; reflexivity).
  assert (T6 : clean_trace (stop_telemetry 6) = Ok (stop_trace 6)) by (vm_compute; reflexivity).
  assert (T5 : clean_trace (stop_telemetry 5) = Ok (stop_trace 5)) by (vm_compute; reflexivity).
  assert (H6 : verdict_of stop_phi (stop_trace 6) (Fin 0) = Ok (Safe, Some (Fin 0))) by (vm_compute; reflexivity).
  assert (H5 : verdict_of stop_phi (stop_trace 5) (Fin 0) = Ok (Violated, Some (Fin (-1)))) by (vm_compute; reflexivity).
  split_and!; [exact H6| |exact H5|].
  - exact (proj1 (proj1 (verdict_correct _ _ _ _ _ Hphi T6) _ _ H6) eq_refl).
  - exact (proj2 (proj1 (verdict_correct _ _ _ _ _ Hphi T5) _ _ H5) eq_refl).
Defined.
