(* ===== verification/Effects.v ===== *)
(** * Effects: state that survives exceptions

    A Python operation that raises keeps what it had done to the state; a
    computation returns the state it leaves in both cases. *)

From S2P Require Import Prelude.

Definition io (S E A : Type) : Type := S → res E A * S.

#[export] Instance io_ret {S E} : MRet (io S E) := λ A a s, (Ok a, s).
#[export] Instance io_bind {S E} : MBind (io S E) := λ A B f m s,
  match m s with (Ok a, s') => f a s' | (Err e, s') => (Err e, s') end.

Section io.
Context {S E : Type}.

Definition raise {A} (e : E) : io S E A := λ s, (Err e, s).
Definition of_res {A} (r : res E A) : io S E A := λ s, (r, s).
Definition get : io S E S := λ s, (Ok s, s).
(** A read of the state that may raise. *)
Definition reader {A} (f : S → res E A) : io S E A := λ s, (f s, s).
Definition modify (f : S → S) : io S E () := λ s, (Ok tt, f s).
Definition when (b : bool) (m : io S E ()) : io S E () := if b then m else mret tt.

(** [try: m; except e: h(e)], where [h e = None] lets [e] pass. *)
Definition catch {A} (m : io S E A) (h : E → option (io S E A)) : io S E A := λ s,
  match m s with
  | (Err e, s') => match h e with Some k => k s' | None => (Err e, s') end
  | r => r
  end.
(** [try: m; except BaseException: h; raise] *)
Definition on_error {A} (m : io S E A) (h : io S E ()) : io S E A := catch m (λ e, Some (h;; raise e)).
(** [try: m; finally: h]: an exception of [h] replaces the outcome. *)
Definition finally {A} (m : io S E A) (h : io S E ()) : io S E A := λ s,
  let '(r, s1) := m s in match h s1 with (Ok _, s2) => (r, s2) | (Err e, s2) => (Err e, s2) end.

(** A computation on a part of the state. *)
Definition zoom {T A} (proj : S → T) (put : S → T → S) (m : io T E A) : io S E A := λ s,
  let '(r, t) := m (proj s) in (r, put s t).

Lemma io_bind_inv {A B} (m : io S E A) (f : A → io S E B) s r s' : (m ≫= f) s = (r, s') →
  (∃ a s1, m s = (Ok a, s1) ∧ f a s1 = (r, s')) ∨ (∃ e, m s = (Err e, s') ∧ r = Err e).
Proof. unfold mbind, io_bind. destruct (m s) as [[a|e] s1]; intros H; [left; eauto|right; simplify_eq; eauto]. Qed.
Lemma io_bind_ok {A B} (m : io S E A) (f : A → io S E B) s a s1 : m s = (Ok a, s1) → (m ≫= f) s = f a s1.
Proof. intros H. unfold mbind, io_bind. by rewrite H. Qed.
(** The steps of a run that returns. *)
Lemma run_bind {A B} (m : io S E A) (f : A → io S E B) s b s' : (m ≫= f) s = (Ok b, s') →
  ∃ a s1, m s = (Ok a, s1) ∧ f a s1 = (Ok b, s').
Proof. intros [H|(e & _ & [=])]%io_bind_inv. exact H. Qed.
Lemma run_res {A B} (r : res E A) (f : A → io S E B) s b s' : (of_res r ≫= f) s = (Ok b, s') →
  ∃ a, r = Ok a ∧ f a s = (Ok b, s').
Proof. intros (a & s1 & [= -> <-] & H)%run_bind. eauto. Qed.
Lemma of_res_inv {A} (r : res E A) s r' s' : of_res r s = (r', s') → r' = r ∧ s' = s.
Proof. intros [= <- <-]. done. Qed.
End io.

Section foreach.
Context {S E A : Type}.
(** [for x in l: f(x)] *)
Fixpoint foreach (f : A → io S E ()) (l : list A) : io S E () :=
  match l with [] => mret tt | x :: l' => f x;; foreach f l' end.

(** [for x in l: out.extend(f(x))] *)
Fixpoint collect {B} (f : A → io S E (list B)) (l : list A) : io S E (list B) :=
  match l with [] => mret [] | x :: l' => ys ← f x; zs ← collect f l'; mret (ys ++ zs) end.
End foreach.

(** ** Reasoning about computations that may raise *)

(** The outcome of [m] at [s]: [Q] on a return, [R] on an exception. *)
Definition holds {S E A} (m : io S E A) (s : S) (Q : A → S → Prop) (R : E → S → Prop) : Prop :=
  match m s with (Ok a, s') => Q a s' | (Err e, s') => R e s' end.

Section rules.
Context {S E : Type}.
Implicit Types s : S.

Lemma holds_mono {A} (m : io S E A) s (Q Q' : A → S → Prop) (R R' : E → S → Prop) :
  holds m s Q R → (∀ a s', Q a s' → Q' a s') → (∀ e s', R e s' → R' e s') → holds m s Q' R'.
Proof. unfold holds. destruct (m s) as [[a|e] s']; auto. Qed.
Lemma holds_bind {A B} (m : io S E A) (f : A → io S E B) s Q R :
  holds m s (λ a s', holds (f a) s' Q R) R → holds (m ≫= f) s Q R.
Proof. unfold holds, mbind, io_bind. by destruct (m s) as [[a|e] s']. Qed.
Lemma holds_ret {A} (a : A) s (Q : A → S → Prop) (R : E → S → Prop) : Q a s → holds (mret a) s Q R.
Proof. done. Qed.
Lemma holds_on_error {A} (m : io S E A) h s Q R :
  holds m s Q (λ e s', holds h s' (λ _ s2, R e s2) R) → holds (on_error m h) s Q R.
Proof.
  unfold holds, on_error, catch. destruct (m s) as [[a|e] s']; [done|].
  unfold mbind, io_bind, raise. by destruct (h s') as [[|] s2].
Qed.
Lemma holds_finally {A} (m : io S E A) h s (Q : A → S → Prop) (R : E → S → Prop) :
  holds m s (λ a s', holds h s' (λ _ s2, Q a s2) R) (λ e s', holds h s' (λ _ s2, R e s2) R) → holds (finally m h) s Q R.
Proof.
  unfold holds, finally. destruct (m s) as [[a|e] s']; by destruct (h s') as [[|] s2].
Qed.
Lemma holds_zoom {T A} (proj : S → T) put (m : io T E A) s (Q : A → S → Prop) R :
  holds m (proj s) (λ a t, Q a (put s t)) (λ e t, R e (put s t)) → holds (zoom proj put m) s Q R.
Proof. unfold holds, zoom. by destruct (m (proj s)) as [[|] t]. Qed.
Lemma holds_when b (m : io S E ()) s Q R :
  (b = true → holds m s Q R) → (b = false → Q tt s) → holds (when b m) s Q R.
Proof. destruct b; [auto|]. intros _ H. by apply H. Qed.
End rules.

Section more_rules.
Context {S E : Type}.
Implicit Types s : S.

Lemma holds_inv {A} (m : io S E A) s Q R r s' : holds m s Q R → m s = (r, s') →
  match r with Ok a => Q a s' | Err e => R e s' end.
Proof. unfold holds. intros H Hm. rewrite Hm in H. by destruct r. Qed.
Lemma holds_run {A} (m : io S E A) s (Q : A → S → Prop) (R : E → S → Prop) :
  (∀ a s', m s = (Ok a, s') → Q a s') → (∀ e s', m s = (Err e, s') → R e s') → holds m s Q R.
Proof. unfold holds. destruct (m s) as [[a|e] s']; auto. Qed.
Lemma holds_of_res {A} (r : res E A) s (Q : A → S → Prop) (R : E → S → Prop) :
  (∀ a, r = Ok a → Q a s) → (∀ e, r = Err e → R e s) → holds (of_res r) s Q R.
Proof. unfold holds, of_res. destruct r; auto. Qed.
Lemma holds_reader {A} (f : S → res E A) s (Q : A → S → Prop) (R : E → S → Prop) :
  (∀ a, f s = Ok a → Q a s) → (∀ e, f s = Err e → R e s) → holds (reader f) s Q R.
Proof. unfold holds, reader. destruct (f s); auto. Qed.

(** The rules of the loops: an invariant over what has been visited, and, for
    [collect], over what has been put out. *)
Lemma holds_collect {A B} (f : A → io S E (list B)) (I : list A → list B → S → Prop) (R : E → S → Prop) l s :
  I [] [] s →
  (∀ before x after out s, l = before ++ x :: after → I before out s →
     holds (f x) s (λ ys s', I (before ++ [x]) (out ++ ys) s') R) →
  holds (collect f l) s (λ out s', I l out s') R.
Proof.
  intros H0 Hf.
  assert (∀ after before out s, l = before ++ after → I before out s →
    holds (collect f after) s (λ ys s', I l (out ++ ys) s') R) as Hgen; [|by apply (Hgen l [] [])].
  induction after as [|x after IH]; intros before out s' El HI; simpl.
  - apply holds_ret. rewrite app_nil_r in El |- *. by subst.
  - apply holds_bind. eapply holds_mono; [by apply (Hf before x after)| |done]. intros ys s2 H2. simpl.
    apply holds_bind. eapply holds_mono; [apply (IH (before ++ [x]) (out ++ ys)); [by rewrite <- app_assoc|done]| |done].
    intros zs s3 H3. apply holds_ret. by rewrite app_assoc.
Qed.

Lemma holds_foreach {A} (f : A → io S E ()) (I : list A → S → Prop) (R : E → S → Prop) l s : I [] s →
  (∀ before x after s, l = before ++ x :: after → I before s → holds (f x) s (λ _ s', I (before ++ [x]) s') R) →
  holds (foreach f l) s (λ _ s', I l s') R.
Proof.
  intros H0 Hf.
  assert (∀ after before s, l = before ++ after → I before s → holds (foreach f after) s (λ _ s', I l s') R) as Hgen;
    [|by apply (Hgen l [])].
  induction after as [|x after IH]; intros before s' El HI; simpl.
  - apply holds_ret. rewrite app_nil_r in El. by subst.
  - apply holds_bind. eapply holds_mono; [by apply (Hf before x after)| |done]. intros [] s2 H2. simpl.
    apply (IH (before ++ [x])); [by rewrite <- app_assoc|done].
Qed.
End more_rules.

(** One read of a finished run: [look H as x Hx] names what was read and
    leaves the rest in [H]; the second goal, if there is one, is the run that
    raised there. *)
Tactic Notation "look" hyp(H) "as" simple_intropattern(x) simple_intropattern(Hx) :=
  let Hr := fresh "Hraised" in
  apply io_bind_inv in H as [(x & ? & [= Hx <-] & H)|(? & [= ? ->] & Hr)];
  [|first [discriminate Hr | injection Hr as ?; subst | subst]].

(** The first step of a run that returns: [run H as x s1 Hx] of any step,
    [step H as x Hx] of a computed one, [at_state H] of a read of the whole
    state or of an assignment. *)
Tactic Notation "run" hyp(H) "as" simple_intropattern(x) simple_intropattern(s) simple_intropattern(Hx) :=
  apply run_bind in H as (x & s & Hx & H).
Tactic Notation "step" hyp(H) "as" simple_intropattern(x) simple_intropattern(Hx) :=
  apply run_res in H as (x & Hx & H).
Ltac at_state H :=
  match type of H with
  | (mbind ?f get ?s = ?r) => change (f s s = r) in H
  | (mbind ?f (modify ?g) ?s = ?r) => change (f tt (g s) = r) in H
  end; cbv beta in H.
