(* ===== verification/ArtifactStore.v ===== *)
(** * Deletable artifact content ([unimem/nextwave_store.py])

    The journals of [Artifacts.v] keep an artifact's commitment, scopes and
    sources; the content is one file per digest, so an erasure can remove it.
    [put] and [get] write and read governed content, [_erase_sources] erases
    sources with everything derived from them.

    A world is the signed journals, the content files and the state of the
    other components.  What the store asks of those - policies, authority,
    tiers, holds, trajectories, model caches - is the interface [Around]: the
    questions read the world, the effects change their own part of it.
    [admit]'s own search through facts, lessons and trajectories and [traces]
    are behind it.  The rows read are those [put] and the erasure write, whose
    scopes and sources are lists of strings; local file operations succeed. *)

From S2P Require Import Prelude Sha256 Base64 Wire Origin Strings Number Journal Ledger Vda Merkle Lineage Artifacts Effects.
Local Open Scope Z_scope.

Definition MAX_BLOB : Z := 256 * 1024.
Definition MAX_TOTAL : Z := 64 * MAX_BYTES.

(** A content file: its parsed value when it is JSON, its size, whether it is
    a symbolic link. *)
Record blob := Blob { b_value : option json; b_size : Z; b_symlink : bool }.

(** The content files are under their kind and digest. *)
Abbreviation files := (gmap (string * string) blob).

Record world (St X : Type) := World { log : St; content : files; rest : X }.
Arguments World {St X} _ _ _.
Arguments log {St X} _.
Arguments content {St X} _.
Arguments rest {St X} _.

(** What the store asks of its surroundings. *)
Class Around (St X : Type) := {
  (** The files of the memory directory. *)
  directory : St → list string;
  (** [REQUIRED_PRINCIPAL_SCOPE], [is_operator], [tiering.assert_read]. *)
  principal_scope : X → string;
  is_operator : X → bool;
  assert_read : X → string → res pyexn ();
  (** [policy_io.assert_write], [policy_io.permits], [lineage_blocked] and the
      identities [admit] returns for a caller's context. *)
  assert_write : world St X → json → res pyexn ();
  permits : world St X → json → res pyexn bool;
  lineage_blocked : world St X → string → res pyexn bool;
  admit_sources : world St X → list string → list string → res pyexn (list string);
  (** [incident.assert_unpinned], [safety.assert_mutable]. *)
  assert_unpinned : world St X → list string → res pyexn ();
  assert_mutable : world St X → list string → res pyexn ();
  (** [record_forgetting], the rewrite of [origins.jsonl], [purge_cold], the
      removal of an exported skill's files and of a trajectory file. *)
  record_forgetting : world St X → string → res pyexn () * X;
  drop_origins : world St X → list string → res pyexn () * X;
  purge_cold : world St X → string → list string → res pyexn (list json) * X;
  remove_export : world St X → string → res pyexn () * X;
  remove_trace : world St X → json → res pyexn () * X;
  (** [_ERASURE_HOOKS] and [kv_capsules.evict_sources]. *)
  erasure_hooks : X → list string;
  run_hook : world St X → string → gset string → res pyexn () * X;
  evict_sources : world St X → list string → res pyexn (list json) * X;
}.

(** [tier-[a-f0-9]{32}] *)
Definition is_tier (kind : string) : bool :=
  String.prefix "tier-" kind && (Z.of_nat (String.length kind) =? 37)
  && forallb is_lower_hex (drop 5 (str_bytes kind)).

Definition strings_of (v : json) : res pyexn (list string) :=
  match v with
  | JList l => mapR (λ x, match x with JStr s => Ok s | _ => Err TypeError end) l
  | _ => Err TypeError
  end.
(** [row["scopes"]], [row.get("sources", [])] *)
Definition scopes_of (row : json) : res pyexn (list string) := v ← item "scopes" row; strings_of v.
Definition sources_of (row : json) : res pyexn (list string) := strings_of (get_list "sources" row).
Definition status_is (s : string) (row : json) : bool := bool_decide (jget "status" row = Some (JStr s)).

Definition is_reference (s : string) : bool := String.prefix "artifact:" s.

(** [s.split(":", 1)] *)
Fixpoint cut_colon (s : string) : string * option string :=
  match s with
  | "" => (""%string, None)
  | String c s' => if Ascii.eqb c ":" then (""%string, Some s') else let '(a, b) := cut_colon s' in (String c a, b)
  end%string.
(** [_, kind, id = source.split(":", 2)] *)
Definition split_reference (source : string) : res pyexn (string * string) :=
  match snd (cut_colon source) with
  | Some s => match cut_colon s with (kind, Some identity) => Ok (kind, identity) | _ => Err ValueError end
  | None => Err ValueError
  end.

Abbreviation key := (string * string)%type.
Fixpoint key_assoc {A} (k : key) (l : list (key * A)) : option A :=
  match l with [] => None | (k', x) :: l' => if decide (k = k') then Some x else key_assoc k l' end.

Section store.
Context `{LG : Ledger St, AR : !Around St X}.
Abbreviation world' := (world St X).

Definition set_log (w : world') (s : St) : world' := World s (content w) (rest w).
Definition set_content (w : world') (f : files) : world' := World (log w) f (rest w).
Definition set_rest (w : world') (x : X) : world' := World (log w) (content w) x.

Definition in_log {A} (f : St → res pyexn A) : io world' pyexn A := reader (λ w, f (log w)).
(** An effect of another component. *)
Definition effect {A} (f : world' → res pyexn A * X) : io world' pyexn A := λ w, let '(r, x) := f w in (r, set_rest w x).

Definition operator (w : world') : res pyexn () := require (is_operator (rest w)) PermissionError.

(** [_blob]: the name of a content file. *)
Definition _blob (w : world') (kind digest : string) : res pyexn key :=
  require (is_hash digest) ValueError;;
  k ← kind_name kind;
  require (negb (match content w !! (k, digest) with Some b => b_symlink b | None => false end)) ValueError;;
  Ok (k, digest).

(** [event] on the world. *)
Definition write_event (kind identity : string) (value : list (string * json)) : io world' pyexn json := λ w,
  match event (log w) kind identity value with
  | Ok (signed, s) => (Ok signed, set_log w s)
  | Err e => (Err e, w)
  end.

(** ** put *)

Definition kind_files (w : world') (kind : string) : list (key * blob) :=
  List.filter (λ kv, String.eqb (fst (fst kv)) kind) (map_to_list (content w)).
Definition total_size (l : list (key * blob)) : Z := fold_right (λ kv n, b_size kv.2 + n) 0 l.

(** The content file [put] writes. *)
Definition written (value : json) (data : string) : blob := Blob (Some (canonical value)) (byte_len data + 1) false.

(** What [put] writes once the checks that need no lock have passed. *)
Definition put_locked (kind identity : string) (value : json) (data : string) (labels ids : list string)
    (immutable : bool) (file : key) : io world' pyexn json :=
  let digest := snd file in
  prior ← in_log (λ s, latest s kind);
  let old := assoc identity prior in
  let unchanged_source row :=
    bool_decide (jget "scopes" row = Some (jstrings labels)) && bool_decide (jget "sources" row = Some (jstrings ids)) in
  of_res (require (match old with Some row => unchanged_source row | None => true end) PermissionError);;
  of_res (require (match old with Some row => negb (status_is "erased" row) | None => true end) PermissionError);;
  match old with
  | Some row =>
      if bool_decide (jget "digest" row = Some (JStr digest)) then mret (Some row)
      else of_res (require (negb immutable) ValueError);; mret None
  | None => mret None
  end ≫= λ same,
  match same with
  | Some row => mret row
  | None =>
      _ ← of_res (count (Z.of_nat (length prior) + (match old with Some _ => 0 | None => 1 end)) 1 MAX_OBJECTS);
      entries ← reader (λ w, Ok (kind_files w kind));
      _ ← of_res (count (Z.of_nat (length entries)) 0 8192);
      of_res (require (total_size entries + byte_len data <=? MAX_TOTAL) ValueError);;
      modify (λ w, match content w !! file with
                   | None => set_content w (<[file := written value data]> (content w))
                   | Some _ => w end);;
      signed ← write_event kind identity [("digest", JStr digest); ("scopes", jstrings labels);
                                          ("sources", jstrings ids); ("status", JStr "active")]%string;
      of_res (get_or (jget "record" signed) KeyError)
  end.

Definition put (kind identity : string) (value : json) (scopes sources : list string) (immutable : bool)
    : io world' pyexn json :=
  (if is_tier kind then reader (λ w, assert_read (rest w) kind) else mret tt);;
  data ← of_res (wire value);
  of_res (require (byte_len data <=? MAX_BLOB) ValueError);;
  _ ← of_res (text identity 512);
  _ ← of_res (count (Z.of_nat (length scopes)) 0 128);
  _ ← of_res (count (Z.of_nat (length sources)) 0 256);
  labels ← of_res (sorted_set <$> mapR (λ s, text s 256) scopes);
  ids ← of_res (sorted_set <$> mapR (λ s, text s 256) sources);
  reader (λ w, assert_write w (JObj [("id", JStr identity); ("kind", JStr kind); ("scopes", jstrings labels);
                                     ("sources", jstrings ids)]%string));;
  reader (λ w, let required := principal_scope (rest w) in
               require (String.eqb required "" || mem required labels) PermissionError);;
  file ← reader (λ w, _blob w kind (sha256_hex data));
  put_locked kind identity value data labels ids immutable file.

(** ** get *)

Definition visible (x : X) (scopes context : list string) : bool :=
  let required := principal_scope x in
  (String.eqb required "" || mem required scopes) && included scopes context.

(** The values read so far and their bytes: [cache] and [budget]. *)
Record reading := Reading { cache : list (key * json); budget : Z }.

(** The content of a row, after the checks of its sources. *)
Definition read_content (w : world') (kind : string) (row : json) (budget : Z) : res pyexn (json * Z) :=
  committed ← str_of "digest" row;
  file ← _blob w kind committed;
  b ← get_or (content w !! file) ValueError;
  require (b_size b <=? MAX_BLOB + 1) ValueError;;
  total ← count (budget + b_size b) 0 MAX_TOTAL;
  value ← get_or (b_value b) ValueError;
  require (is_obj value) ValueError;;
  d ← digest value;
  require (String.eqb d committed) ValueError;;
  Ok (value, total).

(** The checks of a row before its sources. *)
Definition admit_row (w : world') (kind identity : string) (row : json) (context : list string) (owner : bool)
    : res pyexn () :=
  require (status_is "active" row) ValueError;;
  allowed ← permits w (jupdate row [("kind", JStr kind)]%string);
  require allowed PermissionError;;
  blocked ← lineage_blocked w identity;
  require (negb blocked) PermissionError;;
  if owner then Ok tt
  else scopes ← scopes_of row; require (visible (rest w) scopes context) PermissionError.

Definition admit_canonical (w : world') (sources context : list string) : res pyexn () :=
  match List.filter (λ s, negb (is_reference s)) sources with
  | [] => Ok tt
  | canonical =>
      admitted ← admit_sources w canonical context;
      require (included canonical admitted && included admitted canonical) PermissionError
  end.

(** [_get] with the artifacts whose sources are being read; at most sixteen
    of them are ever open. *)
Fixpoint _get (fuel : nat) (w : world') (context : list string) (owner : bool) (stack : list key)
    (k : key) (r : reading) : res pyexn (json * reading) :=
  match fuel with
  | O => Err RecursionError
  | S fuel' =>
      let '(kind, identity) := k in
      (if is_tier kind then assert_read (rest w) kind else Ok tt);;
      _ ← text identity 512;
      _ ← kind_name kind;
      require (negb (bool_decide (k ∈ stack))) ValueError;;
      match key_assoc k (cache r) with
      | Some value => Ok (value, r)
      | None =>
          _ ← count (zlen stack) 0 15;
          _ ← count (zlen (cache r) + zlen stack) 0 2047;
          rows ← latest (log w) kind;
          row ← get_or (assoc identity rows) ValueError;
          admit_row w kind identity row context owner;;
          sources ← sources_of row;
          admit_canonical w sources context;;
          r' ← foldM (λ r source, k' ← split_reference source; snd <$> _get fuel' w context false (k :: stack) k' r)
                     r (List.filter is_reference sources);
          '(value, total) ← read_content w kind row (budget r');
          Ok (value, Reading ((k, value) :: cache r') total)
      end
  end.

Definition DEPTH : nat := 17.

Definition get (w : world') (kind identity : string) (context : list string) (owner : bool) : res pyexn json :=
  (if owner then operator w else Ok tt);;
  fst <$> _get DEPTH w context owner [] (kind, identity) (Reading [] 0).

Definition list_objects (w : world') (kind : string) (context : list string) (owner : bool) : res pyexn (list json) :=
  (if owner then operator w else Ok tt);;
  rows ← latest (log w) kind;
  foldM (λ (out : list json) (kv : string * json),
    shown ← (if negb (status_is "active" (snd kv)) then Ok false else
             if owner then Ok true else scopes ← scopes_of (snd kv); Ok (visible (rest w) scopes context));
    if shown : bool then v ← get w kind (fst kv) context owner; Ok (out ++ [v]) else Ok out)
    [] (sort_by (λ a b, str_ltb a.1 b.1) rows).

(** ** erase *)

(** [unimem-<kind>.jsonl] *)
Definition managed (name : string) : bool :=
  String.prefix "unimem-" name && (13 <=? String.length name)%nat
  && String.eqb (String.substring (String.length name - 6) 6 name) ".jsonl".
Definition kind_of_file (name : string) : string := String.substring 7 (String.length name - 13) name.

Definition kinds (w : world') : list string :=
  map kind_of_file (sort_strings (List.filter managed (directory (log w)))).

Definition snapshot := list (string * list (string * json)).

(** [identity in deleted or reference(kind, identity) in deleted or
    set(row.get("sources", [])) & deleted], with the reference itself. *)
Definition affected_by (deleted : gset string) (kind : string) (kv : string * json) : res pyexn (bool * string) :=
  let '(identity, row) := kv in
  qualified ← reference kind identity;
  sources ← sources_of row;
  Ok (bool_decide (identity ∈ deleted) || bool_decide (qualified ∈ deleted)
      || existsb (λ s, bool_decide (s ∈ deleted)) sources, qualified).

Definition affected_ids (deleted : gset string) (snap : snapshot) : res pyexn (gset string) :=
  foldM (λ (acc : gset string) (ko : string * list (string * json)),
    foldM (λ (acc : gset string) kv, hq ← affected_by deleted (fst ko) kv;
             Ok (if fst hq : bool then {[fst kv; snd hq]} ∪ acc else acc)) acc (snd ko)) ∅ snap.

(** [for _ in range(16): ... else: raise ValueError] *)
Fixpoint closure (levels : nat) (snap : snapshot) (deleted : gset string) : res pyexn (gset string) :=
  match levels with
  | O => Err ValueError
  | S levels' =>
      ids ← affected_ids deleted snap;
      if bool_decide (ids ⊆ deleted) then Ok deleted
      else
        let deleted := deleted ∪ ids in
        _ ← count (Z.of_nat (size deleted)) 1 2048;
        closure levels' snap deleted
  end.

(** [{str(e["digest"]) for e in events(root, kind) if e["id"] == identity and e.get("digest")}] *)
Definition versions_of (rows : list json) (identity : string) : list string :=
  sorted_set (map (λ e, py_str (default JNull (jget "digest" e)))
    (List.filter (λ e, bool_decide (jget "id" e = Some (JStr identity)) && truthy_at "digest" e) rows)).

Definition digest_field (row : json) : json := default JNull (jget "digest" row).

(** [[a-z0-9]+(?:-[a-z0-9]+)*], at most 64 characters. *)
Fixpoint slug_loop (fresh : bool) (l : list ascii) : bool :=
  match l with
  | [] => negb fresh
  | c :: l' => if Ascii.eqb c "-" then negb fresh && slug_loop true l'
               else (lower c || in_range 48 57 c) && slug_loop false l'
  end.
Definition skill_folder (identity : string) : bool :=
  slug_loop true (str_bytes identity) && (String.length identity <=? 64)%nat.

(** One artifact of the erasure, at its journal. *)
Definition erase_artifact (kind : string) (live_digests : list json) (identity : string) (row : json)
    : io world' pyexn (list json) :=
  if status_is "erased" row then mret []
  else
    rows ← in_log (λ s, events s kind);
    let versions := versions_of rows identity in
    let unused := List.filter (λ d, negb (bool_decide (JStr d ∈ live_digests))) versions in
    cold_tiers ← (if is_tier kind then effect (λ w, purge_cold w kind unused) else mret []);
    foreach (λ d, file ← reader (λ w, _blob w kind d);
                  modify (λ w, set_content w (delete file (content w)))) unused;;
    (if String.eqb kind "skill-exports" then
       of_res (require (skill_folder identity) ValueError);; effect (λ w, remove_export w identity)
     else mret tt);;
    (if String.eqb kind "rl-captures" then
       name ← of_res (item "filename" row); effect (λ w, remove_trace w name)
     else mret tt);;
    _ ← write_event kind identity [("status", JStr "erased"); ("digest", digest_field row);
          ("scopes", get_list "scopes" row); ("sources", get_list "sources" row)]%string;
    mret [JObj ([("kind", JStr kind); ("id", JStr identity); ("content_digests", jstrings versions)]%string
                ++ match cold_tiers with [] => [] | _ => [("cold_tiers"%string, JList cold_tiers)] end)].

(** The part of the erasure under one journal's lock. *)
Definition erase_kind (deleted : gset string) (kind : string) : io world' pyexn (list json) :=
  rows ← in_log (λ s, latest s kind);
  affected ← of_res (foldM (λ (acc : list (string * json)) kv, hq ← affected_by deleted kind kv;
                                      Ok (if fst hq : bool then acc ++ [kv] else acc)) [] rows);
  let live_digests := map (λ kv, digest_field (snd kv))
    (List.filter (λ kv, negb (mem (fst kv) (map fst affected)) && status_is "active" (snd kv)) rows) in
  (if String.eqb kind "rl-captures" then
     let trace_ids := sort_strings (map fst (List.filter (λ kv, negb (status_is "erased" (snd kv))) affected)) in
     foreach (λ i, effect (λ w, record_forgetting w i)) trace_ids;;
     effect (λ w, drop_origins w trace_ids)
   else mret tt);;
  collect (λ kv : string * json, erase_artifact kind live_digests (fst kv) (snd kv)) (sort_by (λ a b, str_ltb a.1 b.1) affected).

(** The kinds of the removed items. *)
Definition kinds_of (removed : list json) : list json := omap (jget "kind") removed.

(** [snapshots] *)
Definition snapshots (w : world') : res pyexn snapshot :=
  mapR (λ kind, rows ← latest (log w) kind; Ok (kind, rows)) (kinds w).

(** What [_erase_sources] reads before it changes anything. *)
Definition erasure_set (w : world') (identities : list string) : res pyexn (gset string * list string) :=
  _ ← count (zlen identities) 1 2048;
  ids ← mapR (λ i, text i 512) identities;
  let names := kinds w in
  _ ← count (zlen names) 0 128;
  snap ← snapshots w;
  deleted ← closure 16 snap (list_to_set ids);
  assert_unpinned w (elements deleted);;
  assert_mutable w (elements deleted);;
  Ok (deleted, names).

Definition _erase_sources (identities : list string) : io world' pyexn (list json) :=
  '(deleted, names) ← reader (λ w, erasure_set w identities);
  removed ← collect (erase_kind deleted) names;
  hooks ← reader (λ w, Ok (erasure_hooks (rest w)));
  foreach (λ kind, if bool_decide (JStr kind ∈ kinds_of removed) then effect (λ w, run_hook w kind deleted)
                   else mret tt) hooks;;
  evicted ← effect (λ w, evict_sources w (sort_strings (elements deleted)));
  receipts ← of_res (mapR (λ receipt,
    i ← item "memory_id" receipt; a ← item "capsule_tiers" receipt; b ← item "removed_tiers" receipt;
    c ← item "failed_tiers" receipt;
    Ok (JObj [("kind", JStr "kv-capsules"); ("id", i); ("capsule_tiers", a); ("removed_tiers", b);
              ("failed_tiers", c)]%string)) evicted);
  mret (removed ++ receipts).

Definition erase (identities : list string) : io world' pyexn (list json) :=
  reader operator;; _erase_sources identities.
End store.
