(* ===== verification/ArtifactStoreSpec.v ===== *)
(** * Deletable artifact content: what an erasure removes and what it keeps

    The journals of the artifacts evolve by events; an erasure marks exactly
    what is derived from the given sources, removes its content and touches
    nothing else. *)

From stdpp Require Import gmap.
From S2P Require Import Prelude Sha256 Base64 Wire Origin Canon Strings Number Journal JournalSpec SiteMemory Ledger Vda Merkle Lineage Artifacts Effects ArtifactStore.
Local Open Scope Z_scope.

(** ** The journal of a kind *)

Definition journal_of (kind : string) : string := "unimem-" +:+ kind +:+ ".jsonl".
(** What [event] appends. *)
Definition event_body (kind identity : string) (value : list (string * json)) : json :=
  jupdate (JObj [("type", JStr ("unimem." +:+ kind)); ("version", JInt 1); ("id", JStr identity)]%string) value.

Lemma journal_of_inj k k' : journal_of k = journal_of k' → k = k'.
Proof.
  intros H. apply (f_equal str_bytes) in H. unfold journal_of in H. rewrite !str_bytes_app in H.
  apply app_inv_head in H. apply app_inv_tail in H. by apply str_bytes_inj.
Qed.

Lemma journal_name_ok k n : journal_name k = Ok n ↔ kind_ok k = true ∧ n = journal_of k.
Proof. unfold journal_name, kind_name. destruct (kind_ok k); simpl; [|naive_solver]. split; [by intros [= <-]|by intros [_ ->]]. Qed.

Lemma latest_of_snoc l r : latest_of (l ++ [r]) =
  (rows ← latest_of l; i ← item "id" r;
   match i with JStr identity => Ok (assoc_set identity r rows) | _ => Err TypeError end).
Proof.
  unfold latest_of. rewrite foldM_app. destruct (foldM _ [] l) as [rows|]; simpl; [|done].
  destruct (item "id" r) as [[]|]; done.
Qed.

Lemma latest_of_NoDup l : ∀ rows, latest_of l = Ok rows → NoDup rows.*1.
Proof.
  induction l as [|r l IH] using rev_ind; intros rows H; [injection H as <-; constructor|].
  rewrite latest_of_snoc in H. bind H as rows0 H0. bind H as i Hi. destruct i; try done. injection H as <-.
  by apply assoc_set_keys, IH.
Qed.

Lemma assoc_set_length {A} k (x : A) l : (length l ≤ length (assoc_set k x l))%nat.
Proof. induction l as [|[k' y] l IH]; simpl; [lia|]. destruct (String.eqb k k'); simpl; lia. Qed.

Lemma text_same x n y : text x n = Ok y → y = x.
Proof. unfold text. intros H. bind H as u _. by injection H. Qed.

Lemma mapR_text n l l' : mapR (λ s, text s n) l = Ok l' → l' = l.
Proof.
  intros H%mapR_Ok_Forall2. induction H as [|x y l l' Hx _ IH]; [done|]. f_equal; [|done]. by eapply text_same.
Qed.

Section journals.
Context {St} `{LG : Ledger St} `{LL : !LedgerLaws St}.

Lemma latest_Ok s kind rows : latest s kind = Ok rows ↔
  ∃ l, events s kind = Ok l ∧ latest_of l = Ok rows ∧ Z.of_nat (length rows) <= MAX_OBJECTS.
Proof.
  unfold latest. split.
  - intros H. bind H as l Hl. bind H as rows0 Hr. bind H as n Hn. injection H as <-. exists l.
    unfold count in Hn. res_inv. zbool. done.
  - intros (l & -> & Hr & Hn). simpl. rewrite Hr. simpl. unfold count. rewrite (proj2 (Z.leb_le _ _)) by lia.
    simpl. by rewrite (proj2 (Z.leb_le _ _)).
Qed.

Lemma latest_NoDup s kind rows : latest s kind = Ok rows → NoDup rows.*1.
Proof. intros (l & _ & H & _)%latest_Ok. by eapply latest_of_NoDup. Qed.

Lemma events_ok s kind l : events s kind = Ok l ↔ kind_ok kind = true ∧ journal s (journal_of kind) = Ok l.
Proof.
  unfold events, journal_name, kind_name. destruct (kind_ok kind); simpl; [|naive_solver].
  split; [done|by intros [_ ?]].
Qed.

Lemma event_ok s kind i v row s' : event s kind i v = Ok (row, s') →
  kind_ok kind = true ∧ append s (journal_of kind) (event_body kind i v) = Ok (row, s').
Proof.
  unfold event. intros H. bind H as t _. bind H as u _. bind H as n Hn. by apply journal_name_ok in Hn as [? ->].
Qed.

(** Reading on after an event: one more row, the identity's new one. *)
Lemma event_events s kind i v row s' l l' : event s kind i v = Ok (row, s') →
  events s kind = Ok l → events s' kind = Ok l' →
  ∃ r, l' = l ++ [r] ∧ jget "record" row = Some r ∧ stamped (Z.of_nat (length l)) (event_body kind i v) r.
Proof.
  intros [_ Ha]%event_ok [_ Hl]%events_ok [_ Hl']%events_ok. exact (append_same _ _ _ _ _ _ _ Hl Ha Hl').
Qed.

Lemma event_latest s kind i v row s' l rows' : event s kind i v = Ok (row, s') →
  (∀ n r, stamped n (event_body kind i v) r → jget "id" r = Some (JStr i)) →
  events s kind = Ok l → latest s' kind = Ok rows' →
  ∃ rows r, latest s kind = Ok rows ∧ rows' = assoc_set i r rows ∧ jget "record" row = Some r ∧
    events s' kind = Ok (l ++ [r]) ∧ stamped (Z.of_nat (length l)) (event_body kind i v) r.
Proof.
  intros He Hid Hl (l' & Hl' & Hrows & Hn)%latest_Ok.
  destruct (event_events _ _ _ _ _ _ _ _ He Hl Hl') as (r & -> & Hr & Hs).
  rewrite latest_of_snoc in Hrows. bind Hrows as rows Hrows0. unfold item in Hrows. rewrite (Hid _ _ Hs) in Hrows.
  injection Hrows as <-. exists rows, r. split_and!; try done. apply latest_Ok. exists l. split_and!; [done|done|].
  pose proof (assoc_set_length i r rows). lia.
Qed.

Context `{SL : !SteadyLaws St}.
Lemma event_steady s kind i v row s' : event s kind i v = Ok (row, s') → steady s'.
Proof. intros [_ Ha]%event_ok. by eapply append_steady. Qed.
Lemma event_other s kind k i v row s' : steady s → k ≠ kind → event s kind i v = Ok (row, s') → events s' k = events s k.
Proof.
  intros Hs Hne [_ Ha]%event_ok. unfold events. destruct (journal_name k) as [n|] eqn:E; [|done].
  apply journal_name_ok in E as [_ ->]. simpl. eapply steady_other; [done| |exact Ha]. by intros ?%journal_of_inj.
Qed.
End journals.

(** ** How an erasure changes the world *)

Section erasure.
Context {St X} `{LG : Ledger St} `{LL : !LedgerLaws St} `{SL : !SteadyLaws St} `{AR : !Around St X}.
Implicit Types w : world St X.

(** The row an erasure leaves for an artifact. *)
Definition erased_from (row row' : json) : Prop :=
  status_is "erased" row' = true ∧ get_list "scopes" row' = get_list "scopes" row ∧
  get_list "sources" row' = get_list "sources" row ∧ digest_field row' = digest_field row.

(** The artifacts that may be marked and the content that may go. *)
Implicit Types (T : string → string → Prop) (D : key → Prop).

Definition row_step (may : Prop) (row row' : json) : Prop := row' = row ∨ (may ∧ erased_from row row').

Record shrinks T D w w' : Prop := {
  sh_steady : steady (log w');
  sh_content : ∀ k, content w' !! k = content w !! k ∨ (content w' !! k = None ∧ D k);
  sh_same : ∀ kind, (∀ i, ¬ T kind i) → events (log w') kind = events (log w) kind;
  sh_rows : ∀ kind rows', latest (log w') kind = Ok rows' → ∃ rows, latest (log w) kind = Ok rows ∧
    ∀ i, option_Forall2 (row_step (T kind i)) (assoc i rows) (assoc i rows');
  sh_events : ∀ kind l', events (log w') kind = Ok l' → ∃ l, events (log w) kind = Ok l ∧
    ∀ i, ¬ T kind i → versions_of l' i = versions_of l i;
}.

Lemma shrinks_refl T D w : steady (log w) → shrinks T D w w.
Proof.
  intros Hs. split; [done|by left|done| |eauto]. intros kind rows H. exists rows. split; [done|]. intros i.
  destruct (assoc i rows); constructor. by left.
Qed.

Lemma shrinks_set_rest T D w x : steady (log w) → shrinks T D w (set_rest w x).
Proof. intros Hs. destruct (shrinks_refl T D w Hs). by split. Qed.

Lemma shrinks_trans T D w w1 w2 : shrinks T D w w1 → shrinks T D w1 w2 → shrinks T D w w2.
Proof.
  intros [S1 C1 E1 R1 V1] [S2 C2 E2 R2 V2]. split; [done|..].
  - intros k. destruct (C2 k) as [->|[-> ?]]; [apply C1|by right].
  - intros kind H. by rewrite E2, E1.
  - intros kind rows2 H2. destruct (R2 _ _ H2) as (rows1 & H1 & F2). destruct (R1 _ _ H1) as (rows & H & F1).
    exists rows. split; [done|]. intros i. specialize (F1 i). specialize (F2 i).
    destruct F1 as [row row1 Hr1|]; inversion F2 as [? row2 Hr2|]; subst; constructor.
    destruct Hr2 as [->|[? Hr2]]; [done|]. right. split; [done|].
    destruct Hr1 as [->|[_ Hr1]]; [done|]. unfold erased_from in *. naive_solver congruence.
  - intros kind l2 H2. destruct (V2 _ _ H2) as (l1 & H1 & F2). destruct (V1 _ _ H1) as (l & H & F1).
    exists l. split; [done|]. intros i Hi. by rewrite F2, F1.
Qed.

Lemma shrinks_mono T T' (D D' : key → Prop) w w' : shrinks T D w w' → (∀ k i, T k i → T' k i) → (∀ k, D k → D' k) → shrinks T' D' w w'.
Proof.
  intros [S C E R V] HT HD. split; [done|..].
  - intros k. destruct (C k) as [?|[? ?]]; auto.
  - intros kind H. apply E. intros i Hi. by apply (H i), HT.
  - intros kind rows' H. destruct (R _ _ H) as (rows & Hr & F). exists rows. split; [done|]. intros i.
    destruct (F i) as [row row' [->|[? ?]]|]; constructor; [by left|]. right. auto.
  - intros kind l' H. destruct (V _ _ H) as (l & Hl & F). exists l. split; [done|]. intros i Hi. apply F. auto.
Qed.

(** The artifact is marked as erased, as far as its journal can be read. *)
Definition gone w kind i : Prop := ∀ rows, latest (log w) kind = Ok rows →
  ∃ row, assoc i rows = Some row ∧ status_is "erased" row = true.

Lemma gone_shrinks T D w w' kind i : shrinks T D w w' → gone w kind i → gone w' kind i.
Proof.
  intros Hsh Hg rows' H. destruct (sh_rows _ _ _ _ Hsh _ _ H) as (rows & Hr & F). destruct (Hg _ Hr) as (row & Hi & He).
  specialize (F i). rewrite Hi in F. inversion F as [? row' Hrow|]; subst. exists row'. split; [done|].
  by destruct Hrow as [->|[_ [? _]]].
Qed.

Lemma absent_shrinks T D w w' k : shrinks T D w w' → content w !! k = None → content w' !! k = None.
Proof. intros Hsh H. destruct (sh_content _ _ _ _ Hsh k) as [E|[E _]]; by rewrite E. Qed.

(** ** One artifact *)

Definition erased_value (row : json) : list (string * json) :=
  [("status", JStr "erased"); ("digest", digest_field row); ("scopes", get_list "scopes" row);
   ("sources", get_list "sources" row)]%string.

Lemma erased_row kind i row n r : stamped n (event_body kind i (erased_value row)) r →
  jget "id" r = Some (JStr i) ∧ erased_from row r.
Proof.
  intros (p & a & ->). unfold event_body, erased_value, erased_from, status_is, digest_field, get_list. simpl.
  split; [done|]. split_and!; done.
Qed.

Lemma versions_of_snoc l r j : jget "id" r ≠ Some (JStr j) → versions_of (l ++ [r]) j = versions_of l j.
Proof.
  intros H. unfold versions_of. rewrite List.filter_app. simpl. rewrite (bool_decide_eq_false_2 _ H). simpl.
  by rewrite app_nil_r.
Qed.

(** Marking an artifact whose journal has just been read. *)
Lemma mark_shrinks T D w kind i row l : steady (log w) → T kind i → events (log w) kind = Ok l →
  (∀ rows, latest (log w) kind = Ok rows → assoc i rows = Some row) →
  holds (write_event kind i (erased_value row)) w (λ _ w', shrinks T D w w' ∧ gone w' kind i) (λ _ w', shrinks T D w w').
Proof.
  intros Hs HT Hl Hrow. unfold holds, write_event. destruct (event _ _ _ _) as [[signed s']|] eqn:He; [|by apply shrinks_refl].
  assert (Hev : ∀ k, k ≠ kind → events s' k = events (log w) k) by (intros; by eapply event_other).
  assert (Hid : ∀ n r, stamped n (event_body kind i (erased_value row)) r → jget "id" r = Some (JStr i)) by (intros; by eapply erased_row).
  split; [split|]; simpl.
  - by eapply event_steady.
  - by left.
  - intros k Hk. apply Hev. intros ->. by apply (Hk i).
  - intros k rows' H. destruct (decide (k = kind)) as [->|Hk].
    + destruct (event_latest _ _ _ _ _ _ _ _ He Hid Hl H) as (rows & r & Hr & -> & _ & _ & Hst).
      exists rows. split; [done|]. intros j. rewrite assoc_assoc_set. destruct (String.eqb_spec j i) as [->|].
      * rewrite (Hrow _ Hr). constructor. right. split; [done|]. by eapply erased_row.
      * destruct (assoc j rows); constructor. by left.
    + exists rows'. unfold latest in H |- *. rewrite Hev in H by done. split; [done|]. intros j.
      destruct (assoc j rows'); constructor. by left.
  - intros k l' H. destruct (decide (k = kind)) as [->|Hk].
    + destruct (event_events _ _ _ _ _ _ _ _ He Hl H) as (r & -> & _ & Hst). exists l. split; [done|]. intros j Hj.
      apply versions_of_snoc. rewrite (Hid _ _ Hst). intros [= ->]. done.
    + exists l'. rewrite Hev in H by done. done.
  - intros rows' H. destruct (event_latest _ _ _ _ _ _ _ _ He Hid Hl H) as (rows & r & Hr & -> & _ & _ & Hst).
    exists r. rewrite assoc_assoc_set, String.eqb_refl. split; [done|]. by eapply erased_row.
Qed.
(** A computation that only shrinks the world, whatever happens, and returns
    with [P]. *)
Definition keeps T D {A} (m : io (world St X) pyexn A) w (P : A → world St X → Prop) : Prop :=
  holds m w (λ a w', shrinks T D w w' ∧ P a w') (λ _ w', shrinks T D w w').

Lemma keeps_bind T D {A B} (m : io (world St X) pyexn A) (f : A → io (world St X) pyexn B) w P Q :
  keeps T D m w P → (∀ a w1, shrinks T D w w1 → P a w1 → keeps T D (f a) w1 Q) → keeps T D (m ≫= f) w Q.
Proof.
  intros Hm Hf. apply holds_bind. eapply holds_mono; [exact Hm| |done]. intros a w1 [Hw1 HP].
  eapply holds_mono; [by apply Hf| |].
  - intros b w2 [Hw2 HQ]. split; [by eapply shrinks_trans|done].
  - intros e w2 Hw2. by eapply shrinks_trans.
Qed.
Lemma keeps_ret T D {A} (a : A) w (P : A → world St X → Prop) : steady (log w) → P a w → keeps T D (mret a) w P.
Proof. intros Hs HP. split; [by apply shrinks_refl|done]. Qed.
Lemma keeps_reader T D {A} (f : world St X → res pyexn A) w (P : A → world St X → Prop) : steady (log w) →
  (∀ a, f w = Ok a → P a w) → keeps T D (reader f) w P.
Proof.
  intros Hs HP. apply holds_reader; [|intros; by apply shrinks_refl]. intros a Ha. split; [by apply shrinks_refl|auto].
Qed.
Lemma keeps_res T D {A} (r : res pyexn A) w (P : A → world St X → Prop) : steady (log w) →
  (∀ a, r = Ok a → P a w) → keeps T D (of_res r) w P.
Proof. intros Hs HP. by apply (keeps_reader T D (λ _, r)). Qed.
Lemma keeps_effect T D {A} (f : world St X → res pyexn A * X) w : steady (log w) →
  keeps T D (effect f) w (λ _ w', log w' = log w ∧ content w' = content w).
Proof.
  intros Hs. unfold keeps, holds, effect. destruct (f w) as [[a|e] x]; [split; [|done]|]; by apply shrinks_set_rest.
Qed.
Lemma keeps_mono T T' (D D' : key → Prop) {A} (m : io (world St X) pyexn A) w (P Q : A → world St X → Prop) :
  keeps T D m w P → (∀ k i, T k i → T' k i) → (∀ k, D k → D' k) → (∀ a w', shrinks T D w w' → P a w' → Q a w') → keeps T' D' m w Q.
Proof.
  intros H HT HD HQ. eapply holds_mono; [exact H|..].
  - intros a w' [Hw HP]. split; [exact (shrinks_mono _ _ _ _ _ _ Hw HT HD)|auto].
  - intros e w' Hw. exact (shrinks_mono _ _ _ _ _ _ Hw HT HD).
Qed.

Lemma keeps_collect T D {A B} (f : A → io (world St X) pyexn (list B)) (I : list A → world St X → Prop) l w : steady (log w) →
  I [] w →
  (∀ before x after w1, l = before ++ x :: after → shrinks T D w w1 → I before w1 →
     keeps T D (f x) w1 (λ _ w2, I (before ++ [x]) w2)) →
  keeps T D (collect f l) w (λ _ w', I l w').
Proof.
  intros Hs H0 Hf. unfold keeps.
  apply (holds_collect f (λ before _ w', shrinks T D w w' ∧ I before w')); [by split; [apply shrinks_refl|]|].
  intros before x after out w1 El [Hw1 HI]. eapply holds_mono; [by eapply Hf|..].
  - intros ys w2 [Hw2 HI2]. split; [by eapply shrinks_trans|done].
  - intros e w2 Hw2. by eapply shrinks_trans.
Qed.
Lemma keeps_foreach T D {A} (f : A → io (world St X) pyexn ()) (I : list A → world St X → Prop) l w : steady (log w) →
  I [] w →
  (∀ before x after w1, l = before ++ x :: after → shrinks T D w w1 → I before w1 →
     keeps T D (f x) w1 (λ _ w2, I (before ++ [x]) w2)) →
  keeps T D (foreach f l) w (λ _ w', I l w').
Proof.
  intros Hs H0 Hf. unfold keeps.
  apply (holds_foreach f (λ before w', shrinks T D w w' ∧ I before w')); [by split; [apply shrinks_refl|]|].
  intros before x after w1 El [Hw1 HI]. eapply holds_mono; [by eapply Hf|..].
  - intros ys w2 [Hw2 HI2]. split; [by eapply shrinks_trans|done].
  - intros e w2 Hw2. by eapply shrinks_trans.
Qed.

(** The removal of the unused versions. *)
Lemma unlink_shrinks T D kind l w : steady (log w) → (∀ d, d ∈ l → D (kind, d)) →
  keeps T D (foreach (λ d, file ← reader (λ w, _blob w kind d);
                           modify (λ w, set_content w (delete file (content w)))) l) w
    (λ _ w', log w' = log w ∧ ∀ d, d ∈ l → content w' !! (kind, d) = None).
Proof.
  intros Hs HD.
  apply (keeps_foreach T D _ (λ before w', log w' = log w ∧ ∀ d, d ∈ before → content w' !! (kind, d) = None)); [done| |].
  { split; [done|]. intros d Hd. by apply elem_of_nil in Hd. }
  intros before d after w1 El Hw1 [Hlog Hgone]. assert (steady (log w1)) as Hs1 by by rewrite Hlog.
  eapply keeps_bind; [by apply (keeps_reader T D _ _ (λ file w2, file = (kind, d) ∧ w2 = w1)); [done|];
    intros file H; unfold _blob, kind_name in H; res_inv|].
  intros file w2 _ [-> ->]. split.
  - split; simpl; [done|..].
    + intros k. destruct (decide (k = (kind, d))) as [->|]; [|left; by rewrite lookup_delete_ne].
      right. rewrite lookup_delete_eq. split; [done|]. apply HD. rewrite El. set_solver.
    + done.
    + apply (sh_rows _ _ _ _ (shrinks_refl T D w1 Hs1)).
    + eauto.
  - simpl. split; [done|]. intros d' [Hd'| ->%list_elem_of_singleton]%elem_of_app; [|by rewrite lookup_delete_eq].
    destruct (decide (d' = d)) as [->|]; [by rewrite lookup_delete_eq|]. rewrite lookup_delete_ne by congruence. auto.
Qed.

Lemma erase_artifact_keeps T D w kind live i row : steady (log w) → T kind i →
  (∀ rows, latest (log w) kind = Ok rows → assoc i rows = Some row) →
  (∀ d, JStr d ∉ live → D (kind, d)) →
  keeps T D (erase_artifact kind live i row) w (λ _ w', gone w' kind i ∧
    (status_is "erased" row = false → ∃ l, events (log w) kind = Ok l ∧
      ∀ d, d ∈ versions_of l i → (JStr d ∉ live) → content w' !! (kind, d) = None)).
Proof.
  intros Hs HT Hrow HD. unfold erase_artifact. destruct (status_is "erased" row) eqn:He.
  { apply keeps_ret; [done|]. split; [|done]. intros rows H. exists row. split; [by apply Hrow|done]. }
  eapply keeps_bind; [by apply (keeps_reader T D _ _ (λ l w1, w1 = w ∧ events (log w) kind = Ok l))|].
  intros l w1 _ [-> Hl]. set (unused := (List.filter _ _)).
  assert (Hun : ∀ d, (d ∈ unused) ↔ (JStr d ∉ live) ∧ (d ∈ versions_of l i)).
  { intros d. unfold unused. rewrite !list_elem_of_In, filter_In, negb_true_iff, bool_decide_eq_false, <- !list_elem_of_In. tauto. }
  eapply (keeps_bind T D _ _ _ (λ _ w1, log w1 = log w)).
  { destruct (is_tier kind); [|by apply keeps_ret]. eapply keeps_mono; [by apply keeps_effect|done|done|]. by intros ? ? ? []. }
  intros cold w1 Hw1 L1.
  eapply keeps_bind; [apply unlink_shrinks; [by rewrite L1|intros d [Hd _]%Hun; auto]|]. rewrite L1.
  intros [] w2 Hw2 [L2 Hgone].
  eapply (keeps_bind T D _ _ _ (λ _ w3, log w3 = log w)).
  { destruct (String.eqb kind "skill-exports"); [|by apply keeps_ret; rewrite ?L2].
    eapply (keeps_bind T D _ _ _ (λ _ w3, w3 = w2)); [by apply keeps_res; rewrite ?L2|]. intros [] w3 _ ->.
    eapply keeps_mono; [by apply keeps_effect; rewrite L2|done|done|]. by intros ? ? ? [-> _]. }
  intros [] w3 Hw3 L3.
  eapply (keeps_bind T D _ _ _ (λ _ w4, log w4 = log w)).
  { destruct (String.eqb kind "rl-captures"); [|by apply keeps_ret; rewrite ?L3].
    eapply (keeps_bind T D _ _ _ (λ _ w4, w4 = w3)); [by apply keeps_res; rewrite ?L3|]. intros name w4 _ ->.
    eapply keeps_mono; [by apply keeps_effect; rewrite L3|done|done|]. by intros ? ? ? [-> _]. }
  intros [] w4 Hw4 L4.
  eapply keeps_bind; [eapply mark_shrinks; rewrite ?L4; done|]. intros signed w5 Hw5 Hg.
  apply keeps_ret; [by apply Hw5|]. split; [done|]. intros _. exists l. split; [done|]. intros d Hd Hlive.
  eapply absent_shrinks; [exact Hw5|]. eapply absent_shrinks; [exact Hw4|]. eapply absent_shrinks; [exact Hw3|].
  apply Hgone, Hun. done.
Qed.
(** ** What is derived from the given sources *)

(** An artifact is derived when it is given, by name or by reference, or has a
    derived source; then its identity and its reference are. *)
Inductive derived (snap : snapshot) (given : gset string) : string → Prop :=
  | derived_given x : x ∈ given → derived snap given x
  | derived_artifact kind rows i row q ss s x : (kind, rows) ∈ snap → (i, row) ∈ rows →
      reference kind i = Ok q → sources_of row = Ok ss → s ∈ i :: q :: ss → derived snap given s → (x = i ∨ x = q) →
      derived snap given x.

Lemma affected_by_Ok deleted kind i row b q : affected_by deleted kind (i, row) = Ok (b, q) →
  reference kind i = Ok q ∧ ∃ ss, sources_of row = Ok ss ∧ (b = true ↔ ∃ s, s ∈ i :: q :: ss ∧ s ∈ deleted).
Proof.
  unfold affected_by. intros H. bind H as q' Hq. bind H as ss Hss. injection H as <- <-. split; [done|].
  exists ss. split; [done|]. rewrite !orb_true_iff, !bool_decide_eq_true, existsb_Exists, Exists_exists.
  setoid_rewrite bool_decide_eq_true. split.
  - intros [[H|H]|(s & Hs & H)]; [exists i|exists q'|exists s]; split; auto; set_solver.
  - intros (s & [->|[->|Hs]%elem_of_cons]%elem_of_cons & H); eauto.
Qed.

Lemma affected_ids_Ok deleted snap ids : affected_ids deleted snap = Ok ids →
  (∀ kind rows i row, (kind, rows) ∈ snap → (i, row) ∈ rows → ∃ b q, affected_by deleted kind (i, row) = Ok (b, q)) ∧
  ∀ x, x ∈ ids ↔ ∃ kind rows i row q, (kind, rows) ∈ snap ∧ (i, row) ∈ rows ∧
    affected_by deleted kind (i, row) = Ok (true, q) ∧ (x = i ∨ x = q).
Proof.
  assert (Hin : ∀ kind rows acc ids, foldM (λ (acc : gset string) kv, hq ← affected_by deleted kind kv;
             Ok (if fst hq : bool then {[fst kv; snd hq]} ∪ acc else acc)) acc rows = Ok ids →
    (∀ i row, (i, row) ∈ rows → ∃ b q, affected_by deleted kind (i, row) = Ok (b, q)) ∧
    ∀ x, x ∈ ids ↔ x ∈ acc ∨ ∃ i row q, (i, row) ∈ rows ∧ affected_by deleted kind (i, row) = Ok (true, q) ∧ (x = i ∨ x = q)).
  { intros kind rows. induction rows as [|[i row] rows IH]; simpl; intros acc ids0 H.
    - injection H as <-. split; [by intros ?? ?%elem_of_nil|]. intros x. split; [by left|].
      intros [?|(? & ? & ? & ?%elem_of_nil & _)]; done.
    - bind H as acc' Hacc. bind Hacc as [b q] Hb. injection Hacc as <-. apply IH in H as [Hall Hx]. split.
      + intros i' row' [[= -> ->]|Hi]%elem_of_cons; eauto.
      + intros x. rewrite Hx. simpl. split.
        * intros [Hx'|(i' & row' & q' & Hi & Ha & Hx')]; [|right; exists i', row', q'; split_and!; [by right|done..]].
          destruct b; [|by left]. apply elem_of_union in Hx' as [Hx'|Hx']; [|by left]. right. exists i, row, q.
          split_and!; [by left|done|]. by apply elem_of_union in Hx' as [?%elem_of_singleton|?%elem_of_singleton]; [left|right].
        * intros [Hx'|(i' & row' & q' & [[= -> ->]|Hi]%elem_of_cons & Ha & Hx')].
          -- left. destruct b; [by apply elem_of_union_r|done].
          -- left. rewrite Hb in Ha. injection Ha as -> ->. apply elem_of_union_l. rewrite elem_of_union, !elem_of_singleton. done.
          -- right. exists i', row', q'. done. }
  unfold affected_ids. revert ids.
  assert (Hout : ∀ acc ids, foldM (λ (acc : gset string) (ko : string * list (string * json)),
    foldM (λ (acc : gset string) kv, hq ← affected_by deleted (fst ko) kv;
             Ok (if fst hq : bool then {[fst kv; snd hq]} ∪ acc else acc)) acc (snd ko)) acc snap = Ok ids →
    (∀ kind rows i row, (kind, rows) ∈ snap → (i, row) ∈ rows → ∃ b q, affected_by deleted kind (i, row) = Ok (b, q)) ∧
    ∀ x, x ∈ ids ↔ x ∈ acc ∨ ∃ kind rows i row q, (kind, rows) ∈ snap ∧ (i, row) ∈ rows ∧
      affected_by deleted kind (i, row) = Ok (true, q) ∧ (x = i ∨ x = q)).
  { induction snap as [|[kind rows] snap IH]; simpl; intros acc ids H.
    - injection H as <-. split; [by intros ???? ?%elem_of_nil|]. intros x. split; [by left|].
      intros [?|(? & ? & ? & ? & ? & ?%elem_of_nil & _)]; done.
    - bind H as acc' Hacc. apply Hin in Hacc as [Hall1 Hx1]. apply IH in H as [Hall Hx]. split.
      + intros k r i row [[= -> ->]|Hi]%elem_of_cons; eauto.
      + intros x. rewrite Hx, Hx1. split.
        * intros [[?|(i & row & q & ? & ? & ?)]|(k & r & i & row & q & ? & ? & ? & ?)]; [by left|right..].
          -- exists kind, rows, i, row, q. split_and!; [by left|done..].
          -- exists k, r, i, row, q. split_and!; [by right|done..].
        * intros [?|(k & r & i & row & q & [[= -> ->]|Hk]%elem_of_cons & ? & ? & ?)]; [by left; left|left; right|right]; eauto 10. }
  intros ids H. apply Hout in H as [Hall Hx]. split; [done|]. intros x. rewrite Hx. split; [|by right].
  by intros [?%elem_of_empty|?].
Qed.

(** [closure] is the derived strings; every artifact has been looked at. *)
Lemma closure_Ok levels snap : ∀ given d, closure levels snap given = Ok d →
  (∀ x, x ∈ d ↔ derived snap given x) ∧
  ∀ kind rows i row, (kind, rows) ∈ snap → (i, row) ∈ rows → ∃ b q, affected_by d kind (i, row) = Ok (b, q).
Proof.
  induction levels as [|levels IH]; simpl; intros given d H; [done|]. bind H as ids Hids.
  apply affected_ids_Ok in Hids as [Hall Hids]. destruct (bool_decide (ids ⊆ given)) eqn:Hsub.
  - injection H as <-. apply bool_decide_eq_true in Hsub. split; [|done]. intros x. split; [by constructor|].
    induction 1 as [x Hx|kind rows i row q ss s x Hk Hi Hq Hss Hs _ IHs Hx]; [done|].
    apply Hsub, Hids. destruct (Hall _ _ _ _ Hk Hi) as (b & q' & Ha).
    pose proof (affected_by_Ok _ _ _ _ _ _ Ha) as (Hq' & ss' & Hss' & Hb). rewrite Hq in Hq'. rewrite Hss in Hss'. injection Hq' as <-. injection Hss' as <-.
    assert (b = true) as -> by (apply Hb; eauto). exists kind, rows, i, row, q. done.
  - bind H as n _. apply IH in H as [Hd Hlook]. split; [|done]. intros x. rewrite Hd. split.
    + induction 1 as [x Hx|kind rows i row q ss s x Hk Hi Hq Hss Hs _ IHs Hx]; [|by eapply derived_artifact].
      apply elem_of_union in Hx as [Hx|Hx]; [by constructor|].
      apply Hids in Hx as (kind & rows & i & row & q & Hk & Hi & Ha & Hx).
      pose proof (affected_by_Ok _ _ _ _ _ _ Ha) as (Hq & ss & Hss & Hb). destruct Hb as [Hb _].
      destruct (Hb eq_refl) as (s & Hs & Hin). eapply derived_artifact; eauto. by constructor.
    + induction 1 as [x Hx|kind rows i row q ss s x Hk Hi Hq Hss Hs _ IHs Hx]; [constructor; set_solver|by eapply derived_artifact].
Qed.

(** ** One kind *)

Definition hits (deleted : gset string) kind (rows affected : list (string * json)) : Prop :=
  affected `sublist_of` rows ∧ ∀ kv, kv ∈ rows →
    ∃ b q, affected_by deleted kind kv = Ok (b, q) ∧ (kv ∈ affected ↔ b = true).
Lemma affected_list deleted kind rows affected :
  foldM (λ (acc : list (string * json)) kv, hq ← affected_by deleted kind kv;
           Ok (if fst hq : bool then acc ++ [kv] else acc)) [] rows = Ok affected → hits deleted kind rows affected.
Proof.
  assert (∀ rows acc out, foldM (λ (acc : list (string * json)) kv, hq ← affected_by deleted kind kv;
           Ok (if fst hq : bool then acc ++ [kv] else acc)) acc rows = Ok out →
    ∃ k, out = acc ++ k ∧ k `sublist_of` rows ∧ (∀ kv, kv ∈ k → ∃ q, affected_by deleted kind kv = Ok (true, q)) ∧
      ∀ kv, kv ∈ rows → ∃ b q, affected_by deleted kind kv = Ok (b, q) ∧ (b = true → kv ∈ k)) as Hgen.
  { clear. induction rows as [|x rows IH]; simpl; intros acc out H.
    - injection H as <-. exists []. rewrite app_nil_r. split_and!; [done|done|by intros ? ?%elem_of_nil|by intros ? ?%elem_of_nil].
    - bind H as acc' Hacc. bind Hacc as [b q] Hb. injection Hacc as <-. apply IH in H as (k & -> & Hsub & Hk & Hrows).
      exists (if b then x :: k else k). split_and!.
      + destruct b; simpl; [by rewrite <- app_assoc|done].
      + destruct b; by constructor.
      + intros kv Hkv. destruct b; [|auto]. apply elem_of_cons in Hkv as [->|]; eauto.
      + intros kv [->|Hkv]%elem_of_cons.
        * exists b, q. split; [done|]. intros ->. by left.
        * destruct (Hrows _ Hkv) as (b' & q' & ? & Hb'). exists b', q'. split; [done|]. intros E. destruct b; [right|]; auto. }
  intros H. apply Hgen in H as (k & -> & Hsub & Hk & Hrows). simpl. split; [done|]. intros kv Hkv.
  destruct (Hrows _ Hkv) as (b & q & Hb & Hin). exists b, q. split; [done|]. split; [|done].
  intros (q' & Ha)%Hk. congruence.
Qed.

(** No active artifact that stays has the content. *)
Definition free w (deleted : gset string) kind d : Prop := ∃ rows, latest (log w) kind = Ok rows ∧
  ∀ i row, assoc i rows = Some row → i ∉ deleted → status_is "active" row = true → digest_field row ≠ JStr d.

Definition of_kind (deleted : gset string) (kind k i : string) : Prop := k = kind ∧ i ∈ deleted.
Definition free_of w deleted kind (k : key) : Prop := k.1 = kind ∧ free w deleted kind k.2.

(** Every artifact of the kind was looked at, and is affected when its
    identity is in the set. *)
Definition settled w (deleted : gset string) kind : Prop := ∀ rows i row b q, latest (log w) kind = Ok rows →
  (i, row) ∈ rows → affected_by deleted kind (i, row) = Ok (b, q) → (b = true ↔ i ∈ deleted).

(** The artifact is marked and its content removed, unless it is shared. *)
Definition removed_from w (deleted : gset string) kind (l : list json) w' (i : string) (row : json) : Prop :=
  gone w' kind i ∧ (status_is "erased" row = false →
    ∀ d, d ∈ versions_of l i → free w deleted kind d → content w' !! (kind, d) = None).
Definition done_with w (deleted : gset string) kind w' : Prop := ∃ rows l,
  latest (log w) kind = Ok rows ∧ events (log w) kind = Ok l ∧
  ∀ i row, assoc i rows = Some row → i ∈ deleted → removed_from w deleted kind l w' i row.

Lemma removed_shrinks T D w deleted kind l w1 w2 i row : shrinks T D w1 w2 →
  removed_from w deleted kind l w1 i row → removed_from w deleted kind l w2 i row.
Proof.
  intros Hsh [Hg Hc]. split; [by eapply gone_shrinks|]. intros He d Hd Hf. eapply absent_shrinks; [done|]. by apply Hc.
Qed.

Lemma affected_deleted w deleted kind rows affected i row : settled w deleted kind → latest (log w) kind = Ok rows →
  hits deleted kind rows affected → assoc i rows = Some row → (i, row) ∈ affected ↔ i ∈ deleted.
Proof. intros Hset Hrows [_ Haff] Hi%assoc_elem. destruct (Haff _ Hi) as (b & q & Hb & ->). by eapply Hset. Qed.

(** The digests [erase_kind] keeps for the other artifacts. *)
Lemma live_free w deleted kind rows affected d : settled w deleted kind → latest (log w) kind = Ok rows →
  hits deleted kind rows affected →
  (JStr d ∉ map (λ kv : string * json, digest_field (snd kv))
    (List.filter (λ kv, negb (mem (fst kv) (map fst affected)) && status_is "active" (snd kv)) rows))
  ↔ free w deleted kind d.
Proof.
  intros Hset Hrows Hh. pose proof (latest_NoDup _ _ _ Hrows) as Hnd.
  assert (Hmem : ∀ i row, assoc i rows = Some row → mem i (map fst affected) = true ↔ i ∈ deleted).
  { intros i row Hi. rewrite mem_elem, list_elem_of_In, in_map_iff, <- (affected_deleted _ _ _ _ _ _ _ Hset Hrows Hh Hi). split.
    - intros ([i' row'] & E & Hin%list_elem_of_In). simpl in E. subst i'.
      assert (assoc i rows = Some row') as E by (apply assoc_In; [done|]; destruct Hh; by eapply elem_of_sublist). by simplify_eq.
    - intros Hin. exists (i, row). split; [done|]. by apply list_elem_of_In. }
  rewrite list_elem_of_In, in_map_iff. split.
  - intros Hn. exists rows. split; [done|]. intros i row Hi Hd Hact E. apply Hn. exists (i, row). split; [done|].
    apply filter_In. split; [by apply list_elem_of_In, assoc_elem|]. simpl. rewrite Hact, andb_true_r, negb_true_iff.
    apply not_true_iff_false. by rewrite Hmem.
  - intros (rows' & Hr & Hf) ([i row] & E & [Hi Hd]%filter_In). rewrite Hrows in Hr. injection Hr as <-. simpl in *.
    apply andb_true_iff in Hd as [Hm Hact]. apply list_elem_of_In, assoc_In in Hi; [|done].
    apply (Hf _ _ Hi); [|done|done]. intros Hdel. apply (Hmem _ _ Hi) in Hdel. by rewrite Hdel in Hm.
Qed.

(** The loop over the affected artifacts. *)
Lemma erase_affected_keeps w w1 deleted kind rows l live order : steady (log w1) → log w1 = log w →
  latest (log w) kind = Ok rows → events (log w) kind = Ok l → (∀ d, (JStr d ∉ live) ↔ free w deleted kind d) →
  NoDup order.*1 → (∀ i row, (i, row) ∈ order → assoc i rows = Some row ∧ i ∈ deleted) →
  keeps (of_kind deleted kind) (free_of w deleted kind)
    (collect (λ kv : string * json, erase_artifact kind live (fst kv) (snd kv)) order) w1
    (λ _ w2, ∀ i row, (i, row) ∈ order → removed_from w deleted kind l w2 i row).
Proof.
  intros Hs L Hrows Hl Hlive Hnd Hord.
  eapply keeps_mono; [apply (keeps_collect (of_kind deleted kind) (free_of w deleted kind) _ (λ before w2,
      shrinks (λ k i, k = kind ∧ i ∈ before.*1) (free_of w deleted kind) w1 w2 ∧
      ∀ i row, (i, row) ∈ before → removed_from w deleted kind l w2 i row)); [done| |]|done|done|by intros _ w2 _ []].
  { split; [by apply shrinks_refl|]. intros i row Hi. by apply elem_of_nil in Hi. }
  intros before [i row] after w2 Eo Hw2 [Hb Hdone]. rewrite Eo in Hnd. rewrite fmap_app, fmap_cons in Hnd.
  apply NoDup_app in Hnd as (_ & Hnd & _). destruct (Hord i row) as [Hir Hid]; [rewrite Eo; set_solver|].
  assert (Hib : i ∉ before.*1) by (intros Hi; apply Hnd in Hi; set_solver).
  eapply keeps_mono; [apply (erase_artifact_keeps (λ k j, k = kind ∧ j = i) (free_of w deleted kind)); [by apply Hb|done| |]| | |].
  - intros rows2 H2. destruct (sh_rows _ _ _ _ Hb _ _ H2) as (rows1 & H1 & F). rewrite L, Hrows in H1. injection H1 as <-.
    specialize (F i). rewrite Hir in F. inversion F as [? row2 [->|[[_ ?] _]]|]; done.
  - intros d Hd. split; [done|]. by apply Hlive.
  - by intros k j [-> ->].
  - done.
  - intros _ w3 Hw3 [Hg Hc]. split.
    + eapply shrinks_trans; [eapply shrinks_mono; [exact Hb| |done]|eapply shrinks_mono; [exact Hw3| |done]].
      * intros k j [-> Hj]. split; [done|]. rewrite fmap_app. set_solver.
      * intros k j [-> ->]. split; [done|]. rewrite fmap_app. set_solver.
    + intros j rowj [Hj|[= -> ->]%list_elem_of_singleton]%elem_of_app; [eapply removed_shrinks; [done|by apply Hdone]|].
      split; [done|]. intros He d Hd Hf. destruct (Hc He) as (l2 & Hl2 & Hc2).
      destruct (sh_events _ _ _ _ Hb _ _ Hl2) as (l1 & Hl1 & Hv). rewrite L, Hl in Hl1. injection Hl1 as <-.
      apply Hc2; [|by apply Hlive]. rewrite Hv; [done|]. by intros [_ ?].
Qed.

(** Effects of the other components leave the store as it is. *)
Lemma revoke_keeps T D kind trace_ids w : steady (log w) →
  keeps T D (if String.eqb kind "rl-captures" then
               foreach (λ i, effect (λ w, record_forgetting w i)) trace_ids;; effect (λ w, drop_origins w trace_ids)
             else mret tt) w (λ _ w1, log w1 = log w ∧ content w1 = content w).
Proof.
  intros Hs. destruct (String.eqb kind "rl-captures"); [|by apply keeps_ret]. eapply keeps_bind.
  - apply (keeps_foreach _ _ _ (λ _ w1, log w1 = log w ∧ content w1 = content w)); [done..|].
    intros _ x _ w1 _ _ [L C]. eapply keeps_mono; [apply keeps_effect; by rewrite L|done|done|].
    intros [] w2 _ [-> ->]. done.
  - intros [] w1 _ [L C]. eapply keeps_mono; [apply keeps_effect; by rewrite L|done|done|]. intros [] w2 _ [-> ->]. done.
Qed.

Lemma erase_kind_keeps w deleted kind : steady (log w) → settled w deleted kind →
  keeps (of_kind deleted kind) (free_of w deleted kind) (erase_kind deleted kind) w (λ _ w', done_with w deleted kind w').
Proof.
  intros Hs Hset. unfold erase_kind.
  eapply keeps_bind; [by apply (keeps_reader _ _ _ _ (λ rows w1, w1 = w ∧ latest (log w) kind = Ok rows))|].
  intros rows w1 _ [-> Hrows]. pose proof (latest_NoDup _ _ _ Hrows) as Hnd.
  pose proof (proj1 (latest_Ok _ _ _) Hrows) as (l & Hl & _).
  eapply keeps_bind; [apply (keeps_res _ _ _ _ (λ affected w1, w1 = w ∧ hits deleted kind rows affected)); [done|];
    intros affected Ha; by apply affected_list in Ha|].
  intros affected w1 _ [-> Hh]. eapply keeps_bind; [by apply revoke_keeps|]. intros [] w1 Hw1 [L C].
  set (order := sort_by _ affected). assert (Hord : order ≡ₚ affected) by apply sort_by_Permutation.
  assert (Hin : ∀ i row, (i, row) ∈ order → assoc i rows = Some row).
  { intros i row. rewrite Hord. intros Hi. apply assoc_In; [done|]. destruct Hh. by eapply elem_of_sublist. }
  eapply keeps_mono; [apply (erase_affected_keeps w w1 deleted kind rows l); try done; [by rewrite L|..]|done|done|].
  - intros d. by eapply live_free.
  - rewrite Hord. eapply sublist_NoDup; [done|]. apply fmap_sublist. by destruct Hh.
  - intros i row Hi. split; [by apply Hin|]. eapply affected_deleted; try done; [by apply Hin|]. by rewrite <- Hord.
  - intros out w2 _ Hdone. exists rows, l. split_and!; [done|done|]. intros i row Hi Hd. apply Hdone. rewrite Hord.
    by eapply affected_deleted.
Qed.

(** ** All kinds *)

Lemma affected_by_step may deleted kind i row row' : row_step may row row' →
  affected_by deleted kind (i, row') = affected_by deleted kind (i, row).
Proof. intros [->|(_ & _ & _ & E & _)]; [done|]. unfold affected_by, sources_of. by rewrite E. Qed.

Lemma settled_shrinks T D w w1 deleted kind : shrinks T D w w1 → settled w deleted kind → settled w1 deleted kind.
Proof.
  intros Hsh Hset rows1 i row1 b q H1 Hi Ha. pose proof (latest_NoDup _ _ _ H1) as Hnd1.
  destruct (sh_rows _ _ _ _ Hsh _ _ H1) as (rows & H & F). specialize (F i).
  apply assoc_In in Hi; [|done]. rewrite Hi in F. inversion F as [row ? Hstep Er|]; subst.
  rewrite (affected_by_step _ _ _ _ _ _ Hstep) in Ha. eapply Hset; [exact H| |exact Ha]. by apply assoc_elem.
Qed.

Lemma free_shrinks T D w w1 deleted kind d : shrinks T D w w1 → (∀ k i, T k i → i ∈ deleted) →
  free w1 deleted kind d → free w deleted kind d.
Proof.
  intros Hsh HT (rows1 & H1 & Hf). destruct (sh_rows _ _ _ _ Hsh _ _ H1) as (rows & H & F).
  exists rows. split; [done|]. intros i row Hi Hd. specialize (F i). rewrite Hi in F.
  inversion F as [? row1 [->|[Hti _]] E|]; subst; [by eapply Hf|]. by apply HT in Hti.
Qed.

Lemma done_with_same w w1 deleted kind w' : events (log w1) kind = events (log w) kind →
  done_with w1 deleted kind w' → done_with w deleted kind w'.
Proof. unfold done_with, removed_from, free, latest. by intros ->. Qed.

Definition of_kinds (names : list string) (deleted : gset string) k i : Prop := k ∈ names ∧ i ∈ deleted.
Definition free_in w (names : list string) deleted (k : key) : Prop := k.1 ∈ names ∧ free w deleted k.1 k.2.

Lemma erase_kinds_keeps w deleted names : steady (log w) → (∀ kind, kind ∈ names → settled w deleted kind) →
  keeps (of_kinds names deleted) (free_in w names deleted) (collect (erase_kind deleted) names) w
    (λ _ w', ∀ kind, kind ∈ names → done_with w deleted kind w').
Proof.
  intros Hs Hset.
  eapply keeps_mono; [apply (keeps_collect (of_kinds names deleted) (free_in w names deleted) _ (λ before w1,
    shrinks (of_kinds before deleted) (free_in w names deleted) w w1 ∧
    ∀ kind, kind ∈ before → done_with w deleted kind w1)); [done| |]|done|done|by intros _ w1 _ []].
  { split; [by apply shrinks_refl|]. intros kind Hk. by apply elem_of_nil in Hk. }
  intros before kind after w1 En Hw1 [Hb Hdone]. assert (Hk : kind ∈ names) by (rewrite En; set_solver).
  assert (HD : ∀ k, free_of w1 deleted kind k → free_in w names deleted k).
  { intros [k d] [E Hf]. simpl in E. subst k. split; [done|]. eapply free_shrinks; [exact Hb|by intros ?? []|exact Hf]. }
  eapply keeps_mono; [apply (erase_kind_keeps w1 deleted kind); [by apply Hb|]| | |].
  - eapply settled_shrinks; [done|]. by apply Hset.
  - intros k i [E Hi]. by subst k.
  - done.
  - intros out w2 Hw2 Hd2. split.
    + eapply shrinks_trans; [eapply shrinks_mono; [exact Hb| |done]|eapply shrinks_mono; [exact Hw2| |done]].
      * intros k i [? ?]. split; [set_solver|done].
      * intros k i [E ?]. subst k. split; [set_solver|done].
    + intros k Hkin. destruct (decide (k ∈ before)) as [Hin|Hnin].
      * destruct (Hdone _ Hin) as (rows & l & Hr & Hl & Hall). exists rows, l. split_and!; [done|done|].
        intros i row Hi Hdi. eapply removed_shrinks; [done|]. by apply Hall.
      * assert (k = kind) as E by set_solver. subst k. eapply done_with_same; [|exact Hd2].
        apply (sh_same _ _ _ _ Hb). by intros i [? _].
Qed.

(** ** The erasure *)

Lemma snapshots_elem w snap kind rows : snapshots w = Ok snap →
  (kind, rows) ∈ snap ↔ kind ∈ kinds w ∧ latest (log w) kind = Ok rows.
Proof.
  unfold snapshots. intros H%mapR_Ok_Forall2. revert H. generalize (kinds w). intros names H.
  induction H as [|k [k' r] names snap Hk _ IH]; [rewrite !elem_of_nil; tauto|].
  bind Hk as rows0 Hr. injection Hk as <- <-. rewrite !elem_of_cons, IH. split.
  - intros [[= -> ->]|[? ?]]; auto.
  - intros [[->|?] Hl]; [left; congruence|auto].
Qed.

Lemma erasure_set_Ok w ids deleted names : erasure_set w ids = Ok (deleted, names) → names = kinds w ∧
  ∃ snap, snapshots w = Ok snap ∧ (∀ x, x ∈ deleted ↔ derived snap (list_to_set ids) x) ∧
    (∀ kind, kind ∈ names → settled w deleted kind) ∧
    ∀ kind rows i row, (kind, rows) ∈ snap → (i, row) ∈ rows → is_ok (reference kind i) = true.
Proof.
  unfold erasure_set. intros H. bind H as n _. bind H as ids' Hids. bind H as m _. bind H as snap Hsnap.
  bind H as d Hd. bind H as u1 _. bind H as u2 _. injection H as <- <-.
  apply mapR_text in Hids as ->.
  apply closure_Ok in Hd as [Hd Hlook]. split; [done|]. exists snap. split_and!; [done|done| |].
  2:{ intros kind rows i row Hk Hi. destruct (Hlook _ _ _ _ Hk Hi) as (b & q & Ha).
      apply affected_by_Ok in Ha as [Hq _]. by rewrite Hq. }
  intros kind Hk rows i row b q Hrows Hi Ha. apply affected_by_Ok in Ha as (Hq & ss & Hss & ->). split.
  - intros (s & Hs & Hin). apply Hd. apply Hd in Hin.
    eapply (derived_artifact snap _ kind rows i row q ss s); try done; [|by left]. by apply (snapshots_elem w).
  - intros Hin. exists i. split; [by left|done].
Qed.

Lemma erase_sources_keeps w ids deleted names : steady (log w) → erasure_set w ids = Ok (deleted, names) →
  keeps (of_kinds names deleted) (free_in w names deleted) (_erase_sources ids) w
    (λ _ w', ∀ kind, kind ∈ names → done_with w deleted kind w').
Proof.
  intros Hs He. destruct (erasure_set_Ok _ _ _ _ He) as (_ & snap & _ & _ & Hset & _). unfold _erase_sources.
  eapply keeps_bind; [by apply (keeps_reader _ _ _ _ (λ x w1, w1 = w ∧ x = (deleted, names))); [done|]; intros; simplify_eq/=; split; congruence|].
  intros [deleted' names'] w1 _ [-> [= -> ->]].
  eapply keeps_bind; [by apply erase_kinds_keeps|]. intros removed w1 Hw1 Hdone.
  eapply keeps_bind; [apply (keeps_reader _ _ _ _ (λ _ w2, w2 = w1)); [by apply Hw1|done]|]. intros hooks w2 _ ->.
  eapply keeps_bind.
  { apply (keeps_foreach _ _ _ (λ _ w2, True)); [by apply Hw1|done|]. intros _ k _ w2 _ Hw2 _.
    destruct (bool_decide _); [|by apply keeps_ret; [apply Hw2|]].
    eapply keeps_mono; [apply keeps_effect; by apply Hw2|done|done|done]. }
  intros [] w2 Hw2 _. eapply keeps_bind; [by apply keeps_effect; apply Hw2|]. intros evicted w3 Hw3 _.
  eapply keeps_bind; [by apply (keeps_res _ _ _ _ (λ _ w4, w4 = w3)); [apply Hw3|]|]. intros receipts w4 _ ->.
  apply keeps_ret; [by apply Hw3|]. intros kind Hk. destruct (Hdone _ Hk) as (rows & l & Hr & Hl & Hall).
  exists rows, l. split_and!; [done|done|]. intros i row Hi Hd.
  eapply removed_shrinks; [done|]. eapply removed_shrinks; [done|]. by apply Hall.
Qed.

(** C21: an erasure that reports success has marked as erased every artifact
    derived from the given sources, at any distance and in every kind, and has
    removed every version of its content that no remaining active artifact of
    the kind shares. *)
Theorem erasure_complete w ids removed w' : steady (log w) → _erase_sources ids w = (Ok removed, w') →
  ∃ snap, snapshots w = Ok snap ∧ ∀ kind rows i row, (kind, rows) ∈ snap → (i, row) ∈ rows →
    derived snap (list_to_set ids) i →
    (∀ rows', latest (log w') kind = Ok rows' → ∃ row', (i, row') ∈ rows' ∧ status_is "erased" row' = true) ∧
    (status_is "erased" row = false → ∀ l d, events (log w) kind = Ok l → d ∈ versions_of l i →
       (∀ j other, (j, other) ∈ rows → status_is "active" other = true → digest_field other = JStr d →
          derived snap (list_to_set ids) j) →
       content w' !! (kind, d) = None).
Proof.
  intros Hs H. destruct (erasure_set w ids) as [[deleted names]|e] eqn:He.
  2:{ unfold _erase_sources, mbind, io_bind, reader in H. rewrite He in H. discriminate H. }
  pose proof (erase_sources_keeps _ _ _ _ Hs He) as Hk.
  destruct (erasure_set_Ok _ _ _ _ He) as (-> & snap & Hsnap & Hd & _). exists snap. split; [done|].
  intros kind rows i row [Hkind Hrows]%(snapshots_elem w) Hi Hder; [|done]. apply Hd in Hder.
  destruct (holds_inv _ _ _ _ _ _ Hk H) as [Hsh Hdone]. destruct (Hdone _ Hkind) as (rows0 & l0 & Hr0 & Hl0 & Hall).
  rewrite Hrows in Hr0. injection Hr0 as <-. pose proof (latest_NoDup _ _ _ Hrows) as Hnd.
  destruct (Hall i row) as [Hg Hc]; [by apply assoc_In|done|]. split.
  - intros rows' Hr'. destruct (Hg _ Hr') as (row' & Hi' & Her). exists row'. split; [by apply assoc_elem|done].
  - intros Hne l d Hl Hdv Hothers. rewrite Hl0 in Hl. injection Hl as <-. apply Hc; [done|done|].
    exists rows. split; [done|]. intros j other Hj Hnd' Hact Hdig. apply Hnd', Hd. eapply Hothers; [by apply assoc_elem|done|done].
Qed.

(** C22: an erasure, whether it succeeds or fails half-way, leaves every
    artifact that is not derived from the given sources with the row it had,
    and an active one with its content. *)
Theorem erasure_spares w ids r w' snap kind rows i row : steady (log w) → _erase_sources ids w = (r, w') →
  snapshots w = Ok snap → latest (log w) kind = Ok rows → (i, row) ∈ rows → ¬ derived snap (list_to_set ids) i →
  (∀ rows', latest (log w') kind = Ok rows' → (i, row) ∈ rows') ∧
  (status_is "active" row = true → ∀ d, digest_field row = JStr d → content w' !! (kind, d) = content w !! (kind, d)).
Proof.
  intros Hs H Hsnap Hrows Hi Hder. destruct (erasure_set w ids) as [[deleted names]|e] eqn:He.
  2:{ unfold _erase_sources, mbind, io_bind, reader in H. rewrite He in H. injection H as <- <-. split; [|done].
      intros rows' Hr. rewrite Hrows in Hr. by injection Hr as <-. }
  pose proof (erase_sources_keeps _ _ _ _ Hs He) as Hk.
  destruct (erasure_set_Ok _ _ _ _ He) as (-> & snap' & Hsnap' & Hd & _). rewrite Hsnap in Hsnap'. injection Hsnap' as <-.
  assert (Hsh : shrinks (of_kinds (kinds w) deleted) (free_in w (kinds w) deleted) w w').
  { pose proof (holds_inv _ _ _ _ _ _ Hk H) as Hsh. destruct r; [by destruct Hsh|done]. }
  pose proof (latest_NoDup _ _ _ Hrows) as Hnd. rewrite <- Hd in Hder. split.
  - intros rows' Hr'. destruct (sh_rows _ _ _ _ Hsh _ _ Hr') as (rows0 & Hr0 & F). rewrite Hrows in Hr0. injection Hr0 as <-.
    specialize (F i). apply assoc_In in Hi; [|done]. rewrite Hi in F.
    inversion F as [? row' [->|[[_ ?] _]] E|]; subst; [|done]. apply assoc_elem. done.
  - intros Hact d Hdig. destruct (sh_content _ _ _ _ Hsh (kind, d)) as [E|[_ [_ (rows0 & Hr0 & Hf)]]]; [done|].
    simpl in *. rewrite Hrows in Hr0. injection Hr0 as <-. destruct (Hf i row); try done. by apply assoc_In.
Qed.
End erasure.
