(* ===== verification/ArtifactAccess.v ===== *)
(** * Deletable artifact content: reading, writing and the life of an artifact

    What [get] returns and to whom, what [put] stores, and what no sequence of
    writes and erasures changes. *)

From stdpp Require Import gmap.
From S2P Require Import Prelude Sha256 Base64 Wire Origin Canon Strings Number Journal JournalSpec SiteMemory Ledger Vda Merkle Lineage Artifacts Effects ArtifactStore ArtifactStoreSpec.
Local Open Scope Z_scope.

Section access.
Context {St X} `{LG : Ledger St} `{AR : !Around St X}.
Implicit Types w : world St X.

(** ** get terminates within its bound *)

Lemma foldM_ext {E A B} (f g : B → A → res E B) l : (∀ b x, x ∈ l → f b x = g b x) → ∀ acc, foldM f acc l = foldM g acc l.
Proof.
  induction l as [|x l IH]; simpl; intros H acc; [done|]. rewrite H by set_solver. destruct (g acc x); simpl; [|done].
  apply IH. intros. apply H. set_solver.
Qed.

Lemma _get_step w context fuel : ∀ owner stack k r, (1 ≤ fuel)%nat → (17 ≤ length stack + fuel)%nat →
  _get (S fuel) w context owner stack k r = _get fuel w context owner stack k r.
Proof.
  induction fuel as [|fuel IH]; intros owner stack [kind identity] r H1 Hlen; [lia|].
  remember (S fuel) as n eqn:En. rewrite En at 2. cbn [_get]. subst n. destruct (if is_tier kind then _ else _); cbn [mbind res_bind]; [|done]. destruct (text identity 512); cbn [mbind res_bind]; [|done].
  destruct (kind_name kind); cbn [mbind res_bind]; [|done]. destruct (negb _); cbn [mbind res_bind]; [|done]. destruct (key_assoc _ _); [done|].
  destruct (count (zlen stack) 0 15) as [n|e] eqn:Hn; cbn [mbind res_bind]; [|done].
  destruct (count (_ + _) 0 2047); cbn [mbind res_bind]; [|done]. destruct (latest _ _); cbn [mbind res_bind]; [|done].
  destruct (get_or _ _); cbn [mbind res_bind]; [|done]. destruct (admit_row _ _ _ _ _ _); cbn [mbind res_bind]; [|done].
  destruct (sources_of _); cbn [mbind res_bind]; [|done]. destruct (admit_canonical _ _ _); cbn [mbind res_bind]; [|done].
  assert (fuel ≠ 0)%nat. { intros ->. apply count_Ok' in Hn. unfold zlen in Hn. lia. }
  erewrite foldM_ext; [done|]. intros r0 s _. cbn beta. destruct (split_reference s) as [k2|]; cbn [mbind res_bind]; [|done].
  rewrite IH; [done|lia|simpl; lia].
Qed.

(** Sixteen open artifacts are as many as [_get] allows: more steps change
    nothing. *)
Lemma _get_enough w context owner k r n : _get (DEPTH + n) w context owner [] k r = _get DEPTH w context owner [] k r.
Proof.
  induction n as [|n IH]; [by rewrite Nat.add_0_r|]. rewrite <- IH, Nat.add_succ_r. apply _get_step; simpl; lia.
Qed.

(** ** What get returns *)

(** The artifacts a row names as its sources. *)
Definition source_of w (k k' : key) : Prop := ∃ rows row sources s,
  latest (log w) k.1 = Ok rows ∧ assoc k.2 rows = Some row ∧ sources_of row = Ok sources ∧
  s ∈ sources ∧ is_reference s = true ∧ split_reference s = Ok k'.

(** The reader may read the artifact itself. *)
Definition granted w context (owner : bool) (k : key) : Prop := ∃ rows row scopes sources,
  latest (log w) k.1 = Ok rows ∧ assoc k.2 rows = Some row ∧ sources_of row = Ok sources ∧
  status_is "active" row = true ∧ permits w (jupdate row [("kind", JStr k.1)]%string) = Ok true ∧
  lineage_blocked w k.2 = Ok false ∧
  (owner = false → scopes_of row = Ok scopes ∧ visible (rest w) scopes context = true) ∧
  admit_canonical w sources context = Ok tt.

(** The content that was committed to. *)
Definition committed w (k : key) (v : json) : Prop := ∃ rows row d b,
  latest (log w) k.1 = Ok rows ∧ assoc k.2 rows = Some row ∧ jget "digest" row = Some (JStr d) ∧
  content w !! (k.1, d) = Some b ∧ b_value b = Some v ∧ digest v = Ok d.

Inductive readable w context : bool → key → json → Prop :=
  readable_intro owner k v : granted w context owner k → committed w k v →
    (∀ k', source_of w k k' → ∃ v', readable w context false k' v') → readable w context owner k v.

Lemma admit_row_Ok w kind identity row context owner : admit_row w kind identity row context owner = Ok tt →
  status_is "active" row = true ∧ permits w (jupdate row [("kind", JStr kind)]%string) = Ok true ∧
  lineage_blocked w identity = Ok false ∧
  (owner = false → ∃ scopes, scopes_of row = Ok scopes ∧ visible (rest w) scopes context = true).
Proof.
  unfold admit_row. intros H. bind H as u1 H1. apply require_Ok in H1. bind H as allowed Ha. bind H as u2 H2.
  apply require_Ok in H2. subst. bind H as blocked Hb. bind H as u3 H3. apply require_Ok, negb_true_iff in H3. subst.
  split_and!; try done. intros ->. bind H as scopes Hs. apply require_Ok in H. eauto.
Qed.

Lemma read_content_Ok w kind row budget v total : read_content w kind row budget = Ok (v, total) →
  ∃ d b, jget "digest" row = Some (JStr d) ∧ content w !! (kind, d) = Some b ∧ b_value b = Some v ∧ digest v = Ok d.
Proof.
  unfold read_content, str_of, item. intros H. bind H as d Hd. bind Hd as j Hj. apply get_or_Ok in Hj. destruct j; try done.
  injection Hd as ->. bind H as file Hf. unfold _blob in Hf. bind Hf as u Hu. bind Hf as k Hk. bind Hf as u' Hu'. injection Hf as <-.
  assert (k = kind) as -> by (unfold kind_name in Hk; by res_inv).
  bind H as b Hb. apply get_or_Ok in Hb. bind H as u2 _. bind H as t _. bind H as value Hv. apply get_or_Ok in Hv.
  bind H as u3 _. bind H as d' Hd'. bind H as u4 Hu4. apply require_Ok, String.eqb_eq in Hu4 as ->. injection H as -> ->.
  by exists d, b.
Qed.

Lemma readable_owner w context owner k v : readable w context false k v → readable w context owner k v.
Proof.
  intros H. inversion H as [? ? ? (rows & row & scopes & sources & Hg) Hc Hs]; subst. constructor; [|done|done].
  exists rows, row, scopes, sources. naive_solver.
Qed.

(** What has been read so far can be read. *)
Definition read_ok w context (r : reading) : Prop := ∀ k v, key_assoc k (cache r) = Some v → readable w context false k v.

Lemma _get_readable w context fuel : ∀ owner stack k r v r', _get fuel w context owner stack k r = Ok (v, r') →
  read_ok w context r → readable w context owner k v ∧ (owner = false → read_ok w context r').
Proof.
  induction fuel as [|fuel IH]; intros owner stack [kind identity] r v r' H Hr; [done|]. cbn [_get] in H.
  bind H as u1 _. bind H as i _. bind H as k _. bind H as u2 _. destruct (key_assoc (kind, identity) (cache r)) as [c|] eqn:Hc.
  { injection H as <- <-. split; [|done]. by apply readable_owner, Hr. }
  bind H as n1 _. bind H as n2 _. bind H as rows Hrows. bind H as row Hrow. apply get_or_Ok in Hrow.
  bind H as [] Hadm. bind H as sources Hsrc. bind H as [] Hcan. bind H as r1 Hloop. bind H as [value total] Hread.
  injection H as <- <-. apply admit_row_Ok in Hadm as (Hact & Hper & Hblk & Hvis).
  assert (∀ l acc r1, foldM (λ r source, k' ← split_reference source;
      snd <$> _get fuel w context false ((kind, identity) :: stack) k' r) acc l = Ok r1 → read_ok w context acc →
    read_ok w context r1 ∧ ∀ s, s ∈ l → ∃ k' v', split_reference s = Ok k' ∧ readable w context false k' v') as Hall.
  { clear -IH. induction l as [|s l IHl]; simpl; intros acc r1 H Hacc.
    - injection H as <-. split; [done|]. by intros s ?%elem_of_nil.
    - bind H as r2 H2. bind H2 as k' Hk'. destruct (_get fuel w context false _ k' acc) as [[v' r3]|] eqn:Hg; [|done].
      injection H2 as <-. destruct (IH _ _ _ _ _ _ Hg Hacc) as [Hv' Hr3]. destruct (IHl _ _ H (Hr3 eq_refl)) as [Hr1 Hl].
      split; [done|]. intros s' [->|Hs]%elem_of_cons; eauto. }
  destruct (Hall _ _ _ Hloop Hr) as [Hr1 Hsrcs].
  assert (readable w context owner (kind, identity) value) as Hval.
  { destruct (read_content_Ok _ _ _ _ _ _ Hread) as (d & b & Hd & Hb & Hv & Hdig). constructor.
    - destruct owner; [|destruct (Hvis eq_refl) as (scopes & Hsc & Hv')].
      + exists rows, row, [], sources. done.
      + exists rows, row, scopes, sources. done.
    - exists rows, row, d, b. done.
    - intros k' (rows' & row' & sources' & s & Hrows' & Hrow' & Hsrc' & Hs & Href & Hk'). simpl in *.
      rewrite Hrows in Hrows'. injection Hrows' as <-. rewrite Hrow in Hrow'. injection Hrow' as <-.
      rewrite Hsrc in Hsrc'. injection Hsrc' as <-.
      destruct (Hsrcs s) as (k2 & v' & Hk2 & Hv'); [apply list_elem_of_In, filter_In; split; [by apply list_elem_of_In|done]|].
      rewrite Hk' in Hk2. injection Hk2 as <-. eauto. }
  split; [done|]. intros ->. intros k' v' Hk'. simpl in Hk'. case_decide; [by simplify_eq|by apply Hr1].
Qed.

Lemma readable_granted w context owner k v : readable w context owner k v → ∀ k', rtc (source_of w) k k' →
  ∃ o, granted w context o k' ∧ (o = true → owner = true ∧ k' = k).
Proof.
  intros Hr k' Hk. revert owner v Hr. induction Hk as [k|k k1 k2 Hs Hk IH]; intros owner v Hr;
    inversion Hr as [? ? ? Hg Hc Hsrc]; subst.
  - by exists owner.
  - destruct (Hsrc _ Hs) as [v1 Hv1]. destruct (IH _ _ Hv1) as (o & Ho & Hf). exists o. split; [done|].
    intros ->. by destruct Hf.
Qed.

Lemma readable_acc w context owner k v : readable w context owner k v → Acc (flip (source_of w)) k.
Proof.
  revert owner k v. fix IH 4. intros owner k v [? ? ? _ _ Hs]. constructor. intros k' Hk'.
  destruct (Hs _ Hk') as [v' Hv']. exact (IH _ _ _ Hv').
Qed.

(** C23: a read hands out content only when the artifact and everything it is
    derived from, at any distance, is active, permitted, not revoked and
    visible to the caller (the owner is exempt for the artifact itself), the
    derivation has no cycle, and the content is what was signed. *)
Theorem get_confined w kind identity context owner v : get w kind identity context owner = Ok v →
  (∀ k, rtc (source_of w) (kind, identity) k →
     ∃ o, granted w context o k ∧ (o = true → owner = true ∧ is_operator (rest w) = true ∧ k = (kind, identity))) ∧
  (∀ k, rtc (source_of w) (kind, identity) k → ¬ tc (source_of w) k k) ∧
  committed w (kind, identity) v.
Proof.
  unfold get. intros H. bind H as u Hu. destruct (_get _ _ _ _ _ _ _) as [[v' r']|] eqn:Hg; [|done]. injection H as ->.
  apply _get_readable in Hg as [Hr _]; [|done]. split_and!.
  - intros k Hk. destruct (readable_granted _ _ _ _ _ Hr _ Hk) as (o & Ho & Hf). exists o. split; [done|].
    intros Eo. destruct (Hf Eo) as [-> ->]. split_and!; [done| |done]. unfold operator in Hu. by apply require_Ok in Hu.
  - intros k Hk. assert (Acc (flip (source_of w)) k) as Hacc.
    { clear -Hr Hk. apply readable_acc in Hr. induction Hk as [|x y z Hxy _ IH]; [done|]. apply IH. by apply Hr. }
    clear -Hacc. induction Hacc as [k _ IH]. intros Hc. inversion Hc as [? ? Hs|? k' ? Hs Hc']; subst.
    + by apply (IH k).
    + apply (IH k' Hs). eapply tc_r; [done|done].
  - by inversion Hr.
Qed.

(** ** What put stores *)

(** The fields [put] gives its event. *)
Definition put_value (digest : string) (labels ids : list string) : list (string * json) :=
  [("digest", JStr digest); ("scopes", jstrings labels); ("sources", jstrings ids); ("status", JStr "active")]%string.

Definition stored w (file : key) (value : json) (data : string) : world St X :=
  match content w !! file with None => set_content w (<[file := written value data]> (content w)) | Some _ => w end.

(** An earlier row of the identity that a write may follow. *)
Definition may_follow (labels ids : list string) (row : json) : Prop :=
  jget "scopes" row = Some (jstrings labels) ∧ jget "sources" row = Some (jstrings ids) ∧ status_is "erased" row = false.

(** The outcomes of [put_locked]: a refusal, the row that is there already,
    or new content and an event. *)
Inductive put_result w kind identity value data labels ids (file : key) : res pyexn json → world St X → Prop :=
  | put_refused e : put_result w kind identity value data labels ids file (Err e) w
  | put_same prior row : latest (log w) kind = Ok prior → assoc identity prior = Some row → may_follow labels ids row →
      jget "digest" row = Some (JStr file.2) → put_result w kind identity value data labels ids file (Ok row) w
  | put_failed prior e : latest (log w) kind = Ok prior → put_result w kind identity value data labels ids file (Err e) (stored w file value data)
  | put_new prior signed s r : latest (log w) kind = Ok prior →
      (∀ row, assoc identity prior = Some row → may_follow labels ids row) →
      event (log w) kind identity (put_value file.2 labels ids) = Ok (signed, s) →
      r = get_or (jget "record" signed) KeyError →
      put_result w kind identity value data labels ids file r (set_log (stored w file value data) s).

Lemma put_locked_result w kind identity value data labels ids immutable file r w' :
  put_locked kind identity value data labels ids immutable file w = (r, w') →
  put_result w kind identity value data labels ids file r w'.
Proof.
  unfold put_locked. intros H. apply io_bind_inv in H as [(prior & w1 & H1 & H)|(e & [= ? ->] & ->)]; [|constructor].
  injection H1 as Hprior <-. look H as u Hu; [|constructor].
  look H as u' Hu'; [|constructor].
  assert (Hold : ∀ row, assoc identity prior = Some row → may_follow labels ids row).
  { intros row Hrow. rewrite Hrow in Hu, Hu'. apply require_Ok in Hu, Hu'. res_inv. by split_and!. }
  apply io_bind_inv in H as [(same & w1 & Hsame & H)|(e & Hsame & ->)].
  2:{ destruct (assoc identity prior) as [row|]; [|done]. case_bool_decide; [done|].
      apply io_bind_inv in Hsame as [(? & w1 & [= ? <-] & [= ? ])|(? & [= ? ->] & _)]; constructor. }
  assert (w1 = w ∧ ∀ row, same = Some row → assoc identity prior = Some row ∧ jget "digest" row = Some (JStr file.2)) as [-> Hrow].
  { destruct (assoc identity prior) as [row|]; [|by injection Hsame as <- <-]. case_bool_decide.
    - injection Hsame as <- <-. split; [done|]. by intros ? [= <-].
    - apply io_bind_inv in Hsame as [(? & w2 & [= ? <-] & [= <- <-])|(? & _ & [=])]. done. }
  destruct same as [row|]. { injection H as <- <-. destruct (Hrow row eq_refl). by eapply put_same; eauto. }
  look H as n Hn; [|constructor].
  apply io_bind_inv in H as [(entries & w1 & [= Hen <-] & H)|(e & [=] & _)].
  look H as m Hm; [|constructor].
  look H as u2 Hu2; [|constructor].
  apply io_bind_inv in H as [(u3 & w1 & [= <- <-] & H)|(e & [=] & _)].
  fold (stored w file value data) in H.
  assert (Elog : log (stored w file value data) = log w) by (unfold stored; by destruct (content w !! file)).
  apply io_bind_inv in H as [(signed & w1 & Hw & H)|(e & Hw & ->)]; unfold write_event in Hw; rewrite Elog in Hw;
    destruct (event _ _ _ _) as [[signed' s]|] eqn:He; try discriminate Hw.
  - injection Hw as <- <-. injection H as <- <-. by eapply put_new.
  - injection Hw as <- <-. by eapply put_failed.
Qed.

(** The checks of [put] before it takes the lock leave everything as it is. *)
Lemma put_run w kind identity value scopes sources immutable r w' :
  put kind identity value scopes sources immutable w = (r, w') →
  (w' = w ∧ ∃ e, r = Err e) ∨
  ∃ data file, wire value = Ok data ∧ byte_len data <= MAX_BLOB ∧ file = (kind, sha256_hex data) ∧
    is_ok (text identity 512) = true ∧ kind_ok kind = true ∧
    (is_tier kind = true → assert_read (rest w) kind = Ok tt) ∧
    (principal_scope (rest w) = "" ∨ mem (principal_scope (rest w)) (sorted_set scopes) = true) ∧
    put_result w kind identity value data (sorted_set scopes) (sorted_set sources) file r w'.
Proof.
  unfold put. intros H.
  apply io_bind_inv in H as [(u & w1 & Htier & H)|(e & Htier & ->)].
  2:{ destruct (is_tier kind); [|done]. injection Htier as ? ->. left. eauto. }
  assert (w1 = w ∧ (is_tier kind = true → assert_read (rest w) kind = Ok tt)) as [-> Ht].
  { destruct (is_tier kind); [|by injection Htier as <-]. injection Htier as H1 <-. by destruct u. }
  look H as data Hdata; [|by left; eauto].
  look H as u1 Hsize; [|by left; eauto].
  look H as i Hi; [|by left; eauto].
  look H as n Hn; [|by left; eauto].
  look H as m Hm; [|by left; eauto].
  look H as labels Hlabels; [|by left; eauto].
  look H as ids Hids; [|by left; eauto].
  look H as u2 Hu2; [|by left; eauto].
  look H as u3 Hu3; [|by left; eauto].
  look H as file Hfile; [|by left; eauto].
  right. exists data, file. apply put_locked_result in H.
  assert (labels = sorted_set scopes) as -> by (destruct (mapR _ scopes) eqn:E; [|done]; injection Hlabels as <-; by apply mapR_text in E as ->).
  assert (ids = sorted_set sources) as -> by (destruct (mapR _ sources) eqn:E; [|done]; injection Hids as <-; by apply mapR_text in E as ->).
  unfold _blob, kind_name in Hfile. apply require_Ok in Hsize, Hu3. zbool. res_inv.
  split_and!; try done; [by rewrite Hi|]. apply orb_true_iff in Hu3 as [?%String.eqb_eq|?]; auto.
Qed.

(** Content files hold dictionaries under their own digest. *)
Definition sound w : Prop := ∀ kind d b, content w !! (kind, d) = Some b →
  b_symlink b = false ∧ 0 <= b_size b <= MAX_BLOB + 1 ∧ ∃ v, b_value b = Some v ∧ is_obj v = true ∧ digest v = Ok d.

Lemma stored_read w kind value data row : sound w → wire value = Ok data → byte_len data <= MAX_BLOB → is_obj value = true →
  kind_ok kind = true → jget "digest" row = Some (JStr (sha256_hex data)) →
  ∃ v total, read_content (stored w (kind, sha256_hex data) value data) kind row 0 = Ok (v, total) ∧ digest v = digest value ∧
    (content w !! (kind, sha256_hex data) = None → v = canonical value).
Proof.
  intros Hs Hw Hlen Hobj Hk Hd. set (file := (kind, sha256_hex data)).
  assert (Hdig : digest value = Ok (sha256_hex data)) by (unfold digest; by rewrite Hw).
  assert (∃ b v, content (stored w file value data) !! file = Some b ∧ b_symlink b = false ∧ 0 <= b_size b <= MAX_BLOB + 1 ∧
    b_value b = Some v ∧ is_obj v = true ∧ digest v = Ok (sha256_hex data) ∧ (content w !! file = None → v = canonical value))
    as (b & v & Hb & Hl & Hz & Hv & Ho & Hdv & Heq).
  { unfold stored. destruct (content w !! file) as [b|] eqn:E.
    - destruct (Hs _ _ _ E) as (Hl & Hz & v & Hv & Ho & Hdv). exists b, v. by rewrite E.
    - exists (written value data), (canonical value). simpl. rewrite lookup_insert_eq, digest_of_canonical.
      assert (0 <= byte_len data) by (unfold byte_len; lia). split_and!; try done; [lia|lia|by destruct value]. }
  exists v, (0 + b_size b). unfold read_content, str_of, item, _blob, kind_name. rewrite Hd. cbn [get_or mbind res_bind].
  rewrite is_hash_sha256_hex, Hk. cbn [require mbind res_bind]. fold file. rewrite Hb, Hl. cbn [require negb mbind res_bind get_or].
  rewrite Hb. cbn [mbind res_bind get_or]. rewrite (proj2 (Z.leb_le _ _)) by lia. cbn [require mbind res_bind].
  unfold count. rewrite (proj2 (Z.leb_le 0 _)), (proj2 (Z.leb_le _ MAX_TOTAL)) by (unfold MAX_TOTAL, MAX_BLOB, MAX_BYTES in *; lia).
  cbn [andb require mbind res_bind]. rewrite Hv. cbn [get_or mbind res_bind]. rewrite Ho. cbn [require mbind res_bind]. rewrite Hdv.
  cbn [mbind res_bind]. rewrite String.eqb_refl. by rewrite Hdig.
Qed.

Lemma strings_of_jstrings l : strings_of (jstrings l) = Ok l.
Proof. unfold jstrings. simpl. induction l as [|x l IH]; simpl; [done|]. by rewrite IH. Qed.

Lemma active_not_erased row : status_is "active" row = true → status_is "erased" row = false.
Proof. unfold status_is. rewrite bool_decide_eq_true, bool_decide_eq_false. congruence. Qed.

Lemma put_row n kind identity digest labels ids r :
  stamped n (event_body kind identity (put_value digest labels ids)) r →
  jget "id" r = Some (JStr identity) ∧ jget "digest" r = Some (JStr digest) ∧ jget "scopes" r = Some (jstrings labels) ∧
  jget "sources" r = Some (jstrings ids) ∧ status_is "active" r = true.
Proof. intros (p & a & ->). unfold event_body, put_value, status_is. simpl. split_and!; done. Qed.

Lemma visible_included x scopes context labels : (∀ s, s ∈ labels ↔ s ∈ scopes) →
  (principal_scope x = "" ∨ mem (principal_scope x) labels = true) → included scopes context = true → visible x labels context = true.
Proof.
  intros Hl Hp Hi. unfold visible. rewrite andb_true_iff, orb_true_iff, String.eqb_eq. split; [done|].
  apply included_spec. rewrite included_spec in Hi. intros s Hs. by apply Hi, Hl.
Qed.

(** [get] on a row without artifact sources. *)
Lemma get_row w kind identity context rows row labels ids v total : is_ok (text identity 512) = true → kind_ok kind = true →
  (is_tier kind = true → assert_read (rest w) kind = Ok tt) → latest (log w) kind = Ok rows → assoc identity rows = Some row →
  jget "scopes" row = Some (jstrings labels) → jget "sources" row = Some (jstrings ids) → status_is "active" row = true →
  permits w (jupdate row [("kind", JStr kind)]%string) = Ok true → lineage_blocked w identity = Ok false →
  visible (rest w) labels context = true → (∀ s, s ∈ ids → is_reference s = false) → admit_canonical w ids context = Ok tt →
  read_content w kind row 0 = Ok (v, total) → get w kind identity context false = Ok v.
Proof.
  intros Htext Hkind Htier Hrows Hrow Hsc Hsrc Hact Hper Hblk Hvis Hrefs Hadm Hread.
  unfold get, DEPTH. cbn [mbind res_bind]. cbn [_get].
  assert ((if is_tier kind then assert_read (rest w) kind else Ok ()) = Ok tt) as -> by (destruct (is_tier kind); auto).
  destruct (text identity 512); [|done]. cbn [mbind res_bind].
  assert (kind_name kind = Ok kind) as -> by (unfold kind_name; by rewrite Hkind). cbn [mbind res_bind].
  rewrite bool_decide_eq_false_2 by (by intros ?%elem_of_nil). cbn [negb require mbind res_bind key_assoc cache].
  change (count (zlen []) 0 15) with (@Ok pyexn Z 0). cbn [mbind res_bind].
  change (count (zlen (@nil (key * json)) + zlen (@nil key)) 0 2047) with (@Ok pyexn Z 0). cbn [mbind res_bind].
  rewrite Hrows. cbn [mbind res_bind]. rewrite Hrow. cbn [get_or mbind res_bind].
  unfold admit_row. rewrite Hact. cbn [require mbind res_bind]. rewrite Hper. cbn [require mbind res_bind].
  rewrite Hblk. cbn [negb require mbind res_bind]. unfold scopes_of, item. rewrite Hsc. cbn [get_or mbind res_bind].
  rewrite strings_of_jstrings. cbn [mbind res_bind]. rewrite Hvis. cbn [require mbind res_bind].
  assert (sources_of row = Ok ids) as -> by (unfold sources_of, get_list; rewrite Hsrc; apply strings_of_jstrings).
  cbn [mbind res_bind].
  rewrite Hadm. cbn [mbind res_bind]. rewrite (filter_none is_reference ids) by (by apply Forall_forall). cbn [foldM mbind res_bind budget].
  by rewrite Hread.
Qed.
End access.

Section life.
Context {St X} `{LG : Ledger St} `{LL : !LedgerLaws St} `{SL : !SteadyLaws St} `{AR : !Around St X}.
Implicit Types w : world St X.

(** C24: what [put] accepted, [get] returns to a caller whose context covers
    the scopes, unless something else refuses the read: the row is active and
    its content file is in place, the policy permits the row, its lineage is
    not blocked, no source is an artifact reference, and the caller may read
    every source.  The value read is the object that was written, with its keys
    sorted (or, should a content file with its digest have been there before,
    that file's value). *)
Theorem put_get w kind identity value scopes sources immutable rec w' rows' context :
  put kind identity value scopes sources immutable w = (Ok rec, w') →
  sound w → is_obj value = true →
  latest (log w') kind = Ok rows' → status_is "active" rec = true →
  (∀ d, digest value = Ok d → is_Some (content w' !! (kind, d))) →
  permits w' (jupdate rec [("kind", JStr kind)]%string) = Ok true → lineage_blocked w' identity = Ok false →
  (∀ s, s ∈ sources → is_reference s = false) → admit_canonical w' (sorted_set sources) context = Ok tt →
  included scopes context = true →
  ∃ v, get w' kind identity context false = Ok v ∧ digest v = digest value ∧
    ((∀ d, digest value = Ok d → content w !! (kind, d) = None) → v = canonical value).
Proof.
  intros Hput Hsound Hobj Hrows' Hact Hthere Hper Hblk Hrefs Hadm Hinc.
  apply put_run in Hput as [[_ [e [=]]]|(data & file & Hdata & Hlen & -> & Htext & Hkind & Htier & Hprin & Hres)].
  assert (Hdig : digest value = Ok (sha256_hex data)) by (unfold digest; by rewrite Hdata).
  assert (∃ v total, rest w' = rest w ∧ assoc identity rows' = Some rec ∧ may_follow (sorted_set scopes) (sorted_set sources) rec ∧
    read_content w' kind rec 0 = Ok (v, total) ∧ digest v = digest value ∧
    (content w !! (kind, sha256_hex data) = None → v = canonical value)) as (v & total & Hrest & Hrow & (Hsc & Hsrc & _) & Hread & Hv & Hfresh).
  { inversion Hres as [e|prior row Hprior Hrow Hmay Hdg|prior e Hprior|prior signed s r Hprior Hmay He Hr]; subst.
    - rewrite Hprior in Hrows'. injection Hrows' as <-.
      destruct (stored_read w' kind value data rec) as (v & total & Hread & Hv & Hfresh); try done.
      unfold stored in Hread. destruct (Hthere _ Hdig) as [b Hb]. rewrite Hb in Hread. by exists v, total.
    - assert (Elog : rest (stored w (kind, sha256_hex data) value data) = rest w) by (unfold stored; by destruct (content w !! _)).
      pose proof (proj1 (latest_Ok _ _ _) Hprior) as (l & Hl & _).
      destruct (event_latest _ _ _ _ _ _ _ _ He (λ n r H, proj1 (put_row _ _ _ _ _ _ _ H)) Hl Hrows')
        as (rows & r & _ & -> & Hr' & _ & Hst). rewrite Hr' in Hr. injection Hr as ->.
      apply put_row in Hst as (_ & Hdg & Hsc & Hsrc & Hact').
      destruct (stored_read w kind value data r) as (v & total & Hread & Hv & Hfresh); try done.
      exists v, total. rewrite assoc_assoc_set, String.eqb_refl. split_and!; try done. unfold may_follow. split_and!; [done|done|by apply active_not_erased]. }
  exists v. split_and!; [|done|by intros H; apply Hfresh, H].
  eapply (get_row w' kind identity context rows' rec); try done; rewrite ?Hrest; try done.
  - eapply (visible_included _ scopes); [intros; apply elem_sorted_set|done|done].
  - intros s Hs. rewrite elem_sorted_set in Hs. auto.
Qed.

(** ** The life of an artifact *)

(** A write or an erasure, whatever its outcome. *)
Inductive step : world St X → world St X → Prop :=
  | step_put kind identity value scopes sources immutable w r w' :
      put kind identity value scopes sources immutable w = (r, w') → step w w'
  | step_erase ids w r w' : _erase_sources ids w = (r, w') → step w w'.

Definition inherits w w' : Prop := ∀ kind rows', latest (log w') kind = Ok rows' →
  ∃ rows, latest (log w) kind = Ok rows ∧ ∀ i row, assoc i rows = Some row → ∃ row', assoc i rows' = Some row' ∧
    get_list "scopes" row' = get_list "scopes" row ∧ get_list "sources" row' = get_list "sources" row ∧
    (status_is "erased" row = true → status_is "erased" row' = true).

Lemma inherits_same w w' : (∀ k, events (log w') k = events (log w) k) → inherits w w'.
Proof. intros E kind rows H. unfold latest in *. rewrite E in H. exists rows. split; [done|eauto 6]. Qed.

Lemma inherits_trans w w1 w2 : inherits w w1 → inherits w1 w2 → inherits w w2.
Proof.
  intros H1 H2 kind rows2 Hr2. destruct (H2 _ _ Hr2) as (rows1 & Hr1 & F2). destruct (H1 _ _ Hr1) as (rows & Hr & F1).
  exists rows. split; [done|]. intros i row Hi. destruct (F1 _ _ Hi) as (row1 & Hi1 & E1 & E1' & E1'').
  destruct (F2 _ _ Hi1) as (row2 & Hi2 & E2 & E2' & E2''). exists row2. split_and!; [done|congruence|congruence|auto].
Qed.

Lemma put_inherits w kind identity value scopes sources immutable r w' : steady (log w) →
  put kind identity value scopes sources immutable w = (r, w') → steady (log w') ∧ inherits w w'.
Proof.
  intros Hs [[-> _]|(data & file & _ & _ & _ & _ & _ & _ & _ & Hres)]%put_run; [split; [done|by apply inherits_same]|].
  assert (Elog : log (stored w file value data) = log w) by (unfold stored; by destruct (content w !! file)).
  inversion Hres as [e|prior row Hprior Hrow Hmay Hdg|prior e Hprior|prior signed s r' Hprior Hmay He Hr]; subst;
    try (split; [by rewrite ?Elog|apply inherits_same; intros; by rewrite ?Elog]).
  split; [by eapply event_steady|]. intros k rows' Hk. simpl in Hk. destruct (decide (k = kind)) as [->|Hne].
  - pose proof (proj1 (latest_Ok _ _ _) Hprior) as (l & Hl & _).
    destruct (event_latest _ _ _ _ _ _ _ _ He (λ n r H, proj1 (put_row _ _ _ _ _ _ _ H)) Hl Hk)
      as (rows & rec & Hrows & -> & _ & _ & Hst). exists rows. split; [done|]. intros i row Hi. rewrite assoc_assoc_set.
    destruct (String.eqb_spec i identity) as [->|]; [|eauto 6]. exists rec. split; [done|].
    apply put_row in Hst as (_ & _ & Hsc & Hsrc & _). rewrite Hprior in Hrows. injection Hrows as <-.
    destruct (Hmay _ Hi) as (Esc & Esrc & Her). unfold get_list. rewrite Hsc, Hsrc, Esc, Esrc, Her. done.
  - exists rows'. unfold latest in *. rewrite (event_other _ _ _ _ _ _ _ Hs Hne He) in Hk. split; [done|eauto 6].
Qed.

Lemma erase_inherits w ids r w' : steady (log w) → _erase_sources ids w = (r, w') → steady (log w') ∧ inherits w w'.
Proof.
  intros Hs H. destruct (erasure_set w ids) as [[deleted names]|e] eqn:He.
  2:{ unfold _erase_sources, mbind, io_bind, reader in H. rewrite He in H. injection H as <- <-. split; [done|by apply inherits_same]. }
  pose proof (holds_inv _ _ _ _ _ _ (erase_sources_keeps _ _ _ _ Hs He) H) as Hk.
  assert (Hsh : shrinks (of_kinds names deleted) (free_in w names deleted) w w') by (destruct r; [by destruct Hk|done]).
  split; [by apply Hsh|]. intros kind rows' Hr'. destruct (sh_rows _ _ _ _ Hsh _ _ Hr') as (rows & Hr & F).
  exists rows. split; [done|]. intros i row Hi. specialize (F i). rewrite Hi in F.
  inversion F as [? row' [->|(_ & He' & Hsc & Hsrc & _)] E|]; subst; eauto 6.
Qed.

(** however writes and erasures follow one another, failures included, an
    artifact keeps its scopes and its sources, and an erased one stays
    erased. *)
Theorem artifact_life w w' kind rows rows' i row : steady (log w) → rtc step w w' →
  latest (log w) kind = Ok rows → latest (log w') kind = Ok rows' → (i, row) ∈ rows →
  ∃ row', (i, row') ∈ rows' ∧ get_list "scopes" row' = get_list "scopes" row ∧
    get_list "sources" row' = get_list "sources" row ∧ (status_is "erased" row = true → status_is "erased" row' = true).
Proof.
  intros Hs Hsteps Hr Hr' Hi. assert (inherits w w') as Hin.
  { clear -Hs Hsteps LL SL. induction Hsteps as [w|w w1 w2 Hst _ IH]; [by apply inherits_same|].
    assert (steady (log w1) ∧ inherits w w1) as [Hs1 H1].
    { inversion Hst; subst; [by eapply put_inherits|by eapply erase_inherits]. }
    eapply inherits_trans; [done|auto]. }
  destruct (Hin _ _ Hr') as (rows0 & Hr0 & F). rewrite Hr in Hr0. injection Hr0 as <-.
  apply assoc_In in Hi; [|by eapply latest_NoDup]. destruct (F _ _ Hi) as (row' & Hi' & H). exists row'.
  split; [by apply assoc_elem|done].
Qed.

(** C25: [put] bounds an identity by 512 bytes and [reference] by 256 in all: one
    artifact whose reference is longer, and no erasure of anything succeeds. *)
Theorem long_identity_blocks_erasure w ids kind rows i row : kind ∈ kinds w → latest (log w) kind = Ok rows →
  (i, row) ∈ rows → 256 < byte_len ("artifact:" +:+ kind +:+ ":" +:+ i) →
  ∃ e, _erase_sources ids w = (Err e, w).
Proof.
  intros Hk Hr Hi Hlen. destruct (erasure_set w ids) as [[deleted names]|e] eqn:He.
  - destruct (erasure_set_Ok _ _ _ _ He) as (_ & snap & Hsnap & _ & _ & Hlook).
    assert (Href : is_ok (reference kind i) = true) by (by eapply Hlook; [apply (snapshots_elem w)|]). exfalso.
    unfold reference in Href. destruct (kind_name kind) as [k|] eqn:Ek; [|done]. cbn [mbind res_bind] in Href.
    assert (k = kind) as -> by (unfold kind_name in Ek; by res_inv).
    destruct (text i 512) as [i'|] eqn:Ei; [|done]. apply text_same in Ei as ->.
    cbn [mbind res_bind] in Href. unfold text in Href. rewrite (proj2 (Z.leb_gt _ _) Hlen) in Href.
    by rewrite !andb_false_r in Href.
  - exists e. unfold _erase_sources, mbind, io_bind, reader. by rewrite He.
Qed.
End life.

(** ** A store, for examples *)

#[local] Existing Instance memory_ledger.
#[local] Existing Instance memory_ledger_laws.
#[local] Existing Instance memory_steady_laws.

(** Surroundings that admit everything. *)
#[local] Instance open_house : Around memory () := {
  directory m := m.*1;
  principal_scope _ := "";
  is_operator _ := true;
  assert_read _ _ := Ok tt;
  assert_write _ _ := Ok tt;
  permits _ _ := Ok true;
  lineage_blocked _ _ := Ok false;
  admit_sources _ ids _ := Ok ids;
  assert_unpinned _ _ := Ok tt;
  assert_mutable _ _ := Ok tt;
  record_forgetting _ _ := (Ok tt, tt);
  drop_origins _ _ := (Ok tt, tt);
  purge_cold _ _ _ := (Ok [], tt);
  remove_export _ _ := (Ok tt, tt);
  remove_trace _ _ := (Ok tt, tt);
  erasure_hooks _ := [];
  run_hook _ _ _ := (Ok tt, tt);
  evict_sources _ _ := (Ok [], tt);
}.

Definition note (s : string) : json := JObj [("text", JStr s)]%string.
Definition demo_writes : io (world memory ()) pyexn () :=
  _ ← put "notes" "n1" (note "hello") ["team"] ["fact-1"] false;
  _ ← put "digests" "d1" (note "hello, shortly") ["team"] ["artifact:notes:n1"] false;
  _ ← put "notes" "n2" (note "elsewhere") ["team"] ["fact-2"] false; mret tt.
Definition empty_world : world memory () := World [] ∅ tt.
Definition demo : world memory () := snd (demo_writes empty_world).
Definition demo_erased : res pyexn (list json) * world memory () :=
  _erase_sources ["fact-1"%string] demo.

Example demo_reads : get demo "digests" "d1" ["team"%string] false = Ok (note "hello, shortly") ∧
  get demo "digests" "d1" [] false = Err PermissionError ∧
  get (snd demo_erased) "digests" "d1" ["team"%string] false = Err ValueError ∧
  get (snd demo_erased) "notes" "n2" ["team"%string] false = Ok (note "elsewhere").
Proof. vm_compute. done. Qed.

Definition demo_rows (kind : string) : list (string * json) := ok_or [] (latest (log demo) kind).
Definition demo_n1 : json := default JNull (assoc "n1" (demo_rows "notes")).

Lemma erasure_complete_witness :
  ∃ snap, snapshots demo = Ok snap ∧ ∀ kind rows i row, (kind, rows) ∈ snap → (i, row) ∈ rows →
    derived snap (list_to_set ["fact-1"%string]) i →
    (∀ rows', latest (log (snd demo_erased)) kind = Ok rows' → ∃ row', (i, row') ∈ rows' ∧ status_is "erased" row' = true) ∧
    (status_is "erased" row = false → ∀ l d, events (log demo) kind = Ok l → d ∈ versions_of l i →
       (∀ j other, (j, other) ∈ rows → status_is "active" other = true → digest_field other = JStr d →
          derived snap (list_to_set ["fact-1"%string]) j) →
       content (snd demo_erased) !! (kind, d) = None).
Proof. apply (erasure_complete demo ["fact-1"%string] (ok_or [] (fst demo_erased)) (snd demo_erased)); [exact I|apply run_pair; vm_compute; reflexivity]. Defined.

(** What the erasure of [fact-1] reaches. *)
Definition demo_snap : snapshot := ok_or [] (snapshots demo).
Definition demo_given : gset string := list_to_set ["fact-1"%string].
Definition demo_deleted : gset string := ok_or ∅ (closure 16 demo_snap demo_given).
Lemma demo_derived x : x ∈ demo_deleted ↔ derived demo_snap demo_given x.
Proof.
  apply (closure_Ok 16 demo_snap demo_given demo_deleted), is_ok_or. vm_compute. reflexivity.
Qed.
Definition demo_n2 : json := default JNull (assoc "n2" (demo_rows "notes")).
Definition demo_n2_digest : string := ok_or "" (str_of "digest" demo_n2).

Lemma erasure_spares_witness :
  (∀ rows', latest (log (snd demo_erased)) "notes" = Ok rows' → ("n2"%string, demo_n2) ∈ rows') ∧
  content (snd demo_erased) !! ("notes"%string, demo_n2_digest) = content demo !! ("notes"%string, demo_n2_digest).
Proof.
  destruct (erasure_spares demo ["fact-1"%string] (fst demo_erased) (snd demo_erased) demo_snap "notes"
    (demo_rows "notes") "n2" demo_n2) as [H1 H2]; [exact I|apply surjective_pairing|by vm_compute|by vm_compute| | |].
  - apply assoc_elem. by vm_compute.
  - intros H. apply demo_derived in H. revert H. by vm_compute.
  - split; [exact H1|]. apply H2; by vm_compute.
Defined.

Lemma get_confined_witness :
  (∀ k, rtc (source_of demo) ("digests", "d1")%string k →
     ∃ o, granted demo ["team"%string] o k ∧
       (o = true → false = true ∧ is_operator (rest demo) = true ∧ k = ("digests", "d1")%string)) ∧
  (∀ k, rtc (source_of demo) ("digests", "d1")%string k → ¬ tc (source_of demo) k k) ∧
  committed demo ("digests", "d1")%string (note "hello, shortly").
Proof. apply get_confined. by vm_compute. Defined.

(** The first write of an empty store. *)
Definition demo_put : res pyexn json * world memory () :=
  put "notes" "n1" (note "hello") ["team"%string] ["fact-1"%string] false empty_world.
Lemma put_get_witness : ∃ v, get (snd demo_put) "notes" "n1" ["team"%string] false = Ok v ∧
  digest v = digest (note "hello") ∧
  ((∀ d, digest (note "hello") = Ok d → content empty_world !! ("notes"%string, d) = None) → v = canonical (note "hello")).
Proof.
  eapply (put_get empty_world "notes" "n1" (note "hello") ["team"%string] ["fact-1"%string] false (ok_or JNull (fst demo_put))
    (snd demo_put) (ok_or [] (latest (log (snd demo_put)) "notes"))).
  - apply run_pair. vm_compute. reflexivity.
  - by intros kind d b [=].
  - by vm_compute.
  - by vm_compute.
  - by vm_compute.
  - intros d Hd. destruct (content (snd demo_put) !! ("notes"%string, d)) as [b|] eqn:E; [by eexists|]. exfalso.
    assert (d = ok_or "" (digest (note "hello"))) as -> by (by rewrite Hd). revert E. by vm_compute.
  - by vm_compute.
  - by vm_compute.
  - intros s [->|H%elem_of_nil]%elem_of_cons; [by vm_compute|done].
  - by vm_compute.
  - by vm_compute.
Defined.

Lemma artifact_life_witness : ∃ row', ("n1"%string, row') ∈ ok_or [] (latest (log (snd demo_erased)) "notes") ∧
  get_list "scopes" row' = get_list "scopes" demo_n1 ∧ get_list "sources" row' = get_list "sources" demo_n1 ∧
  (status_is "erased" demo_n1 = true → status_is "erased" row' = true).
Proof.
  apply (artifact_life demo (snd demo_erased) "notes" (demo_rows "notes")); [exact I| |by vm_compute|by vm_compute|].
  - apply rtc_once. by eapply (step_erase ["fact-1"%string] _ (fst demo_erased)), surjective_pairing.
  - apply assoc_elem. by vm_compute.
Defined.

(** [put] takes an identity of 300 bytes; then nothing can be erased. *)
Definition long_identity : string := String.concat "" (repeat "x"%string 300).
Definition demo_long : res pyexn json * world memory () :=
  put "notes" long_identity (note "long") [] ["fact-3"%string] false demo.
Lemma long_identity_blocks_erasure_witness : is_ok (fst demo_long) = true ∧
  ∃ e, _erase_sources ["fact-1"%string] (snd demo_long) = (Err e, snd demo_long).
Proof.
  split; [by vm_compute|].
  apply (long_identity_blocks_erasure _ _ "notes" (ok_or [] (latest (log (snd demo_long)) "notes")) long_identity
    (default JNull (assoc long_identity (ok_or [] (latest (log (snd demo_long)) "notes"))))); [|by vm_compute| |by vm_compute].
  - apply list_elem_of_In. vm_compute. tauto.
  - apply assoc_elem. by vm_compute.
Defined.
