(* ===== verification/Household.v ===== *)
(** * Consent of a household ([unimem/household.py])

    Three signed journals - the rooms' no-memory policies, the consents, the
    scenes let through - and the gate a scene passes before it is stored.
    The robot stack that says who is in a scene, and the sink that stores it,
    are not this module's: [identity_resolver] and [persist] are parameters,
    and what [persist] may change is [outside].  The anchoring append to the
    transparency log is one step: one that raises is taken to have left no
    leaf.  [bridge_scene_handler] composes the room's resolver with [observe]. *)

From S2P Require Import Prelude Sha256 Base64 Wire Origin Merkle Journal Strings Number Ledger Seal Vda Transparency Lineage Effects.
Local Open Scope Z_scope.

Definition JOURNAL : string := "household-consent.jsonl".
Definition GATES : string := "household-write-gates.jsonl".
Definition ROOMS : string := "household-rooms.jsonl".
Definition SCOPES : list string := ["resident"; "household"; "guest"; "bystander"; "caregiver"].
(** [SCOPES - {"bystander"}] *)
Definition grantable (scope : string) : bool := mem scope SCOPES && negb (String.eqb scope "bystander").

Record home (St X : Type) := Home { book : St; house_trees : trees; outside : X }.
Arguments Home {St X} _ _ _.
Arguments book {St X} _.
Arguments house_trees {St X} _.
Arguments outside {St X} _.

Definition _actor (value : string) : res pyexn string := text value 128.

(** [d.get(k)], [None] when the key is absent. *)
Definition get_null (k : string) (v : json) : json := default JNull (jget k v).
Definition opt_str (o : option string) : json := match o with Some s => JStr s | None => JNull end.

Section household.
Context `{LG : Ledger St, SL : !Sealed St} {X : Type}.
(** The store's path, a key of the log's process cache. *)
Variable root : string.
Abbreviation home' := (home St X).

Definition in_book {A} (f : St → res pyexn A) : io home' pyexn A := reader (λ h, f (book h)).

(** [fp.append] and [transparency_log.append(..., receipt=False)] *)
Definition append_row (name : string) (body : json) : io home' pyexn json := λ h,
  match Ledger.append (book h) name body with
  | Ok (row, s) => (Ok row, Home s (house_trees h) (outside h))
  | Err e => (Err e, h)
  end.
Definition anchor (event : string) (statement : json) (now : string) : io home' pyexn () := λ h,
  match Transparency.append root (book h) (house_trees h) event statement now false with
  | Ok (_, s, ts) => (Ok tt, Home s ts (outside h))
  | Err e => (Err e, h)
  end.

Definition _valid_signed (s : St) (name : string) : res pyexn (list json) :=
  '(n, _, _) ← event_snapshot s name 0;
  rows ← mapR (λ i, row ← signed_at s name (Z.of_nat i); ok ← Seal.verify s row; Ok (row, ok)) (seq 0 (Z.to_nat n));
  Ok (map fst (List.filter snd rows)).

(** [row["record"]] of the valid rows whose [field] is [value]. *)
Definition records_with (s : St) (name field : string) (value : json) : res pyexn (list json) :=
  rows ← _valid_signed s name;
  records ← mapR (item "record") rows;
  Ok (List.filter (λ r, py_eqb (get_null field r) value) records).

(** [bool(records and records[-1][key])] *)
Definition last_says (key : string) (records : list json) : res pyexn bool :=
  match last records with
  | None => Ok false
  | Some r => v ← item key r; Ok (truthy_at key r)
  end.

Definition no_memory (s : St) (room_id : json) : res pyexn bool :=
  policies ← records_with s ROOMS "room_id" room_id; last_says "no_memory" policies.

Definition configure_room (room_id : string) (no_memory : json) (actor now : string) : io home' pyexn json :=
  room_id ← of_res (text room_id 128);
  actor ← of_res (_actor actor);
  wanted ← of_res (bool_json no_memory);
  let body := JObj [("room_id", JStr room_id); ("no_memory", JBool wanted); ("actor", JStr actor)]%string in
  prior ← in_book (λ s, records_with s ROOMS "room_id" (JStr room_id));
  strict ← of_res (last_says "no_memory" prior);
  of_res (require (negb (strict && negb wanted)) PermissionError);;
  signed ← append_row ROOMS body;
  d ← of_res (digest signed);
  anchor "household-room-policy" (JObj [("room_id", JStr room_id); ("no_memory", JBool wanted); ("digest", JStr d)]%string) now;;
  of_res (item "record" signed).

Definition consent (person_id scope : string) (granted : json) (grantor : string) (proxy_for proxy_authority : option string)
    (now : string) : io home' pyexn json :=
  person_id ← of_res (_actor person_id);
  grantor ← of_res (_actor grantor);
  of_res (require (grantable scope) ValueError);;
  granted ← of_res (bool_json granted);
  match proxy_for with
  | Some proxy =>
      proxy ← of_res (_actor proxy);
      let authority := default ""%string proxy_authority in
      of_res (require (String.eqb proxy person_id && negb (String.eqb grantor person_id)
                       && negb (String.eqb authority "")) PermissionError);;
      _ ← of_res (text authority 256); mret tt
  | None => of_res (require (String.eqb grantor person_id) PermissionError)
  end ≫= λ _,
  let body := JObj [("person_id", JStr person_id); ("scope", JStr scope); ("granted", JBool granted);
                    ("grantor", JStr grantor); ("proxy_for", opt_str proxy_for);
                    ("proxy_authority", opt_str proxy_authority)]%string in
  signed ← append_row JOURNAL body;
  d ← of_res (digest signed);
  anchor "household-consent" (JObj [("person_id", JStr person_id); ("scope", JStr scope); ("granted", JBool granted);
    ("proxy", JBool (match proxy_for with Some _ => true | None => false end)); ("digest", JStr d)]%string) now;;
  of_res (item "record" signed).

(** The person arrives as parsed data. *)
Definition scope_for (s : St) (person_id : json) : res pyexn (option string) :=
  person ← text_json person_id 128;
  rows ← records_with s JOURNAL "person_id" (JStr person);
  granted ← last_says "granted" rows;
  if granted : bool then
    scope ← item "scope" (default JNull (last rows));
    scope ← text_json scope 32;
    require (grantable scope) ValueError;; Ok (Some scope)
  else Ok None.

(** What stops a scene: it is not stored and nothing is written. *)
Inductive verdict := Stop (reason : string) | Let_through (scopes : list json).

Definition scope_entry (person scope : string) : json := JObj [("person_id", JStr person); ("scope", JStr scope)]%string.

Fixpoint check_people (s : St) (people : list json) (scopes : list json) : res pyexn verdict :=
  match people with
  | [] => Ok (Let_through scopes)
  | p :: rest =>
      require (is_obj p && included (jkeys p) ["person_id"; "status"]%string) ValueError;;
      if negb (py_eqb (get_null "status" p) (JStr "recognized")) || negb (truthy_at "person_id" p)
      then Ok (Stop "unknown-person-ephemeral")
      else
        person ← text_json (get_null "person_id" p) 128;
        scope ← scope_for s (JStr person);
        match scope with
        | None => Ok (Stop "consent-required")
        | Some scope => check_people s rest (scopes ++ [scope_entry person scope])
        end
  end.

Definition not_persisted (reason : string) : json := JObj [("persisted", JBool false); ("reason", JStr reason)]%string.

Definition observe (scene : json) (room_id : string) (identity_resolver : json → res pyexn json)
    (persist : json → json → json → X → res pyexn json * X) : io home' pyexn json :=
  room_id ← of_res (text room_id 128);
  private ← in_book (λ s, no_memory s (JStr room_id));
  if private : bool then mret (not_persisted "no-memory-room")
  else
    people ← of_res (identity_resolver scene);
    people ← of_res (match people with JList l => Ok l | _ => Err ValueError end);
    of_res (require (zlen people <=? 64) ValueError);;
    v ← in_book (λ s, check_people s people []);
    match v with
    | Stop reason => mret (not_persisted reason)
    | Let_through scopes =>
        d ← of_res (digest scene);
        gate ← append_row GATES (JObj [("room_id", JStr room_id); ("scene_digest", JStr d); ("scopes", JList scopes)]%string);
        result ← zoom outside (λ h x, Home (book h) (house_trees h) x) (λ x, persist scene (JList scopes) gate x);
        mret (JObj [("persisted", JBool true); ("result", result); ("scopes", JList scopes)]%string)
    end.

(** [a or b] on values that may be absent. *)
Definition first_truthy (k : string) (a : json) (otherwise : option json) : option json :=
  if truthy_at k a then jget k a else otherwise.

Definition stripped (delta : json) : json := jdel "room_id" (jdel "contains_person" (jdel "household_gate" delta)).

Definition assert_spatial_persistable (s : St) (delta : json) (context_room : option string) : res pyexn () :=
  let room := first_truthy "room_id" delta
    (match context_room with Some r => if String.eqb r "" then None else Some (JStr r) | None => None end) in
  private ← (match room with Some r => no_memory s r | None => Ok false end);
  require (negb private) PermissionError;;
  if bool_decide (jget "contains_person" delta = Some (JBool true)) then
    let gate := get_null "household_gate" delta in
    require (is_obj gate) PermissionError;;
    ok ← Seal.verify s gate;
    require ok PermissionError;;
    d ← digest (stripped delta);
    require (py_eqb (get_null "scene_digest" (default (JObj []) (jget "record" gate))) (JStr d)) PermissionError;;
    record ← item "record" gate;
    require (match room with Some r => py_eqb (get_null "room_id" record) r | None => true end) PermissionError;;
    entries ← (match get_list "scopes" record with JList l => Ok l | _ => Err TypeError end);
    foldM (λ _ entry,
      scope ← scope_for s (default (JStr "") (jget "person_id" entry));
      require (py_eqb (opt_str scope) (get_null "scope" entry)) PermissionError) tt entries
  else Ok tt.

Definition bridge_scene_handler (room_resolver : json → res pyexn string) (identity_resolver : json → res pyexn json)
    (persist : json → json → json → X → res pyexn json * X) (scene : json) : io home' pyexn json :=
  room ← of_res (room_resolver scene); observe scene room identity_resolver persist.
End household.
