(* ===== verification/HouseholdSpec.v ===== *)
(** * Consent of a household: what is stored and what stays private

    A scene is stored only when its room allows it and everyone in it is
    recognized and has consented; a room that was made private stays so. *)

From S2P Require Import Prelude Sha256 Base64 Wire Origin Merkle Journal JournalSpec Strings Number Ledger Seal Vda Transparency Lineage Effects Household.
Local Open Scope Z_scope.

(** ** The journals, as the abstract state *)

Definition named (field value : string) (r : json) : bool := py_eqb (get_null field r) (JStr value).

(** The last record of a room, or of a person, decides. *)
Definition decided (key field value : string) (l : list json) (r : json) : Prop :=
  last (List.filter (named field value) l) = Some r ∧ truthy_at key r = true.
Definition private_room (l : list json) (room : string) : Prop := ∃ r, decided "no_memory" "room_id" room l r.
Definition consenting (l : list json) (person scope : string) : Prop :=
  ∃ r, decided "granted" "person_id" person l r ∧ jget "scope" r = Some (JStr scope) ∧ grantable scope = true.

Section household.
Context {St X : Type} `{LG : Ledger St} `{LL : !LedgerLaws St} `{SL : !Sealed St} `{SLL : !SealedLaws St}.
Implicit Types h : home St X.

Lemma valid_records s name rows : _valid_signed s name = Ok rows →
  ∃ l, journal s name = Ok l ∧ mapR (item "record") rows = Ok l.
Proof.
  unfold _valid_signed, event_snapshot. intros H. bind H as [[n t] l'] Hs. bind Hs as [n' t'] Hc. bind Hs as l Hl.
  bind Hs as c _. injection Hs as <- <- <-. bind H as pairs Hp. injection H as <-.
  destruct (checkpoint_journal _ _ _ _ Hc) as (l2 & Hl2 & -> & _). rewrite Hl in Hl2. injection Hl2 as <-.
  exists l. split; [done|]. rewrite Nat2Z.id in Hp. apply mapR_Ok_Forall2 in Hp. apply mapR_Ok_Forall2.
  assert (Hsuf : ∀ k, (k ≤ length l)%nat → ∀ ps, Forall2 (λ i p, (row ← signed_at s name (Z.of_nat i); ok ← Seal.verify s row; Ok (row, ok)) = Ok p)
      (seq k (length l - k)) ps → Forall2 (λ r x, item "record" r = Ok x) (map fst (List.filter snd ps)) (drop k l)).
  { intros k Hk. remember (length l - k)%nat as m eqn:Em. revert k Hk Em. induction m as [|m IH]; intros k Hk Em ps Hps; simpl in Hps.
    - inversion Hps; subst. rewrite drop_ge by lia. constructor.
    - inversion Hps as [|? p ? ps' Hrow Hrest]; subst. bind Hrow as row Hat. bind Hrow as ok Hok. injection Hrow as <-.
      destruct (signed_at_journal _ _ _ _ _ Hat Hl) as (Hv & _ & Hrec). rewrite Hok in Hv. injection Hv as ->.
      rewrite Nat2Z.id in Hrec. destruct (lookup_lt_is_Some_2 l k) as [x Hx]; [lia|].
      rewrite (drop_S _ _ _ Hx). simpl. constructor; [unfold item; rewrite Hrec, Hx; done|]. apply IH; [lia|lia|done]. }
  specialize (Hsuf 0%nat ltac:(lia) pairs). rewrite Nat.sub_0_r, drop_0 in Hsuf. auto.
Qed.

Lemma records_with_Ok s name field value rs : records_with s name field (JStr value) = Ok rs →
  ∃ l, journal s name = Ok l ∧ rs = List.filter (named field value) l.
Proof.
  unfold records_with. intros H. bind H as rows Hr. bind H as recs Hrec. injection H as <-.
  destruct (valid_records _ _ _ Hr) as (l & Hl & Hl'). rewrite Hrec in Hl'. injection Hl' as <-. eauto.
Qed.

Lemma last_says_true key rs b : last_says key rs = Ok b → b = true ↔ ∃ r, last rs = Some r ∧ truthy_at key r = true.
Proof.
  unfold last_says. destruct (last rs) as [r|]; [|intros [= <-]; naive_solver].
  intros H. bind H as v _. injection H as <-. naive_solver.
Qed.

Lemma no_memory_Ok s room b : no_memory s (JStr room) = Ok b → ∃ l, journal s ROOMS = Ok l ∧ (b = true ↔ private_room l room).
Proof.
  unfold no_memory. intros H. bind H as rs Hrs. apply records_with_Ok in Hrs as (l & Hl & ->). exists l. split; [done|].
  by apply last_says_true in H.
Qed.

Lemma text_json_Ok v n s : text_json v n = Ok s → v = JStr s.
Proof. destruct v; try done. simpl. unfold text. intros H. bind H as u _. by injection H as ->. Qed.

Lemma scope_for_Ok s person scope : scope_for s (JStr person) = Ok (Some scope) →
  ∃ l, journal s JOURNAL = Ok l ∧ consenting l person scope.
Proof.
  unfold scope_for. intros H. bind H as p Hp. apply text_json_Ok in Hp. injection Hp as <-.
  bind H as rs Hrs. apply records_with_Ok in Hrs as (l & Hl & ->). bind H as g Hg. destruct g; [|done].
  bind H as sc Hsc. bind H as sc' Hsc'. apply text_json_Ok in Hsc' as ->. bind H as [] Hgr. injection H as ->.
  apply require_Ok in Hgr. exists l. split; [done|]. apply last_says_true in Hg as [Hg _]. destruct (Hg eq_refl) as (r & Hr & Ht).
  exists r. split; [by split|]. rewrite Hr in Hsc. simpl in Hsc. unfold item in Hsc. by apply get_or_Ok in Hsc.
Qed.

(** ** The gate *)

(** A person the robot recognized, by identity and status alone, who has
    consented. *)
Definition cleared (l : list json) (p entry : json) : Prop := ∃ person scope,
  is_obj p = true ∧ included (jkeys p) ["person_id"; "status"]%string = true ∧ named "status" "recognized" p = true ∧
  jget "person_id" p = Some (JStr person) ∧ consenting l person scope ∧ entry = scope_entry person scope.

Lemma check_people_Ok s people : ∀ acc scopes, check_people s people acc = Ok (Let_through scopes) →
  ∃ new, scopes = acc ++ new ∧ Forall2 (λ p e, ∃ l, journal s JOURNAL = Ok l ∧ cleared l p e) people new.
Proof.
  induction people as [|p people IH]; simpl; intros acc scopes H.
  - injection H as <-. exists []. by rewrite app_nil_r.
  - bind H as [] Hp. apply require_Ok, andb_true_iff in Hp as [Hobj Hkeys].
    destruct (negb _ || negb _) eqn:Hrec; [done|]. apply orb_false_iff in Hrec as [Hst%negb_false_iff _].
    bind H as person Hper. bind H as sc Hsc. destruct sc as [scope|]; [|done].
    apply IH in H as (new & -> & Hnew). exists (scope_entry person scope :: new). split; [by rewrite <- app_assoc|].
    constructor; [|done]. apply scope_for_Ok in Hsc as (l & Hl & Hc). exists l. split; [done|]. exists person, scope.
    split_and!; try done. apply text_json_Ok in Hper. unfold get_null in Hper. by destruct (jget "person_id" p); simplify_eq/=.
Qed.

(** C26: a scene reaches the sink only when the room's last policy does not
    forbid memory and the robot recognized every person in it, named them by
    identity and status alone, and each one's last consent grants a scope; the
    write is preceded by a signed gate row that says so.  In every other case,
    errors included, nothing at all has been written. *)
Theorem observe_gated h scene room identity_resolver persist r h' :
  observe scene room identity_resolver persist h = (r, h') →
  (h' = h ∧ ∀ v, r = Ok v → jget "persisted" v = Some (JBool false)) ∨
  ∃ people scopes d gate s rooms,
    journal (book h) ROOMS = Ok rooms ∧ ¬ private_room rooms room ∧
    identity_resolver scene = Ok (JList people) ∧ zlen people <= 64 ∧
    Forall2 (λ p e, ∃ l, journal (book h) JOURNAL = Ok l ∧ cleared l p e) people scopes ∧
    digest scene = Ok d ∧
    Ledger.append (book h) GATES (JObj [("room_id", JStr room); ("scene_digest", JStr d); ("scopes", JList scopes)]%string) = Ok (gate, s) ∧
    h' = Home s (house_trees h) (snd (persist scene (JList scopes) gate (outside h))).
Proof.
  unfold observe. intros H. look H as room' Hroom; [|by left]. unfold text in Hroom. bind Hroom as u _. injection Hroom as <-.
  look H as private Hpriv; [|by left]. apply no_memory_Ok in Hpriv as (rooms & Hrooms & Hpriv).
  destruct private; [injection H as <- <-; left; split; [done|by intros ? [= <-]]|].
  look H as pj Hres; [|by left]. look H as people Hpeople; [|by left]. destruct pj as [| | | | |l|]; try discriminate Hpeople. injection Hpeople as ->.
  look H as u' Hlen; [|by left]. apply require_Ok in Hlen. zbool.
  look H as v Hv; [|by left]. destruct v as [reason|scopes]; [injection H as <- <-; left; split; [done|by intros ? [= <-]]|].
  look H as d Hd; [|by left]. apply check_people_Ok in Hv as (new & -> & Hnew). simpl in H.
  destruct (Ledger.append (book h) GATES (JObj [("room_id", JStr room); ("scene_digest", JStr d); ("scopes", JList new)]%string))
    as [[gate s]|e] eqn:Hg.
  2:{ left. revert H. unfold append_row, mbind, io_bind. simpl. rewrite Hg. by intros [= <- <-]. }
  right. exists people, new, d, gate, s, rooms. split_and!; try done; [by rewrite <- Hpriv|].
  revert H. unfold append_row, mbind, io_bind, zoom. rewrite Hg. simpl.
  destruct (persist scene (JList new) gate (outside h)) as [[res|e] x]; by intros [= <- <-].
Qed.

(** ** A private room stays private *)

Context `{ST : !SteadyLaws St} `{SS : !SteadySeal St}.

(** Any call of the module, whatever its outcome. *)
Inductive hstep root : home St X → home St X → Prop :=
  | hstep_room room nm actor now h r h' : configure_room root room nm actor now h = (r, h') → hstep root h h'
  | hstep_consent person scope granted grantor proxy authority now h r h' :
      consent root person scope granted grantor proxy authority now h = (r, h') → hstep root h h'
  | hstep_observe scene room resolver persist h r h' : observe scene room resolver persist h = (r, h') → hstep root h h'.

(** What a call does to the rooms' journal. *)
Definition keeps_private h h' : Prop := steady (book h') ∧ ∀ l', journal (book h') ROOMS = Ok l' →
  ∃ l, journal (book h) ROOMS = Ok l ∧ ∀ room, private_room l room → private_room l' room.

Lemma keeps_private_same h h' : steady (book h') → journal (book h') ROOMS = journal (book h) ROOMS → keeps_private h h'.
Proof. intros Hs E. split; [done|]. intros l' H. rewrite E in H. eauto. Qed.

Lemma keeps_private_trans h h1 h2 : keeps_private h h1 → keeps_private h1 h2 → keeps_private h h2.
Proof.
  intros [_ H1] [Hs H2]. split; [done|]. intros l2 Hl2. destruct (H2 _ Hl2) as (l1 & Hl1 & K1).
  destruct (H1 _ Hl1) as (l & Hl & K). exists l. split; [done|]. auto.
Qed.

Lemma append_row_other name body h r h' : steady (book h) → name ≠ ROOMS → append_row name body h = (r, h') → keeps_private h h'.
Proof.
  intros Hs Hne. unfold append_row. destruct (Ledger.append _ _ _) as [[row s]|] eqn:Ha; intros [= <- <-]; [|by apply keeps_private_same].
  apply keeps_private_same; simpl; [by eapply append_steady|]. eapply steady_other; [done| |exact Ha]; congruence.
Qed.

(** An append to the log signs a statement and adds a leaf. *)
Lemma anchor_keeps root event statement now h r h' : steady (book h) → anchor root event statement now h = (r, h') → keeps_private h h'.
Proof.
  intros Hs. unfold anchor. destruct (Transparency.append _ _ _ _ _ _ _) as [[[x s] ts]|] eqn:Ha; intros [= <- <-]; [|by apply keeps_private_same].
  unfold Transparency.append in Ha. bind Ha as e _. bind Ha as [state ts1] _. bind Ha as [signed s1] Hsign.
  bind Ha as [row s2] Hap. bind Ha as lh _. bind Ha as [rt t2] _. bind Ha as lt _. simpl in Ha. injection Ha as <- <- <-.
  destruct (sign_steady _ _ _ _ Hs Hsign) as [Hs1 Hj]. apply keeps_private_same; simpl; [by eapply append_steady|].
  rewrite <- Hj. eapply steady_other; [done| |exact Hap]; by vm_compute.
Qed.

Lemma private_snoc l r room : private_room (l ++ [r]) room ↔
  if named "room_id" room r then truthy_at "no_memory" r = true else private_room l room.
Proof.
  unfold private_room, decided. rewrite List.filter_app. simpl. destruct (named "room_id" room r).
  - rewrite last_snoc. naive_solver.
  - by rewrite app_nil_r.
Qed.

(** The row [configure_room] appends. *)
Lemma room_row n room wanted actor r :
  stamped n (JObj [("room_id", JStr room); ("no_memory", JBool wanted); ("actor", JStr actor)]%string) r →
  (∀ other, named "room_id" other r = String.eqb room other) ∧ truthy_at "no_memory" r = wanted.
Proof. intros (p & a & ->). by destruct wanted. Qed.

Lemma configure_room_keeps root room nm actor now h r h' : steady (book h) →
  configure_room root room nm actor now h = (r, h') → keeps_private h h'.
Proof.
  intros Hs H. unfold configure_room in H. assert (Hsame : keeps_private h h) by (by apply keeps_private_same).
  look H as room' Hroom; [|done]. unfold text in Hroom. bind Hroom as u _. injection Hroom as <-.
  look H as actor' _; [|done]. look H as wanted _; [|done]. look H as prior Hprior; [|done].
  look H as strict Hstrict; [|done]. look H as u' Hreq; [|done]. apply require_Ok in Hreq.
  apply records_with_Ok in Hprior as (l & Hl & ->). apply last_says_true in Hstrict.
  apply io_bind_inv in H as [(signed & h1 & Ha & H)|(e & Ha & ->)].
  2:{ unfold append_row in Ha. destruct (Ledger.append _ _ _) as [[]|]; [done|]. by injection Ha as _ <-. }
  assert (keeps_private h h1) as Hk1.
  { unfold append_row in Ha. destruct (Ledger.append _ _ _) as [[row s]|] eqn:Hap; [|done]. injection Ha as <- <-.
    split; simpl; [by eapply append_steady|]. intros l' Hl'.
    destruct (append_same _ _ _ _ _ _ _ Hl Hap Hl') as (rec & -> & _ & Hst). apply room_row in Hst as [Hn Ht].
    exists l. split; [done|]. intros other Ho. apply private_snoc. rewrite Hn, Ht. destruct (String.eqb_spec room other) as [<-|]; [|done].
    assert (strict = true) as -> by (by apply Hstrict). by destruct wanted. }
  look H as d _; [|done]. apply io_bind_inv in H as [(u2 & h2 & Han & H)|(e & Han & ->)].
  - apply anchor_keeps in Han; [|by apply Hk1]. injection H as _ <-. by eapply keeps_private_trans.
  - apply anchor_keeps in Han; [|by apply Hk1]. by eapply keeps_private_trans.
Qed.

Lemma consent_keeps root person scope granted grantor proxy authority now h r h' : steady (book h) →
  consent root person scope granted grantor proxy authority now h = (r, h') → keeps_private h h'.
Proof.
  intros Hs H. unfold consent in H. assert (Hsame : keeps_private h h) by (by apply keeps_private_same).
  look H as person' _; [|done]. look H as grantor' _; [|done]. look H as u _; [|done]. look H as granted' _; [|done].
  apply io_bind_inv in H as [(u' & h0 & Hp & H)|(e & Hp & ->)].
  2:{ destruct proxy; [|by injection Hp as ? ->]. look Hp as proxy2 _; [|done]. look Hp as u2 _; [|done]. by look Hp as t _. }
  assert (h0 = h) as ->.
  { destruct proxy; [|by injection Hp as ? ->]. look Hp as proxy2 _. look Hp as u2 _. look Hp as t _. by injection Hp as <-. }
  apply io_bind_inv in H as [(signed & h1 & Ha & H)|(e & Ha & ->)]; [|by eapply append_row_other; [..|exact Ha]].
  apply append_row_other in Ha; [|done|by vm_compute].
  look H as d _; [|done]. apply io_bind_inv in H as [(u2 & h2 & Han & H)|(e & Han & ->)].
  - apply anchor_keeps in Han; [|by apply Ha]. injection H as _ <-. exact (keeps_private_trans _ _ _ Ha Han).
  - apply anchor_keeps in Han; [|by apply Ha]. exact (keeps_private_trans _ _ _ Ha Han).
Qed.

Lemma observe_keeps scene room resolver persist h r h' : steady (book h) →
  observe scene room resolver persist h = (r, h') → keeps_private h h'.
Proof.
  intros Hs [[-> _]|(people & scopes & d & gate & s & rooms & _ & _ & _ & _ & _ & _ & Ha & ->)]%observe_gated; [by apply keeps_private_same|].
  apply keeps_private_same; simpl; [by eapply append_steady|]. eapply steady_other; [done| |exact Ha]; by vm_compute.
Qed.

(** once a room's policy says no memory, no sequence of the module's calls
    - further policies, consents, scenes, with any outcome - lifts it. *)
Theorem private_room_kept root h h' l l' room : steady (book h) → rtc (hstep root) h h' →
  journal (book h) ROOMS = Ok l → private_room l room → journal (book h') ROOMS = Ok l' → private_room l' room.
Proof.
  intros Hs Hsteps Hl Hp Hl'. assert (keeps_private h h') as [_ Hk].
  { clear Hl Hp Hl'. induction Hsteps as [h|h h1 h2 Hst _ IH]; [by apply keeps_private_same|].
    assert (keeps_private h h1) as H1 by (inversion Hst; subst; eauto using configure_room_keeps, consent_keeps, observe_keeps).
    eapply keeps_private_trans; [done|]. apply IH, H1. }
  destruct (Hk _ Hl') as (l0 & Hl0 & K). rewrite Hl in Hl0. injection Hl0 as <-. auto.
Qed.
End household.

(** ** A household, for examples *)

#[local] Existing Instances memory_ledger memory_ledger_laws memory_sealed memory_sealed_laws memory_steady_laws memory_steady_seal.

Definition NOW : string := "2025-01-01T00:00:00+00:00".
(** The sink keeps the scenes it is given. *)
Definition empty_home : home memory (list json) := Home [] [] [].
Definition keep_scene (scene scopes gate : json) (kept : list json) : res pyexn json * list json := (Ok JNull, kept ++ [scene]).
Definition seen_by_robot (name : string) (_ : json) : res pyexn json :=
  Ok (JList [JObj [("person_id", JStr name); ("status", JStr "recognized")]%string]).

Definition demo_home : home memory (list json) :=
  snd ((configure_room "store" "bedroom" (JBool true) "alice" NOW;;
        consent "store" "alice" "resident" (JBool true) "alice" None None NOW) empty_home).
Definition demo_observe (room who : string) : res pyexn json * home memory (list json) :=
  observe (JObj [("cup", JStr "table")]%string) room (seen_by_robot who) keep_scene demo_home.

(** Alice is stored in the kitchen, not in the bedroom; Bob nowhere. *)
Example demo_gate : map (λ '(room, who), length (outside (snd (demo_observe room who))))
  [("kitchen", "alice"); ("bedroom", "alice"); ("kitchen", "bob")]%string = [1; 0; 0]%nat.
Proof. vm_compute. reflexivity. Qed.

Lemma observe_gated_witness : is_ok (fst (demo_observe "kitchen" "alice")) = true ∧
  let '(r, h') := demo_observe "kitchen" "alice" in
  (h' = demo_home ∧ ∀ v, r = Ok v → jget "persisted" v = Some (JBool false)) ∨
  ∃ people scopes d gate s rooms,
    journal (book demo_home) ROOMS = Ok rooms ∧ ¬ private_room rooms "kitchen" ∧
    seen_by_robot "alice" (JObj [("cup", JStr "table")]%string) = Ok (JList people) ∧ zlen people <= 64 ∧
    Forall2 (λ p e, ∃ l, journal (book demo_home) JOURNAL = Ok l ∧ cleared l p e) people scopes ∧
    digest (JObj [("cup", JStr "table")]%string) = Ok d ∧
    Ledger.append (book demo_home) GATES
      (JObj [("room_id", JStr "kitchen"); ("scene_digest", JStr d); ("scopes", JList scopes)]%string) = Ok (gate, s) ∧
    h' = Home s (house_trees demo_home) (snd (keep_scene (JObj [("cup", JStr "table")]%string) (JList scopes) gate (outside demo_home))).
Proof.
  split; [by vm_compute|]. destruct (demo_observe "kitchen" "alice") as [r h'] eqn:E.
  exact (observe_gated demo_home _ _ _ _ r h' E).
Defined.

(** Asking for the bedroom to be remembered again. *)
Definition demo_relax : res pyexn json * home memory (list json) :=
  configure_room "store" "bedroom" (JBool false) "alice" NOW demo_home.
Lemma private_room_kept_witness : fst demo_relax = Err PermissionError ∧
  ∀ l', journal (book (snd demo_relax)) ROOMS = Ok l' → private_room l' "bedroom".
Proof.
  split; [by vm_compute|]. intros l' Hl'.
  refine (private_room_kept "store" demo_home (snd demo_relax) (ok_or [] (journal (book demo_home) ROOMS)) l' "bedroom" I _ _ _ Hl').
  - apply rtc_once. by eapply (hstep_room "store" "bedroom" (JBool false) "alice" NOW _ (fst demo_relax)), surjective_pairing.
  - by vm_compute.
  - eexists. split; by vm_compute.
Defined.
