(* ===== verification/Records.v ===== *)
(** * Memory records ([unimem/memory_record.py], [unimem/record_visibility.py])

    The envelope of a versioned memory: its fields, the checks of its
    construction, its scope and visibility, the binding of its capture
    sources, the redaction step and the observation of a facet. *)

From S2P Require Import Prelude Strings Sha256 Wire Number Moment Unicode.
Local Open Scope Z_scope.

(** ** Data *)

Inductive memory_kind := episode | fact | entity | observation | profile | lesson | directive.
Inductive memory_status := proposed | quarantined | shadow | active | deprecated | retired.

#[export] Instance memory_kind_eq_dec : EqDecision memory_kind.
Proof. solve_decision. Defined.
#[export] Instance memory_status_eq_dec : EqDecision memory_status.
Proof. solve_decision. Defined.

(** A scope: the dictionary of the five dimensions and the labels. *)
Record Scope := mkScope {
  s_agent : option string;
  s_labels : option (list string);
  s_repo : option string;
  s_session : option string;
  s_tenant : option string;
  s_user : option string;
}.

#[export] Instance Scope_eq_dec : EqDecision Scope.
Proof. solve_decision. Defined.

Abbreviation dict := (list (string * json)) (only parsing).

(** [MemoryRecord]; a field holds what its annotation says, [confidence] a
    number. *)
Record MemoryRecord := mkRecord {
  id : string;
  kind : memory_kind;
  version : Z;
  payload : dict;
  status : memory_status;
  is_latest : bool;
  relations : list (string * list string);
  provenance : dict;
  scope : Scope;
  valid_from : option string;
  valid_until : option string;
  created_at : string;
  retracted_at : option string;
  confidence : json;
  evidence : list json;
}.

#[export] Instance MemoryRecord_eq_dec : EqDecision MemoryRecord.
Proof. solve_decision. Defined.

Definition no_scope : Scope := mkScope None None None None None None.

(** The defaults of the data class. *)
Definition new_record (i : string) (k : memory_kind) (v : Z) (p : dict) : MemoryRecord :=
  mkRecord i k v p active true [] [] no_scope None None "" None (JFloat "0.8") [].

(** [dataclasses.replace] *)
Definition set_payload (p : dict) (r : MemoryRecord) : MemoryRecord :=
  mkRecord (id r) (kind r) (version r) p (status r) (is_latest r) (relations r) (provenance r) (scope r)
           (valid_from r) (valid_until r) (created_at r) (retracted_at r) (confidence r) (evidence r).
Definition set_relations (rel : list (string * list string)) (r : MemoryRecord) : MemoryRecord :=
  mkRecord (id r) (kind r) (version r) (payload r) (status r) (is_latest r) rel (provenance r) (scope r)
           (valid_from r) (valid_until r) (created_at r) (retracted_at r) (confidence r) (evidence r).
Definition set_latest (b : bool) (r : MemoryRecord) : MemoryRecord :=
  mkRecord (id r) (kind r) (version r) (payload r) (status r) b (relations r) (provenance r) (scope r)
           (valid_from r) (valid_until r) (created_at r) (retracted_at r) (confidence r) (evidence r).

Definition kind_name (k : memory_kind) : string :=
  match k with
  | episode => "episode" | fact => "fact" | entity => "entity" | observation => "observation"
  | profile => "profile" | lesson => "lesson" | directive => "directive"
  end.
Definition status_name (s : memory_status) : string :=
  match s with
  | proposed => "proposed" | quarantined => "quarantined" | shadow => "shadow" | active => "active"
  | deprecated => "deprecated" | retired => "retired"
  end.

(** ** JSON *)

(** The entry of a dictionary that may lack it. *)
Definition entry (k : string) (v : option json) : dict := match v with Some v => [(k, v)] | None => [] end.

(** A scope with its keys sorted. *)
Definition scope_json (s : Scope) : json :=
  JObj (entry "agent" (JStr <$> s_agent s) ++ entry "labels" ((λ l, JList (map JStr l)) <$> s_labels s)
        ++ entry "repo" (JStr <$> s_repo s) ++ entry "session" (JStr <$> s_session s)
        ++ entry "tenant" (JStr <$> s_tenant s) ++ entry "user" (JStr <$> s_user s)).

Definition optional (s : option string) : json := match s with Some s => JStr s | None => JNull end.

(** [asdict(self)] *)
Definition record_json (r : MemoryRecord) : json :=
  JObj [("id", JStr (id r)); ("kind", JStr (kind_name (kind r))); ("version", JInt (version r));
        ("payload", JObj (payload r)); ("status", JStr (status_name (status r)));
        ("is_latest", JBool (is_latest r));
        ("relations", JObj (map (λ '(k, l), (k, JList (map JStr l))) (relations r)));
        ("provenance", JObj (provenance r)); ("scope", scope_json (scope r));
        ("valid_from", optional (valid_from r)); ("valid_until", optional (valid_until r));
        ("created_at", JStr (created_at r)); ("retracted_at", optional (retracted_at r));
        ("confidence", confidence r); ("evidence", JList (evidence r))]%string.

(** ** Scopes as texts

    [json.dumps] with [ensure_ascii] writes every character outside [' '..'~']
    as an escape of UTF-16; SQLite's [json] drops the white space and keeps the
    escapes, and [json_extract] returns an object as it is spelled in the
    text it is taken from. *)

Definition hex4 (n : Z) : string :=
  of_bytes [hex_digit (n / 4096 mod 16); hex_digit (n / 256 mod 16); hex_digit (n / 16 mod 16); hex_digit (n mod 16)].
Definition unicode_escape (n : Z) : string := String backslash ("u" +:+ hex4 n).

Definition escape_code_point (c : Z) : string :=
  if c <? 127 then escape_char (chr c)
  else if c <? 65536 then unicode_escape c
  else unicode_escape (55296 + (c - 65536) / 1024) +:+ unicode_escape (56320 + (c - 65536) mod 1024).

Definition quote_ascii (s : string) : string :=
  qstr +:+ fold_right (λ c t, escape_code_point c +:+ t) EmptyString (code_points (str_bytes s)) +:+ qstr.

(** [json.dumps(v, sort_keys=True, separators=(",", ":"))] *)
Fixpoint dumps_ascii (v : json) : string :=
  match v with
  | JNull => "null"
  | JBool b => if b then "true" else "false"
  | JInt n => pretty.pretty n
  | JFloat r => r
  | JStr s => quote_ascii s
  | JList l => "[" +:+ join "," (map dumps_ascii l) +:+ "]"
  | JObj kvs =>
      "{" +:+ join "," (map (λ kv, quote_ascii (fst kv) +:+ ":" +:+ snd kv)
                            (sort_keys (map (λ '(k, x), (k, dumps_ascii x)) kvs))) +:+ "}"
  end.

(** [json_extract(body, '$.scope') = json(json.dumps(scope, sort_keys=True))]
    of the body of a stored record, which is written with
    [ensure_ascii=False, sort_keys=True]. *)
Definition scope_text_is (r : MemoryRecord) (s : Scope) : bool :=
  String.eqb (dumps (scope_json (scope r))) (dumps_ascii (scope_json s)).

(** The texts [json.dumps] spells as they are. *)
Definition plain_char (c : ascii) : bool := byte_of c <? 127.
Definition plain (s : string) : bool := forallb plain_char (str_bytes s).
Definition plain_scope (s : Scope) : bool :=
  forallb plain (omap (λ x, x) [s_agent s; s_repo s; s_session s; s_tenant s; s_user s]
                 ++ default [] (s_labels s)).

(** ** Construction *)

(** [_validate_record_json]: [todo] holds the items with their depth, and
    the exits of the open containers. *)
Definition MAX_RECORD_BYTES : Z := 1048576.
Definition MAX_RECORD_NODES : Z := 100000.
Definition MAX_RECORD_DEPTH : Z := 64.

Inductive visit := Enter (v : json) (depth : Z) | Exit.

Definition string_size (s : string) : Z := byte_len (quote s).

Fixpoint key_sizes (encoded : Z) (kvs : dict) : res pyexn Z :=
  match kvs with
  | [] => Ok encoded
  | (k, _) :: rest =>
      let encoded := encoded + string_size k + 1 in
      require (encoded <=? MAX_RECORD_BYTES) ValueError;;
      key_sizes encoded rest
  end.

(** One item: what it pushes and the size it adds to. *)
Definition record_item (item : json) (depth nodes pending encoded : Z) : res pyexn (list visit * Z) :=
  let room n := require (nodes + pending + Z.of_nat n <=? MAX_RECORD_NODES) ValueError in
  let base n := encoded + 2 + Z.max 0 (Z.of_nat n - 1) in
  match item with
  | JNull => Ok ([], encoded + 4)
  | JBool b => Ok ([], encoded + if b then 4 else 5)
  | JInt n => require (bit_length n <=? 4096) ValueError;; Ok ([], encoded + byte_len (pretty.pretty n))
  | JFloat r => require (isfinite r) ValueError;; Ok ([], encoded + byte_len r)
  | JStr s => Ok ([], encoded + string_size s)
  | JObj kvs =>
      room (length kvs);;
      encoded ← key_sizes (base (length kvs)) (rev kvs);
      Ok (map (λ kv, Enter kv.2 (depth + 1)) kvs ++ [Exit], encoded)
  | JList l => room (length l);; Ok (map (λ v, Enter v (depth + 1)) l ++ [Exit], base (length l))
  end.

Fixpoint record_walk (fuel : nat) (todo : list visit) (nodes encoded : Z) : res pyexn () :=
  match fuel, todo with
  | _, [] => Ok ()
  | O, _ => Err RecursionError
  | S fuel', Exit :: rest => record_walk fuel' rest nodes encoded
  | S fuel', Enter item depth :: rest =>
      let nodes := nodes + 1 in
      require ((nodes <=? MAX_RECORD_NODES) && (depth <=? MAX_RECORD_DEPTH)) ValueError;;
      '(pushed, encoded) ← record_item item depth nodes (Z.of_nat (length rest)) encoded;
      require (encoded <=? MAX_RECORD_BYTES) ValueError;;
      record_walk fuel' (pushed ++ rest) nodes encoded
  end.

(** Every node is entered and left at most once. *)
Definition _validate_record_json (v : json) : res pyexn () :=
  record_walk (2 * nodes v) [Enter v 0] 0 0.

(** [datetime.fromisoformat(value.replace("Z", "+00:00"))], naive values in UTC. *)
Definition moment (value : string) : res pyexn Z :=
  '(local, off) ← get_or (fromisoformat (of_bytes (replace_z (str_bytes value)))) ValueError;
  Ok (local - default 0 off).

(** An optional timestamp; the empty text is none. *)
Definition timestamp (value : option string) : res pyexn (option Z) :=
  match value with
  | None => Ok None
  | Some s => if String.eqb s "" then Ok None else Some <$> moment s
  end.

Definition truthy (v : option json) : bool :=
  match v with
  | None | Some JNull | Some (JBool false) | Some (JStr "") | Some (JList []) | Some (JObj []) => false
  | Some (JInt n) => negb (n =? 0)
  | Some (JFloat r) => negb (String.eqb r "0.0" || String.eqb r "-0.0")
  | Some _ => true
  end.

(** A payload field that must be a timestamp when it is truthy. *)
Definition timestamp_field (k : string) (p : dict) : res pyexn (option Z) :=
  if truthy (assoc k p) then
    match assoc k p with Some (JStr s) => Some <$> moment s | _ => Err ValueError end
  else Ok None.

Definition revisions_ok (v : option json) : bool :=
  match v with
  | None | Some JNull => true
  | Some (JObj kvs) => forallb (λ kv, match kv.2 with JInt n => 1 <=? n | _ => false end) kvs
  | Some _ => false
  end.

(** [value <= 0] fails and the number is finite. *)
Definition positive_number (v : json) : bool :=
  match num_value v with Some d => dec_ltb (dec_int 0) d | None => false end.

Definition dimensions (s : Scope) : list (string * option string) :=
  [("tenant", s_tenant s); ("user", s_user s); ("agent", s_agent s); ("session", s_session s);
   ("repo", s_repo s)]%string.
Definition labels (s : Scope) : list string := default [] (s_labels s).

Definition bounded_name (s : string) : bool := negb (String.eqb s "") && (str_len s <=? 256).

(** [__post_init__] *)
Definition validate (r : MemoryRecord) : res pyexn () :=
  require (bounded_name (id r)) ValueError;;
  require (1 <=? version r) ValueError;;
  _ ← number (confidence r) 0 1;
  require (forallb is_obj (evidence r)) ValueError;;
  require (revisions_ok (assoc "source_versions" (provenance r))) ValueError;;
  _ ← timestamp (Some (created_at r));
  from ← timestamp (valid_from r);
  until ← timestamp (valid_until r);
  _ ← timestamp (retracted_at r);
  require (match from, until with Some f, Some u => f <=? u | _, _ => true end) ValueError;;
  forget ← timestamp_field "forget_after" (payload r);
  require (match forget, assoc "forget_reason" (payload r) with
           | None, _ => true
           | Some _, Some (JStr s) => negb (blank s)
           | Some _, _ => false
           end) ValueError;;
  (if bool_decide (kind r = profile) then
     _ ← timestamp_field "observed_at" (payload r);
     require (positive_number (default (JInt 1) (assoc "weight" (payload r)))
              && positive_number (default (JInt 90) (assoc "half_life_days" (payload r)))) ValueError
   else Ok ());;
  _ ← _validate_record_json (record_json r);
  require (included (relations r).*1 ["updates"; "extends"; "derives"; "supersedes"; "caused_by"]%string) ValueError;;
  require (forallb (λ kv, forallb (λ v, negb (String.eqb v "")) kv.2) (relations r)) ValueError;;
  require (forallb (λ kv, match kv.2 with Some v => bounded_name v | None => true end) (dimensions (scope r))) ValueError;;
  require (forallb (λ v, str_len v <=? 256) (labels (scope r)) && (Z.of_nat (length (labels (scope r))) <=? 128)) ValueError.

(** [MemoryRecord(...)], also of the fields a stored body spells. *)
Definition make (r : MemoryRecord) : res pyexn MemoryRecord := validate r;; Ok r.

(** ** Visibility *)

(** [all(scope.get(k) == v for k, v in inner.items() if k != "labels")] *)
Definition dimensions_within (inner outer : Scope) : bool :=
  forallb (λ '(v, w), match v with None => true | Some _ => bool_decide (w = v) end)
    (zip (dimensions inner).*2 (dimensions outer).*2).

(** ... and the labels of [inner] among those of [outer]. *)
Definition scope_within (inner outer : Scope) : bool :=
  dimensions_within inner outer && included (labels inner) (labels outer).

(** [not value or test(moment(value))] *)
Definition when_set (value : option string) (test : Z → bool) : res pyexn bool :=
  t ← timestamp value; Ok (match t with Some t => test t | None => true end).

(** [a and b] *)
Definition and_then (a : bool) (b : res pyexn bool) : res pyexn bool := if a then b else Ok false.
Definition and_res (a b : res pyexn bool) : res pyexn bool := x ← a; and_then x b.

Definition forget_field (p : dict) : res pyexn (option string) :=
  if truthy (assoc "forget_after" p) then
    match assoc "forget_after" p with Some (JStr s) => Ok (Some s) | _ => Err AttributeError end
  else Ok None.

Definition visible (r : MemoryRecord) (sc : Scope) (statuses : list memory_status) (stamp : Z) : res pyexn bool :=
  and_then (is_latest r && bool_decide (status r ∈ statuses) && scope_within (scope r) sc)
    (and_res (when_set (valid_from r) (λ t, t <=? stamp))
    (and_res (when_set (valid_until r) (λ t, stamp <? t))
    (and_res (when_set (retracted_at r) (λ t, stamp <? t))
      (forget ← forget_field (payload r); when_set forget (λ t, stamp <? t))))).

(** ** Normalisation *)

(** [list(dict.fromkeys(l))] *)
Fixpoint from_keys (seen l : list string) : list string :=
  match l with
  | [] => []
  | x :: l' => if mem x seen then from_keys seen l' else x :: from_keys (x :: seen) l'
  end.
Definition unique_keys : list string → list string := from_keys [].

Definition relation (k : string) (r : MemoryRecord) : list string := default [] (assoc k (relations r)).

(** The ids of [payload["source_message_ids"]]. *)
Definition source_messages (p : dict) : res pyexn (list string) :=
  match assoc "source_message_ids" p with
  | None => Ok []
  | Some (JList l) => mapR (λ v, match v with
      | JStr s => require (negb (String.eqb s "")) ValueError;; Ok s
      | _ => Err ValueError end) l
  | Some _ => Err ValueError
  end.

Definition bind_capture_sources (r : MemoryRecord) : res pyexn MemoryRecord :=
  sources ← source_messages (payload r);
  if bool_decide (sources = []) then Ok r
  else make (set_relations (assoc_set "caused_by" (unique_keys (relation "caused_by" r ++ sources)) (relations r)) r).

(** Keep the entries of [old] under the names [ks]. *)
Definition keep_entries (ks : list string) (old new : dict) : dict :=
  fold_left (λ d k, match assoc k old with Some v => assoc_set k v d | None => d end) ks new.

(** [sanitize_record_content]: [scrub] is [memory_guard.sanitize_metadata] on
    the fields of the record. *)
Definition sanitize_record_content (scrub : MemoryRecord → res pyexn MemoryRecord) (r : MemoryRecord)
    : res pyexn MemoryRecord :=
  d ← scrub r;
  make (mkRecord (id r) (kind d) (version d) (keep_entries ["source_message_ids"%string] (payload r) (payload d))
    (status d) (is_latest d) (relations r)
    (keep_entries ["source_versions"; "source_fact_ids"; "source_message_ids"]%string (provenance r) (provenance d))
    (scope r) (valid_from d) (valid_until d) (created_at d) (retracted_at d) (confidence d) (evidence d)).

(** ** The observation of a facet *)

(** [json.dumps([entity, facet, scope], sort_keys=True)], default separators. *)
Fixpoint dumps_spaced (v : json) : string :=
  match v with
  | JNull => "null"
  | JBool b => if b then "true" else "false"
  | JInt n => pretty.pretty n
  | JFloat r => r
  | JStr s => quote_ascii s
  | JList l => "[" +:+ join ", " (map dumps_spaced l) +:+ "]"
  | JObj kvs =>
      "{" +:+ join ", " (map (λ kv, quote_ascii (fst kv) +:+ ": " +:+ snd kv)
                             (sort_keys (map (λ '(k, x), (k, dumps_spaced x)) kvs))) +:+ "}"
  end.

Definition observation_id (ent facet : string) (sc : Scope) : string :=
  "observation-" +:+ sha256_hex (dumps_spaced (JList [JStr ent; JStr facet; scope_json sc])).

Definition facet_observation (ent facet : string) (sources : list MemoryRecord) (previous : option MemoryRecord)
    (now : string) : res pyexn MemoryRecord :=
  match sources, last sources with
  | first :: _, Some final =>
      require (negb (blank ent) && negb (blank facet) && (Z.of_nat (length sources) <=? 9)) ValueError;;
      require (forallb (λ r, bool_decide (kind r = fact) && bool_decide (status r = active)
                             && bool_decide (scope r = scope first)) sources) ValueError;;
      let identity := observation_id ent facet (scope first) in
      require (match previous with Some p => String.eqb (id p) identity | None => true end) ValueError;;
      make (mkRecord identity observation (match previous with Some p => version p + 1 | None => 1 end)
        [("text", default (JStr "") (assoc "text" (payload final))); ("entity", JStr ent); ("facet", JStr facet)]
        active true [("derives", map id sources)]
        [("source_fact_ids", JList (map (JStr ∘ id) sources));
         ("source_versions", JObj (fold_left (λ d r, assoc_set (id r) (JInt (version r)) d) sources []))]
        (scope first) None None now None (JFloat "0.8") [])%string
  | _, _ => Err ValueError
  end.

(** [label.partition(":")]: the part before the first colon and the part after. *)
Fixpoint partition_colon (s : string) : string * string :=
  match s with
  | EmptyString => (EmptyString, EmptyString)
  | String c s' =>
      if Ascii.eqb c ":" then (EmptyString, s')
      else let '(a, b) := partition_colon s' in (String c a, b)
  end.

Definition dimension_of (k : string) (s : Scope) : option string := m ← assoc k (dimensions s); m.
Definition set_dimension (k v : string) (s : Scope) : Scope :=
  let f name old := if String.eqb k name then Some v else old in
  mkScope (f "agent" (s_agent s)) (s_labels s) (f "repo" (s_repo s)) (f "session" (s_session s))
          (f "tenant" (s_tenant s)) (f "user" (s_user s))%string.

Fixpoint scope_loop (l : list string) (s : Scope) (extra : list string) : res pyexn (Scope * list string) :=
  match l with
  | [] => Ok (s, extra)
  | label :: rest =>
      let '(k, v) := partition_colon label in
      if mem k ["tenant"; "user"; "agent"; "session"; "repo"]%string && negb (String.eqb v "") then
        require (match dimension_of k s with Some w => String.eqb w v | None => true end) ValueError;;
        scope_loop rest (set_dimension k v s) extra
      else scope_loop rest s (extra ++ [label])
  end.

Definition scope_from_labels (l : list string) : res pyexn Scope :=
  '(s, extra) ← scope_loop l no_scope [];
  Ok (mkScope (s_agent s) (if bool_decide (extra = []) then None else Some (sort_strings extra))
              (s_repo s) (s_session s) (s_tenant s) (s_user s)).
