(* ===== verification/RecordJournal.v ===== *)
(** * The record journal ([unimem/memory_journal.py])

    The tables of [runtime.sqlite3] and the operations on them: versioned
    records with their links and facet observations, captures and their
    cursors, injection claims and deliveries.  A table is the list of its rows
    in row order.  A write connection is a transaction: when its body raises
    nothing is written.  The services around the store answer through the
    class [Surroundings]. *)

From S2P Require Import Prelude Strings Sha256 Wire Number Moment Unicode Effects Records.
Local Open Scope Z_scope.

(** ** Tables *)

Record capture_row := Capture {
  c_sequence : Z;
  c_id : string;
  c_session : string;
  c_event : string;
  c_body : dict;
  c_scope : Scope;
}.

Record study := Study {
  st_scope : Scope;
  st_actor : string;
  st_remaining : Z;
  st_expires : string;
  st_revision : string;
}.

(** The assignments of a delivery are dictionaries with the key [lesson]. *)
Record delivery := Delivery {
  d_session : string;
  d_scope : Scope;
  d_ids : list string;
  d_assignments : list (string * json);
  d_committed : bool;
}.

Record audit := Audit { a_at : string; a_deleted : list string; a_reason : string }.

(** [resource_refs] maps a reference to a native id and whether it is a
    capture; the random keys of the two outboxes, which only tell rows apart,
    are left out. *)
Record db := mkDb {
  record_events : list (string * Z * MemoryRecord);
  records : list (string * MemoryRecord);
  resource_refs : list (string * (string * bool));
  authority_outbox : list json;
  change_outbox : list json;
  record_fts : list (string * dict);
  links : list (string * string);
  captures : list capture_row;
  last_sequence : Z;
  cursors : list (string * Z);
  scoped_cursors : list ((string * Scope) * Z);
  injected : list (string * string);
  decisions : list (string * string);
  studies : list (string * study);
  vectors : list ((string * string * string) * json);
  erasures : list audit;
  deliveries : list (string * delivery);
}.

Definition empty_db : db := mkDb [] [] [] [] [] [] [] [] 0 [] [] [] [] [] [] [] [].

(** A table written back. *)
Definition set_record_events (v : list (string * Z * MemoryRecord)) (d : db) : db :=
  mkDb v (records d) (resource_refs d) (authority_outbox d) (change_outbox d) (record_fts d) (links d) (captures d) (last_sequence d) (cursors d) (scoped_cursors d) (injected d) (decisions d) (studies d) (vectors d) (erasures d) (deliveries d).
Definition set_records (v : list (string * MemoryRecord)) (d : db) : db :=
  mkDb (record_events d) v (resource_refs d) (authority_outbox d) (change_outbox d) (record_fts d) (links d) (captures d) (last_sequence d) (cursors d) (scoped_cursors d) (injected d) (decisions d) (studies d) (vectors d) (erasures d) (deliveries d).
Definition set_resource_refs (v : list (string * (string * bool))) (d : db) : db :=
  mkDb (record_events d) (records d) v (authority_outbox d) (change_outbox d) (record_fts d) (links d) (captures d) (last_sequence d) (cursors d) (scoped_cursors d) (injected d) (decisions d) (studies d) (vectors d) (erasures d) (deliveries d).
Definition set_authority_outbox (v : list json) (d : db) : db :=
  mkDb (record_events d) (records d) (resource_refs d) v (change_outbox d) (record_fts d) (links d) (captures d) (last_sequence d) (cursors d) (scoped_cursors d) (injected d) (decisions d) (studies d) (vectors d) (erasures d) (deliveries d).
Definition set_change_outbox (v : list json) (d : db) : db :=
  mkDb (record_events d) (records d) (resource_refs d) (authority_outbox d) v (record_fts d) (links d) (captures d) (last_sequence d) (cursors d) (scoped_cursors d) (injected d) (decisions d) (studies d) (vectors d) (erasures d) (deliveries d).
Definition set_record_fts (v : list (string * dict)) (d : db) : db :=
  mkDb (record_events d) (records d) (resource_refs d) (authority_outbox d) (change_outbox d) v (links d) (captures d) (last_sequence d) (cursors d) (scoped_cursors d) (injected d) (decisions d) (studies d) (vectors d) (erasures d) (deliveries d).
Definition set_links (v : list (string * string)) (d : db) : db :=
  mkDb (record_events d) (records d) (resource_refs d) (authority_outbox d) (change_outbox d) (record_fts d) v (captures d) (last_sequence d) (cursors d) (scoped_cursors d) (injected d) (decisions d) (studies d) (vectors d) (erasures d) (deliveries d).
Definition set_captures (v : list capture_row) (d : db) : db :=
  mkDb (record_events d) (records d) (resource_refs d) (authority_outbox d) (change_outbox d) (record_fts d) (links d) v (last_sequence d) (cursors d) (scoped_cursors d) (injected d) (decisions d) (studies d) (vectors d) (erasures d) (deliveries d).
Definition set_last_sequence (v : Z) (d : db) : db :=
  mkDb (record_events d) (records d) (resource_refs d) (authority_outbox d) (change_outbox d) (record_fts d) (links d) (captures d) v (cursors d) (scoped_cursors d) (injected d) (decisions d) (studies d) (vectors d) (erasures d) (deliveries d).
Definition set_cursors (v : list (string * Z)) (d : db) : db :=
  mkDb (record_events d) (records d) (resource_refs d) (authority_outbox d) (change_outbox d) (record_fts d) (links d) (captures d) (last_sequence d) v (scoped_cursors d) (injected d) (decisions d) (studies d) (vectors d) (erasures d) (deliveries d).
Definition set_scoped_cursors (v : list ((string * Scope) * Z)) (d : db) : db :=
  mkDb (record_events d) (records d) (resource_refs d) (authority_outbox d) (change_outbox d) (record_fts d) (links d) (captures d) (last_sequence d) (cursors d) v (injected d) (decisions d) (studies d) (vectors d) (erasures d) (deliveries d).
Definition set_injected (v : list (string * string)) (d : db) : db :=
  mkDb (record_events d) (records d) (resource_refs d) (authority_outbox d) (change_outbox d) (record_fts d) (links d) (captures d) (last_sequence d) (cursors d) (scoped_cursors d) v (decisions d) (studies d) (vectors d) (erasures d) (deliveries d).
Definition set_decisions (v : list (string * string)) (d : db) : db :=
  mkDb (record_events d) (records d) (resource_refs d) (authority_outbox d) (change_outbox d) (record_fts d) (links d) (captures d) (last_sequence d) (cursors d) (scoped_cursors d) (injected d) v (studies d) (vectors d) (erasures d) (deliveries d).
Definition set_studies (v : list (string * study)) (d : db) : db :=
  mkDb (record_events d) (records d) (resource_refs d) (authority_outbox d) (change_outbox d) (record_fts d) (links d) (captures d) (last_sequence d) (cursors d) (scoped_cursors d) (injected d) (decisions d) v (vectors d) (erasures d) (deliveries d).
Definition set_vectors (v : list ((string * string * string) * json)) (d : db) : db :=
  mkDb (record_events d) (records d) (resource_refs d) (authority_outbox d) (change_outbox d) (record_fts d) (links d) (captures d) (last_sequence d) (cursors d) (scoped_cursors d) (injected d) (decisions d) (studies d) v (erasures d) (deliveries d).
Definition set_erasures (v : list audit) (d : db) : db :=
  mkDb (record_events d) (records d) (resource_refs d) (authority_outbox d) (change_outbox d) (record_fts d) (links d) (captures d) (last_sequence d) (cursors d) (scoped_cursors d) (injected d) (decisions d) (studies d) (vectors d) v (deliveries d).
Definition set_deliveries (v : list (string * delivery)) (d : db) : db :=
  mkDb (record_events d) (records d) (resource_refs d) (authority_outbox d) (change_outbox d) (record_fts d) (links d) (captures d) (last_sequence d) (cursors d) (scoped_cursors d) (injected d) (decisions d) (studies d) (vectors d) (erasures d) v.

(** ** The services around the store *)

(** What the policies are asked about: [runtime_descriptor] of a record and
    [capture_descriptor]. *)
Inductive descriptor :=
  | DRecord (r : MemoryRecord)
  | DCapture (identity session event : string) (body : dict) (sc : Scope).

Class Surroundings (X : Type) := {
  (** [capabilities.CURRENT.get() is not None] *)
  capability : X → bool;
  (** [memory/capabilities.json] exists *)
  capabilities_enabled : X → bool;
  (** the agent [REQUIRED_PRINCIPAL_SCOPE] names, when it is set *)
  required_agent : X → option string;
  (** [memory_guard.sanitize_metadata(..., pii=True)] of a record and of a payload *)
  scrub : MemoryRecord → res pyexn MemoryRecord;
  scrub_payload : dict → res pyexn dict;
  scrub_text : string → res pyexn string;
  (** [capability_io] *)
  runtime_prepare : X → MemoryRecord → res pyexn MemoryRecord;
  inherit_labels : X → list string → list string;
  before_write : X → descriptor → res pyexn ();
  capability_permits : X → bool → descriptor → bool;
  quarantined_reference : X → string → bool;
  runtime_identity : X → bool → string → string;
  scope_labels : Scope → res pyexn (list string);
  attest : X → descriptor → res pyexn (option json);
  (** [memory_authority.lineage_blocked] *)
  lineage_blocked : X → string → bool;
  (** [policy_io], [policy_relations.authorized_ids], and whether [policy_io]
      is on, or one of [purpose], [subject_policy] and [policy_relations] *)
  policy_assert_write : X → descriptor → res pyexn ();
  policy_permits : X → bool → descriptor → bool;
  authorized : X → string → bool;
  policy_enabled : X → bool;
  governed : X → bool;
  (** [change_stream.enabled] *)
  streaming : X → bool;
}.

(** ** Queries *)

(** [SELECT body FROM records WHERE id=?]; bodies are re-validated when they
    are parsed. *)
Definition find_record (d : db) (i : string) : option MemoryRecord := assoc i (records d).
Definition load (r : option MemoryRecord) : res pyexn (option MemoryRecord) :=
  match r with Some r => Some <$> make r | None => Ok None end.

Definition find_capture (d : db) (i : string) : option capture_row :=
  List.find (λ c, String.eqb (c_id c) i) (captures d).

(** [SELECT r.body FROM links l JOIN records r ON r.id=l.derived WHERE l.source=?] *)
Definition derived_of (d : db) (source : string) : list string :=
  map snd (List.filter (λ l, String.eqb l.1 source) (links d)).
Definition derived_records (d : db) (source : string) : list MemoryRecord :=
  omap (find_record d) (derived_of d source).

(** [INSERT OR IGNORE] into a table of unique rows. *)
Definition insert_new {A} `{EqDecision A} (row : A) (table : list A) : list A :=
  if bool_decide (row ∈ table) then table else table ++ [row].

(** [with self.connect(write=True)] *)
Definition transaction {A} (m : io db pyexn A) : io db pyexn A := λ d,
  match m d with (Ok a, d') => (Ok a, d') | (Err e, _) => (Err e, d) end.

Definition check (b : bool) (e : pyexn) : io db pyexn () := of_res (require b e).

Section journal.
Context {X : Type} `{SX : Surroundings X}.
Implicit Types x : X.

Definition _delegated x : bool := capability x || capabilities_enabled x.

(** The module's [visible]. *)
Definition journal_visible x (r : MemoryRecord) (sc : Scope) (statuses : list memory_status) (stamp : Z)
    : res pyexn bool :=
  if match required_agent x with Some a => bool_decide (s_agent (scope r) ≠ Some a) | None => false end then Ok false
  else visible r sc statuses stamp.

Definition runtime_permits x (r : MemoryRecord) : bool :=
  negb (lineage_blocked x (runtime_identity x false (id r))) && capability_permits x false (DRecord r).

Definition _runtime_readable x (r : MemoryRecord) : bool :=
  policy_permits x false (DRecord r) && authorized x (id r) && (negb (_delegated x) || runtime_permits x r).

(** ** Outboxes *)

Definition _queue_authority (signed : option json) : io db pyexn () :=
  match signed with
  | None => mret tt
  | Some s =>
      d ← get;
      check (Z.of_nat (length (authority_outbox d)) <? 10000) RuntimeError;;
      modify (λ d, set_authority_outbox (authority_outbox d ++ [s]) d)
  end.

(** [INSERT OR REPLACE INTO resource_refs] with its two unique keys. *)
Definition put_ref (ref i : string) (capture : bool) (d : db) : db :=
  set_resource_refs (List.filter (λ row, negb (String.eqb row.1 ref || bool_decide (row.2 = (i, capture))))
                       (resource_refs d) ++ [(ref, (i, capture))]) d.

Definition _stage_change x (capture : bool) (i : string) (sc : Scope) (revision change : string) : io db pyexn () :=
  if negb (streaming x) && negb (_delegated x) then mret tt
  else
    let ref := runtime_identity x capture i in
    when (negb (String.eqb change "erase")) (modify (put_ref ref i capture));;
    when (streaming x)
      (d ← get;
       check (Z.of_nat (length (change_outbox d)) <? 10000) RuntimeError;;
       names ← of_res (scope_labels sc);
       let body := JObj [("kind", JStr change); ("target", JStr ref); ("scopes", JList (map JStr names));
                         ("namespace", JStr "records"); ("revision", JStr revision)]%string in
       _ ← of_res (wire body);
       modify (λ d, set_change_outbox (change_outbox d ++ [body]) d)).

(** ** Records *)

Definition same_scope (sc : Scope) (r : MemoryRecord) : bool := bool_decide (scope r = sc).

(** One edge of [record.relations]. *)
Definition link_source (r : MemoryRecord) (source : string) : io db pyexn () :=
  d ← get;
  check (match find_record d source with Some s => same_scope (scope r) s | None => true end) ValueError;;
  check (match find_capture d source with Some c => bool_decide (c_scope c = scope r) | None => true end) ValueError;;
  modify (λ d, set_links (insert_new (source, id r) (links d)) d).

(** [INSERT INTO records ... ON CONFLICT(id) DO UPDATE SET body=excluded.body] *)
Definition upsert (r : MemoryRecord) (d : db) : db := set_records (assoc_set (id r) r (records d)) d.

(** [INSERT INTO record_events], whose primary key is [(id, version)]. *)
Definition insert_event (r : MemoryRecord) : io db pyexn () :=
  d ← get;
  check (negb (existsb (λ e, bool_decide (e.1 = (id r, version r))) (record_events d))) RuntimeError;;
  modify (λ d, set_record_events (record_events d ++ [(id r, version r, r)]) d).

(** What a new version passes through before it is written. *)
Definition prepare x (r : MemoryRecord) : res pyexn MemoryRecord :=
  r ← sanitize_record_content scrub r;
  r ← bind_capture_sources r;
  r ← (if _delegated x then runtime_prepare x r else Ok r);
  policy_assert_write x (DRecord r);;
  Ok r.

(** The guards on the tables. *)
Definition admit_version x (r : MemoryRecord) (expected : option Z) (d : db) : res pyexn () :=
  require (match find_capture d (id r) with
           | Some c => negb (capability x) && bool_decide (c_scope c = scope r)
           | None => true
           end) PermissionError;;
  old ← load (find_record d (id r));
  let held := match old with Some o => version o | None => 0 end in
  require (match expected with Some v => v =? held | None => true end && (version r =? held + 1)) ValueError;;
  require (match old with Some o => bool_decide (kind o = kind r) && bool_decide (scope o = scope r) | None => true end)
    ValueError.

(** [_put] up to its last step, which refreshes the facet of a fact; the
    observation that step writes is no fact. *)
Definition put_version x (r : MemoryRecord) (expected : option Z) : io db pyexn MemoryRecord :=
  r ← of_res (prepare x r);
  d ← get;
  of_res (admit_version x r expected d);;
  foreach (link_source r) (concat (relations r).*2);;
  d ← get;
  check (forallb (same_scope (scope r)) (derived_records d (id r))) ValueError;;
  when (capability x) (signed ← of_res (attest x (DRecord r)); _queue_authority signed);;
  _ ← of_res (make r);
  insert_event r;;
  modify (upsert r);;
  _stage_change x false (id r) (scope r) (pretty.pretty (version r))
    (if bool_decide (status r = active) then "assert" else "retract");;
  modify (λ d, set_record_fts (List.filter (λ row, negb (String.eqb row.1 (id r))) (record_fts d) ++ [(id r, payload r)]) d);;
  mret r.

(** The facts of a facet in a scope, newest row first. *)
Definition facet_rows (d : db) (ent facet : string) (sc : Scope) : list MemoryRecord :=
  rev (List.filter (λ r, bool_decide (kind r = fact) && bool_decide (assoc "entity" (payload r) = Some (JStr ent))
                         && bool_decide (assoc "facet" (payload r) = Some (JStr facet)) && scope_text_is r sc)
         (records d).*2).

Definition facet_source x (r s : MemoryRecord) (stamp : Z) : res pyexn bool :=
  if String.eqb (id s) (id r) then Ok false
  else v ← journal_visible x s (scope r) [active] stamp; Ok (v && _runtime_readable x s).

(** The first [n] of them. *)
Fixpoint pick_sources x (r : MemoryRecord) (stamp : Z) (n : nat) (rows : list MemoryRecord)
    : res pyexn (list MemoryRecord) :=
  match n, rows with
  | O, _ | _, [] => Ok []
  | S n', s :: rest =>
      s ← make s;
      '(found : bool) ← facet_source x r s stamp;
      l ← pick_sources x r stamp (if found then n' else n) rest;
      Ok (if found then s :: l else l)
  end.

Definition _refresh_facet x (now : string) (r : MemoryRecord) : io db pyexn () :=
  match assoc "entity" (payload r), assoc "facet" (payload r) with
  | Some (JStr ent), Some (JStr facet) =>
      if blank ent || blank facet then mret tt
      else
        d ← get;
        stamp ← of_res (moment now);
        others ← of_res (pick_sources x r stamp 8 (facet_rows d ent facet (scope r)));
        own ← of_res (journal_visible x r (scope r) [active] stamp);
        let sources := others ++ (if own && _runtime_readable x r then [r] else []) in
        if bool_decide (sources = []) then mret tt
        else
          o ← of_res (facet_observation ent facet sources None now);
          if negb (policy_permits x true (DRecord o)) then mret tt
          else
            prior ← of_res (load (find_record d (id o)));
            o ← of_res (match prior with
                        | Some p => facet_observation ent facet sources (Some p) now
                        | None => Ok o
                        end);
            if _delegated x && negb (capability_permits x true (DRecord o)) then mret tt
            else _ ← put_version x o None; mret tt
  | _, _ => mret tt
  end.

Definition _put x (now : string) (r : MemoryRecord) (expected : option Z) : io db pyexn MemoryRecord :=
  r ← put_version x r expected;
  when (bool_decide (kind r = fact)) (_refresh_facet x now r);;
  mret r.

Definition put x (now : string) (r : MemoryRecord) (expected : option Z) : io db pyexn MemoryRecord :=
  transaction (_put x now r expected).

Definition put_many x (now : string) (l : list MemoryRecord) : io db pyexn (list MemoryRecord) :=
  check (Z.of_nat (length l) <=? 32) ValueError;;
  transaction (collect (λ r, r ← _put x now r None; mret [r]) l).

(** [SELECT body FROM record_events WHERE id=? ORDER BY version] *)
Definition events_of (d : db) (i : string) : list MemoryRecord :=
  sort_by (λ a b, version a <? version b) (map snd (List.filter (λ e, String.eqb e.1.1 i) (record_events d))).

Definition history x (i : string) (d : db) : res pyexn (list MemoryRecord) :=
  rows ← mapR make (events_of d i);
  let n := length rows in
  Ok (List.filter (_runtime_readable x) (imap (λ k r, set_latest (S k =? n)%nat r) rows)).

Definition latest x (i : string) (d : db) : res pyexn (option MemoryRecord) :=
  r ← load (find_record d i);
  Ok (match r with Some r => if _runtime_readable x r then Some r else None | None => None end).

(** ** Captures *)

(** The scope with the labels its writer must inherit. *)
Definition inherited_scope x (sc : Scope) : res pyexn Scope :=
  own ← scope_labels sc;
  let all := inherit_labels x own in
  if included all own && included own all then Ok sc else scope_from_labels all.

(** [capture]: [uuid] is the id drawn when none is given. *)
Definition capture x (uuid session event : string) (body : dict) (sc : Scope) (event_id : option string)
    : io db pyexn capture_row :=
  check (bounded_name session && (byte_len (dumps_spaced (JObj body)) <=? 100000)) ValueError;;
  check (match event_id with Some i => bounded_name i | None => true end) ValueError;;
  body ← of_res (scrub_payload body);
  let i := default uuid event_id in
  sc ← of_res (if _delegated x then
                 sc ← inherited_scope x sc;
                 before_write x (DCapture i session event body sc);;
                 Ok sc
               else Ok sc);
  of_res (policy_assert_write x (DCapture i session event body sc));;
  transaction
    (d ← get;
     check (match find_record d i with
            | Some r => negb (capability x) && same_scope sc r
            | None => true
            end) PermissionError;;
     check (forallb (same_scope sc) (derived_records d i)) ValueError;;
     match find_capture d i with
     | Some row =>
         check (String.eqb (c_session row) session && bool_decide (c_scope row = sc) && String.eqb (c_event row) event
                && py_eqb (JObj (c_body row)) (JObj body)) ValueError;;
         mret row
     | None =>
         let row := Capture (last_sequence d + 1) i session event body sc in
         modify (λ d, set_captures (captures d ++ [row]) (set_last_sequence (c_sequence row) d));;
         when (capability x) (signed ← of_res (attest x (DCapture i session event body sc)); _queue_authority signed);;
         _stage_change x true i sc (pretty.pretty (c_sequence row)) "assert";;
         mret row
     end).

(** ** Cursors *)

Fixpoint find_row {K V} `{EqDecision K} (k : K) (l : list (K * V)) : option V :=
  match l with [] => None | (k', v) :: l' => if decide (k = k') then Some v else find_row k l' end.

(** [INSERT ... ON CONFLICT DO UPDATE SET through=MAX(through,excluded.through)] *)
Fixpoint raise_cursor {K} `{EqDecision K} (k : K) (v : Z) (l : list (K * Z)) : list (K * Z) :=
  match l with
  | [] => [(k, v)]
  | (k', w) :: l' => if decide (k = k') then (k', Z.max w v) :: l' else (k', w) :: raise_cursor k v l'
  end.

Definition sealed_owner (d : db) (session : string) (through : Z) : option Scope :=
  c_scope <$> List.find (λ c, String.eqb (c_session c) session && (c_sequence c =? through)) (captures d).

Definition scoped_through (d : db) (session : string) (sc : Scope) : Z := default 0 (find_row (session, sc) (scoped_cursors d)).

(** The watermark of a session's old cursor becomes that of the scope of the
    capture it sealed. *)
Definition migrate_cursor (session : string) (d : db) : db :=
  match find_row session (cursors d) with
  | None => d
  | Some through =>
      let d := match sealed_owner d session through with
               | Some owner => set_scoped_cursors (raise_cursor (session, owner) through (scoped_cursors d)) d
               | None => d
               end in
      set_cursors (List.filter (λ row, negb (String.eqb row.1 session)) (cursors d)) d
  end.

Definition _cursor_through (session : string) (sc : Scope) : io db pyexn Z :=
  modify (migrate_cursor session);;
  d ← get;
  mret (scoped_through d session sc).

(** The captures of a session and scope after a watermark, in sequence. *)
Definition unsealed (d : db) (session : string) (sc : Scope) (through : Z) : list capture_row :=
  List.filter (λ c, String.eqb (c_session c) session && bool_decide (c_scope c = sc) && (through <? c_sequence c))
    (captures d).

(** [LIMIT ?]: a negative limit is none. *)
Definition limited {A} (limit : Z) (l : list A) : list A := if limit <? 0 then l else take (Z.to_nat limit) l.

Definition captured (c : capture_row) : descriptor := DCapture (c_id c) (c_session c) (c_event c) (c_body c) (c_scope c).

Definition buffer x (session : string) (sc : Scope) (limit : Z) : io db pyexn (list capture_row) :=
  through ← _cursor_through session sc;
  d ← get;
  if negb (policy_permits x false (DCapture "scope-check" session "buffer" [] sc)) then mret []
  else if _delegated x || governed x then
    check ((1 <=? limit) && (limit <=? 128)) ValueError;;
    if negb (capability_permits x false (DCapture "scope-check" session "buffer" [] sc)) then mret []
    else
      let rows := unsealed d session sc through in
      check (Z.of_nat (length rows) <=? 2000) ValueError;;
      mret (take (Z.to_nat limit)
              (List.filter (λ c, authorized x (c_id c) && policy_permits x false (captured c)
                                 && negb (quarantined_reference x (runtime_identity x true (c_id c)))) rows))
  else mret (limited limit (unsealed d session sc through)).

(** [seal]: without a scope, that of the sealed capture, or else the
    session's old cursor. *)
Definition seal (session : string) (through : Z) (sc : option Scope) : io db pyexn () :=
  transaction
    (d ← get;
     match (match sc with Some s => Some s | None => sealed_owner d session through end) with
     | None => modify (λ d, set_cursors (raise_cursor session through (cursors d)) d)
     | Some s =>
         check (match sealed_owner d session through with Some owner => bool_decide (owner = s) | None => true end)
           ValueError;;
         modify (λ d, set_scoped_cursors (raise_cursor (session, s) through (scoped_cursors d)) d)
     end).

Definition closed_boundary (session : string) (sc : Scope) : io db pyexn (option capture_row) :=
  through ← _cursor_through session sc;
  d ← get;
  mret (List.find (λ c, mem (c_event c) ["Stop"; "SessionEnd"; "SubagentStop"]%string) (unsealed d session sc through)).

(** ** Injection claims and deliveries *)

Definition claim_one (session i : string) : io db pyexn (list string) :=
  d ← get;
  if bool_decide ((session, i) ∈ injected d) then mret []
  else modify (λ d, set_injected (injected d ++ [(session, i)]) d);; mret [i].

Definition claim_injections (session : string) (ids : list string) : io db pyexn (list string) :=
  transaction (collect (claim_one session) ids).

Definition inherit_rows (session parent : string) (table : list (string * string)) : list (string * string) :=
  fold_left (λ t i, insert_new (session, i) t)
    (map snd (List.filter (λ row, String.eqb row.1 parent) table)) table.

Definition inherit (session parent : string) : io db pyexn () :=
  modify (λ d, set_decisions (inherit_rows session parent (decisions d))
                 (set_injected (inherit_rows session parent (injected d)) d)).

Definition unclaimed (session : string) (ids : list string) (d : db) : list string :=
  List.filter (λ i, negb (bool_decide ((session, i) ∈ injected d) || bool_decide ((session, i) ∈ decisions d))) ids.

Definition offer_delivery (token session : string) (ids : list string) (assignments : list (string * json)) (sc : Scope)
    : io db pyexn string :=
  d ← get;
  check (bool_decide (assoc token (deliveries d) = None)) RuntimeError;;
  modify (λ d, set_deliveries (deliveries d ++ [(token, Delivery session sc ids assignments false)]) d);;
  mret token.

(** [UPDATE studies SET remaining=MAX(0,remaining-1) WHERE id=?] *)
Definition use_study (i : string) (l : list (string * study)) : list (string * study) :=
  map (λ '(k, s), if String.eqb k i
                  then (k, Study (st_scope s) (st_actor s) (Z.max 0 (st_remaining s - 1)) (st_expires s) (st_revision s))
                  else (k, s)) l.

Definition decide_one (session i : string) (d : db) : db :=
  if bool_decide ((session, i) ∈ decisions d) then d
  else set_studies (use_study i (studies d)) (set_decisions (decisions d ++ [(session, i)]) d).

Definition claim_row (session i : string) (d : db) : db := set_injected (insert_new (session, i) (injected d)) d.

(** [commit_delivery]: the ids, and the assignments appended to the holdout
    log before the transaction commits. *)
Definition commit_delivery (token : string) (sc : Scope) : io db pyexn (list string * list json) :=
  transaction
    (d ← get;
     row ← of_res (get_or (assoc token (deliveries d)) ValueError);
     check (bool_decide (d_scope row = sc)) ValueError;;
     if d_committed row then mret (d_ids row, [])
     else
       modify (λ d, fold_left (λ d i, claim_row (d_session row) i d) (d_ids row) d);;
       modify (λ d, fold_left (λ d a, decide_one (d_session row) a.1 d) (d_assignments row) d);;
       modify (λ d, set_deliveries (assoc_set token (Delivery (d_session row) (d_scope row) (d_ids row) (d_assignments row) true)
                                      (deliveries d)) d);;
       mret (d_ids row, (d_assignments row).*2)).

(** ** Controlled evaluations *)

(** [measure.content_revision] *)
Definition content_revision (txt : string) : string := "sha256:" +:+ str_take 16 (sha256_hex txt).

Definition authorize_evaluation x (now i actor : string) (occasions : Z) (expires : string)
    : io db pyexn () :=
  d ← get;
  l ← of_res (history x i d);
  r ← of_res (get_or (last l) ValueError);
  check (bool_decide (kind r = lesson) && bool_decide (status r = shadow)) ValueError;;
  check (negb (String.eqb actor "") && (1 <=? occasions) && (occasions <=? 10000)) ValueError;;
  t ← of_res (moment expires);
  stamp ← of_res (moment now);
  check (stamp <? t) ValueError;;
  txt ← of_res (match assoc "text" (payload r) with
                | None => Ok ""%string | Some (JStr s) => Ok s | Some _ => Err AttributeError end);
  modify (λ d, set_studies (List.filter (λ row, negb (String.eqb row.1 i)) (studies d)
                              ++ [(i, Study (scope r) actor occasions expires (content_revision txt))]) d).

Definition evaluations (now : string) (sc : Scope) (d : db) : res pyexn (list (string * string)) :=
  stamp ← moment now;
  rows ← mapR (λ row, t ← moment (st_expires row.2); Ok (row, stamp <? t))
           (List.filter (λ row, bool_decide (st_scope row.2 = sc) && (0 <? st_remaining row.2)) (studies d));
  Ok (map (λ v, (v.1.1, st_revision v.1.2)) (List.filter snd rows)).

(** ** Vectors *)

Definition vector_key (i model txt : string) : string * string * string := (i, model, sha256_hex txt).

Definition cache_vector (i model txt : string) (v : json) : io db pyexn () :=
  modify (λ d, set_vectors (List.filter (λ row, negb (bool_decide (row.1 = vector_key i model txt))) (vectors d)
                              ++ [(vector_key i model txt, v)]) d).
Definition vector (i model txt : string) (d : db) : option json := find_row (vector_key i model txt) (vectors d).
Definition vectors_of (l : list (MemoryRecord * string)) (model : string) (d : db) : list (option json) :=
  map (λ '(r, txt), vector (id r) model txt d) l.
End journal.
