(* ===== verification/RecordJournalSpec.v ===== *)
(** * What the record journal guarantees

    The tables stay well formed: the versions of a record are [1..n], its row
    is the last of them, kind and scope never change, and links stay within a
    scope.  Sealed captures are not buffered again, and injections, holdout
    rows and study occasions are counted once. *)

From S2P Require Import Prelude Strings Wire Number Moment Unicode Effects Records RecordJournal.
Local Open Scope Z_scope.

(** ** Tables as finite maps *)

Lemma elem_insert_new {A} `{EqDecision A} (a b : A) l : a ∈ insert_new b l ↔ a = b ∨ a ∈ l.
Proof.
  unfold insert_new. case_bool_decide as H; [naive_solver|]. rewrite elem_of_app, list_elem_of_singleton. tauto.
Qed.

Lemma elem_from_keys seen l s : s ∈ from_keys seen l ↔ s ∈ l ∧ s ∉ seen.
Proof.
  revert seen. induction l as [|a l IH]; intros seen; simpl.
  - rewrite elem_of_nil. tauto.
  - destruct (mem a seen) eqn:E.
    + apply mem_elem in E. rewrite IH, elem_of_cons. naive_solver.
    + assert (a ∉ seen) by (rewrite <- mem_elem, E; done).
      rewrite !elem_of_cons, IH, elem_of_cons. destruct (decide (s = a)); naive_solver.
Qed.
Lemma elem_unique_keys l s : s ∈ unique_keys l ↔ s ∈ l.
Proof. unfold unique_keys. rewrite elem_from_keys, elem_of_nil. tauto. Qed.

(** ** What a write does to the tables *)

Definition edges (r : MemoryRecord) : list string := concat (relations r).*2.

Definition add_links (l : list (string * string)) (i : string) (sources : list string) : list (string * string) :=
  fold_left (λ l s, insert_new (s, i) l) sources l.

Lemma elem_add_links p l i sources : p ∈ add_links l i sources ↔ p ∈ l ∨ p.2 = i ∧ p.1 ∈ sources.
Proof.
  unfold add_links. revert l. induction sources as [|s sources IH]; intros l; simpl.
  - rewrite elem_of_nil. tauto.
  - rewrite IH, elem_insert_new, elem_of_cons. destruct p as [a b]; simpl. naive_solver.
Qed.

(** A source of [r] that is a record or a capture has [r]'s scope. *)
Definition source_ok (d : db) (sc : Scope) (s : string) : Prop :=
  (∀ r, find_record d s = Some r → scope r = sc) ∧ (∀ c, find_capture d s = Some c → c_scope c = sc).

Section spec.
Context {X : Type} `{SX : Surroundings X}.
Implicit Types (x : X) (d : db).

Lemma run_check {A} b e (f : () → io db pyexn A) d a d' : (check b e ≫= f) d = (Ok a, d') →
  b = true ∧ f () d = (Ok a, d').
Proof. intros ([] & H%require_Ok & Hf)%run_res. done. Qed.

Lemma link_sources_inv r l d d' : foreach (link_source r) l d = (Ok (), d') →
  d' = set_links (add_links (links d) (id r) l) d ∧ ∀ s, s ∈ l → source_ok d (scope r) s.
Proof.
  revert d. induction l as [|s l IH]; intros d; cbn [foreach add_links fold_left].
  - intros [= <-]. split; [by destruct d|]. by intros s ?%elem_of_nil.
  - intros H. run H as [] d1 H1. unfold link_source in H1. at_state H1.
    apply run_check in H1 as [C1 H1]. apply run_check in H1 as [C2 H1].
    injection H1 as <-. apply IH in H as [-> Hs]. split; [done|].
    intros s' [->|Hin]%elem_of_cons; [|by apply Hs]. split.
    + intros r' Hr. rewrite Hr in C1. unfold same_scope in C1. by apply bool_decide_eq_true in C1.
    + intros c Hc. rewrite Hc in C2. by apply bool_decide_eq_true in C2.
Qed.

Lemma queue_authority_inv s d d' : _queue_authority s d = (Ok (), d') → ∃ o, d' = set_authority_outbox o d.
Proof.
  destruct s as [s|]; intros H; [|injection H as <-; exists (authority_outbox d); by destruct d].
  unfold _queue_authority in H. at_state H. apply run_check in H as [_ [= <-]]. by eexists.
Qed.

Lemma stage_change_inv x c i sc rev ch d d' : _stage_change x c i sc rev ch d = (Ok (), d') →
  ∃ refs o, d' = set_change_outbox o (set_resource_refs refs d).
Proof.
  unfold _stage_change. destruct (negb (streaming x) && negb (_delegated x)).
  { intros [= <-]. exists (resource_refs d), (change_outbox d). by destruct d. }
  intros H. run H as [] d1 H1.
  assert (∃ refs, d1 = set_resource_refs refs d) as [refs ->].
  { destruct (negb (String.eqb ch "erase")); injection H1 as <-; [by eexists|].
    exists (resource_refs d). by destruct d. }
  destruct (streaming x); [|injection H as <-; exists refs, (change_outbox d); by destruct d].
  unfold when in H. at_state H. apply run_check in H as [_ H]. step H as names Hn. step H as w Hw.
  injection H as <-. by eexists _, _.
Qed.

(** The tables a new version leaves. *)
Record version_written x (expected : option Z) d (r : MemoryRecord) (d' : db) : Prop := {
  vw_valid : validate r = Ok ();
  vw_admitted : admit_version x r expected d = Ok ();
  vw_sources : ∀ s, s ∈ edges r → source_ok d (scope r) s;
  vw_incoming : ∀ r', r' ∈ derived_records d (id r) → scope r' = scope r;
  vw_tables : ∃ fts o refs a, d' =
    set_record_fts fts (set_change_outbox o (set_resource_refs refs (set_records (assoc_set (id r) r (records d))
      (set_record_events (record_events d ++ [(id r, version r, r)]) (set_authority_outbox a
        (set_links (add_links (links d) (id r) (edges r)) d))))));
}.

Lemma elem_derived_of d p : p.2 ∈ derived_of d p.1 ↔ p ∈ links d.
Proof.
  unfold derived_of. rewrite list_elem_of_fmap. split.
  - intros (q & Hq & Hin). rewrite <- list_elem_of_In, filter_In in Hin || rewrite list_elem_of_In, filter_In in Hin.
    destruct Hin as [Hin He]. apply String.eqb_eq in He. apply list_elem_of_In. by destruct p, q; simplify_eq/=.
  - intros H. exists p. split; [done|]. apply list_elem_of_In, filter_In. split; [by apply list_elem_of_In|].
    apply String.eqb_refl.
Qed.

Lemma elem_derived_records d s r : r ∈ derived_records d s ↔ ∃ i, (s, i) ∈ links d ∧ find_record d i = Some r.
Proof.
  unfold derived_records. rewrite list_elem_of_omap. split.
  - intros (i & Hi & Hr). exists i. split; [|done]. by apply (elem_derived_of d (s, i)).
  - intros (i & Hi & Hr). exists i. split; [|done]. by apply (elem_derived_of d (s, i)).
Qed.

Lemma put_version_inv x r e d r' d' : put_version x r e d = (Ok r', d') →
  prepare x r = Ok r' ∧ version_written x e d r' d'.
Proof.
  unfold put_version. intros H. step H as p Hp. at_state H. step H as [] Hadm. run H as [] d1 H1.
  apply link_sources_inv in H1 as [-> Hs]. at_state H. apply run_check in H as [Cin H]. run H as [] d2 H2.
  assert (∃ a, d2 = set_authority_outbox a (set_links (add_links (links d) (id p) (edges p)) d)) as [a ->].
  { destruct (capability x); [|injection H2 as <-; exists (authority_outbox d); by destruct d].
    unfold when in H2. step H2 as s Hsg. by apply queue_authority_inv in H2 as [o ->]; eexists. }
  step H as v Hv. run H as [] d3 H3. unfold insert_event in H3. at_state H3.
  apply run_check in H3 as [_ [= <-]]. at_state H. run H as [] d4 H4.
  apply stage_change_inv in H4 as (refs & o & ->). at_state H. injection H as <- <-. split; [done|].
  split; [|done|done| |by eexists _, _, _, _].
  - unfold make in Hv. by bind Hv as [] Hx.
  - intros r' (i & Hi & Hr)%elem_derived_records. apply forallb_Forall in Cin. rewrite Forall_forall in Cin.
    specialize (Cin r'). unfold same_scope in Cin. rewrite bool_decide_eq_true in Cin. apply Cin.
    apply elem_derived_records. exists i. split; [|done]. simpl. apply elem_add_links. by left.
Qed.

(** ** Well-formed tables *)

(** The versions of a record, oldest first. *)
Definition chain d (i : string) : list MemoryRecord :=
  map snd (List.filter (λ e, String.eqb e.1.1 i) (record_events d)).

Record wf d : Prop := {
  wf_events : ∀ i v r, ((i, v), r) ∈ record_events d → id r = i ∧ version r = v ∧ validate r = Ok ();
  wf_versions : ∀ i, map version (chain d i) = seqZ 1 (Z.of_nat (length (chain d i)));
  wf_current : ∀ i, find_record d i = last (chain d i);
  wf_identity : ∀ i r r', r ∈ chain d i → find_record d i = Some r' → kind r = kind r' ∧ scope r = scope r';
  wf_keys : NoDup (records d).*1;
  wf_links : ∀ s t, (s, t) ∈ links d → ∃ r, find_record d t = Some r ∧ source_ok d (scope r) s;
  wf_cited : ∀ i r s, r ∈ chain d i → s ∈ edges r → (s, i) ∈ links d;
  wf_shadow : ∀ i r c, find_record d i = Some r → find_capture d i = Some c → c_scope c = scope r;
  wf_captures : NoDup (map c_id (captures d));
  wf_sequences : StronglySorted Z.lt (map c_sequence (captures d)) ∧
    Forall (λ c, 1 <= c_sequence c <= last_sequence d) (captures d) ∧ 0 <= last_sequence d;
}.

Lemma wf_empty : wf empty_db.
Proof.
  split; try done; try (by intros * ?%elem_of_nil); try constructor; [constructor|split; [constructor|done]].
Qed.

Lemma elem_chain d i r : r ∈ chain d i ↔ ∃ v, ((i, v), r) ∈ record_events d.
Proof.
  unfold chain. rewrite list_elem_of_fmap. split.
  - intros ([[j v] r'] & -> & [Hin He%String.eqb_eq]%list_elem_of_In%filter_In).
    exists v. simpl in *. subst. by apply list_elem_of_In.
  - intros [v Hin]. exists ((i, v), r). split; [done|]. apply list_elem_of_In, filter_In.
    split; [by apply list_elem_of_In|apply String.eqb_refl].
Qed.

Lemma chain_valid d i r : wf d → r ∈ chain d i → id r = i ∧ validate r = Ok ().
Proof. intros Hd [v Hr]%elem_chain. destruct (wf_events d Hd _ _ _ Hr) as (? & _ & ?). done. Qed.

Lemma current_in_chain d i r : wf d → find_record d i = Some r → r ∈ chain d i.
Proof. intros Hd Hr. rewrite (wf_current d Hd) in Hr. by apply last_Some_elem_of. Qed.

Lemma current_valid d i r : wf d → find_record d i = Some r → id r = i ∧ validate r = Ok ().
Proof. intros Hd Hr. apply (chain_valid d i r Hd). by apply current_in_chain. Qed.

Lemma load_current d i : wf d → load (find_record d i) = Ok (find_record d i).
Proof.
  intros Hd. destruct (find_record d i) as [r|] eqn:Hr; [|done].
  destruct (current_valid _ _ _ Hd Hr) as [_ Hv]. unfold load, make. by rewrite Hv.
Qed.

(** The version of the row is the number of versions. *)
Lemma current_version d i : wf d →
  match find_record d i with Some r => version r | None => 0 end = Z.of_nat (length (chain d i)).
Proof.
  intros Hd. rewrite (wf_current d Hd). pose proof (wf_versions d Hd i) as Hv.
  destruct (chain d i) as [|r l _] using rev_ind; [done|]. rewrite last_snoc, length_app. simpl.
  rewrite map_app, length_app in Hv. simpl in Hv. replace (seqZ 1 (Z.of_nat (length l + 1))) with (seqZ 1 (Z.of_nat (length l)) ++ [1 + Z.of_nat (length l)]) in Hv
    by (rewrite Nat2Z.inj_add, seqZ_app by lia; done).
  apply app_inj_tail in Hv as [_ Hv]. lia.
Qed.

Lemma admitted x r e d : wf d → admit_version x r e d = Ok () →
  version r = Z.of_nat (length (chain d (id r))) + 1 ∧
  (∀ o, find_record d (id r) = Some o → kind o = kind r ∧ scope o = scope r) ∧
  (∀ c, find_capture d (id r) = Some c → c_scope c = scope r).
Proof.
  intros Hd H. unfold admit_version in H. bind H as [] Hc%require_Ok. rewrite load_current in H by done.
  bind H as old [= <-]. cbv zeta in H. rewrite current_version in H by done.
  bind H as [] Hv%require_Ok. apply require_Ok in H. apply andb_true_iff in Hv as [_ Hv%Z.eqb_eq]. split_and!.
  - done.
  - intros o Ho. rewrite Ho in H. apply andb_true_iff in H as [H1%bool_decide_eq_true H2%bool_decide_eq_true]. done.
  - intros c Ec. rewrite Ec in Hc. apply andb_true_iff in Hc as [_ Hc%bool_decide_eq_true]. done.
Qed.

Lemma keys_assoc_set {A} k (v : A) l : NoDup l.*1 → NoDup (assoc_set k v l).*1.
Proof.
  induction l as [|[j w] l IH]; simpl; intros Hnd; [by repeat constructor; intros ?%elem_of_nil|].
  apply NoDup_cons in Hnd as [Hj Hnd]. destruct (String.eqb_spec k j) as [->|Hne]; simpl; [by constructor|].
  constructor; [|by apply IH]. intros Hin. apply Hj. clear -Hin Hne.
  induction l as [|[j' w'] l IH]; simpl in *.
  - by apply list_elem_of_singleton in Hin.
  - destruct (String.eqb_spec k j') as [->|]; simpl in *; rewrite elem_of_cons in Hin |- *; [done|]. tauto.
Qed.

Lemma written_wf x e d r d' : wf d → version_written x e d r d' → wf d'.
Proof.
  intros Hd [Hvalid Hadm Hsrc Hin (fts & o & refs & a & ->)].
  destruct (admitted _ _ _ _ Hd Hadm) as (Hver & Hold & Hcap).
  match goal with |- wf ?t => set (d' := t) end.
  assert (Hchain : ∀ i, chain d' i = chain d i ++ if decide (i = id r) then [r] else []).
  { intros i. unfold chain, d'. simpl. rewrite List.filter_app, map_app. f_equal. simpl.
    destruct (decide (i = id r)) as [->|Hne]; [by rewrite String.eqb_refl|].
    by rewrite (proj2 (String.eqb_neq _ _)). }
  assert (Hfind : ∀ i, find_record d' i = if decide (i = id r) then Some r else find_record d i).
  { intros i. unfold find_record, d'. simpl. destruct (decide (i = id r)) as [->|];
      [apply assoc_set_same|by apply assoc_set_other]. }
  assert (Hcapture : ∀ i, find_capture d' i = find_capture d i) by done.
  assert (Hscope : ∀ i sc, (i = id r → sc = scope r) → source_ok d sc i → source_ok d' sc i).
  { intros i sc Hi [H1 H2]. split; [|done]. intros r'. rewrite Hfind. destruct (decide (i = id r)) as [->|]; [|auto].
    intros [= <-]. symmetry. auto. }
  assert (Hlinks : ∀ p, p ∈ links d' ↔ p ∈ links d ∨ p.2 = id r ∧ p.1 ∈ edges r).
  { intros p. unfold d'. simpl. apply elem_add_links. }
  split.
  - intros i v r'. unfold d'. simpl. rewrite elem_of_app, list_elem_of_singleton.
    intros [H|[= -> -> ->]]; [by apply (wf_events d Hd)|done].
  - intros i. rewrite Hchain. destruct (decide (i = id r)) as [->|]; [|by rewrite app_nil_r; apply wf_versions].
    rewrite map_app, length_app, (wf_versions d Hd), Nat2Z.inj_add, seqZ_app by lia. f_equal. simpl.
    rewrite seqZ_cons by lia. f_equal. lia.
  - intros i. rewrite Hchain, Hfind. destruct (decide (i = id r)) as [->|]; [by rewrite last_snoc|].
    rewrite app_nil_r. by apply wf_current.
  - intros i r1 r2. rewrite Hchain, Hfind, elem_of_app. destruct (decide (i = id r)) as [->|].
    + intros Hr1 [= <-]. rewrite list_elem_of_singleton in Hr1. destruct Hr1 as [Hr1| ->]; [|done].
      destruct (find_record d (id r)) as [c|] eqn:Ec.
      * destruct (wf_identity d Hd _ _ _ Hr1 Ec) as [-> ->]. by apply Hold.
      * rewrite (wf_current d Hd), last_None in Ec. rewrite Ec in Hr1. by apply elem_of_nil in Hr1.
    + rewrite elem_of_nil. intros [Hr1|[]] Hr2. by apply (wf_identity d Hd i).
  - unfold d'. simpl. apply keys_assoc_set, (wf_keys d Hd).
  - intros s t [Hl|[Ht Hs]]%Hlinks; simpl in *; [|subst t].
    + destruct (wf_links d Hd _ _ Hl) as (rt & Ht & Hok). rewrite Hfind. destruct (decide (t = id r)) as [->|].
      * exists r. split; [done|]. destruct (Hold _ Ht) as [_ Es]. rewrite Es in Hok. by apply Hscope.
      * exists rt. split; [done|]. apply Hscope; [|done]. intros ->. apply Hin.
        apply elem_derived_records. by exists t.
    + exists r. rewrite Hfind, decide_True by done. split; [done|]. apply Hscope; [done|]. by apply Hsrc.
  - intros i r' s. rewrite Hchain, elem_of_app, Hlinks. intros [Hr|Hr] Hs; [left; by apply (wf_cited d Hd i r')|].
    destruct (decide (i = id r)) as [->|]; [|by apply elem_of_nil in Hr].
    apply list_elem_of_singleton in Hr as ->. by right.
  - intros i r' c. rewrite Hfind, Hcapture. destruct (decide (i = id r)) as [->|]; [|by apply (wf_shadow d Hd)].
    intros [= <-]. apply Hcap.
  - apply (wf_captures d Hd).
  - apply (wf_sequences d Hd).
Qed.

(** ** Every operation keeps them *)

Lemma refresh_facet_inv x now r d d' : _refresh_facet x now r d = (Ok (), d') →
  d' = d ∨ ∃ o o', put_version x o None d = (Ok o', d').
Proof.
  unfold _refresh_facet. destruct (assoc "entity" (payload r)) as [[]|]; try (intros [= <-]; by left).
  destruct (assoc "facet" (payload r)) as [[]|]; try (intros [= <-]; by left).
  destruct (blank s || blank s0); [intros [= <-]; by left|]. intros H. at_state H.
  step H as stamp _. step H as others _. step H as own _. cbv zeta in H.
  case_bool_decide; [injection H as <-; by left|]. step H as o1 _.
  destruct (negb (policy_permits x true (DRecord o1))); [injection H as <-; by left|].
  step H as prior _. step H as o _. destruct (_delegated x && _); [injection H as <-; by left|].
  run H as o' d1 H1. injection H as <-. right. eauto.
Qed.

Lemma put_wf_run x now r e d r' d' : wf d → _put x now r e d = (Ok r', d') → wf d'.
Proof.
  intros Hd H. unfold _put in H. run H as r1 d1 H1. apply put_version_inv in H1 as [_ H1].
  apply written_wf in H1; [|done]. run H as [] d2 H2. injection H as <- <-.
  unfold when in H2. case_bool_decide; [|by injection H2 as <-].
  apply refresh_facet_inv in H2 as [->|(o & o' & [_ H2]%put_version_inv)]; [done|]. by eapply written_wf.
Qed.

Lemma transaction_inv {A} (m : io db pyexn A) d r d' : transaction m d = (r, d') →
  (∃ a, r = Ok a ∧ m d = (Ok a, d')) ∨ (∃ e, r = Err e ∧ d' = d).
Proof. unfold transaction. destruct (m d) as [[a|e] d1]; naive_solver. Qed.

(** A failed operation leaves the tables as they were. *)
Definition atomic {A} (m : io db pyexn A) : Prop := ∀ d e d', m d = (Err e, d') → d' = d.

Lemma atomic_transaction {A} (m : io db pyexn A) : atomic (transaction m).
Proof. intros d e d' [(? & [=] & _)|(? & _ & ->)]%transaction_inv. done. Qed.
Lemma atomic_res {A B} (r : res pyexn A) (f : A → io db pyexn B) : (∀ a, atomic (f a)) → atomic (of_res r ≫= f).
Proof. intros Hf d e d'. unfold of_res, mbind, io_bind. destruct r; [apply Hf|by intros [= _ <-]]. Qed.

Lemma put_atomic x now r e : atomic (put x now r e).
Proof. apply atomic_transaction. Qed.
Lemma put_many_atomic x now l : atomic (put_many x now l).
Proof. apply atomic_res. intros _. apply atomic_transaction. Qed.
Lemma capture_atomic x uuid session event body sc eid : atomic (capture x uuid session event body sc eid).
Proof. repeat (apply atomic_res; intros ?). apply atomic_transaction. Qed.

Lemma put_wf x now r e d : wf d → wf (put x now r e d).2.
Proof.
  intros Hd. destruct (put x now r e d) as [o d'] eqn:E.
  apply transaction_inv in E as [(r' & -> & E)|(? & _ & ->)]; [|done]. by eapply put_wf_run.
Qed.

Lemma collect_inv {A} (f : A → io db pyexn (list MemoryRecord)) (I : db → Prop) l d out d' :
  (∀ a d out d', I d → f a d = (Ok out, d') → I d') → I d → collect f l d = (Ok out, d') → I d'.
Proof.
  intros Hf. revert d out. induction l as [|a l IH]; intros d out Hd; cbn [collect]; [by intros [= _ <-]|].
  intros H. run H as ys d1 H1. run H as zs d2 H2. injection H as <- <-. eauto.
Qed.

Lemma put_many_wf x now l d : wf d → wf (put_many x now l d).2.
Proof.
  intros Hd. destruct (put_many x now l d) as [[o|e] d'] eqn:E; [|by apply put_many_atomic in E as ->].
  unfold put_many in E. apply run_check in E as [_ E].
  apply transaction_inv in E as [(r' & _ & E)|(? & _ & ->)]; [|done]. cbn [snd].
  eapply collect_inv; [|exact Hd|exact E]. intros r d1 out d2 H1 H2. run H2 as r1 d3 H3.
  injection H2 as <- <-. by eapply put_wf_run.
Qed.

(** The operations on the other tables. *)
Definition same_tables d d' : Prop :=
  record_events d' = record_events d ∧ records d' = records d ∧ links d' = links d ∧
  captures d' = captures d ∧ last_sequence d' = last_sequence d.

Lemma same_tables_wf d d' : same_tables d d' → wf d → wf d'.
Proof.
  destruct d, d'. intros (?&?&?&?&?) Hw. simpl in *. subst. destruct Hw. by split.
Qed.

Lemma find_snoc_None {A} (p : A → bool) l a : List.find p l = None →
  List.find p (l ++ [a]) = if p a then Some a else None.
Proof. induction l as [|b l IH]; simpl; [done|]. destruct (p b); [done|auto]. Qed.
Lemma find_app_Some {A} (p : A → bool) l k a : List.find p l = Some a → List.find p (l ++ k) = Some a.
Proof. induction l as [|b l IH]; simpl; [done|]. destruct (p b); auto. Qed.

Lemma capture_added_wf d row : wf d → c_sequence row = last_sequence d + 1 →
  find_capture d (c_id row) = None →
  (∀ r, find_record d (c_id row) = Some r → scope r = c_scope row) →
  (∀ r, r ∈ derived_records d (c_id row) → scope r = c_scope row) →
  wf (set_captures (captures d ++ [row]) (set_last_sequence (c_sequence row) d)).
Proof.
  intros Hd Hseq Hnew Hrec Hder. match goal with |- wf ?t => set (d' := t) end.
  assert (Hfind : ∀ i c, find_capture d' i = Some c → c = row ∧ i = c_id row ∨ find_capture d i = Some c).
  { intros i c. unfold find_capture, d'. simpl. destruct (List.find _ (captures d)) as [c0|] eqn:E.
    - rewrite (find_app_Some _ _ _ _ E). auto.
    - rewrite (find_snoc_None _ _ _ E). destruct (String.eqb_spec (c_id row) i); [|done]. intros [= <-]. auto. }
  destruct (wf_sequences d Hd) as (Hsort & Hlast & Hpos). split.
  - apply (wf_events d Hd).
  - apply (wf_versions d Hd).
  - apply (wf_current d Hd).
  - apply (wf_identity d Hd).
  - apply (wf_keys d Hd).
  - intros s t Hl. destruct (wf_links d Hd _ _ Hl) as (r & Hr & H1 & H2). exists r. split; [done|]. split; [done|].
    intros c [[-> ->]|Hc]%Hfind; [|auto]. symmetry. apply Hder, elem_derived_records. eauto.
  - apply (wf_cited d Hd).
  - intros i r c Hr [[-> ->]|Hc]%Hfind; [symmetry; auto|by apply (wf_shadow d Hd i)].
  - unfold d'. simpl. rewrite map_app. apply NoDup_app. split_and!; [apply (wf_captures d Hd)| |apply NoDup_singleton].
    intros i Hi Hrow. apply list_elem_of_singleton in Hrow as ->.
    apply list_elem_of_fmap in Hi as (c & Hc & Hin). apply list_elem_of_In in Hin.
    pose proof (find_none _ _ Hnew c Hin) as Hne. simpl in Hne. rewrite <- Hc, String.eqb_refl in Hne. done.
  - unfold d'. simpl. rewrite Hseq. split_and!; [| |lia].
    + rewrite map_app. apply StronglySorted_app. split_and!; [|done|repeat constructor].
      intros y z Hy Hz. apply list_elem_of_singleton in Hz as ->. apply list_elem_of_fmap in Hy as (c & -> & Hc).
      rewrite Forall_forall in Hlast. specialize (Hlast _ Hc). simpl. lia.
    + apply Forall_app. split; [|repeat constructor; simpl; lia]. eapply Forall_impl; [exact Hlast|]. simpl. lia.
Qed.

Lemma capture_inv x uuid session event body sc eid d r d' : capture x uuid session event body sc eid d = (Ok r, d') →
  find_capture d (c_id r) = Some r ∧ d' = d ∨
  c_sequence r = last_sequence d + 1 ∧ find_capture d (c_id r) = None ∧
  (∀ r0, find_record d (c_id r) = Some r0 → scope r0 = c_scope r) ∧
  (∀ r0, r0 ∈ derived_records d (c_id r) → scope r0 = c_scope r) ∧
  ∃ a o refs, d' = set_change_outbox o (set_resource_refs refs (set_authority_outbox a
    (set_captures (captures d ++ [r]) (set_last_sequence (c_sequence r) d)))).
Proof.
  unfold capture. intros H. apply run_check in H as [_ H]. apply run_check in H as [_ H]. step H as b Hb. cbv zeta in H.
  step H as sc' Hsc. step H as [] Hw. apply transaction_inv in H as [(r' & [= <-] & H)|(? & [=] & _)].
  at_state H. set (i := default uuid eid) in *. apply run_check in H as [Hrec H]. apply run_check in H as [Hder H].
  destruct (find_capture d i) as [row|] eqn:Ec.
  - apply run_check in H as [_ [= <- <-]]. left. split; [|done].
    assert (c_id row = i) as -> by (unfold find_capture in Ec; apply find_some in Ec as [_ ?%String.eqb_eq]; done). done.
  - right. at_state H. run H as [] d1 H1. run H as [] d2 H2. injection H as <- <-. cbn [c_sequence c_id c_scope].
    split_and!; [done|done| | |].
    + intros r0 Hr0. rewrite Hr0 in Hrec. apply andb_true_iff in Hrec as [_ Hrec%bool_decide_eq_true]. done.
    + intros r0 Hr0. apply forallb_Forall in Hder. rewrite Forall_forall in Hder.
      by apply Hder, bool_decide_eq_true in Hr0.
    + apply stage_change_inv in H2 as (refs & o & ->).
      match type of H1 with _ ?t = _ => set (d0 := t) in * end.
      assert (∃ a, d1 = set_authority_outbox a d0) as [a ->]; [|by eexists _, _, _].
      destruct (capability x); [|injection H1 as <-; by exists (authority_outbox d0)].
      unfold when in H1. step H1 as s Hs. by apply queue_authority_inv in H1.
Qed.

Lemma capture_wf x uuid session event body sc eid d : wf d → wf (capture x uuid session event body sc eid d).2.
Proof.
  intros Hd. destruct (capture x uuid session event body sc eid d) as [[r|e] d'] eqn:E.
  - apply capture_inv in E as [[_ ->]|(? & ? & ? & ? & a & o & refs & ->)]; [done|].
    eapply same_tables_wf; [|by apply (capture_added_wf d r)]. done.
  - by apply capture_atomic in E as ->.
Qed.

(** ** Cursors *)

(** The watermark of a session and scope; numbers below zero seal nothing. *)
Definition watermark d session sc : Z := Z.max 0 (scoped_through d session sc).
Definition cursors_le d d' : Prop := ∀ session sc, watermark d session sc <= watermark d' session sc.

Lemma cursors_le_refl d : cursors_le d d.
Proof. intros session sc. lia. Qed.
Lemma cursors_le_trans d1 d2 d3 : cursors_le d1 d2 → cursors_le d2 d3 → cursors_le d1 d3.
Proof. intros H1 H2 session sc. specialize (H1 session sc). specialize (H2 session sc). lia. Qed.
Lemma cursors_le_same d d' : scoped_cursors d' = scoped_cursors d → cursors_le d d'.
Proof. intros H session sc. unfold watermark, scoped_through. rewrite H. lia. Qed.

Lemma find_raise_cursor {K} `{EqDecision K} (k k' : K) v l :
  find_row k' (raise_cursor k v l) = if decide (k' = k) then Some (match find_row k l with Some w => Z.max w v | None => v end)
                                     else find_row k' l.
Proof.
  induction l as [|[j w] l IH]; simpl.
  - by destruct (decide (k' = k)).
  - destruct (decide (k = j)) as [<-|Hne]; simpl.
    + by destruct (decide (k' = k)).
    + rewrite IH. destruct (decide (k' = j)) as [->|]; [|done]. by rewrite decide_False by congruence.
Qed.

Lemma raise_cursor_le d session sc v :
  cursors_le d (set_scoped_cursors (raise_cursor (session, sc) v (scoped_cursors d)) d) ∧
  v <= watermark (set_scoped_cursors (raise_cursor (session, sc) v (scoped_cursors d)) d) session sc.
Proof.
  split.
  - intros session' sc'. unfold watermark, scoped_through. simpl. rewrite find_raise_cursor. destruct (decide _) as [->|]; [|lia].
    destruct (find_row (session, sc) (scoped_cursors d)); simpl; lia.
  - unfold watermark, scoped_through. simpl. rewrite find_raise_cursor, decide_True by done.
    destruct (find_row (session, sc) (scoped_cursors d)); simpl; lia.
Qed.

Lemma migrate_le session d : cursors_le d (migrate_cursor session d).
Proof.
  unfold migrate_cursor. destruct (find_row session (cursors d)) as [through|] eqn:E; [|apply cursors_le_refl].
  destruct (sealed_owner d session through) as [owner|]; [|by apply cursors_le_same].
  eapply cursors_le_trans; [by apply (raise_cursor_le d session owner through)|]. by apply cursors_le_same.
Qed.

Lemma elem_take {A} n (l : list A) a : a ∈ take n l → a ∈ l.
Proof. intros H. rewrite <- (take_drop n l). apply elem_of_app. by left. Qed.

Lemma elem_unsealed d session sc through c :
  c ∈ unsealed d session sc through ↔
  c ∈ captures d ∧ c_session c = session ∧ c_scope c = sc ∧ through < c_sequence c.
Proof.
  unfold unsealed. rewrite list_elem_of_In, filter_In, <- list_elem_of_In, !andb_true_iff.
  rewrite String.eqb_eq, bool_decide_eq_true, Z.ltb_lt. tauto.
Qed.

Lemma buffer_inv x session sc limit d rows d' : buffer x session sc limit d = (Ok rows, d') →
  d' = migrate_cursor session d ∧
  ∀ c, c ∈ rows → c ∈ unsealed d' session sc (scoped_through d' session sc).
Proof.
  unfold buffer, _cursor_through. intros H. run H as through d1 H1. at_state H1. at_state H1. injection H1 as <- <-.
  at_state H. set (d1 := migrate_cursor session d) in *.
  destruct (negb _); [injection H as <- <-; split; [done|]; by intros c ?%elem_of_nil|].
  destruct (_delegated x || governed x).
  - apply run_check in H as [_ H]. destruct (negb _); [injection H as <- <-; split; [done|]; by intros c ?%elem_of_nil|].
    cbv zeta in H. apply run_check in H as [_ H]. injection H as <- <-. split; [done|]. intros c Hc.
    apply elem_take, list_elem_of_In, filter_In in Hc as [Hc _]. by apply list_elem_of_In.
  - injection H as <- <-. split; [done|]. intros c Hc. unfold limited in Hc. destruct (limit <? 0); [done|].
    by apply elem_take in Hc.
Qed.

Lemma seal_inv session through sc d d' : seal session through sc d = (Ok (), d') →
  same_tables d d' ∧ cursors_le d d' ∧ ∀ s, sc = Some s → through <= watermark d' session s.
Proof.
  unfold seal. intros [([] & _ & H)|(? & [=] & _)]%transaction_inv. at_state H.
  destruct sc as [s|]; [|destruct (sealed_owner d session through) as [s|]].
  - apply run_check in H as [_ [= <-]]. pose proof (raise_cursor_le d session s through) as [H1 H2].
    split_and!; [done|done|]. by intros ? [= <-].
  - apply run_check in H as [_ [= <-]]. pose proof (raise_cursor_le d session s through) as [H1 H2].
    split_and!; [done|done|done].
  - injection H as <-. split_and!; [done|by apply cursors_le_same|done].
Qed.

(** ** Claims and deliveries *)

Lemma claim_one_run session i d : claim_one session i d =
  if bool_decide ((session, i) ∈ injected d) then (Ok [], d)
  else (Ok [i], set_injected (injected d ++ [(session, i)]) d).
Proof. unfold claim_one, get, mbind, io_bind. by case_bool_decide. Qed.

Lemma claim_injections_spec session ids d fresh d' : claim_injections session ids d = (Ok fresh, d') →
  ∃ rows, rows = map (pair session) fresh ∧ d' = set_injected (injected d ++ rows) d ∧ NoDup fresh ∧
  (∀ i, i ∈ fresh → i ∈ ids ∧ (session, i) ∉ injected d) ∧
  (∀ i, i ∈ ids → (session, i) ∈ injected d').
Proof.
  unfold claim_injections. intros [(? & [= <-] & H)|(? & [=] & _)]%transaction_inv.
  exists (map (pair session) fresh). split; [done|].
  revert d fresh H. induction ids as [|i ids IH]; intros d fresh; cbn [collect].
  - intros [= <- <-]. rewrite app_nil_r. split_and!; [by destruct d|constructor|by intros i ?%elem_of_nil..].
  - intros H. run H as ys d1 H1. run H as zs d2 H2. injection H as <- <-. rewrite claim_one_run in H1.
    case_bool_decide as Hi; injection H1 as <- <-; apply IH in H2 as (-> & Hnd & Hz & Hids); simpl.
    + split_and!; [done|done| |].
      * intros j Hj. destruct (Hz j Hj). split; [by right|done].
      * intros j [->|Hj]%elem_of_cons; [|by apply Hids]. simpl. apply elem_of_app. by left.
    + simpl in Hz, Hids. rewrite <- app_assoc. split_and!; [done| | |].
      * constructor; [|done]. intros Hin. destruct (Hz i Hin) as [_ Hout]. apply Hout, elem_of_app. right.
        by apply list_elem_of_singleton.
      * intros j [->|Hj]%elem_of_cons; [split; [by left|done]|]. destruct (Hz j Hj) as [Hj1 Hj2].
        split; [by right|]. intros Hin. apply Hj2, elem_of_app. by left.
      * intros j [->|Hj]%elem_of_cons.
        -- apply elem_of_app. right. by left.
        -- specialize (Hids j Hj). by rewrite <- app_assoc in Hids.
Qed.

(** The occasions a study has left. *)
Definition remaining d (i : string) : option Z := st_remaining <$> assoc i (studies d).

Lemma assoc_use_study i j l : st_remaining <$> assoc j (use_study i l) =
  if decide (j = i) then (λ n, Z.max 0 (n - 1)) <$> (st_remaining <$> assoc j l) else st_remaining <$> assoc j l.
Proof.
  induction l as [|[k s] l IH]; [by destruct (decide _)|]. cbn [use_study map].
  fold (use_study i l). destruct (String.eqb_spec k i) as [->|Hk]; cbn [assoc].
  - destruct (String.eqb_spec j i) as [->|Hj]; [by rewrite decide_True|]. by rewrite IH, decide_False.
  - destruct (String.eqb_spec j k) as [->|Hj]; [by rewrite decide_False|]. exact IH.
Qed.

Lemma decide_all_spec session l d i (d' := fold_left (λ d a, decide_one session a d) l d) :
  remaining d' i = (if bool_decide (i ∈ l ∧ (session, i) ∉ decisions d) then (λ n, Z.max 0 (n - 1)) <$> remaining d i
                    else remaining d i) ∧
  (∀ p, p ∈ decisions d' ↔ p ∈ decisions d ∨ p.1 = session ∧ p.2 ∈ l) ∧
  deliveries d' = deliveries d ∧ injected d' = injected d ∧ same_tables d d' ∧ scoped_cursors d' = scoped_cursors d.
Proof.
  subst d'. revert d. induction l as [|j l IH]; intros d; cbn [fold_left].
  - rewrite bool_decide_eq_false_2 by (intros [?%elem_of_nil _]; done). split_and!; try done.
    intros p. rewrite elem_of_nil. tauto.
  - specialize (IH (decide_one session j d)).
    assert (((session, j) ∈ decisions d ∧ decide_one session j d = d) ∨ (((session, j) ∉ decisions d) ∧
      decide_one session j d = set_studies (use_study j (studies d)) (set_decisions (decisions d ++ [(session, j)]) d)))
      as [[Hj E]|[Hj E]]
      by (unfold decide_one; destruct (decide ((session, j) ∈ decisions d)) as [Hj|Hj];
          [left; by rewrite bool_decide_eq_true_2|right; by rewrite bool_decide_eq_false_2]);
      rewrite !E in *; destruct IH as (H1 & H2 & H3 & H4 & H5 & H6); clear E.
    + split_and!; try done.
      * rewrite H1. rewrite (bool_decide_ext _ (i ∈ j :: l ∧ (session, i) ∉ decisions d)); [done|].
        rewrite elem_of_cons. naive_solver.
      * intros p. rewrite H2. destruct p as [a b]. simpl. rewrite elem_of_cons. naive_solver.
    + split_and!; try done.
      * rewrite H1. unfold remaining. simpl. rewrite assoc_use_study. destruct (decide (i = j)) as [->|Hne].
        -- rewrite bool_decide_eq_false_2, bool_decide_eq_true_2; [done|split; [by left|done]|].
           intros [_ Hn]. apply Hn, elem_of_app. right. by left.
        -- rewrite (bool_decide_ext _ (i ∈ j :: l ∧ (session, i) ∉ decisions d)); [done|].
           rewrite elem_of_app, list_elem_of_singleton, elem_of_cons. naive_solver.
      * intros p. rewrite H2. simpl. rewrite elem_of_app, list_elem_of_singleton, elem_of_cons.
        destruct p as [a b]. simpl. naive_solver.
Qed.

Lemma claim_all_spec session l d (d' := fold_left (λ d i, claim_row session i d) l d) :
  d' = set_injected (injected d') d ∧ ∀ p, p ∈ injected d' ↔ p ∈ injected d ∨ p.1 = session ∧ p.2 ∈ l.
Proof.
  subst d'. revert d. induction l as [|j l IH]; intros d; cbn [fold_left].
  - split; [by destruct d|]. intros p. rewrite elem_of_nil. tauto.
  - destruct (IH (claim_row session j d)) as [H1 H2]. split; [by rewrite H1|]. intros p. rewrite H2.
    unfold claim_row. simpl. rewrite elem_insert_new, elem_of_cons. destruct p as [a b]. simpl. naive_solver.
Qed.

Lemma commit_inv token sc d ids lines d' : commit_delivery token sc d = (Ok (ids, lines), d') →
  ∃ row, assoc token (deliveries d) = Some row ∧ d_scope row = sc ∧ ids = d_ids row ∧
  (if d_committed row then lines = [] ∧ d' = d
   else lines = (d_assignments row).*2 ∧
     (∀ p, p ∈ injected d' ↔ p ∈ injected d ∨ p.1 = d_session row ∧ p.2 ∈ ids) ∧
     (∀ p, p ∈ decisions d' ↔ p ∈ decisions d ∨ p.1 = d_session row ∧ p.2 ∈ (d_assignments row).*1) ∧
     (∀ i, remaining d' i = if bool_decide (i ∈ (d_assignments row).*1 ∧ (d_session row, i) ∉ decisions d)
                            then (λ n, Z.max 0 (n - 1)) <$> remaining d i else remaining d i) ∧
     deliveries d' = assoc_set token (Delivery (d_session row) sc ids (d_assignments row) true) (deliveries d) ∧
     same_tables d d' ∧ scoped_cursors d' = scoped_cursors d).
Proof.
  unfold commit_delivery. intros [([i1 l1] & [= -> ->] & H)|(? & [=] & _)]%transaction_inv. at_state H.
  step H as row Hrow%get_or_Ok. apply run_check in H as [Hsc%bool_decide_eq_true H]. exists row.
  destruct (d_committed row); [injection H as <- <- <-; by split_and!|]. at_state H. at_state H. at_state H.
  injection H as <- <- <-. do 4 (split; [done|]).
  set (d1 := fold_left (λ d i, claim_row (d_session row) i d) (d_ids row) d).
  destruct (claim_all_spec (d_session row) (d_ids row) d) as [E1 H1]. fold d1 in E1, H1.
  assert (Hfold : ∀ (l : list (string * json)) e, fold_left (λ d a, decide_one (d_session row) a.1 d) l e
    = fold_left (λ d a, decide_one (d_session row) a d) l.*1 e).
  { clear. induction l as [|a l IH]; intros e; [done|]. simpl. apply IH. }
  rewrite Hfold. set (d2 := fold_left _ _ d1).
  assert (Hd1 : decisions d1 = decisions d ∧ studies d1 = studies d ∧ deliveries d1 = deliveries d ∧
    same_tables d d1 ∧ scoped_cursors d1 = scoped_cursors d) by (rewrite E1; done).
  destruct Hd1 as (Hdec & Hst & Hdel & Hsame & Hcur).
  assert (Hspec := decide_all_spec (d_session row) (d_assignments row).*1 d1).
  split_and!.
  - intros p. destruct (Hspec ""%string) as (_ & _ & _ & Hi & _). simpl. unfold d2. rewrite Hi. apply H1.
  - intros p. destruct (Hspec ""%string) as (_ & Hp & _). simpl. unfold d2. rewrite Hp. by rewrite Hdec.
  - intros i. destruct (Hspec i) as (Hr & _). unfold remaining in Hr |- *. simpl. unfold d2. rewrite Hr, Hdec. by rewrite Hst.
  - destruct (Hspec ""%string) as (_ & _ & Hp & _). simpl. unfold d2. by rewrite Hp, Hdel, Hsc.
  - destruct (Hspec ""%string) as (_ & _ & _ & _ & Hs & _). clear -Hsame Hs.
    destruct Hsame as (?&?&?&?&?), Hs as (?&?&?&?&?). unfold d2, same_tables. simpl. split_and!; congruence.
  - destruct (Hspec ""%string) as (_ & _ & _ & _ & _ & Hs). simpl. unfold d2. by rewrite Hs.
Qed.
End spec.
