(* ===== verification/Grounding.v ===== *)
(** * Grounded reads of the record journal ([record_visibility.py], [memory_journal.py])

    A record is returned only when every record it derives from is itself
    visible, at the revision it was derived from, and grounded.  The walk is
    memoised per request, bounded in depth and in steps; it agrees with an
    inductive definition of support. *)

From stdpp Require Import relations.
From S2P Require Import Prelude Strings Sha256 Wire Number Moment Unicode Effects Records RecordJournal RecordJournalSpec.
Local Open Scope Z_scope.

(** ** [GroundingState] *)

Definition MAX_GROUNDING_DEPTH : nat := 64.
Definition MAX_GROUNDING_STEPS : Z := 4096.

Record GroundingState := Grounding { steps_left : Z; results : gmap (string * nat) bool }.

Definition fresh_grounding : GroundingState := Grounding MAX_GROUNDING_STEPS ∅.

Definition enter (i : string) (ancestors : gset string) (g : GroundingState) : option bool * GroundingState :=
  if bool_decide (i ∈ ancestors) || (MAX_GROUNDING_DEPTH <=? size ancestors)%nat || (steps_left g <=? 0)
  then (Some false, g)
  else (results g !! (i, size ancestors), Grounding (steps_left g - 1) (results g)).

Definition remember (i : string) (ancestors : gset string) (eligible : bool) (g : GroundingState) : GroundingState :=
  Grounding (steps_left g) (<[(i, size ancestors) := eligible]> (results g)).

(** ** Code citations *)

(** [code_evidence_current]: [source_file] is the text of the file a relative
    path names inside the store, cut after 1000001 bytes; [None] when there
    is none or it cannot be read. *)
Definition citation_current (source_file : string → option string) (c : json) : bool :=
  bool_decide (jget "method" c = Some (JStr "path-and-quoted-symbol")) &&
  match jget "path" c with
  | Some (JStr path) =>
      negb (String.prefix "/" path) &&
      match source_file path with
      | Some content => (byte_len content <=? 1000000) && bool_decide (jget "sha256" c = Some (JStr (sha256_hex content)))
      | None => false
      end
  | _ => false
  end.

Definition code_evidence_current (source_file : string → option string) (v : json) : bool :=
  match v with
  | JList l => (1 <=? Z.of_nat (length l)) && (Z.of_nat (length l) <=? 16) && forallb (citation_current source_file) l
  | _ => false
  end.

Section grounding.
Context {X : Type} `{SX : Surroundings X}.
Variable source_file : string → option string.
Implicit Types (x : X) (d : db) (g : GroundingState).

(** ** [_grounded_record] up to its sources *)

Definition capture_citable x d (delegated : bool) (r : MemoryRecord) (i : string) : bool :=
  match find_capture d i with
  | None => false
  | Some c =>
      bool_decide (c_scope c = scope r) && policy_permits x false (captured c) && authorized x i &&
      (negb delegated || capability_permits x false (captured c)
                         && negb (quarantined_reference x (runtime_identity x true i)))
  end.

Definition sound_alone x d (delegated : bool) (r : MemoryRecord) : bool :=
  _runtime_readable x r &&
  (negb (delegated || policy_enabled x || governed x) || forallb (capture_citable x d delegated r) (relation "caused_by" r)) &&
  (negb (truthy (assoc "code_evidence" (provenance r)))
   || code_evidence_current source_file (default JNull (assoc "code_evidence" (provenance r)))).

(** The revision of [source] that [r] was derived from is [p], when [r] names revisions. *)
Definition pinned (r : MemoryRecord) (source : string) (p : MemoryRecord) : bool :=
  match assoc "source_versions" (provenance r) with
  | None | Some JNull => true
  | Some (JObj kvs) => bool_decide (assoc source kvs = Some (JInt (version p)))
  | Some _ => false
  end.

(** The loop over the sources. *)
Section sources.
Variables (x : X) (d : db) (sc : Scope) (stamp : Z) (r : MemoryRecord).
Variable grounded : MemoryRecord → GroundingState → res pyexn (bool * GroundingState).

Fixpoint ground_sources (l : list string) g : res pyexn (bool * GroundingState) :=
  match l with
  | [] => Ok (true, g)
  | s :: rest =>
      if steps_left g <=? 0 then Ok (false, g)
      else
        match find_record d s with
        | None => Ok (false, g)
        | Some p =>
            p ← make p;
            if negb (pinned r s p) then Ok (false, g)
            else
              '(v : bool) ← journal_visible x p sc [active] stamp;
              if negb v then Ok (false, g)
              else
                '(b, g) ← grounded p g;
                if b : bool then ground_sources rest g else Ok (false, g)
        end
  end.
End sources.

(** [_grounded]; the fuel bounds the nesting, which [enter] cuts at
    [MAX_GROUNDING_DEPTH]. *)
Fixpoint ground (fuel : nat) x d (sc : Scope) (stamp : Z) (delegated : bool) (r : MemoryRecord)
    (seen : gset string) g : res pyexn (bool * GroundingState) :=
  match fuel with
  | O => Err RecursionError
  | S fuel' =>
      let '(cached, g) := enter (id r) seen g in
      match cached with
      | Some b => Ok (b, g)
      | None =>
          '(b, g) ← (if negb (sound_alone x d delegated r) then Ok (false, g)
                     else ground_sources x d sc stamp r
                            (λ p g, ground fuel' x d sc stamp delegated p ({[id r]} ∪ seen) g)
                            (unique_keys (relation "derives" r)) g);
          Ok (b, remember (id r) seen b g)
      end
  end.

Definition _grounded x d (sc : Scope) (stamp : Z) (delegated : bool) (r : MemoryRecord) g
    : res pyexn (bool * GroundingState) :=
  ground (S MAX_GROUNDING_DEPTH) x d sc stamp delegated r ∅ g.

(** ** Reads *)

Definition current x (i : string) (sc : Scope) (statuses : list memory_status) (at_ : string) (d : db)
    : res pyexn (option MemoryRecord) :=
  match find_record d i with
  | None => Ok None
  | Some r =>
      r ← make r;
      stamp ← moment at_;
      '(v : bool) ← journal_visible x r sc statuses stamp;
      if negb v then Ok None
      else
        '(b, _) ← _grounded x d sc stamp (_delegated x) r fresh_grounding;
        Ok (if b : bool then Some r else None)
  end.

(** The rows of [search] in the order the query returns them. *)
Fixpoint search_rows x d (sc : Scope) (statuses : list memory_status) (stamp : Z) (delegated : bool) (limit : nat)
    (rows : list MemoryRecord) g : res pyexn (list MemoryRecord) :=
  match limit, rows with
  | O, _ | _, [] => Ok []
  | S limit', r :: rest =>
      r ← make r;
      '(v : bool) ← journal_visible x r sc statuses stamp;
      if negb v then search_rows x d sc statuses stamp delegated limit rest g
      else
        bg ← _grounded x d sc stamp delegated r g;
        l ← search_rows x d sc statuses stamp delegated (if bg.1 : bool then limit' else limit) rest bg.2;
        Ok (if bg.1 : bool then r :: l else l)
  end.

(** [admit_reference] of a record. *)
Definition admit_record x (ref i : string) (sc : Scope) (now : string) (d : db) : res pyexn (option MemoryRecord) :=
  if lineage_blocked x ref then Ok None
  else match find_row ref (resource_refs d) with
       | Some (j, false) => current x j sc [active] now d
       | _ => Ok None
       end.

(** ** Support *)

Definition edge d (a b : string) : Prop := ∃ r, find_record d a = Some r ∧ b ∈ relation "derives" r.

(** [r] stands on sources that are visible, pinned and themselves supported,
    at most [n] deep. *)
Inductive supported x d (sc : Scope) (stamp : Z) (delegated : bool) : nat → MemoryRecord → Prop :=
  | supported_by n r :
      sound_alone x d delegated r = true →
      (∀ s, s ∈ relation "derives" r → ∃ p, find_record d s = Some p ∧ pinned r s p = true ∧
        journal_visible x p sc [active] stamp = Ok true ∧ supported x d sc stamp delegated n p) →
      supported x d sc stamp delegated (S n) r.

Section walk.
Variables (x : X) (d : db) (sc : Scope) (stamp : Z) (delegated : bool).
Hypothesis Hwf : wf d.
Local Abbreviation sup := (supported x d sc stamp delegated).

(** [p] is the record [b] supports, [m] deep. *)
Definition stands (b : string) (m : nat) (p : MemoryRecord) : Prop :=
  find_record d b = Some p ∧ id p = b ∧ journal_visible x p sc [active] stamp = Ok true ∧ sup m p.

Lemma supported_edge n r b : sup n r → find_record d (id r) = Some r → edge d (id r) b →
  ∃ m p, (m < n)%nat ∧ stands b m p.
Proof.
  intros Hs Hr (r' & Hr' & Hb). rewrite Hr in Hr'. injection Hr' as <-.
  destruct Hs as [n r _ Hsrc]. destruct (Hsrc b Hb) as (p & Hp & _ & Hv & Hs).
  exists n, p. split; [lia|]. split_and!; [done|by apply (current_valid d b p Hwf)|done..].
Qed.

Lemma supported_tc n r b : sup n r → find_record d (id r) = Some r → tc (edge d) (id r) b →
  ∃ m p, (m < n)%nat ∧ stands b m p.
Proof.
  intros Hs Hr Htc. remember (id r) as a eqn:Ea. revert n r Ea Hs Hr.
  induction Htc as [a b Hab|a b c Hab _ IH]; intros n r -> Hs Hr.
  - by eapply supported_edge.
  - destruct (supported_edge n r b Hs Hr Hab) as (m & p & Hm & Hp & Ep & _ & Hsp).
    destruct (IH m p) as (m' & q & Hm' & Hq); [done|done|congruence|].
    exists m', q. split; [lia|done].
Qed.

(** What is supported is on no cycle. *)
Lemma supported_acyclic n r : sup n r → find_record d (id r) = Some r → ¬ tc (edge d) (id r) (id r).
Proof.
  revert r. induction (lt_wf n) as [n _ IH]; intros r Hs Hr Htc.
  destruct (supported_tc n r _ Hs Hr Htc) as (m & p & Hm & Hp & _ & _ & Hsp).
  rewrite Hr in Hp. injection Hp as <-. by apply (IH m Hm r).
Qed.

(** The memo holds verdicts for the depth that is left; a refusal is one as
    long as steps are left. *)
Definition verdict (b : bool) (n : nat) (r : MemoryRecord) g : Prop :=
  (b = true → sup n r) ∧ (b = false → 0 < steps_left g → ¬ sup n r).

Definition memo_ok g : Prop := ∀ i k b r, results g !! (i, k) = Some b → find_record d i = Some r →
  verdict b (MAX_GROUNDING_DEPTH - k) r g.

Lemma memo_ok_fewer g n : memo_ok g → n <= steps_left g → memo_ok (Grounding n (results g)).
Proof.
  intros Hg Hn i k b r Hb Hr. destruct (Hg i k b r Hb Hr) as [H1 H2]. split; [done|].
  intros Hf Hpos. apply H2; [done|]. simpl in Hpos. lia.
Qed.

Definition ground_spec (f : MemoryRecord → GroundingState → res pyexn (bool * GroundingState)) (n : nat) (p : MemoryRecord) : Prop :=
  ∀ g b g', memo_ok g → f p g = Ok (b, g') → memo_ok g' ∧ steps_left g' <= steps_left g ∧ verdict b n p g'.

Lemma ground_sources_spec r f n l g b g' :
  (∀ s p, s ∈ l → find_record d s = Some p → ground_spec f n p) →
  memo_ok g → ground_sources x d sc stamp r f l g = Ok (b, g') →
  memo_ok g' ∧ steps_left g' <= steps_left g ∧
  (b = true → ∀ s, s ∈ l → ∃ p, find_record d s = Some p ∧ pinned r s p = true ∧
     journal_visible x p sc [active] stamp = Ok true ∧ sup n p) ∧
  (b = false → 0 < steps_left g' → ∃ s, s ∈ l ∧ ∀ p, find_record d s = Some p → pinned r s p = true →
     journal_visible x p sc [active] stamp = Ok true → ¬ sup n p).
Proof.
  revert g. induction l as [|s l IH]; intros g Hf Hg; cbn [ground_sources].
  { intros [= <- <-]. split_and!; [done|done| |done]. by intros _ s ?%elem_of_nil. }
  destruct (steps_left g <=? 0) eqn:E; zbool.
  { intros [= <- <-]. split_and!; [done|done|done|lia]. }
  destruct (find_record d s) as [p|] eqn:Hp.
  2: { intros [= <- <-]. split_and!; [done|done|done|]. intros _ _. exists s. split; [by left|congruence]. }
  destruct (current_valid d s p Hwf Hp) as [_ Hv]. unfold make. rewrite Hv. cbn [mbind res_bind].
  destruct (negb (pinned r s p)) eqn:Epin.
  { intros [= <- <-]. split_and!; [done|done|done|]. intros _ _. exists s. split; [by left|].
    intros p' Hp' Hpin. assert (p' = p) as -> by congruence. by rewrite Hpin in Epin. }
  intros H. bind H as v Ev. destruct v; cbn [negb] in H.
  2: { injection H as <- <-. split_and!; [done|done|done|]. intros _ _. exists s. split; [by left|].
       intros p' Hp' _ Hvis. assert (p' = p) as -> by congruence. congruence. }
  bind H as [b1 g1] H1. destruct (Hf s p) with g b1 g1 as (Hm1 & Hle1 & Hv1); [by left|done..|].
  destruct b1.
  - destruct (IH g1) as (Hm & Hle & Ht & Hfa); [intros s' p' ?; apply Hf; by right|done|done|].
    split_and!; [done|lia| |].
    + intros -> s' [->|Hin]%elem_of_cons; [|by apply Ht].
      exists p. split_and!; [done|by apply negb_false_iff in Epin|done|by apply Hv1].
    + intros -> Hpos. destruct (Hfa eq_refl Hpos) as (s' & Hin & Hs'). exists s'. split; [by right|done].
  - injection H as <- <-. split_and!; [done|lia|done|]. intros _ Hpos. exists s. split; [by left|].
    intros p' Hp' _ _. assert (p' = p) as -> by congruence. by apply Hv1.
Qed.

Lemma ground_correct fuel : ∀ r seen g b g',
  find_record d (id r) = Some r → (∀ a, a ∈ seen → tc (edge d) a (id r)) → memo_ok g →
  ground fuel x d sc stamp delegated r seen g = Ok (b, g') →
  memo_ok g' ∧ steps_left g' <= steps_left g ∧ verdict b (MAX_GROUNDING_DEPTH - size seen) r g'.
Proof.
  induction fuel as [|fuel IH]; intros r seen g b g' Hr Hseen Hg H; [done|].
  cbn [ground] in H. unfold enter in H. destruct (bool_decide (id r ∈ seen)) eqn:Ein.
  { apply bool_decide_eq_true in Ein. injection H as <- <-. split_and!; [done|done|]. split; [done|].
    intros _ _ Hs. by apply (supported_acyclic _ r Hs Hr), Hseen. }
  destruct (MAX_GROUNDING_DEPTH <=? size seen)%nat eqn:Ed; zbool.
  { injection H as <- <-. split_and!; [done|done|]. split; [done|].
    intros _ _ Hs. replace (MAX_GROUNDING_DEPTH - size seen)%nat with O in Hs by lia. inversion Hs. }
  destruct (steps_left g <=? 0) eqn:El; zbool; cbn [orb] in H.
  { injection H as <- <-. split_and!; [done|done|]. split; [done|]. lia. }
  destruct (results g !! (id r, size seen)) as [b0|] eqn:Em.
  { injection H as <- <-. assert (Hg' : memo_ok (Grounding (steps_left g - 1) (results g))) by (apply memo_ok_fewer; [done|lia]).
    split_and!; [done|simpl; lia|]. by eapply Hg'. }
  apply bool_decide_eq_false in Ein.
  assert (Hsize : size ({[id r]} ∪ seen) = S (size seen)) by (rewrite size_union, size_singleton; [done|set_solver]).
  set (g1 := Grounding (steps_left g - 1) (results g)) in *.
  assert (Hg1 : memo_ok g1) by (apply memo_ok_fewer; [done|lia]).
  bind H as [b1 g2] H1. injection H as <- <-.
  assert (Hn : (MAX_GROUNDING_DEPTH - size seen = S (MAX_GROUNDING_DEPTH - S (size seen)))%nat) by lia.
  assert (Hmain : memo_ok g2 ∧ steps_left g2 <= steps_left g1 ∧ verdict b1 (MAX_GROUNDING_DEPTH - size seen) r g2).
  { destruct (sound_alone x d delegated r) eqn:Eal; cbn [negb] in H1.
    - eapply ground_sources_spec in H1 as (Hm & Hle & Ht & Hf);
        [|intros s p Hs Hp g0 b0 g0' Hg0 H0; eapply IH in H0; [rewrite Hsize in H0; exact H0|..]|done].
      + split_and!; [done|done|]. rewrite Hn. split.
        * intros ->. apply supported_by; [done|]. intros s Hs. apply Ht; [done|]. by rewrite elem_unique_keys.
        * intros -> Hpos Hs. destruct (Hf eq_refl Hpos) as (s & Hin & Hno). rewrite elem_unique_keys in Hin.
          inversion Hs as [n r' _ Hsrc]; subst. destruct (Hsrc s Hin) as (p & Hp & Hpin & Hvis & Hsp).
          by apply (Hno p).
      + destruct (current_valid d s p Hwf Hp) as [-> _]. done.
      + destruct (current_valid d s p Hwf Hp) as [-> _]. rewrite elem_unique_keys in Hs.
        intros a [->%elem_of_singleton|Ha]%elem_of_union; [apply tc_once; by exists r|].
        eapply tc_r; [by apply Hseen|]. by exists r.
      + done.
    - injection H1 as <- <-. split_and!; [done|lia|]. split; [done|]. intros _ _ Hs. inversion Hs. congruence. }
  destruct Hmain as (Hm2 & Hle & Hv). split_and!; [|simpl in *; lia|exact Hv].
  intros i k b r'. simpl. destruct (decide ((i, k) = (id r, size seen))) as [[= -> ->]|Hne].
  - rewrite lookup_insert_eq. intros [= <-] Hr'. rewrite Hr in Hr'. injection Hr' as <-. exact Hv.
  - rewrite lookup_insert_ne by done. apply Hm2.
Qed.

(** ** The walk returns *)

Lemma when_set_ok v t test : timestamp v = Ok t → ∃ b, when_set v test = Ok b.
Proof. intros H. unfold when_set. rewrite H. by eexists. Qed.

Lemma visible_returns r sc' statuses : validate r = Ok () → ∃ b, visible r sc' statuses stamp = Ok b.
Proof.
  unfold validate. intros H. do 5 (bind H as ? _). bind H as t0 _. bind H as from H1. bind H as until H2.
  bind H as retracted H3. bind H as ? _. bind H as forget H4. clear H.
  assert (∃ f t, forget_field (payload r) = Ok f ∧ timestamp f = Ok t) as (f & t & Hf & Ht).
  { unfold forget_field, timestamp_field in *. destruct (truthy _); [|by exists None, None].
    destruct (assoc "forget_after" (payload r)) as [[]|]; try done. exists (Some s). unfold timestamp.
    destruct (String.eqb s ""); eauto. }
  unfold visible, and_then. destruct (_ && scope_within _ _); [|by eexists]. rewrite Hf.
  destruct (when_set_ok _ _ (λ t, t <=? stamp) H1) as [b1 ->].
  destruct (when_set_ok _ _ (λ t, stamp <? t) H2) as [b2 ->].
  destruct (when_set_ok _ _ (λ t, stamp <? t) H3) as [b3 ->].
  cbn [mbind res_bind]. destruct (when_set_ok _ _ (λ t, stamp <? t) Ht) as [b4 ->].
  destruct b1, b2, b3; by eexists.
Qed.

Lemma journal_visible_returns r sc' statuses : validate r = Ok () → ∃ b, journal_visible x r sc' statuses stamp = Ok b.
Proof.
  intros H. unfold journal_visible. destruct (required_agent x); [case_bool_decide; [by eexists|]|]; by apply visible_returns.
Qed.

Lemma ground_sources_returns r f l g :
  (∀ s p, s ∈ l → find_record d s = Some p → ∀ g, ∃ o, f p g = Ok o) → ∃ o, ground_sources x d sc stamp r f l g = Ok o.
Proof.
  revert g. induction l as [|s l IH]; intros g Hf; cbn [ground_sources]; [by eexists|].
  destruct (steps_left g <=? 0); [by eexists|]. destruct (find_record d s) as [p|] eqn:Hp; [|by eexists].
  destruct (current_valid d s p Hwf Hp) as [_ Hv]. unfold make. rewrite Hv. cbn [mbind res_bind].
  destruct (negb (pinned r s p)); [by eexists|]. destruct (journal_visible_returns p sc [active] Hv) as [v ->].
  cbn [mbind res_bind]. destruct (negb v); [by eexists|].
  destruct (Hf s p ltac:(by left) Hp g) as [[b g1] ->]. cbn [mbind res_bind]. destruct b; [|by eexists].
  apply IH. intros s' p' ?. apply Hf. by right.
Qed.

Lemma ground_returns fuel : ∀ r seen g, (MAX_GROUNDING_DEPTH - size seen < fuel)%nat →
  ∃ o, ground fuel x d sc stamp delegated r seen g = Ok o.
Proof.
  induction fuel as [|fuel IH]; intros r seen g Hfuel; [lia|]. cbn [ground]. unfold enter.
  destruct (bool_decide (id r ∈ seen)) eqn:Ein; [by eexists|]. apply bool_decide_eq_false in Ein.
  destruct (MAX_GROUNDING_DEPTH <=? size seen)%nat eqn:Ed; [by eexists|]. zbool. cbn [orb].
  destruct (steps_left g <=? 0); [by eexists|]. destruct (results g !! _); [by eexists|].
  destruct (sound_alone x d delegated r); cbn [negb]; [|by eexists].
  match goal with |- context [ground_sources ?a ?b ?c ?e ?r' ?f ?l ?g'] =>
    destruct (ground_sources_returns r' f l g') as [[b0 g0] ->]; [|by eexists] end.
  intros s p _ _ g'. apply IH. rewrite size_union, size_singleton by set_solver. lia.
Qed.

Lemma memo_ok_fresh : memo_ok fresh_grounding.
Proof. intros i k b r H. simpl in H. by rewrite lookup_empty in H. Qed.

(** The closure: everything below a supported record. *)
Lemma supported_below n r b : sup n r → find_record d (id r) = Some r → tc (edge d) (id r) b →
  ∃ p, find_record d b = Some p ∧ journal_visible x p sc [active] stamp = Ok true ∧ sound_alone x d delegated p = true.
Proof.
  intros Hs Hr Htc. destruct (supported_tc n r b Hs Hr Htc) as (m & p & _ & Hp & _ & Hv & Hm).
  exists p. split_and!; [done|done|]. by destruct Hm.
Qed.
End walk.

(** ** Reads *)

Lemma grounded_run x d sc stamp delegated r g b g' : wf d → find_record d (id r) = Some r →
  memo_ok x d sc stamp delegated g → _grounded x d sc stamp delegated r g = Ok (b, g') →
  memo_ok x d sc stamp delegated g' ∧ verdict x d sc stamp delegated b 64 r g'.
Proof.
  intros Hwf Hr Hg H. apply (ground_correct x d sc stamp delegated Hwf) in H as (Hm & _ & Hv);
    [|done|by intros a ?%elem_of_empty|done]. by rewrite size_empty in Hv.
Qed.

Lemma current_inv x i sc statuses at_ d r : wf d → current x i sc statuses at_ d = Ok (Some r) →
  ∃ stamp, moment at_ = Ok stamp ∧ find_record d i = Some r ∧ journal_visible x r sc statuses stamp = Ok true ∧
    supported x d sc stamp (_delegated x) 64 r.
Proof.
  intros Hwf H. unfold current in H. destruct (find_record d i) as [r0|] eqn:Hr; [|done].
  destruct (current_valid d i r0 Hwf Hr) as [Ei Hv]. unfold make in H. rewrite Hv in H. cbn [mbind res_bind] in H.
  bind H as stamp Hs. bind H as v Ev. destruct v; [|done]. cbn [negb] in H. bind H as [b g] Hg.
  destruct b; [|done]. injection H as ->. exists stamp. split_and!; [done|done|done|].
  rewrite <- Ei in Hr. apply grounded_run in Hg as (_ & Ht & _); [auto|done..|apply memo_ok_fresh].
Qed.

Lemma search_rows_supported x d sc statuses stamp delegated limit rows g l : wf d →
  (∀ r, r ∈ rows → find_record d (id r) = Some r) → memo_ok x d sc stamp delegated g →
  search_rows x d sc statuses stamp delegated limit rows g = Ok l →
  ∀ r, r ∈ l → r ∈ rows ∧ journal_visible x r sc statuses stamp = Ok true ∧ supported x d sc stamp delegated 64 r.
Proof.
  intros Hwf. revert limit g l. induction rows as [|r0 rows IH]; intros limit g l Hrows Hg H r Hin.
  { destruct limit; injection H as <-; by apply elem_of_nil in Hin. }
  assert (Hrows' : ∀ r, r ∈ rows → find_record d (id r) = Some r) by (intros ? ?; apply Hrows; by right).
  destruct limit as [|limit]; cbn [search_rows] in H; [injection H as <-; by apply elem_of_nil in Hin|].
  unfold make in H. bind H as r1 Hmk. bind Hmk as [] _. injection Hmk as <-. bind H as v Ev. destruct v; cbn [negb] in H.
  2: { destruct (IH _ _ _ Hrows' Hg H r Hin) as (? & ? & ?). split_and!; [by right|done|done]. }
  bind H as [b g1] Hb. cbn [fst snd] in H. bind H as k Hk. injection H as <-.
  apply grounded_run in Hb as [Hg1 [Ht _]]; [|done|apply Hrows; by left|done].
  assert (r ∈ k → r ∈ r0 :: rows ∧ journal_visible x r sc statuses stamp = Ok true ∧
            supported x d sc stamp delegated 64 r) as Hin_k.
  { intros Hk'. destruct (IH _ _ _ Hrows' Hg1 Hk r Hk') as (? & ? & ?). split_and!; [by right|done|done]. }
  destruct b; [|by apply Hin_k]. apply elem_of_cons in Hin as [->|Hin]; [|by apply Hin_k].
  split_and!; [by left|done|by apply Ht].
Qed.

(** C6: the memoised, bounded walk of [_grounded] decides support.  On
    well-formed tables it always returns; it accepts only records whose whole
    derivation stands, and what it refuses while it has steps left has no
    derivation of at most 64 levels. *)
Theorem grounding_decides_support x d sc stamp delegated r :
  wf d → find_record d (id r) = Some r → ∃ b g,
    _grounded x d sc stamp delegated r fresh_grounding = Ok (b, g) ∧
    (b = true → supported x d sc stamp delegated 64 r) ∧
    (0 < steps_left g → b = true ↔ supported x d sc stamp delegated 64 r).
Proof.
  intros Hwf Hr.
  destruct (ground_returns x d sc stamp delegated Hwf (S MAX_GROUNDING_DEPTH) r ∅ fresh_grounding) as [[b g] H].
  { rewrite size_empty. unfold MAX_GROUNDING_DEPTH. lia. }
  exists b, g. split; [exact H|]. apply grounded_run in H as (_ & Ht & Hf); [|done..|apply memo_ok_fresh].
  split; [exact Ht|]. intros Hpos. destruct b; [by split; auto|].
  split; [done|]. intros Hs. by destruct (Hf eq_refl Hpos).
Qed.

(** C7: a record [current] returns stands on everything it was derived from:
    every record below it is current, active and visible in the caller's
    scope at the same moment, and readable with its own evidence. *)
Theorem current_stands_on_sources x i sc statuses at_ d r : wf d → current x i sc statuses at_ d = Ok (Some r) →
  ∃ stamp, moment at_ = Ok stamp ∧ find_record d i = Some r ∧ journal_visible x r sc statuses stamp = Ok true ∧
    ∀ b, tc (edge d) i b → ∃ p, find_record d b = Some p ∧ journal_visible x p sc [active] stamp = Ok true ∧
      sound_alone x d (_delegated x) p = true.
Proof.
  intros Hwf H. apply current_inv in H as (stamp & Hs & Hr & Hv & Hsup); [|done]. exists stamp.
  split_and!; [done..|]. intros b Hb. destruct (current_valid d i r Hwf Hr) as [<- _].
  by eapply supported_below.
Qed.
End grounding.
