(* ===== verification/RecordErasure.v ===== *)
(** * Erasure in the record journal ([Journal.forget])

    The cascade of an erasure as a depth-first search with its collected
    captures, the guards of authority and scope, the hand-over of the governed
    references, and the deletion of the rows, in one transaction; [reap_due]
    on top of it. *)

From stdpp Require Import relations.
From S2P Require Import Prelude Strings Sha256 Wire Number Moment Unicode Effects Records RecordJournal.
Local Open Scope Z_scope.

(** ** Depth-first search *)

Section search.
Context {B : Type} (visit : string → res pyexn (list string * list B)).

(** [pending] with its end first; [visit] gives what a node pushes and what
    it adds to the output. *)
Fixpoint dfs (fuel : nat) (pending seen : list string) (out : list B) : res pyexn (list string * list B) :=
  match fuel, pending with
  | _, [] => Ok (seen, out)
  | O, _ => Err RecursionError
  | S fuel', i :: rest =>
      if mem i seen then dfs fuel' rest seen out
      else
        '(next, found) ← visit i;
        dfs fuel' (rev next ++ rest) (seen ++ [i]) (out ++ found)
  end.
End search.

(** ** The cascade *)

(** [SELECT l.derived FROM links l JOIN records r ON r.id=l.derived WHERE
    l.source=? AND json_extract(r.body,'$.scope')=json(?)] *)
Definition distilled_from (d : db) (source : string) (sc : Scope) : list string :=
  List.filter (λ i, match find_record d i with Some r => scope_text_is r sc | None => false end) (derived_of d source).

(** The captures a version of a record cites in its scope, with the records
    distilled from each. *)
Definition cited (d : db) (r : MemoryRecord) : res pyexn (list string * list (string * Scope)) :=
  sources ← source_messages (payload r);
  let caps := List.filter (λ s, match find_capture d s with Some c => bool_decide (c_scope c = scope r) | None => false end)
                (unique_keys (sources ++ relation "caused_by" r)) in
  Ok (flat_map (λ s, distilled_from d s (scope r)) caps, map (λ s, (s, scope r)) caps).

(** One turn of [while pending]: the derived records, and, of every revision,
    its own capture and the ones it cites. *)
Definition visit_record (d : db) (i : string) : res pyexn (list string * list (string * Scope)) :=
  rows ← mapR make (map snd (List.filter (λ e, String.eqb e.1.1 i) (record_events d)));
  found ← mapR (cited d) rows;
  Ok (derived_of d i ++ concat found.*1, concat (zip_with (λ r f, (i, scope r) :: f.2) rows found)).

(** Every id a search from [i] can meet, and a bound on its turns. *)
Definition mentioned (d : db) (i : string) : list string := i :: (links d).*2.
Definition pushed (d : db) (i : string) : nat := match visit_record d i with Ok (l, _) => length l | Err _ => O end.
Definition cascade_fuel (d : db) (i : string) : nat := S (sum_list_with (pushed d) (remove_dups (mentioned d i))).

Definition cascade (d : db) (i : string) : res pyexn (list string * list (string * Scope)) :=
  '(deleted, found) ← dfs (visit_record d) (cascade_fuel d i) [i] [] [];
  Ok (deleted, match find_capture d i with Some c => (i, c_scope c) :: found | None => found end).

(** ** The services an erasure calls *)

(** [incident], [safety], [memory_authority] and [nextwave_store], which keep
    the state [X], and [capability_io.assert_forget]. *)
Class ErasureServices (X : Type) := {
  assert_forget : X → descriptor → res pyexn ();
  (** the authentic mirror a delegated cascade requires *)
  authentic_mirror : X → MemoryRecord → bool;
  assert_unpinned : X → list string → res pyexn ();
  assert_mutable : X → list string → res pyexn ();
  record_forgetting : string → X → res pyexn X;
  erase_sources : list string → X → res pyexn X;
}.

Section erasure.
Context {X : Type} `{SX : Surroundings X} `{EX : ErasureServices X}.
Implicit Types (x : X) (d : db).

(** [actual] is owned by [sc]. *)
Definition owned (sc : Scope) (exact : bool) (actual : Scope) : bool :=
  negb (exact && negb (bool_decide (actual = sc))) && scope_within actual sc.

Definition _authorize_forget x d (i : string) (sc : option Scope) (exact : bool) : res pyexn () :=
  '(actual, what) ← match find_record d i with
    | Some r => r ← make r; Ok (scope r, DRecord r)
    | None => c ← get_or (find_capture d i) ValueError; Ok (c_scope c, captured c)
    end;
  require (match sc with Some s => owned s exact actual | None => false end
           && match required_agent x with Some a => bool_decide (s_agent actual = Some a) | None => true end) PermissionError;;
  assert_forget x what.

(** [expected_version] and [_expected_digest] against the body. *)
Definition check_expected d (i : string) (version_ : option Z) (digest_ : option string) : res pyexn () :=
  match version_, digest_ with
  | None, None => Ok ()
  | _, _ =>
      r ← get_or (find_record d i) ValueError;
      require (match version_ with Some v => version r =? v | None => true end) ValueError;;
      match digest_ with
      | Some g => h ← digest (record_json r); require (String.eqb h g) ValueError
      | None => Ok ()
      end
  end.

(** The captures of the cascade stay in the caller's scope, and a delegated
    caller may erase each of them. *)
Definition check_captures x d (sc : option Scope) (exact cascaded : bool) (caps : list (string * Scope)) : res pyexn () :=
  require (match sc with
           | Some s => cascaded || forallb (λ c, owned s exact c.2) caps
           | None => true
           end) PermissionError;;
  if capability x then
    _ ← mapR (λ c, match find_capture d c.1 with
                   | Some row => if bool_decide (c_scope row = c.2) then assert_forget x (captured row) else Ok ()
                   | None => Ok ()
                   end) caps;
    Ok ()
  else Ok ().

(** [SELECT ref FROM resource_refs WHERE id IN ...] *)
Definition references_of d (ids : list string) : list string :=
  (List.filter (λ row, mem row.2.1 ids) (resource_refs d)).*1.

(** What the erasure asks of the services that hold the references. *)
Definition release (refs : list string) x : res pyexn X :=
  if bool_decide (refs = []) then Ok x
  else
    assert_unpinned x refs;;
    assert_mutable x refs;;
    x ← foldM (λ x ref, record_forgetting ref x) x refs;
    erase_sources refs x.

(** ** The rows *)

(** The services and the tables: what a transaction works on. *)
Definition both := (X * db)%type.
Definition on_tables {A} (m : io db pyexn A) : io both pyexn A := λ s,
  let '(r, d) := m s.2 in (r, (s.1, d)).
Definition on_services (f : X → res pyexn X) : io both pyexn () := λ s,
  match f s.1 with Ok x => (Ok tt, (x, s.2)) | Err e => (Err e, s) end.

Definition drop_ref (i : string) (is_capture : bool) d : db :=
  set_resource_refs (List.filter (λ row, negb (bool_decide (row.2 = (i, is_capture)))) (resource_refs d)) d.

Definition erase_capture (c : string * Scope) : io both pyexn () :=
  s ← get;
  when (match find_capture s.2 c.1 with Some row => bool_decide (c_scope row = c.2) | None => false end)
    (on_tables (_stage_change s.1 true c.1 c.2 "" "erase");;
     when (_delegated s.1) (on_services (record_forgetting (runtime_identity s.1 true c.1))));;
  on_tables (modify (λ d, drop_ref c.1 true
    (set_captures (List.filter (λ row, negb (String.eqb (c_id row) c.1 && bool_decide (c_scope row = c.2))) (captures d)) d))).

(** A delivery that offered or assigned one of the ids. *)
Definition delivers (ids : list string) (r : delivery) : bool :=
  existsb (λ i, mem i ids) (d_ids r ++ (d_assignments r).*1).
Definition drop_deliveries (ids : list string) d : db :=
  set_deliveries (List.filter (λ row, negb (delivers ids row.2)) (deliveries d)) d.

Definition drop_rows (i : string) d : db :=
  let other (k : string) := negb (String.eqb k i) in
  set_links (List.filter (λ l, other l.1 && other l.2) (links d))
  (set_record_events (List.filter (λ e, other e.1.1) (record_events d))
  (set_records (List.filter (λ r, other r.1) (records d))
  (set_record_fts (List.filter (λ r, other r.1) (record_fts d))
  (set_vectors (List.filter (λ r, other r.1.1.1) (vectors d))
  (set_injected (List.filter (λ r, other r.2) (injected d))
  (set_decisions (List.filter (λ r, other r.2) (decisions d))
  (set_studies (List.filter (λ r, other r.1) (studies d)) (drop_ref i false d)))))))).

Definition erase_record (i : string) : io both pyexn () :=
  s ← get;
  match find_record s.2 i with
  | Some r =>
      on_tables (_stage_change s.1 false i (scope r) "" "erase");;
      when (_delegated s.1) (on_services (record_forgetting (runtime_identity s.1 false i)))
  | None => mret tt
  end;;
  on_tables (modify (drop_rows i)).

(** ** [_forget] *)

Inductive outcome := Erased (a : audit) | Unverified.

(** The body of the transaction. *)
Definition forget_body (now i reason : string) (version_ : option Z) (digest_ : option string) (sc : option Scope)
    (exact cascaded : bool) : io both pyexn outcome :=
  s ← get;
  let '(x, d) := s in
  of_res (if (capability x || bool_decide (is_Some sc)) && negb cascaded then _authorize_forget x d i sc exact else Ok ());;
  if cascaded && capability x
     && negb (match find_record d i with Some r => authentic_mirror x r | None => false end) then mret Unverified
  else
    of_res (check_expected d i version_ digest_);;
    '(deleted, caps) ← of_res (cascade d i);
    of_res (check_captures x d sc exact cascaded caps);;
    on_services (release (references_of d (sorted_set (deleted ++ caps.*1))));;
    foreach erase_capture caps;;
    on_tables (modify (drop_deliveries deleted));;
    foreach erase_record deleted;;
    clean ← of_res (scrub_text reason);
    let row := Audit now (sort_strings deleted) clean in
    on_tables (modify (λ d, set_erasures (erasures d ++ [row]) d));;
    mret (Erased row).

(** The tables roll back; the services do not. *)
Definition forget_transaction {A} (m : io both pyexn A) : io both pyexn A := λ s,
  match m s with (Ok a, s') => (Ok a, s') | (Err e, s') => (Err e, (s'.1, s.2)) end.

(** [blocked]: a reader keeps the checkpoint from truncating the log. *)
Definition forget (blocked : bool) (now i reason : string) (version_ : option Z) (digest_ : option string)
    (sc : option Scope) (exact cascaded : bool) : io both pyexn outcome :=
  of_res (require (negb (blank reason)) ValueError);;
  o ← forget_transaction (forget_body now i reason version_ digest_ sc exact cascaded);
  s ← get;
  match o with
  | Unverified => mret Unverified
  | Erased a =>
      of_res (require (negb blocked) RuntimeError);;
      mret (Erased (if capability s.1
                    then Audit (a_at a) (if mem i (a_deleted a) then [i] else []) (a_reason a) else a))
  end.

(** ** [reap_due] *)

(** [julianday(json_extract(body, '$.payload.forget_after')) <= julianday(?)] *)
Definition due (stamp : Z) (r : MemoryRecord) : bool :=
  match assoc "forget_after" (payload r) with
  | Some (JStr s) => match moment s with Ok t => t <=? stamp | Err _ => false end
  | _ => false
  end.

(** One due record: a [ValueError] leaves it for the next run. *)
Definition reap_one (now : string) (r : MemoryRecord) : io both pyexn (list outcome) :=
  r ← of_res (make r);
  catch (g ← of_res (digest (record_json r));
         reason ← of_res (match assoc "forget_reason" (payload r) with Some (JStr s) => Ok s | _ => Err KeyError end);
         o ← forget false now (id r) reason (Some (version r)) (Some g) None false false;
         mret [o])
        (λ e, if decide (e = ValueError) then Some (mret []) else None).

Definition reap_due (now : string) (limit : Z) : io both pyexn (list outcome) :=
  s ← get;
  stamp ← of_res (moment now);
  collect (reap_one now) (limited limit (List.filter (due stamp) (records s.2).*2)).
End erasure.
