(* ===== verification/RecordErasureSpec.v ===== *)
(** * What an erasure removes

    The cascade is the set of ids reachable from the erased one; after it no
    table mentions any of them, every other row is as it was, and the tables
    stay well formed. *)

From stdpp Require Import relations.
From S2P Require Import Prelude Strings Sha256 Wire Origin Canon Number Moment Unicode Effects Records RecordJournal RecordJournalSpec RecordErasure.
Local Open Scope Z_scope.

(** ** Depth-first search *)

Section search.
Context {B : Type} (visit : string → res pyexn (list string * list B)).

Definition leads (a b : string) : Prop := ∃ next found, visit a = Ok (next, found) ∧ b ∈ next.

Record searched (start : string) (pending seen : list string) (out : list B) : Prop := {
  se_start : start ∈ seen ++ pending;
  se_nodup : NoDup seen;
  se_visited : ∀ a, a ∈ seen → ∃ next found, visit a = Ok (next, found) ∧ (∀ b, b ∈ next → b ∈ seen ++ pending) ∧
    (∀ o, o ∈ found → o ∈ out);
  se_found : ∀ o, o ∈ out → ∃ a next found, a ∈ seen ∧ visit a = Ok (next, found) ∧ o ∈ found;
  se_reached : ∀ a, a ∈ seen ++ pending → rtc leads start a;
}.

Lemma dfs_spec start fuel : ∀ pending seen out seen' out', searched start pending seen out →
  dfs visit fuel pending seen out = Ok (seen', out') → searched start [] seen' out'.
Proof.
  induction fuel as [|fuel IH]; intros pending seen out seen' out' Hs H; destruct pending as [|i rest];
    cbn [dfs] in H; try done; try (by injection H as <- <-).
  destruct (mem i seen) eqn:Ei.
  - apply mem_elem in Ei. eapply IH; [|exact H]. destruct Hs as [H1 H2 H3 H4 H5].
    assert (Hsub : ∀ b, b ∈ seen ++ i :: rest → b ∈ seen ++ rest).
    { intros b. rewrite !elem_of_app, elem_of_cons. naive_solver. }
    split; [by apply Hsub|done| |done|].
    + intros a Ha. destruct (H3 a Ha) as (next & found & ? & ? & ?). exists next, found. naive_solver.
    + intros a Ha. apply H5. revert Ha. rewrite !elem_of_app, elem_of_cons. tauto.
  - assert (Hi : i ∉ seen) by (rewrite <- mem_elem, Ei; done).
    bind H as [next found] Hv. eapply IH; [|exact H]. destruct Hs as [H1 H2 H3 H4 H5].
    assert (Hsub : ∀ b, b ∈ (seen ++ [i]) ++ rev next ++ rest ↔ b ∈ next ∨ b ∈ seen ++ i :: rest).
    { intros b. rewrite !elem_of_app, elem_rev, list_elem_of_singleton, elem_of_cons. tauto. }
    split.
    + apply Hsub. by right.
    + apply NoDup_app. split_and!; [done| |apply NoDup_singleton]. by intros a Ha ->%list_elem_of_singleton.
    + intros a [Ha| ->%list_elem_of_singleton]%elem_of_app.
      * destruct (H3 a Ha) as (n & f & ? & Hn & Hf). exists n, f. split_and!; [done| |].
        -- intros b Hb. apply Hsub. right. auto.
        -- intros o Ho. apply elem_of_app. left. auto.
      * exists next, found. split_and!; [done| |].
        -- intros b Hb. apply Hsub. by left.
        -- intros o Ho. apply elem_of_app. by right.
    + intros o [Ho|Ho]%elem_of_app.
      * destruct (H4 o Ho) as (a & n & f & Ha & ?). exists a, n, f. split; [apply elem_of_app; by left|done].
      * exists i, next, found. split; [apply elem_of_app; right; by left|done].
    + intros a [Ha|Ha]%Hsub; [|by apply H5]. eapply rtc_r; [apply (H5 i)|by exists next, found].
      apply elem_of_app. right. by left.
Qed.

Lemma searched_start start : searched start [start] [] [].
Proof.
  split; try (by intros ? ?%elem_of_nil); [by left|constructor|].
  intros a ->%list_elem_of_singleton. constructor.
Qed.

(** With a turn for every push of every node the search ends. *)
Variable U : list string.
Hypothesis U_visited : ∀ a, a ∈ U → ∃ next found, visit a = Ok (next, found) ∧ ∀ b, b ∈ next → b ∈ U.

Definition pushes (a : string) : nat := match visit a with Ok (l, _) => length l | Err _ => O end.
Definition todo (seen : list string) : nat :=
  sum_list_with pushes (filter (λ a, a ∉ seen) (remove_dups U)).

Lemma todo_visit i seen : i ∈ U → i ∉ seen → todo seen = (pushes i + todo (seen ++ [i]))%nat.
Proof.
  intros Hi Hseen. unfold todo. pose proof (NoDup_remove_dups U) as Hnd.
  apply elem_of_remove_dups in Hi. revert Hi Hnd. generalize (remove_dups U). intros l Hi Hnd.
  induction Hnd as [|a l Ha Hnd IH]; [by apply elem_of_nil in Hi|].
  assert (Hfil : i ∉ l → filter (λ a, a ∉ seen ++ [i]) l = filter (λ a, a ∉ seen) l).
  { clear. intros Hil. induction l as [|b l IH]; [done|].
    apply not_elem_of_cons in Hil as [Hb Hil]. rewrite !filter_cons, IH by done.
    destruct (decide (b ∉ seen)) as [H|H].
    - rewrite decide_True; [done|]. rewrite not_elem_of_app, not_elem_of_cons. repeat split; auto using not_elem_of_nil.
    - rewrite decide_False; [done|]. rewrite not_elem_of_app. tauto. }
  rewrite !filter_cons. apply elem_of_cons in Hi as [->|Hi].
  - rewrite decide_True by done. rewrite decide_False; [|rewrite not_elem_of_app, not_elem_of_cons; tauto].
    cbn [sum_list_with]. by rewrite Hfil.
  - assert (a ≠ i) by (intros ->; done).
    destruct (decide (a ∉ seen)) as [H'|H'].
    + rewrite decide_True by (rewrite not_elem_of_app, list_elem_of_singleton; tauto).
      cbn [sum_list_with]. rewrite IH by done. lia.
    + rewrite decide_False by (rewrite not_elem_of_app; tauto). by apply IH.
Qed.

Lemma dfs_returns fuel : ∀ pending seen out, (∀ a, a ∈ pending → a ∈ U) → (length pending + todo seen <= fuel)%nat →
  ∃ o, dfs visit fuel pending seen out = Ok o.
Proof.
  induction fuel as [|fuel IH]; intros pending seen out Hp Hf; (destruct pending as [|i rest]; [by eexists|]);
    cbn [length] in Hf; [lia|]. cbn [dfs].
  destruct (mem i seen) eqn:Ei; [apply IH; [intros; apply Hp; by right|lia]|].
  assert (Hi : i ∉ seen) by (rewrite <- mem_elem, Ei; done).
  assert (HiU : i ∈ U) by (apply Hp; by left).
  destruct (U_visited i HiU) as (next & found & Hv & Hn). rewrite Hv. cbn [mbind res_bind].
  rewrite (todo_visit i seen HiU Hi) in Hf. unfold pushes in Hf. rewrite Hv in Hf.
  apply IH.
  - intros a [Ha|Ha]%elem_of_app; [apply Hn; by apply elem_rev|apply Hp; by right].
  - rewrite length_app, length_rev. lia.
Qed.
End search.

(** ** What the rows lose *)

Lemma filter_twice {A} (p q : A → bool) t : List.filter p (List.filter q t) = List.filter (λ a, q a && p a) t.
Proof.
  induction t as [|a t IH]; [done|]. simpl. destruct (q a); simpl; [|exact IH]. destruct (p a); [by f_equal|exact IH].
Qed.

Section rows.
Context {A : Type} (key : A → string).
Definition without (l : list string) (t : list A) : list A := List.filter (λ a, negb (mem (key a) l)) t.

Lemma without_cons i l t : without l (without [i] t) = without (i :: l) t.
Proof.
  unfold without. rewrite filter_twice. apply filter_ext. intros a. unfold mem. simpl.
  by destruct (String.eqb (key a) i).
Qed.
Lemma without_nil t : without [] t = t.
Proof. unfold without. induction t as [|a t IH]; [done|]. simpl. by f_equal. Qed.
Lemma without_one i t : List.filter (λ a, negb (String.eqb (key a) i)) t = without [i] t.
Proof. unfold without. apply filter_ext. intros a. simpl. by rewrite orb_false_r. Qed.
Lemma elem_without l t a : a ∈ without l t ↔ a ∈ t ∧ key a ∉ l.
Proof.
  unfold without. rewrite list_elem_of_In, filter_In, <- list_elem_of_In, negb_true_iff, <- mem_elem.
  by rewrite not_true_iff_false.
Qed.
End rows.
#[local] Arguments without {A} key l t : simpl never.

(** The references without those of the keys. *)
Definition unreferenced (keys : list (string * bool)) (t : list (string * (string * bool))) : list (string * (string * bool)) :=
  List.filter (λ row, negb (bool_decide (row.2 ∈ keys))) t.

Arguments unreferenced : simpl never.

Lemma unreferenced_app k l t : unreferenced l (unreferenced k t) = unreferenced (k ++ l) t.
Proof.
  unfold unreferenced. rewrite filter_twice. apply filter_ext. intros row.
  rewrite (bool_decide_ext (row.2 ∈ k ++ l) (row.2 ∈ k ∨ row.2 ∈ l)) by apply elem_of_app.
  by rewrite bool_decide_or, negb_orb.
Qed.

Lemma unreferenced_nil t : unreferenced [] t = t.
Proof. unfold unreferenced. induction t as [|row t IH]; [done|]. cbn [List.filter]. rewrite bool_decide_eq_false_2 by apply not_elem_of_nil. cbn [negb]. by f_equal. Qed.

Lemma unreferenced_one k t : List.filter (λ row, negb (bool_decide (row.2 = k))) t = unreferenced [k] t.
Proof. apply filter_ext. intros row. f_equal. apply bool_decide_ext. by rewrite list_elem_of_singleton. Qed.

Lemma elem_unreferenced keys t row : row ∈ unreferenced keys t ↔ row ∈ t ∧ row.2 ∉ keys.
Proof. unfold unreferenced. by rewrite list_elem_of_In, filter_In, <- list_elem_of_In, negb_true_iff, bool_decide_eq_false. Qed.

(** The tables without the rows of [l]; nothing else but the change outbox
    differs. *)
Record rows_dropped (l : list string) (d d' : db) : Prop := {
  rd_events : record_events d' = without (λ e, e.1.1) l (record_events d);
  rd_records : records d' = without fst l (records d);
  rd_fts : record_fts d' = without fst l (record_fts d);
  rd_vectors : vectors d' = without (λ r, r.1.1.1) l (vectors d);
  rd_injected : injected d' = without snd l (injected d);
  rd_decisions : decisions d' = without snd l (decisions d);
  rd_studies : studies d' = without fst l (studies d);
  rd_links : links d' = without fst l (without snd l (links d));
  rd_captures : captures d' = captures d;
  rd_sequence : last_sequence d' = last_sequence d;
  rd_cursors : cursors d' = cursors d ∧ scoped_cursors d' = scoped_cursors d;
  rd_deliveries : deliveries d' = deliveries d;
  rd_erasures : erasures d' = erasures d;
  rd_refs : resource_refs d' = unreferenced (map (λ i, (i, false)) l) (resource_refs d);
}.

Lemma without_swap {A} (f g : A → string) l k t : without f l (without g k t) = without g k (without f l t).
Proof. unfold without. rewrite !filter_twice. apply filter_ext. intros a. apply andb_comm. Qed.

Lemma rows_dropped_nil d : rows_dropped [] d d.
Proof. split; by rewrite ?without_nil, ?unreferenced_nil. Qed.

Lemma rows_dropped_cons i l d d1 d2 : rows_dropped [i] d d1 → rows_dropped l d1 d2 → rows_dropped (i :: l) d d2.
Proof.
  intros [A1 A2 A3 A4 A5 A6 A7 A8 A9 A10 [A11 A11'] A12 A13 A14] [B1 B2 B3 B4 B5 B6 B7 B8 B9 B10 [B11 B11'] B12 B13 B14].
  split; [rewrite B1, A1; apply without_cons|rewrite B2, A2; apply without_cons|rewrite B3, A3; apply without_cons
    |rewrite B4, A4; apply without_cons|rewrite B5, A5; apply without_cons|rewrite B6, A6; apply without_cons
    |rewrite B7, A7; apply without_cons| |by rewrite B9|by rewrite B10|by rewrite B11, B11'|by rewrite B12|by rewrite B13
    |by rewrite B14, A14, unreferenced_app].
  rewrite B8, A8, (without_swap snd fst l [i]), !without_cons. done.
Qed.

Section erasure.
Context {X : Type} `{SX : Surroundings X} `{EX : ErasureServices X}.
Implicit Types (x : X) (d : db).

Lemma run_tables {A B} (m : io db pyexn A) (f : A → io both pyexn B) x d b s : (on_tables m ≫= f) (x, d) = (Ok b, s) →
  ∃ a d1, m d = (Ok a, d1) ∧ f a (x, d1) = (Ok b, s).
Proof.
  intros (a & s1 & H & Hf)%run_bind. unfold on_tables in H. simpl in H.
  destruct (m d) as [r d1]. injection H as -> <-. eauto.
Qed.

Lemma run_services {B} (f : X → res pyexn X) (k : () → io both pyexn B) x d b s :
  (on_services f ≫= k) (x, d) = (Ok b, s) → ∃ x1, f x = Ok x1 ∧ k () (x1, d) = (Ok b, s).
Proof.
  intros (a & s1 & H & Hf)%run_bind. unfold on_services in H. simpl in H.
  destruct (f x) as [x1|]; [|done]. injection H as <- <-. eauto.
Qed.

(** The notice of an erasure gives out no reference. *)
Lemma stage_drops x c i sc rev d d' : _stage_change x c i sc rev "erase" d = (Ok (), d') → rows_dropped [] d d'.
Proof.
  intros H. assert (∃ o, d' = set_change_outbox o d) as [o ->].
  { revert H. unfold _stage_change. destruct (negb (streaming x) && negb (_delegated x)).
    { intros [= <-]. exists (change_outbox d). by destruct d. }
    intros H. run H as [] d1 H1. injection H1 as <-. destruct (streaming x); [|injection H as <-; exists (change_outbox d); by destruct d].
    unfold when in H. at_state H. apply run_check in H as [_ H]. step H as names Hn. step H as w Hw. injection H as <-. by eexists. }
  split; simpl; by rewrite ?without_nil, ?unreferenced_nil.
Qed.

Lemma drop_rows_dropped i d : rows_dropped [i] d (drop_rows i d).
Proof.
  split; try (by unfold drop_rows; cbn; rewrite <- ?without_one).
  - unfold drop_rows. cbn. rewrite <- !without_one, filter_twice. apply filter_ext. intros p. apply andb_comm.
  - apply unreferenced_one.
Qed.

Lemma erase_record_drops i x d x' d' : erase_record i (x, d) = (Ok (), (x', d')) → rows_dropped [i] d d'.
Proof.
  unfold erase_record. intros H. at_state H. cbn [fst snd] in H.
  assert (∃ x1 d1, rows_dropped [] d d1 ∧ on_tables (modify (drop_rows i)) (x1, d1) = (Ok (), (x', d'))) as (x1 & d1 & H1 & H2).
  { run H as [] s1 H1. destruct s1 as [x1 d1]. exists x1, d1. split; [|exact H].
    destruct (find_record d i); [|injection H1 as <- <-; apply rows_dropped_nil].
    apply run_tables in H1 as ([] & d2 & Hst & H1). apply stage_drops in Hst.
    enough (d1 = d2) as -> by done. unfold when in H1. destruct (_delegated x); [|by injection H1 as _ <-].
    unfold on_services in H1. simpl in H1. destruct (record_forgetting _ _); by injection H1. }
  injection H2 as _ <-. destruct (drop_rows_dropped i d1) as [B1 B2 B3 B4 B5 B6 B7 B8 B9 B10 [B11 B11'] B12 B13 B14].
  destruct H1 as [A1 A2 A3 A4 A5 A6 A7 A8 A9 A10 [A11 A11'] A12 A13 A14]. simpl in A14. rewrite !without_nil, !unreferenced_nil in *.
  split; try congruence. split; congruence.
Qed.

Lemma erase_records_drop l x d x' d' : foreach erase_record l (x, d) = (Ok (), (x', d')) → rows_dropped l d d'.
Proof.
  revert x d. induction l as [|i l IH]; intros x d; cbn [foreach]; [intros [= <- <-]; apply rows_dropped_nil|].
  intros H. run H as [] s1 H1. destruct s1 as [x1 d1]. apply erase_record_drops in H1. apply IH in H.
  by eapply rows_dropped_cons.
Qed.

(** Only captures and their references differ. *)
Definition uncaptured (caps : list (string * Scope)) (c : capture_row) : bool :=
  negb (bool_decide ((c_id c, c_scope c) ∈ caps)).

Record captures_dropped (caps : list (string * Scope)) d d' : Prop := {
  cd_rows : rows_dropped [] d (set_captures (captures d) (set_resource_refs (resource_refs d) d'));
  cd_captures : captures d' = List.filter (uncaptured caps) (captures d);
  cd_refs : resource_refs d' = unreferenced (map (λ c, (c.1, true)) caps) (resource_refs d);
}.

Lemma erase_capture_drops c x d x' d' : erase_capture c (x, d) = (Ok (), (x', d')) → captures_dropped [c] d d'.
Proof.
  unfold erase_capture. intros H. at_state H. cbn [fst snd] in H. run H as [] s1 H1. destruct s1 as [x1 d1].
  assert (rows_dropped [] d d1) as Hrows.
  { unfold when in H1. destruct (match find_capture d c.1 with Some _ => _ | None => _ end);
      [|injection H1 as _ <-; apply rows_dropped_nil].
    apply run_tables in H1 as ([] & d2 & Hst & H1). apply stage_drops in Hst.
    enough (d1 = d2) as -> by done. destruct (_delegated x); [|by injection H1 as _ <-].
    unfold on_services in H1. simpl in H1. destruct (record_forgetting _ _); by injection H1. }
  injection H as _ <-. destruct Hrows as [A1 A2 A3 A4 A5 A6 A7 A8 A9 A10 A11 A12 A13 A14]. simpl in A14. rewrite unreferenced_nil in A14.
  split; [split; try done; cbn; by rewrite unreferenced_nil| |cbn; rewrite A14; apply unreferenced_one].
  cbn. rewrite A9. apply filter_ext. intros row. unfold uncaptured. f_equal. destruct c as [i sc]. simpl.
  destruct (String.eqb_spec (c_id row) i) as [->|Hne]; cbn [andb].
  - apply bool_decide_ext. rewrite list_elem_of_singleton. split; [by intros ->|by intros [= ->]].
  - symmetry. apply bool_decide_eq_false. rewrite list_elem_of_singleton. congruence.
Qed.

Lemma erase_captures_drop caps x d x' d' : foreach erase_capture caps (x, d) = (Ok (), (x', d')) →
  captures_dropped caps d d'.
Proof.
  revert x d. induction caps as [|c caps IH]; intros x d; cbn [foreach].
  - intros [= <- <-]. split; [by destruct d; apply rows_dropped_nil| |by rewrite unreferenced_nil]. unfold uncaptured.
    induction (captures d) as [|row t IHt]; [done|]. cbn [List.filter]. rewrite bool_decide_eq_false_2 by apply not_elem_of_nil. cbn [negb]. by f_equal.
  - intros H. run H as [] s1 H1. destruct s1 as [x1 d1]. apply erase_capture_drops in H1 as [Hr1 Hc1 Hf1].
    apply IH in H as [Hr2 Hc2 Hf2]. split; [| |by rewrite Hf2, Hf1, unreferenced_app].
    + destruct Hr1 as [A1 A2 A3 A4 A5 A6 A7 A8 A9 A10 A11 A12 A13 _], Hr2 as [B1 B2 B3 B4 B5 B6 B7 B8 B9 B10 B11 B12 B13 _].
      cbn in *. rewrite !without_nil in *. split; cbn; rewrite ?without_nil, ?unreferenced_nil; try congruence.
      destruct A11, B11. split; congruence.
    + rewrite Hc2, Hc1, filter_twice. apply filter_ext. intros row. unfold uncaptured.
      rewrite (bool_decide_ext ((c_id row, c_scope row) ∈ c :: caps) ((c_id row, c_scope row) ∈ [c] ∨ (c_id row, c_scope row) ∈ caps))
        by (rewrite elem_of_cons, list_elem_of_singleton; done).
      rewrite bool_decide_or. by rewrite negb_orb.
Qed.

(** The tables a completed erasure leaves. *)
Record erased d (deleted : list string) (caps : list (string * Scope)) (a : audit) (d' : db) : Prop := {
  ed_events : record_events d' = without (λ e, e.1.1) deleted (record_events d);
  ed_records : records d' = without fst deleted (records d);
  ed_fts : record_fts d' = without fst deleted (record_fts d);
  ed_vectors : vectors d' = without (λ r, r.1.1.1) deleted (vectors d);
  ed_injected : injected d' = without snd deleted (injected d);
  ed_decisions : decisions d' = without snd deleted (decisions d);
  ed_studies : studies d' = without fst deleted (studies d);
  ed_links : links d' = without fst deleted (without snd deleted (links d));
  ed_captures : captures d' = List.filter (uncaptured caps) (captures d);
  ed_sequence : last_sequence d' = last_sequence d;
  ed_cursors : cursors d' = cursors d ∧ scoped_cursors d' = scoped_cursors d;
  ed_deliveries : deliveries d' = List.filter (λ row, negb (delivers deleted row.2)) (deliveries d);
  ed_erasures : erasures d' = erasures d ++ [a];
  ed_refs : resource_refs d' = unreferenced (map (λ c, (c.1, true)) caps ++ map (λ i, (i, false)) deleted) (resource_refs d);
}.

Lemma forget_body_inv now i reason v g sc exact cascaded x d o x' d' :
  forget_body now i reason v g sc exact cascaded (x, d) = (Ok o, (x', d')) →
  o = Unverified ∧ d' = d ∧ cascaded = true ∧ capability x = true ∨
  ∃ deleted caps a, o = Erased a ∧ a_deleted a = sort_strings deleted ∧ a_at a = now ∧
    cascade d i = Ok (deleted, caps) ∧ check_captures x d sc exact cascaded caps = Ok () ∧
    (cascaded = false → capability x = true ∨ is_Some sc → _authorize_forget x d i sc exact = Ok ()) ∧
    check_expected d i v g = Ok () ∧ erased d deleted caps a d'.
Proof.
  unfold forget_body. intros H. at_state H. cbv beta iota in H. step H as [] Hauth.
  destruct (cascaded && capability x && _) eqn:Ec.
  { injection H as <- _ <-. left. apply andb_true_iff in Ec as [[-> ->]%andb_true_iff _]. done. }
  right. step H as [] Hexp. step H as [deleted caps] Hcas. step H as [] Hcap. apply run_services in H as (x1 & _ & H).
  run H as [] s2 H2. destruct s2 as [x2 d2]. apply erase_captures_drop in H2 as [Hr2 Hc2 Hf2].
  apply run_tables in H as ([] & d3 & [= <-] & H). run H as [] s4 H4. destruct s4 as [x4 d4].
  apply erase_records_drop in H4. step H as clean _. cbv zeta in H. apply run_tables in H as ([] & d5 & [= <-] & [= <- _ <-]).
  exists deleted, caps, (Audit now (sort_strings deleted) clean). split_and!; try done.
  - intros -> Hc. destruct (capability x || bool_decide (is_Some sc)) eqn:Eb; [done|]. apply orb_false_iff in Eb as [E1 Eb].
    apply bool_decide_eq_false in Eb. destruct Hc; [congruence|done].
  - destruct Hr2 as [A1 A2 A3 A4 A5 A6 A7 A8 A9 A10 A11 A12 A13 _], H4 as [B1 B2 B3 B4 B5 B6 B7 B8 B9 B10 B11 B12 B13 B14].
    cbn in *. rewrite !without_nil in *. split; cbn.
    all: try (rewrite ?B1, ?B2, ?B3, ?B4, ?B5, ?B6, ?B7, ?B8, ?B9, ?B10, ?B12, ?B13; congruence).
    2: { rewrite B14. simpl. by rewrite Hf2, unreferenced_app. }
    destruct A11 as [E1 E2], B11 as [E3 E4]. split; congruence.
Qed.
End erasure.

(** ** The cascade *)

(** [r] cites the capture [s] of its own scope. *)
Definition cites d (r : MemoryRecord) (s : string) : Prop :=
  (s ∈ relation "caused_by" r ∨ ∃ l, source_messages (payload r) = Ok l ∧ s ∈ l) ∧
  ∃ c, find_capture d s = Some c ∧ c_scope c = scope r.

(** What the erasure of [a] erases with it. *)
Inductive drags d (a : string) : string → Prop :=
  | drags_derived b : (a, b) ∈ links d → drags d a b
  | drags_sibling r s b : r ∈ chain d a → cites d r s → b ∈ distilled_from d s (scope r) → drags d a b.

(** The captures that go with a record. *)
Definition drags_capture d (a : string) (c : string * Scope) : Prop :=
  ∃ r, r ∈ chain d a ∧ c.2 = scope r ∧ (c.1 = a ∨ cites d r c.1).

Lemma cited_inv d r l caps : cited d r = Ok (l, caps) →
  (∀ b, b ∈ l ↔ ∃ s, cites d r s ∧ b ∈ distilled_from d s (scope r)) ∧
  (∀ c, c ∈ caps ↔ c.2 = scope r ∧ cites d r c.1).
Proof.
  unfold cited. intros H. bind H as src Hsrc. cbv zeta in H. injection H as <- <-.
  match goal with |- context [flat_map _ ?k] => set (ids := k) end.
  assert (Hids : ∀ s, s ∈ ids ↔ cites d r s).
  { intros s. unfold ids. rewrite list_elem_of_In, filter_In, <- list_elem_of_In, elem_unique_keys, elem_of_app. unfold cites.
    destruct (find_capture d s) as [c|]; [|split; [by intros [_ [=]]|by intros [_ (c & [=] & _)]]].
    rewrite bool_decide_eq_true. split.
    - intros [Hs Hc]. split; [|by exists c]. destruct Hs; [right; by exists src|by left].
    - intros [Hs (c' & [= <-] & Hc)]. split; [|done]. destruct Hs as [?|(l & Hl & ?)]; [by right|left].
      rewrite Hsrc in Hl. by injection Hl as ->. }
  split.
  - intros b. rewrite list_elem_of_In, in_flat_map. split.
    + intros (s & Hs & Hb). exists s. split; [apply Hids; by apply list_elem_of_In|by apply list_elem_of_In].
    + intros (s & Hs & Hb). exists s. split; apply list_elem_of_In; [by apply Hids|done].
  - intros [s sc]. rewrite list_elem_of_fmap. simpl. split.
    + intros (s' & [= -> ->] & Hs). split; [done|by apply Hids].
    + intros [-> Hs]. exists s. split; [done|by apply Hids].
Qed.

Lemma elem_zip_with {A B C} (f : A → B → C) l k c : c ∈ zip_with f l k ↔ ∃ a b, (a, b) ∈ zip l k ∧ c = f a b.
Proof.
  revert k. induction l as [|a l IH]; intros [|b k]; simpl; try (rewrite elem_of_nil; naive_solver).
  - split; [by intros ?%elem_of_nil|]. by intros (? & ? & ?%elem_of_nil & _).
  - split; [by intros ?%elem_of_nil|]. by intros (? & ? & ?%elem_of_nil & _).
  - split; [by intros ?%elem_of_nil|]. by intros (? & ? & ?%elem_of_nil & _).
  - rewrite elem_of_cons, IH. split.
    + intros [->|(a' & b' & Hin & ->)]; [exists a, b|exists a', b']; (split; [|done]); [by left|by right].
    + intros (a' & b' & [[= -> ->]|Hin]%elem_of_cons & ->); [by left|right; by exists a', b'].
Qed.

Lemma visit_record_inv d a next found : wf d → visit_record d a = Ok (next, found) →
  (∀ b, b ∈ next ↔ drags d a b) ∧ (∀ c, c ∈ found ↔ drags_capture d a c).
Proof.
  intros Hwf H. unfold visit_record in H. bind H as rows Hrows. bind H as l Hl. injection H as <- <-.
  assert (rows = chain d a) as ->.
  { fold (chain d a) in Hrows. assert (Hid : ∀ k k', Forall2 (λ r r', make r = Ok r') k k' → k' = k).
    { induction 1 as [|r r' k k' Hm _ IH]; [done|]. unfold make in Hm. bind Hm as [] _. injection Hm as <-. by f_equal. }
    by apply Hid, mapR_Ok_Forall2. }
  apply mapR_Ok_Forall2 in Hl.
  assert (Hlk : ∀ r, r ∈ chain d a → ∃ f, f ∈ l ∧ cited d r = Ok f ∧ (r, f) ∈ zip (chain d a) l).
  { clear -Hl. induction Hl as [|r f k k' Hf _ IH]; intros r0; [by intros ?%elem_of_nil|].
    intros [->|Hin]%elem_of_cons; [exists f; split_and!; [by left|done|by left]|].
    destruct (IH _ Hin) as (f' & ? & ? & ?). exists f'. split_and!; [by right|done|by right]. }
  assert (Hkl : ∀ r f, (r, f) ∈ zip (chain d a) l → r ∈ chain d a ∧ cited d r = Ok f).
  { clear -Hl. induction Hl as [|r f k k' Hf _ IH]; intros r0 f0; simpl; [by intros ?%elem_of_nil|].
    intros [[= -> ->]|Hin]%elem_of_cons; [split; [by left|done]|]. destruct (IH _ _ Hin). split; [by right|done]. }
  assert (Hfst : ∀ f, f ∈ l → ∃ r, (r, f) ∈ zip (chain d a) l).
  { clear -Hl. induction Hl as [|r f k k' Hf _ IH]; intros f0; [by intros ?%elem_of_nil|].
    intros [->|Hin]%elem_of_cons; [exists r; by left|]. destruct (IH _ Hin) as [r' ?]. exists r'. by right. }
  split.
  - intros b. rewrite elem_of_app. split.
    + intros [Hb|Hb]; [constructor 1; by apply (elem_derived_of d (a, b))|].
      apply list_elem_of_In, in_concat in Hb as (k & Hk & Hb). apply list_elem_of_In, list_elem_of_fmap in Hk as ([l1 c1] & -> & Hk).
      destruct (Hfst _ Hk) as [r Hr]. destruct (Hkl _ _ Hr) as [Hin Hc]. apply cited_inv in Hc as [Hc _].
      apply list_elem_of_In in Hb. rewrite Hc in Hb. destruct Hb as (s & Hs & Hd). by econstructor 2.
    + intros [b' Hl'|r s b' Hr Hs Hd]; [left; by apply (elem_derived_of d (a, b'))|right].
      destruct (Hlk r Hr) as ([l1 c1] & Hk & Hc & _). apply cited_inv in Hc as [Hc _].
      apply list_elem_of_In, in_concat. exists l1. split; apply list_elem_of_In; [|apply Hc; by exists s].
      apply list_elem_of_fmap. by exists (l1, c1).
  - intros c. rewrite list_elem_of_In, in_concat. split.
    + intros (k & Hk & Hc). apply list_elem_of_In, elem_zip_with in Hk as (r & [l1 c1] & Hz & ->).
      destruct (Hkl _ _ Hz) as [Hr Hcited]. apply list_elem_of_In, elem_of_cons in Hc as [->|Hc].
      * exists r. split_and!; [done|done|by left].
      * apply cited_inv in Hcited as [_ Hcap]. apply Hcap in Hc as [E Hc]. exists r. split_and!; [done|done|by right].
    + intros (r & Hr & E & Hc). destruct (Hlk r Hr) as ([l1 c1] & _ & Hcited & Hz).
      exists ((a, scope r) :: c1). split; apply list_elem_of_In.
      * apply elem_zip_with. by exists r, (l1, c1).
      * destruct c as [s sc]. simpl in *. subst sc. destruct Hc as [->|Hc]; [by left|right].
        apply cited_inv in Hcited as [_ Hcap]. by apply Hcap.
Qed.

Lemma cascade_inv d i deleted caps : wf d → cascade d i = Ok (deleted, caps) →
  (∀ a, a ∈ deleted ↔ rtc (drags d) i a) ∧
  (∀ c, c ∈ caps ↔ (∃ a, rtc (drags d) i a ∧ drags_capture d a c) ∨
                   ∃ row, find_capture d i = Some row ∧ c = (i, c_scope row)).
Proof.
  intros Hwf H. unfold cascade in H. bind H as [seen found] Hd. apply (dfs_spec _ i) in Hd; [|apply searched_start].
  destruct Hd as [H1 _ H3 H4 H5]. setoid_rewrite app_nil_r in H1. setoid_rewrite app_nil_r in H3. setoid_rewrite app_nil_r in H5.
  assert (Hseen : ∀ a, a ∈ seen ↔ rtc (drags d) i a).
  { intros a. split.
    - intros Ha. specialize (H5 a Ha). clear -Hwf H5. induction H5 as [a|a b c (next & f & Hv & Hb) _ IH]; [constructor|].
      econstructor; [|exact IH]. by apply (visit_record_inv d a next f Hwf Hv).
    - intros Ha. revert H1. clear -H3 Hwf Ha. induction Ha as [a|a b c Hab _ IH]; intros Hin; [done|]. apply IH.
      destruct (H3 a Hin) as (next & f & Hv & Hn & _). apply Hn. by apply (visit_record_inv d a next f Hwf Hv). }
  assert (Hfound : ∀ c, c ∈ found ↔ ∃ a, rtc (drags d) i a ∧ drags_capture d a c).
  { intros c. split.
    - intros Hc. destruct (H4 c Hc) as (a & next & f & Ha & Hv & Hin). exists a. split; [by apply Hseen|].
      by apply (visit_record_inv d a next f Hwf Hv).
    - intros (a & Ha & Hc). apply Hseen in Ha. destruct (H3 a Ha) as (next & f & Hv & _ & Hf). apply Hf.
      by apply (visit_record_inv d a next f Hwf Hv). }
  destruct (find_capture d i) as [row|] eqn:Ec; injection H as <- <-; (split; [exact Hseen|]); intros c.
  - rewrite elem_of_cons, Hfound. split; [intros [->|?]; [right; by exists row|by left]|].
    intros [?|(row' & [= <-] & ->)]; [by right|by left].
  - rewrite Hfound. split; [by left|]. by intros [?|(? & [=] & _)].
Qed.

(** ** Well-formed tables after an erasure *)

Lemma chain_erased d deleted caps a d' i : erased d deleted caps a d' →
  chain d' i = if decide (i ∈ deleted) then [] else chain d i.
Proof.
  intros He. unfold chain. rewrite (ed_events _ _ _ _ _ He). unfold without. rewrite filter_twice.
  destruct (decide (i ∈ deleted)) as [Hi|Hi].
  - rewrite filter_none; [done|]. apply Forall_forall. intros e _. destruct (String.eqb_spec e.1.1 i) as [->|]; [|by rewrite andb_false_r].
    apply mem_elem in Hi. by rewrite Hi.
  - f_equal. apply filter_ext. intros e. destruct (String.eqb_spec e.1.1 i) as [->|]; [|by rewrite andb_false_r].
    rewrite andb_true_r. rewrite <- mem_elem in Hi. by destruct (mem i deleted).
Qed.

Lemma assoc_without {A} (l : list (string * A)) deleted i :
  assoc i (without fst deleted l) = if decide (i ∈ deleted) then None else assoc i l.
Proof.
  unfold without. induction l as [|[k v] l IH]; simpl; [by destruct (decide _)|].
  destruct (mem k deleted) eqn:Ek; cbn [negb]; [|cbn [assoc]]; rewrite IH; destruct (String.eqb_spec i k) as [->|]; try done.
  - apply mem_elem in Ek. by rewrite !decide_True by done.
  - rewrite decide_False; [done|]. by rewrite <- mem_elem, Ek.
Qed.

Lemma find_erased d deleted caps a d' i : erased d deleted caps a d' →
  find_record d' i = if decide (i ∈ deleted) then None else find_record d i.
Proof. intros He. unfold find_record. rewrite (ed_records _ _ _ _ _ He). apply assoc_without. Qed.

Lemma capture_erased d deleted caps a d' i : NoDup (map c_id (captures d)) → erased d deleted caps a d' →
  find_capture d' i = match find_capture d i with
                      | Some c => if decide ((i, c_scope c) ∈ caps) then None else Some c
                      | None => None
                      end.
Proof.
  intros Hnd He. unfold find_capture. rewrite (ed_captures _ _ _ _ _ He). revert Hnd. generalize (captures d).
  induction l as [|c l IH]; intros Hnd; [done|]. cbn [map] in Hnd. apply NoDup_cons in Hnd as [Hc Hnd]. cbn [List.filter].
  cbn [List.find]. destruct (String.eqb_spec (c_id c) i) as [<-|Hne].
  - unfold uncaptured at 1. case_bool_decide as Hin; cbn [negb].
    + rewrite decide_True by done. rewrite IH by done.
      destruct (List.find (λ c0, String.eqb (c_id c0) (c_id c)) l) as [c1|] eqn:E; [|done].
      apply find_some in E as [Hl He1%String.eqb_eq]. destruct Hc. apply list_elem_of_fmap. exists c1.
      split; [done|by apply list_elem_of_In].
    + rewrite decide_False by done. cbn [List.find]. by rewrite String.eqb_refl.
  - destruct (uncaptured caps c); [|by apply IH]. cbn [List.find].
    rewrite (proj2 (String.eqb_neq _ _) Hne). by apply IH.
Qed.

Lemma sorted_map_filter {A} (f : A → Z) (p : A → bool) l :
  StronglySorted Z.lt (map f l) → StronglySorted Z.lt (map f (List.filter p l)).
Proof.
  induction l as [|a l IH]; simpl; [done|]. intros H. apply StronglySorted_inv in H as [Hs Ha]. destruct (p a); [|auto]. simpl.
  constructor; [auto|]. rewrite Forall_forall in Ha |- *. intros b Hb. apply Ha.
  apply list_elem_of_fmap in Hb as (c & -> & Hc). apply list_elem_of_fmap. exists c. split; [done|].
  apply list_elem_of_In. apply list_elem_of_In, filter_In in Hc. tauto.
Qed.

Lemma elem_links_erased d deleted caps a d' s t : erased d deleted caps a d' →
  (s, t) ∈ links d' ↔ (s, t) ∈ links d ∧ (s ∉ deleted) ∧ (t ∉ deleted).
Proof. intros He. rewrite (ed_links _ _ _ _ _ He), !elem_without. simpl. tauto. Qed.

Lemma erased_wf d deleted caps a d' : wf d → (∀ s t, (s, t) ∈ links d → s ∈ deleted → t ∈ deleted) →
  erased d deleted caps a d' → wf d'.
Proof.
  intros Hwf Hclosed He.
  assert (Hcap : ∀ i c, find_capture d' i = Some c → find_capture d i = Some c).
  { intros i c. rewrite (capture_erased _ _ _ _ _ i (wf_captures d Hwf) He). destruct (find_capture d i); [|done].
    destruct (decide _); [done|]. auto. }
  assert (Hrec : ∀ i r, find_record d' i = Some r → (i ∉ deleted) ∧ find_record d i = Some r).
  { intros i r. rewrite (find_erased _ _ _ _ _ i He). destruct (decide (i ∈ deleted)); [done|auto]. }
  split.
  - intros i v r. rewrite (ed_events _ _ _ _ _ He), elem_without. intros [Hin _]. by apply (wf_events d Hwf).
  - intros i. rewrite (chain_erased _ _ _ _ _ i He). destruct (decide _); [done|apply (wf_versions d Hwf)].
  - intros i. rewrite (chain_erased _ _ _ _ _ i He), (find_erased _ _ _ _ _ i He).
    destruct (decide _); [done|apply (wf_current d Hwf)].
  - intros i r r' Hr [Hi Hr']%Hrec. rewrite (chain_erased _ _ _ _ _ i He), decide_False in Hr by done.
    by apply (wf_identity d Hwf i).
  - rewrite (ed_records _ _ _ _ _ He). apply (NoDup_map_filter fst), (wf_keys d Hwf).
  - intros s t (Hl & Hs & Ht)%(elem_links_erased _ _ _ _ _ _ _ He).
    destruct (wf_links d Hwf _ _ Hl) as (r & Hr & H1 & H2). exists r.
    rewrite (find_erased _ _ _ _ _ t He), decide_False by done. split; [done|]. split.
    + intros r' [_ Hr']%Hrec. auto.
    + intros c Hc%Hcap. auto.
  - intros i r s Hr Hs. rewrite (chain_erased _ _ _ _ _ i He) in Hr. destruct (decide (i ∈ deleted)) as [|Hi]; [by apply elem_of_nil in Hr|].
    pose proof (wf_cited d Hwf i r s Hr Hs) as Hl. apply (elem_links_erased _ _ _ _ _ _ _ He). split_and!; [done| |done].
    intros Hd. apply Hi. by apply (Hclosed s i).
  - intros i r c [_ Hr]%Hrec Hc%Hcap. by apply (wf_shadow d Hwf i).
  - rewrite (ed_captures _ _ _ _ _ He). apply NoDup_map_filter, (wf_captures d Hwf).
  - destruct (wf_sequences d Hwf) as (H1 & H2 & H3). rewrite (ed_captures _ _ _ _ _ He), (ed_sequence _ _ _ _ _ He).
    split_and!; [by apply sorted_map_filter| |done]. rewrite Forall_forall in H2 |- *. intros c Hc. apply H2.
    apply list_elem_of_In. apply list_elem_of_In, filter_In in Hc. tauto.
Qed.

(** ** The search ends *)

Definition citations_ok d : Prop := ∀ i v r, ((i, v), r) ∈ record_events d → is_ok (source_messages (payload r)) = true.

Lemma visit_record_returns d a : wf d → citations_ok d → ∃ next found, visit_record d a = Ok (next, found).
Proof.
  intros Hwf Hc. unfold visit_record. fold (chain d a).
  assert (mapR make (chain d a) = Ok (chain d a)) as ->.
  { apply mapR_Ok_Forall2, Forall_Forall2_diag, Forall_forall. intros r Hr.
    destruct (chain_valid d a r Hwf Hr) as [_ Hv]. unfold make. by rewrite Hv. }
  cbn [mbind res_bind].
  assert (∃ l, mapR (cited d) (chain d a) = Ok l) as [l ->]; [|by eexists _, _].
  assert (Hall : ∀ r, r ∈ chain d a → is_ok (source_messages (payload r)) = true).
  { intros r [v Hr]%elem_chain. by eapply Hc. }
  revert Hall. generalize (chain d a). intros k. induction k as [|r k IH]; intros Hall; [by eexists|]. cbn [mapR].
  assert (∃ f, cited d r = Ok f) as [f ->].
  { unfold cited. rewrite (is_ok_or [] (source_messages (payload r))) by (apply Hall; by left). by eexists. }
  cbn [mbind res_bind]. destruct IH as [l ->]; [intros r' Hr'; apply Hall; by right|]. by eexists.
Qed.

Lemma distilled_linked d s sc b : b ∈ distilled_from d s sc → (s, b) ∈ links d.
Proof.
  unfold distilled_from. intros Hb. apply list_elem_of_In, filter_In in Hb as [Hb _].
  apply (elem_derived_of d (s, b)). by apply list_elem_of_In.
Qed.

Lemma drags_linked d a b : drags d a b → b ∈ (links d).*2.
Proof.
  intros [b' Hl|r s b' _ _ Hl%distilled_linked]; apply list_elem_of_fmap; eexists; (split; [|exact Hl]); done.
Qed.

(** The fuel of [cascade] is enough. *)
Lemma cascade_returns d i : wf d → citations_ok d → ∃ deleted caps, cascade d i = Ok (deleted, caps).
Proof.
  intros Hwf Hc. unfold cascade.
  destruct (dfs_returns (visit_record d) (mentioned d i)) with (fuel := cascade_fuel d i) (pending := [i]) (seen := @nil string)
    (out := @nil (string * Scope)) as [[seen found] ->].
  - intros a _. destruct (visit_record_returns d a Hwf Hc) as (next & found & Hv). exists next, found. split; [done|].
    intros b Hb. right. apply (visit_record_inv d a next found Hwf Hv) in Hb. by eapply drags_linked.
  - intros a ->%list_elem_of_singleton. by left.
  - unfold cascade_fuel, todo. simpl.
    assert (∀ l : list string, filter (λ a, a ∉ []) l = l) as ->; [|done].
    induction l as [|a l IH]; [done|]. rewrite filter_cons, decide_True by apply not_elem_of_nil. by f_equal.
  - cbn [mbind res_bind]. by eexists _, _.
Qed.

(** ** Scopes as texts *)

Lemma get_agent s : jget "agent" (scope_json s) = JStr <$> s_agent s.
Proof. by destruct s as [[] [] [] [] [] []]. Qed.
Lemma get_labels s : jget "labels" (scope_json s) = (λ l, JList (map JStr l)) <$> s_labels s.
Proof. by destruct s as [[] [] [] [] [] []]. Qed.
Lemma get_repo s : jget "repo" (scope_json s) = JStr <$> s_repo s.
Proof. by destruct s as [[] [] [] [] [] []]. Qed.
Lemma get_session s : jget "session" (scope_json s) = JStr <$> s_session s.
Proof. by destruct s as [[] [] [] [] [] []]. Qed.
Lemma get_tenant s : jget "tenant" (scope_json s) = JStr <$> s_tenant s.
Proof. by destruct s as [[] [] [] [] [] []]. Qed.
Lemma get_user s : jget "user" (scope_json s) = JStr <$> s_user s.
Proof. by destruct s as [[] [] [] [] [] []]. Qed.

Lemma scope_json_inj s t : scope_json s = scope_json t → s = t.
Proof.
  intros H. pose proof (get_agent s) as H1. pose proof (get_labels s) as H2. pose proof (get_repo s) as H3.
  pose proof (get_session s) as H4. pose proof (get_tenant s) as H5. pose proof (get_user s) as H6. rewrite H in *.
  rewrite get_agent in H1. rewrite get_labels in H2. rewrite get_repo in H3. rewrite get_session in H4.
  rewrite get_tenant in H5. rewrite get_user in H6.
  assert (Hstr : ∀ a b : option string, JStr <$> a = JStr <$> b → a = b) by (intros [] [] [=]; congruence).
  apply Hstr in H1, H3, H4, H5, H6. assert (s_labels s = s_labels t).
  { destruct (s_labels s) as [l|], (s_labels t) as [k|]; try done. injection H2 as H2. f_equal.
    revert k H2. induction l as [|a l IH]; intros [|b k]; try done. intros [= -> ?]. f_equal. auto. }
  destruct s, t. simpl in *. congruence.
Qed.

Lemma canonical_scope s : canonical (scope_json s) = scope_json s.
Proof.
  assert (H : ∀ l, canonical (JList (map JStr l)) = JList (map JStr l)) by (intros l; cbn [canonical]; by rewrite canonical_strings).
  destruct s as [[] [] [] [] [] []]; cbn; cbn in H; rewrite ?canonical_strings; try done.
Qed.

(** Escaping leaves a plain text as [ensure_ascii=False] spells it. *)
Lemma quote_plain s : plain s = true → quote_ascii s = quote s.
Proof.
  intros H. unfold quote_ascii, quote. f_equal. f_equal.
  unfold plain in H. induction s as [|c s IH]; [done|]. simpl in H. apply andb_true_iff in H as [Hc Hs].
  unfold plain_char in Hc. zbool. cbn [str_bytes]. unfold code_points. fold code_points. cbv zeta.
  unfold byte_of in Hc. rewrite (proj2 (Z.ltb_lt _ _)) by lia. cbn [fold_right]. rewrite IH by done. cbn [escape].
  f_equal. unfold escape_code_point. rewrite (proj2 (Z.ltb_lt _ _)) by done. f_equal.
  fold (byte_of c). apply chr_byte_of.
Qed.

Lemma dumps_plain_strings l : forallb plain l = true → map dumps_ascii (map JStr l) = map dumps (map JStr l).
Proof.
  induction l as [|a l IH]; [done|]. simpl. intros [Ha Hl]%andb_true_iff. rewrite IH by done. f_equal.
  by apply quote_plain.
Qed.

Lemma plain_scope_text s : plain_scope s = true → dumps_ascii (scope_json s) = dumps (scope_json s).
Proof.
  intros H. unfold plain_scope in H. rewrite forallb_app in H. apply andb_true_iff in H as [Hd Hl].
  assert (Hlist : ∀ l, forallb plain l = true → dumps_ascii (JList (map JStr l)) = dumps (JList (map JStr l))).
  { intros l E. cbn [dumps_ascii dumps]. by rewrite dumps_plain_strings. }
  assert (Hstr : ∀ a, plain a = true → dumps_ascii (JStr a) = dumps (JStr a)) by (intros a; apply quote_plain).
  assert (Hobj : ∀ kvs, Forall (λ kv, plain kv.1 = true ∧ dumps_ascii kv.2 = dumps kv.2) kvs →
    dumps_ascii (JObj kvs) = dumps (JObj kvs)).
  { intros kvs Hk. cbn [dumps_ascii dumps]. f_equal. f_equal. f_equal.
    assert (map (λ '(k, v), (k, dumps_ascii v)) kvs = map (λ '(k, v), (k, dumps v)) kvs) as ->.
    { clear -Hk. induction Hk as [|[k v] l [_ E] _ IH]; [done|]. simpl in *. by rewrite E, IH. }
    apply map_ext_in. intros kv Hin. f_equal. apply quote_plain. apply list_elem_of_In in Hin.
    rewrite (sort_keys_Permutation _), list_elem_of_fmap in Hin. destruct Hin as ([k v] & -> & Hin).
    rewrite Forall_forall in Hk. apply (Hk _ Hin). }
  apply Hobj. destruct s as [a l r se t u]. simpl in *.
  repeat match goal with |- context [entry _ (_ <$> ?o)] => destruct o; simpl in Hd |- * end;
    repeat (apply andb_true_iff in Hd as [? Hd]); repeat constructor; simpl; auto.
Qed.

Lemma floats_scope s : floats_ok (scope_json s) = true.
Proof.
  assert (H : ∀ l, forallb floats_ok (map JStr l) = true) by (induction l; auto).
  by destruct s as [[] [] [] [] [] []]; simpl; rewrite ?H.
Qed.

(** The comparison of texts, for the scopes [json.dumps] spells as they are. *)
Lemma scope_text_plain r s : plain_scope s = true → scope_text_is r s = true ↔ scope r = s.
Proof.
  intros H. unfold scope_text_is. rewrite plain_scope_text, String.eqb_eq by done. split; [|by intros ->].
  intros E. apply dumps_inj in E; [|apply floats_scope..]. rewrite !canonical_scope in E. by apply scope_json_inj.
Qed.

(** ** What an erasure means to take *)

(** What hangs on the record or capture [a]: what is derived from it, and
    every record of the same scope that is distilled from a capture it cites. *)
Inductive hangs d (a : string) : string → Prop :=
  | hangs_derived b : (a, b) ∈ links d → hangs d a b
  | hangs_sibling r s b r' : r ∈ chain d a → cites d r s → (s, b) ∈ links d →
      find_record d b = Some r' → scope r' = scope r → hangs d a b.

Lemma elem_distilled d s sc b : b ∈ distilled_from d s sc ↔
  (s, b) ∈ links d ∧ ∃ r, find_record d b = Some r ∧ scope_text_is r sc = true.
Proof.
  unfold distilled_from. rewrite list_elem_of_In, filter_In, <- list_elem_of_In. rewrite (elem_derived_of d (s, b)). simpl.
  destruct (find_record d b) as [r|]; naive_solver.
Qed.

Lemma drags_hangs d a b : (∀ r, r ∈ chain d a → plain_scope (scope r) = true) → drags d a b ↔ hangs d a b.
Proof.
  intros Hp. split.
  - intros [b' Hl|r s b' Hr Hs (Hl & r' & Hf & Ht)%elem_distilled]; [by constructor|].
    apply (hangs_sibling d a r s b' r'); try done. apply scope_text_plain; [by apply Hp|done].
  - intros [b' Hl|r s b' r' Hr Hs Hl Hf Hsc]; [by constructor|].
    apply (drags_sibling d a r s b'); [done..|]. apply elem_distilled. split; [done|].
    exists r'. split; [done|]. apply scope_text_plain; [by apply Hp|done].
Qed.

(** The scopes of everything that hangs on [i] are printable ASCII. *)
Definition plain_below d (i : string) : Prop := ∀ a r, rtc (hangs d) i a → r ∈ chain d a → plain_scope (scope r) = true.

(** There the cascade takes what it means to. *)
Lemma cascade_hangs d i b : plain_below d i → rtc (drags d) i b ↔ rtc (hangs d) i b.
Proof.
  intros Hp. split; revert b; apply rtc_ind_r; try done; intros b c H Hbc IH; (eapply rtc_r; [exact IH|]).
  - apply drags_hangs; [intros r; by apply Hp|done].
  - apply drags_hangs; [intros r; by apply Hp|done].
Qed.

(** The captures an erasure takes: the erased one, and those an erased record
    cites in its scope. *)
Definition captured_by d (i : string) (c : capture_row) : Prop :=
  (∃ a, rtc (hangs d) i a ∧ drags_capture d a (c_id c, c_scope c)) ∨ c_id c = i.

Lemma find_capture_unique d c : NoDup (map c_id (captures d)) → c ∈ captures d → find_capture d (c_id c) = Some c.
Proof.
  unfold find_capture. induction (captures d) as [|c' l IH]; intros Hnd Hin; [by apply elem_of_nil in Hin|].
  cbn [map] in Hnd. apply NoDup_cons in Hnd as [Hc Hnd]. cbn [List.find]. apply elem_of_cons in Hin as [->|Hin].
  - by rewrite String.eqb_refl.
  - destruct (String.eqb_spec (c_id c') (c_id c)) as [E|]; [|by apply IH]. destruct Hc. rewrite E.
    apply list_elem_of_fmap. by exists c.
Qed.

(** A record that cites what an erasure takes is taken too. *)
Lemma citing_hangs d i b r s : wf d → r ∈ chain d b → s ∈ edges r →
  rtc (hangs d) i s ∨ (∃ c, c ∈ captures d ∧ c_id c = s ∧ captured_by d i c) → rtc (hangs d) i b.
Proof.
  intros Hw Hr Hs. pose proof (wf_cited d Hw b r s Hr Hs) as Hl. intros [H|(c & Hc & <- & Hcap)].
  { eapply rtc_r; [exact H|by constructor]. }
  destruct (wf_links d Hw _ _ Hl) as (rb & Hb & _ & Hsc). specialize (Hsc c (find_capture_unique d c (wf_captures d Hw) Hc)).
  destruct Hcap as [(a & Ha & ra & Hra & Hscope & Hca)|<-]; [|by apply rtc_once; constructor]. simpl in *.
  eapply rtc_r; [exact Ha|]. destruct Hca as [<-|Hca]; [by constructor|].
  apply (hangs_sibling d a ra (c_id c) b rb); congruence.
Qed.
