(* ===== verification/RecordLife.v ===== *)
(** * The record journal over any run of its operations

    Every operation of the journal as one step, whatever the services answer
    between steps; the invariant of the tables and of the cursors over runs,
    and what a write, an erasure, a seal and a delivery guarantee. *)

From stdpp Require Import relations.
From S2P Require Import Prelude Strings Sha256 Wire Number Moment Unicode Effects Records RecordJournal RecordJournalSpec Grounding RecordErasure RecordErasureSpec.
Local Open Scope Z_scope.

(** ** Computations that keep an invariant, returned or raised *)

Definition preserves {S E A} (I : S → Prop) (m : io S E A) : Prop := ∀ s, I s → I (m s).2.

Section preserves.
Context {S E : Type} (I : S → Prop).

Lemma preserves_ret {A} (a : A) : preserves I (mret a : io S E A).
Proof. by intros s H. Qed.
Lemma preserves_res {A} (r : res E A) : preserves I (of_res r).
Proof. by intros s H. Qed.
Lemma preserves_get : preserves I (get : io S E S).
Proof. by intros s H. Qed.
Lemma preserves_bind {A B} (m : io S E A) (f : A → io S E B) : preserves I m → (∀ a, preserves I (f a)) → preserves I (m ≫= f).
Proof.
  intros Hm Hf s Hs. unfold mbind, io_bind. specialize (Hm s Hs). destruct (m s) as [[a|e] s']; [by apply Hf|done].
Qed.
Lemma preserves_catch {A} (m : io S E A) h : preserves I m → (∀ e k, h e = Some k → preserves I k) → preserves I (catch m h).
Proof.
  intros Hm Hh s Hs. unfold catch. specialize (Hm s Hs). destruct (m s) as [[a|e] s']; [done|].
  destruct (h e) as [k|] eqn:E1; [by apply (Hh e k)|done].
Qed.
Lemma preserves_collect {A B} (f : A → io S E (list B)) l : (∀ a, preserves I (f a)) → preserves I (collect f l).
Proof.
  intros Hf. induction l as [|a l IH]; cbn [collect]; [apply preserves_ret|].
  apply preserves_bind; [apply Hf|]. intros ys. apply preserves_bind; [exact IH|]. intros zs. apply preserves_ret.
Qed.
End preserves.
#[export] Hint Resolve preserves_ret preserves_res preserves_get preserves_bind preserves_catch preserves_collect : unimem.

(** ** Steps *)

Section life.
Context {X : Type} `{SX : Surroundings X} `{EX : ErasureServices X}.
Implicit Types (x : X) (d : db) (s : both (X := X)).

Inductive operation :=
  | Environment (x : X)
  | Put (now : string) (r : MemoryRecord) (expected : option Z)
  | PutMany (now : string) (l : list MemoryRecord)
  | CaptureEvent (uuid session event : string) (body : dict) (sc : Scope) (event_id : option string)
  | Buffer (session : string) (sc : Scope) (limit : Z)
  | Seal (session : string) (through : Z) (sc : option Scope)
  | ClosedBoundary (session : string) (sc : Scope)
  | ClaimInjections (session : string) (ids : list string)
  | Inherit (session parent : string)
  | OfferDelivery (token session : string) (ids : list string) (assignments : list (string * json)) (sc : Scope)
  | CommitDelivery (token : string) (sc : Scope)
  | AuthorizeEvaluation (now i actor : string) (occasions : Z) (expires : string)
  | CacheVector (i model txt : string) (v : json)
  | Forget (blocked : bool) (now i reason : string) (version_ : option Z) (digest_ : option string) (sc : option Scope)
           (exact cascaded : bool)
  | ReapDue (now : string) (limit : Z).

(** The state after one operation, whether it returned or raised. *)
Definition perform (o : operation) s : both :=
  let on {A} (m : io db pyexn A) := (on_tables m s).2 in
  match o with
  | Environment x => (x, s.2)
  | Put now r e => on (put s.1 now r e)
  | PutMany now l => on (put_many s.1 now l)
  | CaptureEvent uuid session event body sc i => on (capture s.1 uuid session event body sc i)
  | Buffer session sc limit => on (buffer s.1 session sc limit)
  | Seal session through sc => on (seal session through sc)
  | ClosedBoundary session sc => on (closed_boundary session sc)
  | ClaimInjections session ids => on (claim_injections session ids)
  | Inherit session parent => on (inherit session parent)
  | OfferDelivery token session ids a sc => on (offer_delivery token session ids a sc)
  | CommitDelivery token sc => on (commit_delivery token sc)
  | AuthorizeEvaluation now i actor n expires => on (authorize_evaluation s.1 now i actor n expires)
  | CacheVector i model txt v => on (cache_vector i model txt v)
  | Forget blocked now i reason v g sc exact cascaded => (forget blocked now i reason v g sc exact cascaded s).2
  | ReapDue now limit => (reap_due now limit s).2
  end.

Definition run_all (l : list operation) s : both := fold_left (λ s o, perform o s) l s.

(** The tables a store can hold: an empty file and any run from it. *)
Definition reachable d : Prop := ∃ x l, (run_all l (x, empty_db)).2 = d.

(** Well-formed tables whose watermarks are at least those of [d0]. *)
Definition good d0 d : Prop := wf d ∧ cursors_le d0 d.

Lemma good_light d0 d d' : same_tables d d' → cursors_le d d' → good d0 d → good d0 d'.
Proof. intros Hs Hc [Hw Hg]. split; [by eapply same_tables_wf|by eapply cursors_le_trans]. Qed.

(** An operation that fails without a trace keeps what its successes keep. *)
Lemma preserves_atomic {A} (I : db → Prop) (m : io db pyexn A) : atomic m →
  (∀ d a d', I d → m d = (Ok a, d') → I d') → preserves I m.
Proof.
  intros Ha Hok d Hd. destruct (m d) as [[a|e] d'] eqn:E; [by eapply Hok|]. apply Ha in E as ->. done.
Qed.

Lemma written_good d0 x e d r d' : good d0 d → version_written x e d r d' → good d0 d'.
Proof.
  intros [Hw Hc] H. split; [by eapply written_wf|]. destruct H as [_ _ _ _ (? & ? & ? & ? & ->)].
  eapply cursors_le_trans; [exact Hc|]. by apply cursors_le_same.
Qed.

Lemma put_run_good d0 x now r e d r' d' : good d0 d → _put x now r e d = (Ok r', d') → good d0 d'.
Proof.
  intros Hd H. unfold _put in H. run H as r1 d1 H1. apply put_version_inv in H1 as [_ H1].
  apply (written_good d0) in H1; [|done]. run H as [] d2 H2. injection H as <- <-.
  unfold when in H2. case_bool_decide; [|by injection H2 as <-].
  apply refresh_facet_inv in H2 as [->|(o & o' & [_ H2]%put_version_inv)]; [done|]. by eapply written_good.
Qed.

Lemma put_good d0 x now r e : preserves (good d0) (put x now r e).
Proof.
  apply preserves_atomic; [apply put_atomic|]. intros d a d' Hd [(r' & _ & E)|(? & [=] & _)]%transaction_inv.
  by eapply put_run_good.
Qed.

Lemma put_many_good d0 x now l : preserves (good d0) (put_many x now l).
Proof.
  apply preserves_atomic; [apply put_many_atomic|]. intros d a d' Hd H. unfold put_many in H. apply run_check in H as [_ H].
  apply transaction_inv in H as [(r' & _ & E)|(? & [=] & _)].
  eapply collect_inv; [|exact Hd|exact E]. intros r d1 out d2 H1 H2. run H2 as r1 d3 H3.
  injection H2 as <- <-. by eapply put_run_good.
Qed.

Lemma capture_good d0 x uuid session event body sc i : preserves (good d0) (capture x uuid session event body sc i).
Proof.
  apply preserves_atomic; [apply capture_atomic|]. intros d a d' [Hw Hc] E. split.
  - pose proof (capture_wf x uuid session event body sc i d Hw) as H. by rewrite E in H.
  - apply capture_inv in E as [[_ ->]|(_ & _ & _ & _ & ? & ? & ? & ->)]; [done|].
    eapply cursors_le_trans; [exact Hc|]. by apply cursors_le_same.
Qed.

Lemma same_tables_refl d : same_tables d d.
Proof. by split_and!. Qed.

Lemma migrate_good d0 session d : good d0 d → good d0 (migrate_cursor session d).
Proof.
  apply good_light; [|apply migrate_le]. unfold migrate_cursor. destruct (find_row session (cursors d)); [|apply same_tables_refl].
  by destruct (sealed_owner d session z).
Qed.

Lemma through_good d0 session sc : preserves (good d0) (_cursor_through session sc).
Proof. intros d Hd. exact (migrate_good d0 session d Hd). Qed.

Lemma buffer_good d0 x session sc limit : preserves (good d0) (buffer x session sc limit).
Proof.
  unfold buffer. apply preserves_bind; [apply through_good|]. intros through. apply preserves_bind; [apply preserves_get|]. intros d.
  destruct (negb _); [apply preserves_ret|]. destruct (_ || _); [|apply preserves_ret].
  apply preserves_bind; [apply preserves_res|]. intros _. destruct (negb _); [apply preserves_ret|].
  apply preserves_bind; [apply preserves_res|]. intros _. apply preserves_ret.
Qed.

Lemma boundary_good d0 session sc : preserves (good d0) (closed_boundary session sc).
Proof.
  unfold closed_boundary. apply preserves_bind; [apply through_good|]. intros through. eauto with unimem.
Qed.

Lemma seal_good d0 session through sc : preserves (good d0) (seal session through sc).
Proof.
  apply preserves_atomic; [apply atomic_transaction|]. intros d [] d' Hd (Hs & Hc & _)%seal_inv. by eapply good_light.
Qed.

Lemma claim_good d0 session ids : preserves (good d0) (claim_injections session ids).
Proof.
  apply preserves_atomic; [apply atomic_transaction|]. intros d fresh d' Hd (rows & _ & -> & _)%claim_injections_spec.
  eapply good_light; [..|exact Hd]; [done|by apply cursors_le_same].
Qed.

Lemma commit_good d0 token sc : preserves (good d0) (commit_delivery token sc).
Proof.
  apply preserves_atomic; [apply atomic_transaction|]. intros d [ids lines] d' Hd (row & _ & _ & _ & H)%commit_inv.
  destruct (d_committed row); [by destruct H as [_ ->]|]. destruct H as (_ & _ & _ & _ & _ & Hs & Hc).
  eapply good_light; [exact Hs|by apply cursors_le_same|exact Hd].
Qed.

Lemma evaluate_good d0 x now i actor n expires : preserves (good d0) (authorize_evaluation x now i actor n expires).
Proof.
  unfold authorize_evaluation. apply preserves_bind; [apply preserves_get|]. intros d. cbv zeta.
  repeat (apply preserves_bind; [apply preserves_res|intros ?]). intros d' Hd.
  eapply good_light; [..|exact Hd]; [done|by apply cursors_le_same].
Qed.

Lemma offer_good d0 token session ids a sc : preserves (good d0) (offer_delivery token session ids a sc).
Proof.
  unfold offer_delivery. apply preserves_bind; [apply preserves_get|]. intros d.
  apply preserves_bind; [apply preserves_res|]. intros _. apply preserves_bind; [|intros _; apply preserves_ret]. intros d' Hd.
  eapply good_light; [..|exact Hd]; [done|by apply cursors_le_same].
Qed.

(** ** Erasures *)

Lemma forget_state blocked now i reason v g sc exact cascaded x d r x' d' :
  forget blocked now i reason v g sc exact cascaded (x, d) = (r, (x', d')) →
  d' = d ∨ ∃ o x1, forget_body now i reason v g sc exact cascaded (x, d) = (Ok o, (x1, d')).
Proof.
  unfold forget. intros H. apply io_bind_inv in H as [([] & s1 & [_ ->]%of_res_inv & H)|(e & H & _)];
    [|apply of_res_inv in H as [_ [= _ <-]]; by left].
  apply io_bind_inv in H as [(o & [x1 d1] & H1 & H)|(e & H & _)]; unfold forget_transaction in *.
  - destruct (forget_body _ _ _ _ _ _ _ _ (x, d)) as [[o'|e'] [x2 d2]] eqn:E; [|done]. injection H1 as -> -> ->.
    right. exists o, x1. destruct o as [a|]; [|by injection H as _ _ <-]. unfold get, mbind, io_bind in H.
    destruct (require _ _) as [[]|]; by injection H as _ _ <-.
  - destruct (forget_body _ _ _ _ _ _ _ _ (x, d)) as [[o'|e'] [x2 d2]] eqn:E; [done|]. injection H as _ _ <-. by left.
Qed.

Lemma cascade_closed d i deleted caps : wf d → cascade d i = Ok (deleted, caps) →
  ∀ a b, (a, b) ∈ links d → a ∈ deleted → b ∈ deleted.
Proof.
  intros Hw [Hd _]%cascade_inv; [|done]. intros a b Hl. rewrite !Hd. intros Ha. eapply rtc_r; [exact Ha|].
  by constructor 1.
Qed.

Lemma forget_good d0 blocked now i reason v g sc exact cascaded :
  preserves (λ s, good d0 s.2) (forget blocked now i reason v g sc exact cascaded).
Proof.
  intros [x d] Hd. destruct (forget _ _ _ _ _ _ _ _ _ (x, d)) as [r [x' d']] eqn:E. simpl in *.
  apply forget_state in E as [->|(o & x1 & E)]; [done|].
  apply forget_body_inv in E as [(_ & -> & _)|(deleted & caps & a & _ & _ & _ & Hcas & _ & _ & _ & He)]; [done|].
  destruct Hd as [Hw Hc]. split.
  - eapply erased_wf; [exact Hw|by eapply cascade_closed|exact He].
  - eapply cursors_le_trans; [exact Hc|]. apply cursors_le_same. by destruct (ed_cursors _ _ _ _ _ He).
Qed.

Lemma reap_good d0 now limit : preserves (λ s, good d0 s.2) (reap_due now limit).
Proof.
  unfold reap_due. apply preserves_bind; [apply preserves_get|]. intros s. apply preserves_bind; [apply preserves_res|]. intros stamp.
  apply preserves_collect. intros r. unfold reap_one. apply preserves_bind; [apply preserves_res|]. intros r'.
  apply preserves_catch.
  - do 2 (apply preserves_bind; [apply preserves_res|intros ?]). apply preserves_bind; [apply forget_good|]. intros o. apply preserves_ret.
  - intros e k. destruct (decide _); [|done]. intros [= <-]. apply preserves_ret.
Qed.

Lemma preserves_on_tables {A} (I : db → Prop) (m : io db pyexn A) s : preserves I m → I s.2 → I (on_tables m s).2.2.
Proof.
  intros Hm Hs. specialize (Hm _ Hs). unfold on_tables. by destruct (m s.2).
Qed.

Lemma perform_good d0 o s : good d0 s.2 → good d0 (perform o s).2.
Proof.
  intros Hs. destruct o; cbn [perform]; try (apply preserves_on_tables; [|exact Hs]).
  - exact Hs.
  - apply put_good.
  - apply put_many_good.
  - apply capture_good.
  - apply buffer_good.
  - apply seal_good.
  - apply boundary_good.
  - apply claim_good.
  - intros d Hd. eapply good_light; [..|exact Hd]; [done|by apply cursors_le_same].
  - apply offer_good.
  - apply commit_good.
  - apply evaluate_good.
  - intros d Hd. eapply good_light; [..|exact Hd]; [done|by apply cursors_le_same].
  - by apply forget_good.
  - by apply reap_good.
Qed.

Lemma run_good d0 l s : good d0 s.2 → good d0 (run_all l s).2.
Proof. revert s. induction l as [|o l IH]; intros s Hs; [done|]. by apply IH, perform_good. Qed.

Lemma reachable_wf d : reachable d → wf d.
Proof. intros (x & l & <-). apply (run_good empty_db l (x, empty_db)). split; [apply wf_empty|apply cursors_le_refl]. Qed.

(** ** Well-typed tables *)

(** C8: the tables any run of the journal leaves are well typed.  The stored
    versions of every record are valid records numbered 1..n under its id,
    the current row is the last of them, and they share kind and scope; a link
    leads from a record or capture to a current record of the same scope, and
    whatever a stored version cites is linked; a record and a capture that
    share an id share their scope; captures are numbered in order. *)
Theorem journal_tables_typed d : reachable d →
  (∀ i, map version (chain d i) = seqZ 1 (Z.of_nat (length (chain d i))) ∧ find_record d i = last (chain d i) ∧
     (∀ r, r ∈ chain d i → id r = i ∧ validate r = Ok ()) ∧
     (∀ r r', r ∈ chain d i → r' ∈ chain d i → kind r = kind r' ∧ scope r = scope r') ∧
     (∀ r (s : string), r ∈ chain d i → s ∈ edges r → (s, i) ∈ links d)) ∧
  (∀ s t : string, (s, t) ∈ links d → ∃ r, find_record d t = Some r ∧ source_ok d (scope r) s) ∧
  (∀ i r c, find_record d i = Some r → find_capture d i = Some c → c_scope c = scope r) ∧
  StronglySorted Z.lt (map c_sequence (captures d)).
Proof.
  intros Hw%reachable_wf. split_and!; [|apply (wf_links d Hw)|apply (wf_shadow d Hw)|apply (wf_sequences d Hw)].
  intros i. split_and!; [apply (wf_versions d Hw)|apply (wf_current d Hw)| | |].
  - intros r. by apply chain_valid.
  - intros r r' Hr Hr'. destruct (last (chain d i)) as [c|] eqn:El.
    + rewrite <- (wf_current d Hw) in El. destruct (wf_identity d Hw i r c Hr El) as [-> ->].
      destruct (wf_identity d Hw i r' c Hr' El) as [-> ->]. done.
    + apply last_None in El. rewrite El in Hr. by apply elem_of_nil in Hr.
  - intros r s. apply (wf_cited d Hw).
Qed.

(** ** Writes *)

(** What the services keep of a record. *)
Class KindKept : Prop := {
  scrub_kind r r' : scrub r = Ok r' → kind r' = kind r;
  runtime_prepare_kind x r r' : runtime_prepare x r = Ok r' → kind r' = kind r;
}.
Context `{KK : KindKept}.

Lemma make_inv r r' : make r = Ok r' → r' = r.
Proof. unfold make. intros H. bind H as [] _. by injection H. Qed.

Lemma prepare_kind x r r' : prepare x r = Ok r' → kind r' = kind r.
Proof.
  unfold prepare, sanitize_record_content, bind_capture_sources. intros H. bind H as r1 H1. bind H1 as r0 H0.
  apply make_inv in H1 as ->. apply scrub_kind in H0. bind H as r2 H2. bind H2 as src _.
  bind H as r3 H3. bind H as [] _. injection H as <-.
  assert (kind r2 = kind r) as <-.
  { case_bool_decide; [injection H2 as <-; exact H0|]. apply make_inv in H2 as ->. exact H0. }
  destruct (_delegated x); [by eapply runtime_prepare_kind|by injection H3 as <-].
Qed.

Lemma observation_kind ent facet sources p now o : facet_observation ent facet sources p now = Ok o → kind o = observation.
Proof.
  unfold facet_observation. destruct sources as [|r l]; [done|]. destruct (last (r :: l)); [|done].
  intros H. bind H as [] _. bind H as [] _. cbv zeta in H. bind H as [] _. by apply make_inv in H as ->.
Qed.

Lemma written_chain x e d r d' i : version_written x e d r d' →
  chain d' i = chain d i ++ (if decide (i = id r) then [r] else []) ∧
  find_record d' i = if decide (i = id r) then Some r else find_record d i.
Proof.
  intros [_ _ _ _ (fts & o & refs & a & ->)]. split.
  - unfold chain. simpl. rewrite List.filter_app, map_app. f_equal. simpl.
    destruct (decide (i = id r)) as [->|Hne]; [by rewrite String.eqb_refl|].
    by rewrite (proj2 (String.eqb_neq _ _)).
  - unfold find_record. simpl. destruct (decide (i = id r)) as [->|]; [apply assoc_set_same|by apply assoc_set_other].
Qed.

Lemma refresh_other_id x now r d d' : wf d → find_record d (id r) = Some r → kind r = fact →
  _refresh_facet x now r d = (Ok (), d') → chain d' (id r) = chain d (id r) ∧ find_record d' (id r) = Some r.
Proof.
  intros Hw Hr Hk H.
  assert (d' = d ∨ ∃ o o', kind o = observation ∧ put_version x o None d = (Ok o', d')) as [->|(o & o' & Hko & Ho)]; [|done|].
  { revert H. unfold _refresh_facet. destruct (assoc "entity" (payload r)) as [[]|]; try (intros [= <-]; by left).
    destruct (assoc "facet" (payload r)) as [[]|]; try (intros [= <-]; by left).
    destruct (blank s || blank s0); [intros [= <-]; by left|]. intros H. at_state H.
    step H as stamp _. step H as others _. step H as own _. cbv zeta in H.
    case_bool_decide; [injection H as <-; by left|]. step H as o1 Ho1.
    destruct (negb (policy_permits x true (DRecord o1))); [injection H as <-; by left|].
    step H as prior _. step H as o Ho. destruct (_delegated x && _); [injection H as <-; by left|].
    run H as o' d1 H1. injection H as <-. right. exists o, o'. split; [|done].
    destruct prior; [by eapply observation_kind|injection Ho as <-; by eapply observation_kind]. }
  apply put_version_inv in Ho as [Hp%prepare_kind Ho]. pose proof (written_chain _ _ _ _ _ (id r) Ho) as [Hc Hf].
  assert (id r ≠ id o') as Hne.
  { intros E. destruct (admitted x o' None d Hw (vw_admitted _ _ _ _ _ Ho)) as (_ & Hold & _).
    rewrite <- E in Hold. destruct (Hold r Hr) as [Hkk _]. congruence. }
  rewrite decide_False in Hc by done. rewrite decide_False in Hf by done. rewrite app_nil_r in Hc. by rewrite Hc, Hf.
Qed.

(** C9: [put] writes exactly the next version of a record: it is numbered one
    more than what is stored, keeps kind and scope, becomes the current row
    and the last of the history, and every earlier version stays; the caller's
    expected version was the stored one.  A put that raises changes nothing. *)
Theorem put_appends_version x now r expected d : wf d →
  match put x now r expected d with
  | (Ok r', d') => version r' = Z.of_nat (length (chain d (id r'))) + 1 ∧
      chain d' (id r') = chain d (id r') ++ [r'] ∧ find_record d' (id r') = Some r' ∧
      (∀ v, expected = Some v → v = version r' - 1) ∧
      (∀ old, find_record d (id r') = Some old → kind old = kind r' ∧ scope old = scope r')
  | (Err _, d') => d' = d
  end.
Proof.
  intros Hw. destruct (put x now r expected d) as [[r'|e] d'] eqn:E; [|by apply put_atomic in E].
  apply transaction_inv in E as [(r0 & [= <-] & H)|(? & [=] & _)]. unfold _put in H. run H as r1 d1 H1.
  run H as [] d2 H2. injection H as <- <-. apply put_version_inv in H1 as [_ H1].
  pose proof (written_wf _ _ _ _ _ Hw H1) as Hw1. destruct (written_chain _ _ _ _ _ (id r1) H1) as [Hc Hf].
  rewrite decide_True in Hc by done. rewrite decide_True in Hf by done. pose proof (vw_admitted _ _ _ _ _ H1) as Hadm.
  destruct (admitted _ _ _ _ Hw Hadm) as (Hv & Hold & _).
  assert (chain d2 (id r1) = chain d1 (id r1) ∧ find_record d2 (id r1) = Some r1) as [-> ->].
  { unfold when in H2. case_bool_decide; [by eapply refresh_other_id|by injection H2 as <-]. }
  split_and!; [done|done|done| |exact Hold]. intros v ->. unfold admit_version in Hadm. bind Hadm as [] _.
  rewrite load_current in Hadm by done. bind Hadm as old [= <-]. cbv zeta in Hadm.
  bind Hadm as [] Hg%require_Ok. rewrite current_version in Hg by done. apply andb_true_iff in Hg as [Hg%Z.eqb_eq _]. lia.
Qed.

(** ** Erasures *)








(** The records distilled from a cited capture go too, when the text of the
    scope is plain. *)
Lemma erasure_takes_siblings d i r (s : string) b rb : wf d → r ∈ chain d i → cites d r s → find_record d b = Some rb →
  (s, b) ∈ links d → plain_scope (scope r) = true → drags d i b.
Proof.
  intros Hw Hr Hs Hb Hl Hp. econstructor 2; [exact Hr|exact Hs|]. unfold distilled_from.
  apply list_elem_of_In, filter_In. split; [apply list_elem_of_In; by apply (elem_derived_of d (s, b))|].
  rewrite Hb. apply scope_text_plain; [done|]. destruct Hs as [_ (c & Hc & <-)].
  destruct (wf_links d Hw _ _ Hl) as (rb' & Hb' & _ & Hcap). rewrite Hb in Hb'. injection Hb' as <-. symmetry. auto.
Qed.

(** ** Cursors and deliveries *)

(** C10: a sealed capture is never buffered again.  After [seal] of a session
    and scope up to a number, whatever else happens to the store, [buffer]
    returns only captures of that session and scope above the number. *)
Theorem sealed_not_buffered_again session through sc d d1 l x limit rows d2 : wf d →
  seal session through (Some sc) d = (Ok (), d1) →
  let s := run_all l (x, d1) in
  buffer s.1 session sc limit s.2 = (Ok rows, d2) →
  ∀ c, c ∈ rows → through < c_sequence c ∧ c_session c = session ∧ c_scope c = sc.
Proof.
  intros Hw (Hs & _ & Hle)%seal_inv s H c Hin. specialize (Hle sc eq_refl).
  assert (good d1 s.2) as [Hws Hc] by (apply run_good; split; [by eapply same_tables_wf|apply cursors_le_refl]).
  apply buffer_inv in H as [-> Hrows]. apply Hrows, elem_unsealed in Hin as (Hin & H1 & H2 & H3).
  assert (good d1 (migrate_cursor session s.2)) as [Hwm Hcm] by (by apply migrate_good).
  destruct (wf_sequences _ Hwm) as (_ & Hpos & _). rewrite Forall_forall in Hpos. specialize (Hpos c Hin).
  specialize (Hcm session sc). unfold watermark in *. split_and!; [lia|done|done].
Qed.

(** C11: a delivery counts once.  Its first commit claims the ids it offered
    for its session, appends each assignment to the holdout log, and takes one
    occasion from the study of every lesson not yet decided in the session,
    never below zero; committing it again returns the same ids, appends
    nothing and changes nothing. *)
Theorem delivery_counted_once token sc d ids lines d1 : commit_delivery token sc d = (Ok (ids, lines), d1) →
  commit_delivery token sc d1 = (Ok (ids, []), d1) ∧
  ∃ row, assoc token (deliveries d) = Some row ∧
    if d_committed row then lines = [] ∧ d1 = d
    else lines = (d_assignments row).*2 ∧ (∀ i, i ∈ ids → (d_session row, i) ∈ injected d1) ∧
      ∀ i, remaining d1 i = if bool_decide (i ∈ (d_assignments row).*1 ∧ (d_session row, i) ∉ decisions d)
                            then (λ n, Z.max 0 (n - 1)) <$> remaining d i else remaining d i.
Proof.
  intros (row & Hrow & Hsc & -> & H)%commit_inv.
  assert (Hagain : ∀ d' row', assoc token (deliveries d') = Some row' → d_scope row' = sc → d_committed row' = true →
    commit_delivery token sc d' = (Ok (d_ids row', []), d')).
  { intros d' row' H1 H2 H3. unfold commit_delivery, transaction, get, mbind, io_bind. rewrite H1. unfold of_res, get_or, check, require.
    rewrite bool_decide_eq_true_2 by done. cbn. by rewrite H3. }
  destruct (d_committed row) eqn:Ec.
  - destruct H as [-> ->]. split; [by apply (Hagain d row)|]. exists row. by rewrite Ec.
  - destruct H as (-> & Hinj & _ & Hrem & Hdel & _). split.
    + apply (Hagain d1 (Delivery (d_session row) sc (d_ids row) (d_assignments row) true)); [|done..].
      rewrite Hdel. apply assoc_set_same.
    + exists row. rewrite Ec. split_and!; [done|done| |exact Hrem]. intros i Hi. apply Hinj. by right.
Qed.
End life.
