(* ===== verification/ForeignScope.v ===== *)
(** * Scopes outside printable ASCII

    [Journal.forget] looks for the siblings of an erased memory by comparing
    the stored text of their scope, written with [ensure_ascii=False], with a
    text that escapes everything outside printable ASCII.  The two texts are
    told apart by the escapes of code points from 127 on, which the stored text
    never holds; so for such a scope no sibling is found. *)

From stdpp Require Import relations.
From S2P Require Import Prelude Strings Sha256 Wire Canon Number Moment Unicode Effects Records RecordJournal RecordJournalSpec RecordErasure RecordErasureSpec RecordLife.
Local Open Scope Z_scope.

(** ** Definitions *)


(** The escape [\uXXXX] of a code point above the control characters. *)
Definition high_escape (a b c : ascii) : bool :=
  negb (Ascii.eqb a "0" && Ascii.eqb b "0" && (Ascii.eqb c "0" || Ascii.eqb c "1")).

(** A text of JSON strings holds such an escape. *)
Fixpoint escapes_high (s : string) : bool :=
  match s with
  | EmptyString => false
  | String c s1 =>
      if Ascii.eqb c backslash then
        match s1 with
        | String "u" (String a (String b (String e (String _ s2)))) => high_escape a b e || escapes_high s2
        | String _ s2 => escapes_high s2
        | EmptyString => false
        end
      else escapes_high s1
  end.

(** A piece of text without such an escape, and one with it, wherever they stand. *)
Definition mute (a : string) : Prop := ∀ t, escapes_high (a +:+ t) = escapes_high t.

(** ** Pieces of text *)


Lemma mute_nil : mute EmptyString.
Proof. done. Qed.



Section join.
Context (sep : string) (Hsep : mute sep).


End join.

(** ** Escapes *)







(** ** The texts of a scope *)








Lemma Exists_entry (P : string * json → Prop) k o v : o = Some v → P (k, v) → Exists P (entry k o).
Proof. intros -> H. by constructor. Qed.





(** ** Siblings *)




Section services.
Context {X : Type} `{SX : Surroundings X} `{EX : ErasureServices X}.

End services.
