(* ===== verification/RecordStories.v ===== *)
(** * The record journal on concrete stores

    A store without delegation or policies, and short runs on it that show the
    properties of the journal at work: a grounded derivation, a write, an
    erasure with its cascade, a sealed session and a committed delivery. *)

From stdpp Require Import relations.
From S2P Require Import Prelude Strings Sha256 Wire Number Moment Unicode Effects Records RecordJournal RecordJournalSpec Grounding RecordErasure RecordErasureSpec RecordLife ForeignScope.
Local Open Scope Z_scope.
Local Open Scope string_scope.

(** ** Open services *)

#[export] Instance open_services : Surroundings unit := {|
  capability _ := false; capabilities_enabled _ := false; required_agent _ := None;
  scrub r := Ok r; scrub_payload p := Ok p; scrub_text t := Ok t;
  runtime_prepare _ r := Ok r; inherit_labels _ l := l; before_write _ _ := Ok tt;
  capability_permits _ _ _ := true; quarantined_reference _ _ := false;
  runtime_identity _ capture i := (if capture then "capture:" else "record:") +:+ i;
  scope_labels _ := Ok []; attest _ _ := Ok None; lineage_blocked _ _ := false;
  policy_assert_write _ _ := Ok tt; policy_permits _ _ _ := true; authorized _ _ := true;
  policy_enabled _ := false; governed _ := false; streaming _ := false
|}.

#[export] Instance open_erasure : ErasureServices unit := {|
  assert_forget _ _ := Ok tt; authentic_mirror _ _ := true; assert_unpinned _ _ := Ok tt; assert_mutable _ _ := Ok tt;
  record_forgetting _ x := Ok x; erase_sources _ x := Ok x
|}.

#[export] Instance open_kinds : KindKept (X := unit).
Proof. split; simpl; congruence. Qed.

(** ** Stories *)

Definition now := "2026-01-02T03:04:05+00:00".
Definition user_scope (name : string) : Scope := mkScope None None None None None (Some name).
Definition e_acute : string := of_bytes [chr 195; chr 169].

Definition memory (i : string) (sc : Scope) (rel : list (string * list string)) (prov : dict) : MemoryRecord :=
  mkRecord i episode 1 [("text", JStr "met the supplier")] active true rel prov sc None None now None (JFloat "0.8") [].

Definition first_memory sc := memory "memory-a" sc [("caused_by", ["c1"])] [].
Definition second_memory sc := memory "memory-b" sc [("caused_by", ["c1"])] [].
Definition summary sc := memory "summary" sc [("derives", ["memory-a"])] [("source_versions", JObj [("memory-a", JInt 1)])].

(** One capture, two memories distilled from it, and a summary of the first. *)
Definition story (name : string) : list (operation (X := unit)) :=
  let sc := user_scope name in
  [CaptureEvent "u0" "s1" "Stop" [] sc (Some "c1"); Put now (first_memory sc) None;
   Put now (second_memory sc) None; Put now (summary sc) None].

Definition told (name : string) : db := (run_all (story name) (tt, empty_db)).2.

Lemma told_reachable name : reachable (X := unit) (told name).
Proof. by exists tt, (story name). Qed.

Lemma journal_tables_typed_witness : reachable (X := unit) (told "eve") ∧
  map version (chain (told "eve") "summary") = seqZ 1 (Z.of_nat (length (chain (told "eve") "summary"))).
Proof.
  split; [apply told_reachable|].
  destruct (journal_tables_typed (X := unit) (told "eve") (told_reachable "eve")) as [H _]. apply (H "summary").
Defined.

Lemma put_appends_version_witness : wf empty_db ∧
  version (first_memory (user_scope "eve")) = 1 ∧
  match put tt now (first_memory (user_scope "eve")) (Some 0) empty_db with
  | (Ok r', d') => find_record d' (id r') = Some r'
  | (Err _, d') => d' = empty_db
  end.
Proof.
  split; [apply wf_empty|]. split; [reflexivity|].
  pose proof (put_appends_version (X := unit) tt now (first_memory (user_scope "eve")) (Some 0) empty_db wf_empty) as H.
  destruct (put _ _ _ _ _) as [[r'|e] d']; [apply H|exact H].
Defined.

Lemma grounding_witness : ∃ b g,
  _grounded (λ _, None) tt (told "eve") (user_scope "eve") 0 false (summary (user_scope "eve")) fresh_grounding = Ok (b, g) ∧
  (b = true → supported (λ _, None) tt (told "eve") (user_scope "eve") 0 false 64 (summary (user_scope "eve"))).
Proof.
  destruct (grounding_decides_support (X := unit) (λ _, None) tt (told "eve") (user_scope "eve") 0 false (summary (user_scope "eve")))
    as (b & g & H & Ht & _).
  - apply (reachable_wf (X := unit)), told_reachable.
  - vm_compute. reflexivity.
  - exists b, g. split; [exact H|exact Ht].
Defined.

Lemma current_witness : ∃ stamp, moment now = Ok stamp ∧
  ∀ b, tc (edge (told "eve")) "summary" b → ∃ p, find_record (told "eve") b = Some p ∧
    journal_visible tt p (user_scope "eve") [active] stamp = Ok true ∧ sound_alone (λ _, None) tt (told "eve") false p = true.
Proof.
  destruct (current_stands_on_sources (X := unit) (λ _, None) tt "summary" (user_scope "eve") [active] now (told "eve")
    (summary (user_scope "eve"))) as (stamp & Hs & _ & _ & H).
  - apply (reachable_wf (X := unit)), told_reachable.
  - vm_compute. reflexivity.
  - exists stamp. split; [exact Hs|exact H].
Defined.

(** Erasing the first memory. *)
Definition forget_first (name : string) :=
  forget (X := unit) false now "memory-a" "privacy request" None None None false false (tt, told name).




(** The user's name alone decides whether the second memory survives. *)
Example sibling_survives :
  map (λ name, (is_ok (forget_first name).1, match find_record (forget_first name).2.2 "memory-b" with Some _ => true | None => false end,
                match find_capture (forget_first name).2.2 "c1" with Some _ => true | None => false end)) ["eve"; e_acute]
  = [(true, false, false); (true, true, false)].
Proof. vm_compute. reflexivity. Qed.





(** Sealing the session, and capturing once more. *)
Definition sealed_eve : db := (seal "s1" 1 (Some (user_scope "eve")) (told "eve")).2.
Definition later : list (operation (X := unit)) := [CaptureEvent "u1" "s1" "Stop" [] (user_scope "eve") (Some "c2")].

Lemma sealed_witness : (buffer tt "s1" (user_scope "eve") 10 (run_all later (tt, sealed_eve)).2).1
    = Ok [Capture 2 "c2" "s1" "Stop" [] (user_scope "eve")] ∧
  ∀ c, c ∈ [Capture 2 "c2" "s1" "Stop" [] (user_scope "eve")] → 1 < c_sequence c.
Proof.
  assert (H : (buffer tt "s1" (user_scope "eve") 10 (run_all later (tt, sealed_eve)).2).1
    = Ok [Capture 2 "c2" "s1" "Stop" [] (user_scope "eve")]) by (vm_compute; reflexivity).
  split; [exact H|]. intros c Hc.
  eapply (sealed_not_buffered_again (X := unit) "s1" 1 (user_scope "eve") (told "eve") sealed_eve later tt 10 _ _); [..|exact Hc].
  - apply (reachable_wf (X := unit)), told_reachable.
  - apply (run_pair (seal "s1" 1 (Some (user_scope "eve")) (told "eve"))). vm_compute. reflexivity.
  - apply (run_pair (buffer tt "s1" (user_scope "eve") 10 (run_all later (tt, sealed_eve)).2)). exact H.
Defined.

Definition offered : db :=
  (offer_delivery "t1" "s1" ["memory-a"] [("lesson-1", JNull)] (user_scope "eve") (told "eve")).2.

Lemma delivery_witness : (commit_delivery "t1" (user_scope "eve") offered).1 = Ok (["memory-a"], [JNull]) ∧
  (commit_delivery "t1" (user_scope "eve") (commit_delivery "t1" (user_scope "eve") offered).2).1 = Ok (["memory-a"], []).
Proof.
  assert (H : (commit_delivery "t1" (user_scope "eve") offered).1 = Ok (["memory-a"], [JNull])) by (vm_compute; reflexivity).
  split; [exact H|].
  destruct (delivery_counted_once "t1" (user_scope "eve") offered ["memory-a"] [JNull] (commit_delivery "t1" (user_scope "eve") offered).2)
    as [E _]; [by apply run_pair|]. by rewrite E.
Defined.
