(* ===== verification/TeamIsolation.v ===== *)
(** * Team isolation ([unimem/team_isolation.py], [unimem/team_io.py])

    Optimistic transactions on the shared facts of a team: a reader fetches
    facts with their versions, and its write is accepted when the declared
    versions still hold ([snapshot], [serializable]) and, for [sequenced]
    spaces, when it holds the live lease of its work item.

    One lock orders the operations, so each is one step on a [store].  The
    clock, the bound writer, the random lease ids and the request and erasure
    contexts are arguments.  A transaction applies [body], any function on the
    facts; when anything raises, the canonical writer rolls back.  What a fact
    is, and which facts a caller may see, belongs to the fact store: the class
    [TeamFact].  Policy files that do not verify are [Foreign].  Left out:
    paths, and [contradictions], which inspects the fact index. *)

From S2P Require Import Prelude Strings Sha256 Wire Origin Rows.
Local Open Scope Z_scope.

Inductive team_exn := Py (e : pyexn) | StaleGeneration (reason : string) (superseding : list json).

Definition py {A} (r : res pyexn A) : res team_exn A := match r with Ok a => Ok a | Err e => Err (Py e) end.
Definition stale_unless {A} (c : bool) (reason : string) (k : res team_exn A) : res team_exn A :=
  if c then k else Err (StaleGeneration reason []).

(** ** [team_isolation.py] *)

Definition LEVELS : list string := ["none"; "snapshot"; "serializable"; "sequenced"].
Definition MAX_READS : Z := 256.

Definition transaction_time (row : json) : res pyexn string :=
  raw ← _bytes row;
  require (byte_len raw <=? 256 * 1024) ValueError;;
  Ok ("tx1:" +:+ sha256_hex raw).

Definition is_hex_char (c : ascii) : bool :=
  let n := byte_of c in ((48 <=? n) && (n <=? 57)) || ((97 <=? n) && (n <=? 102)).

(** [re.fullmatch(r"tx1:[0-9a-f]{64}", version)] *)
Definition is_version (s : string) : bool :=
  String.prefix "tx1:" s && (String.length s =? 68)%nat && forallb is_hex_char (skipn 4 (str_bytes s)).

Definition read_pair (v : json) (result : list (string * string)) : res pyexn (list (string * string)) :=
  match v with
  | JObj kvs =>
      require (included (map fst kvs) ["id"; "transaction_time"] && included ["id"; "transaction_time"] (map fst kvs)) ValueError;;
      match assoc "id" kvs, assoc "transaction_time" kvs with
      | Some (JStr i), Some t =>
          require (negb (String.eqb i "") && (str_len i <=? 256) && negb (existsb (λ c, byte_of c <? 32) (str_bytes i))) ValueError;;
          match t with
          | JStr t =>
              require (is_version t) ValueError;;
              require (negb (has_row i result)) ValueError;;
              Ok (row_set i t result)
          | _ => Err ValueError
          end
      | _, _ => Err ValueError
      end
  | _ => Err ValueError
  end.

Definition read_set (v : json) : res pyexn (list (string * string)) :=
  match v with
  | JList l => require (Z.of_nat (length l) <=? MAX_READS) ValueError;; foldM (λ result pair, read_pair pair result) [] l
  | _ => Err ValueError
  end.

Definition stale (declared current : list (string * string)) : list string :=
  sort_strings (map fst (List.filter (λ p, negb (bool_decide (row_get p.1 current = Some p.2))) declared)).

(** ** [memory_control.matches] *)

Definition DIMENSIONS : list string := ["tenant"; "user"; "agent"; "app"; "project"; "session"; "repo"; "domain"].

(** [label.partition(":")]: the dimension, when there is a separator. *)
Fixpoint before_colon (s : string) : option string :=
  match s with
  | EmptyString => None
  | String c s' => if Ascii.eqb c ":" then Some EmptyString else String c <$> before_colon s'
  end.

Definition orthogonal (label : string) : bool :=
  match before_colon label with Some d => mem d DIMENSIONS | None => false end.

Definition matches (required : string) (labels context : list string) : bool :=
  (String.eqb required "" || mem required labels) &&
  (let (here, legacy) := (List.filter orthogonal labels, List.filter (λ l, negb (orthogonal l)) labels) in
   included here context && (bool_decide (legacy = []) || existsb (λ l, mem l context) legacy)).

(** ** The store *)

Record settings := Settings { level : string; s_scopes : list string }.
Record lease_row := Lease { holder : string; lease_token : string; fence : Z; expires : Z }.

(** [team-isolation.json] *)
Inductive policy_file := Absent | Foreign | Signed (spaces : list (string * settings)).

(** The value of [pure.REQUEST]. *)
Record request := Request {
  declared_reads : option (list (string * string));
  r_space : string;
  r_context : list string;
  work_item : string;
  fencing_token : option Z;
  lease_id : string;
  merge : bool;
}.

Class TeamFact (F : Type) := {
  to_dict : F → json;
  fact_scopes : F → list string;
  superseded_by : F → string;
  (* [search_recipes._eligible_fact], at a time, for a context *)
  eligible : Z → list (string * F) → F → list string → bool;
}.

Section team.
Context {F : Type} `{TF : TeamFact F}.

Record store := Store {
  facts : list (string * F);
  policy : policy_file;
  leases : list ((string * string) * lease_row);
}.

(** Who calls: the principal of [memory_authority.bound_writer()], whether it
    is an operator, and the scope [memory_control] requires of it. *)
Record caller := Caller { principal : string; operator : bool; required_scope : string }.

Definition config (s : store) : res team_exn (list (string * settings)) :=
  match policy s with Absent => Ok [] | Foreign => Err (Py PermissionError) | Signed l => Ok l end.

Definition no_isolation : settings := Settings "none" [].

(** [isolation], reading and writing. *)
Definition isolation_of (space : string) (s : store) : res team_exn settings :=
  _ ← py (text space 128);
  spaces ← config s;
  Ok (default no_isolation (row_get space spaces)).

Definition isolation (who : caller) (space : string) (lvl : string) (scopes : list string) (s : store) : res team_exn store :=
  _ ← py (text space 128);
  py (require (operator who) PermissionError);;
  py (require (mem lvl LEVELS) ValueError);;
  _ ← py (count (Z.of_nat (length scopes)) 0 64);
  _ ← py (mapR (λ l, text l 256) scopes);
  spaces ← config s;
  py (require (has_row space spaces || (Z.of_nat (length spaces) <? 64)) ValueError);;
  Ok (Store (facts s) (Signed (row_set space (Settings lvl (sorted_set scopes)) spaces)) (leases s)).

Definition _space (space : string) (context : list string) (s : store) : res team_exn settings :=
  spaces ← config s;
  py (require (bool_decide (spaces = []) || has_row space spaces) PermissionError);;
  let set := default no_isolation (row_get space spaces) in
  py (require (included (s_scopes set) context) PermissionError);;
  Ok set.

(** [request]: the arguments checked on entry. *)
Definition make_request (reads : option json) (space : string) (context : list string) (item : string) (token : option Z)
    (lid : string) (mrg : bool) : res pyexn request :=
  _ ← text space 128;
  _ ← count (Z.of_nat (length context)) 0 128;
  _ ← mapR (λ l, text l 256) context;
  _ ← match token with Some n => count n 1 (2 ^ 53 - 1) | None => Ok 0 end;
  _ ← if String.eqb item "" then Ok "" else text item 128;
  _ ← if String.eqb lid "" then Ok "" else text lid 128;
  declared ← match reads with None => Ok None | Some v => Some <$> read_set v end;
  Ok (Request declared space context item token lid mrg).

(** ** Leases *)

(** [hmac.compare_digest] refuses texts outside ASCII. *)
Definition is_ascii (t : string) : bool := forallb (λ c, byte_of c <? 128) (str_bytes t).
Definition compare_digest (a b : string) : res team_exn bool :=
  py (require (is_ascii a && is_ascii b) TypeError);; Ok (String.eqb a b).

Definition holds_lease (who : caller) (token : option Z) (lid : string) (row : option lease_row) : res team_exn bool :=
  match row with
  | None => Ok false
  | Some r =>
      if negb (String.eqb (holder r) (principal who)) || negb (bool_decide (token = Some (fence r))) then Ok false
      else compare_digest (lease_token r) lid
  end.

Record grant := Grant { g_lease_id : string; g_fence : Z; g_expires : Z }.

Definition lease_checks (item : string) (seconds : Z) : res team_exn () :=
  _ ← py (text item 128); _ ← py (count seconds 1 3600); Ok ().

(** Times count microseconds. *)
Definition SECOND : Z := 1000000.

(** [lease] *)
Definition lease (who : caller) (now : Z) (fresh : string) (item space : string) (context : list string) (seconds : Z)
    (s : store) : res team_exn (grant * store) :=
  lease_checks item seconds;;
  _ ← _space space context s;
  let row := row_get (space, item) (leases s) in
  stale_unless (match row with Some r => expires r <=? now | None => true end) "work_item_leased"
    (py (require (match row with Some _ => true | None => Z.of_nat (length (leases s)) <? 10000 end) ValueError);;
     n ← py (count (match row with Some r => fence r + 1 | None => 1 end) 1 (2 ^ 53 - 1));
     Ok (Grant fresh n (now + seconds * SECOND),
         Store (facts s) (policy s) (row_set (space, item) (Lease (principal who) fresh n (now + seconds * SECOND)) (leases s)))).

(** [lease(..., release=True)] *)
Definition release (who : caller) (now : Z) (item space : string) (context : list string) (seconds : Z) (lid : string)
    (token : option Z) (s : store) : res team_exn (Z * store) :=
  lease_checks item seconds;;
  _ ← _space space context s;
  let row := row_get (space, item) (leases s) in
  ok ← holds_lease who token lid row;
  match row with
  | Some r =>
      stale_unless ok "stale_fencing_token"
        (Ok (fence r, Store (facts s) (policy s)
                        (row_set (space, item) (Lease (holder r) (lease_token r) (fence r) now) (leases s))))
  | None => Err (StaleGeneration "stale_fencing_token" [])
  end.

Definition _fence (who : caller) (now : Z) (set : settings) (v : request) (s : store) : res team_exn () :=
  if negb (String.eqb (level set) "sequenced") then Ok ()
  else
    stale_unless (negb (String.eqb (work_item v) "")) "lease_required"
      (let row := row_get (r_space v, work_item v) (leases s) in
       ok ← holds_lease who (fencing_token v) (lease_id v) row;
       stale_unless (ok && match row with Some r => now <? expires r | None => false end) "stale_fencing_token" (Ok ())).

(** ** Reads *)

Definition _visible (now : Z) (fs : list (string * F)) (context ids : list string) : list (string * json) :=
  fold_left (λ result i,
    match row_get i fs with
    | Some f => if eligible now fs f context then row_set i (to_dict f) result else result
    | None => result
    end) ids [].

(** [rows[i].get("scopes", [])] *)
Definition row_scopes (row : json) : list string :=
  match jget "scopes" row with
  | Some (JList l) => omap (λ v, match v with JStr s => Some s | _ => None end) l
  | _ => []
  end.

Definition versions (rows : list (string * json)) : res pyexn (list (string * string)) :=
  mapR (λ p, t ← transaction_time p.2; Ok (p.1, t)) rows.

Definition fetch (now : Z) (ids : list string) (space : string) (context : list string) (s : store)
    : res team_exn (list json * list (string * string)) :=
  _ ← py (count (Z.of_nat (length ids)) 0 MAX_READS);
  _ ← py (mapR (λ i, text i 256) ids);
  set ← _space space context s;
  let rows := _visible now (facts s) context ids in
  let here i := match row_get i rows with Some row => included (s_scopes set) (row_scopes row) | None => false end in
  py (require (forallb here ids) PermissionError);;
  found ← py (mapR (λ i, row ← get_or (row_get i rows) KeyError; Ok (i, row)) ids);
  reads ← py (versions found);
  Ok (map snd found, reads).

(** ** Transactions *)

Definition body_of (R : Type) := list (string * F) → res team_exn (R * list (string * F)).

Definition rows_of (fs : list (string * F)) : list (string * json) := map (λ p, (p.1, to_dict p.2)) fs.

(** The facts that are new or differ, and the ones that are gone. *)
Definition changes (before : list (string * string)) (fs : list (string * F)) : res pyexn (list string) :=
  after ← versions (rows_of fs);
  Ok (map fst (List.filter (λ p, negb (bool_decide (row_get p.1 before = Some p.2))) after) ++
      List.filter (λ i, negb (has_row i fs)) (map fst before)).

(** The facts a stale caller is shown: the changed ones, and what superseded
    those in its scopes. *)
Definition successors (fs : list (string * F)) (admitted : list (string * json)) (context changed : list string) : list string :=
  flat_map (λ i,
    (if has_row i admitted then [i] else []) ++
    match row_get i fs with
    | Some old => if included (fact_scopes old) context && negb (String.eqb (superseded_by old) "")
                  then [superseded_by old] else []
    | None => []
    end) changed.

(** What is checked before the body runs: the declared reads, those that are
    stale, and the versions of all facts. *)
Definition check_reads (who : caller) (t0 t1 : Z) (set : settings) (v : request) (s : store)
    : res team_exn (list (string * string) * list string * list (string * string)) :=
  stale_unless (String.eqb (level set) "none" || match declared_reads v with Some _ => true | None => false end)
    "read_set_required"
    (let declared := default [] (declared_reads v) in
     let admitted := _visible t0 (facts s) (r_context v) (map fst declared) in
     current ← py (versions admitted);
     let changed := stale declared current in
     if mem (level set) ["serializable"; "sequenced"] && negb (bool_decide (changed = []))
     then Err (StaleGeneration "read_set_changed"
                 (map snd (_visible t0 (facts s) (r_context v)
                    (take (Z.to_nat MAX_READS) (successors (facts s) admitted (r_context v) changed)))))
     else
       _fence who t1 set v s;;
       _ ← py (digest (JList (map (λ p, JList [JStr p.1; JStr p.2])
                        (sort_by (λ p q, str_ltb p.1 q.1) declared))));
       _ ← py (count (Z.of_nat (length (facts s))) 0 10000);
       before ← py (versions (rows_of (facts s)));
       Ok (declared, changed, before)).

(** What is checked of the facts the body leaves. *)
Definition check_writes (who : caller) (t2 : Z) (set : settings) (v : request) (declared : list (string * string))
    (changed : list string) (before : list (string * string)) (fs : list (string * F)) (s : store) : res team_exn () :=
  ids ← py (changes before fs);
  let scopes_in (fs : list (string * F)) i := fact_scopes <$> row_get i fs in
  let fits (o : option (list string)) := match o with Some l => matches (required_scope who) l (r_context v) | None => true end in
  py (require (forallb (λ i, fits (scopes_in fs i)) ids) PermissionError);;
  py (require (forallb (λ i, fits (scopes_in (facts s) i)) ids) PermissionError);;
  py (require (forallb (λ i, match scopes_in fs i with Some l => included (s_scopes set) l | None => true end) ids) PermissionError);;
  stale_unless (negb (String.eqb (level set) "snapshot" &&
                      existsb (λ i, has_row i before && (negb (has_row i declared) || mem i changed)) ids))
    "snapshot_write_conflict" (_fence who t2 set v s).

Definition _checked {R} (who : caller) (t0 t1 t2 : Z) (set : settings) (v : request) (body : body_of R) (s : store)
    : res team_exn (R * list (string * F)) :=
  '(declared, changed, before) ← check_reads who t0 t1 set v s;
  '(r, fs) ← body (facts s);
  check_writes who t2 set v declared changed before fs s;;
  Ok (r, fs).

(** A privacy purge: it may only remove the facts it is authorized for. *)
Fixpoint any_changed (before : list (string * string)) (rows : list (string * json)) : res pyexn bool :=
  match rows with
  | [] => Ok false
  | (i, row) :: rest =>
      match row_get i before with
      | None => Ok true
      | Some t0 => t ← transaction_time row; if String.eqb t0 t then any_changed before rest else Ok true
      end
  end.

Definition purge {R} (authorized : list string) (body : body_of R) (s : store) : res team_exn (R * list (string * F)) :=
  before ← py (versions (rows_of (facts s)));
  '(r, fs) ← body (facts s);
  changed ← py (any_changed before (rows_of fs));
  py (require (negb changed && forallb (λ i, has_row i fs || mem i authorized) (map fst before)) PermissionError);;
  Ok (r, fs).

(** [erasure]: the ids a purge is authorized for. *)
Definition erasure (who : caller) (forgotten : string → bool) (ids : list string) (s : store) : res team_exn (option (list string)) :=
  match policy s with
  | Absent => Ok None
  | _ =>
      py (require (operator who) PermissionError);;
      _ ← py (count (Z.of_nat (length ids)) 1 1024);
      py (require (forallb forgotten ids) PermissionError);;
      Ok (Some ids)
  end.

(** [transactions], of a writing transaction: which checks the body runs
    under. *)
Definition transaction {R} (who : caller) (t0 t1 t2 : Z) (v : option request) (purging : option (list string)) (body : body_of R)
    (s : store) : res team_exn (R * list (string * F)) :=
  match policy s with
  | Absent => body (facts s)
  | _ =>
      match purging with
      | Some authorized => purge authorized body s
      | None =>
          match v with
          | None =>
              spaces ← config s;
              stale_unless (forallb (λ p, String.eqb (level p.2) "none") spaces) "team_request_required" (body (facts s))
          | Some v => set ← _space (r_space v) (r_context v) s; _checked who t0 t1 t2 set v body s
          end
      end
  end.

(** The canonical writer stores the facts, or rolls back. *)
Definition commit {R} (r : res team_exn (R * list (string * F))) (s : store) : res team_exn R * store :=
  match r with
  | Ok (x, fs) => (Ok x, Store fs (policy s) (leases s))
  | Err e => (Err e, s)
  end.

(** ** Histories *)

Inductive operation :=
  | Isolate (who : caller) (space lvl : string) (scopes : list string)
  | LeaseItem (who : caller) (now : Z) (fresh item space : string) (context : list string) (seconds : Z)
  | ReleaseItem (who : caller) (now : Z) (item space : string) (context : list string) (seconds : Z) (lid : string) (token : option Z)
  | Write (who : caller) (t0 t1 t2 : Z) (v : option request) (purging : option (list string)) (body : body_of ()).

Definition keep {A} (r : res team_exn (A * store)) (s : store) : store := match r with Ok (_, s') => s' | Err _ => s end.

Definition perform (o : operation) (s : store) : store :=
  match o with
  | Isolate who space lvl scopes => ok_or s (isolation who space lvl scopes s)
  | LeaseItem who now fresh item space context seconds => keep (lease who now fresh item space context seconds s) s
  | ReleaseItem who now item space context seconds lid token => keep (release who now item space context seconds lid token s) s
  | Write who t0 t1 t2 v purging body => (commit (transaction who t0 t1 t2 v purging body s) s).2
  end.

Definition run_all (l : list operation) (s : store) : store := fold_left (λ s o, perform o s) l s.
End team.
