(* ===== verification/TeamIsolationSpec.v ===== *)
(** * Team isolation: what the protocol guarantees

    A committed transaction read facts that still held when it committed; it
    changed only what its caller may change; a worker whose lease was taken
    over is fenced; and an active policy cannot be passed by. *)

From S2P Require Import Prelude Strings Sha256 Wire Origin Rows TeamIsolation.
Local Open Scope Z_scope.

(** ** Results *)

Lemma py_Ok {A} (r : res pyexn A) a : py r = Ok a ↔ r = Ok a.
Proof. destruct r; simpl; naive_solver. Qed.

Lemma stale_unless_Ok {A} c reason (k : res team_exn A) a : stale_unless c reason k = Ok a ↔ c = true ∧ k = Ok a.
Proof. destruct c; simpl; naive_solver. Qed.

(** ** Versions *)

Lemma versions_get rows vs i : versions rows = Ok vs →
  row_get i vs = (match row_get i rows with Some row => match transaction_time row with Ok t => Some t | Err _ => None end | None => None end).
Proof.
  revert vs. induction rows as [|[j row] rows IH]; intros vs; unfold versions; simpl; [by intros [= <-]|].
  intros ([j' t] & (t' & Ht & [= <- <-])%bind_Ok & (vs' & Hvs & [= <-])%bind_Ok)%bind_Ok. simpl.
  destruct (decide (i = j)); [by rewrite Ht|]. by apply IH.
Qed.

Lemma versions_keys rows vs : versions rows = Ok vs → map fst vs = map fst rows.
Proof.
  revert vs. induction rows as [|[j row] rows IH]; intros vs; unfold versions; simpl; [by intros [= <-]|].
  intros ([j' t] & (t' & Ht & [= <- <-])%bind_Ok & (vs' & Hvs & [= <-])%bind_Ok)%bind_Ok. simpl. f_equal. by apply IH.
Qed.

Lemma versions_Some rows vs i t : versions rows = Ok vs → row_get i vs = Some t →
  ∃ row, row_get i rows = Some row ∧ transaction_time row = Ok t.
Proof.
  intros Hv. rewrite (versions_get _ _ i Hv). destruct (row_get i rows) as [row|]; [|done].
  destruct (transaction_time row) eqn:Et; [|done]. intros [= <-]. by exists row.
Qed.

Lemma stale_nil declared current : stale declared current = [] → ∀ i t, (i, t) ∈ declared → row_get i current = Some t.
Proof.
  unfold stale. intros H i t Hin. destruct (decide (row_get i current = Some t)) as [|Hne]; [done|exfalso].
  assert (Hi : i ∈ sort_strings (map fst (List.filter (λ p, negb (bool_decide (row_get p.1 current = Some p.2))) declared))).
  { unfold sort_strings. rewrite sort_by_Permutation. apply list_elem_of_fmap. exists (i, t). split; [done|].
    apply list_elem_of_In, filter_In. split; [by apply list_elem_of_In|]. by rewrite bool_decide_false. }
  rewrite H in Hi. by apply elem_of_nil in Hi.
Qed.

(** The version of a row determines its text, among collision-free texts. *)
Lemma transaction_time_Ok x t : transaction_time x = Ok t → t = "tx1:" +:+ sha256_hex (dumps x).
Proof.
  unfold transaction_time, _bytes. destruct (all_finite x); [|done]. cbn [require mbind res_bind].
  destruct (byte_len (dumps x) <=? 256 * 1024); [|done]. cbn [require mbind res_bind]. by intros [= <-].
Qed.

Lemma transaction_time_inj x y t : collision_free [dumps x; dumps y] →
  transaction_time x = Ok t → transaction_time y = Ok t → dumps x = dumps y.
Proof.
  intros Hc ->%transaction_time_Ok Hy%transaction_time_Ok. apply Hc; [by left|by right; left|].
  apply (inj (String.append "tx1:")) in Hy. by apply hex_inj.
Qed.

Section team.
Context {F : Type} `{TF : TeamFact F}.
Implicit Types (s : store (F := F)) (fs : list (string * F)) (set : settings) (v : request).

(** ** What a caller sees *)

Lemma visible_get now fs context ids i row : row_get i (_visible now fs context ids) = Some row →
  i ∈ ids ∧ ∃ f, row_get i fs = Some f ∧ eligible now fs f context = true ∧ row = to_dict f.
Proof.
  unfold _visible. set (step := λ _ _, _). enough (H : ∀ acc, row_get i (fold_left step ids acc) = Some row →
    row_get i acc = Some row ∨ (i ∈ ids ∧ ∃ f, row_get i fs = Some f ∧ eligible now fs f context = true ∧ row = to_dict f)).
  { intros Hrow. by destruct (H [] Hrow). }
  induction ids as [|j ids IH]; intros acc; simpl; [by left|].
  intros [Hacc|[Hin Hf]]%IH; [|right; split; [by right|done]].
  unfold step in Hacc. destruct (row_get j fs) as [f|] eqn:Ej; [|by left].
  destruct (eligible now fs f context) eqn:Ee; [|by left]. rewrite row_get_set in Hacc.
  destruct (decide (j = i)) as [->|]; [|by left]. injection Hacc as <-. right. split; [by left|]. by exists f.
Qed.

(** A read that [check_reads] let pass still holds. *)
Definition read_holds t0 v s (i t : string) : Prop :=
  ∃ f, row_get i (facts s) = Some f ∧ eligible t0 (facts s) f (r_context v) = true ∧ transaction_time (to_dict f) = Ok t.

Lemma current_read t0 v s ids current i t : versions (_visible t0 (facts s) (r_context v) ids) = Ok current →
  row_get i current = Some t → read_holds t0 v s i t.
Proof.
  intros Hc (row & Hrow & Ht)%(versions_Some _ _ _ _ Hc). apply visible_get in Hrow as (_ & f & Hf & He & ->). by exists f.
Qed.

(** What [check_reads] establishes. *)
Record reads_checked who t0 t1 set v s (declared : list (string * string)) (changed : list string) (before : list (string * string))
    : Prop := ReadsChecked {
  c_declared : declared = default [] (declared_reads v);
  c_required : level set = "none" ∨ is_Some (declared_reads v);
  c_fresh : mem (level set) ["serializable"; "sequenced"] = true → changed = [];
  c_changed : ∃ current, versions (_visible t0 (facts s) (r_context v) (map fst declared)) = Ok current ∧ changed = stale declared current;
  c_fence : _fence who t1 set v s = Ok ();
  c_before : versions (rows_of (facts s)) = Ok before;
}.

Lemma check_reads_Ok who t0 t1 set v s declared changed before :
  check_reads who t0 t1 set v s = Ok (declared, changed, before) → reads_checked who t0 t1 set v s declared changed before.
Proof.
  unfold check_reads. intros [Hreq H]%stale_unless_Ok.
  apply bind_Ok in H as (current & Hc%py_Ok & H). cbn zeta in H.
  destruct (mem (level set) _ && _) eqn:Es; [done|].
  apply bind_Ok in H as ([] & Hfence & H). apply bind_Ok in H as (_ & _ & H). apply bind_Ok in H as (_ & _ & H).
  apply bind_Ok in H as (bef & Hb%py_Ok & [= <- <- <-]). constructor; try done.
  - apply orb_true_iff in Hreq as [E1%String.eqb_eq|E1]; [by left|right]. destruct (declared_reads v); [by eexists|done].
  - intros Hm. rewrite Hm in Es. simpl in Es. by apply negb_false_iff, bool_decide_eq_true in Es.
  - by exists current.
Qed.

Lemma fresh_reads who t0 t1 set v s declared changed before : reads_checked who t0 t1 set v s declared changed before →
  mem (level set) ["serializable"; "sequenced"] = true → ∀ i t, (i, t) ∈ declared → read_holds t0 v s i t.
Proof.
  intros H Hm i t Hin. destruct (c_changed _ _ _ _ _ _ _ _ _ H) as (current & Hc & Hch).
  rewrite (c_fresh _ _ _ _ _ _ _ _ _ H Hm) in Hch. eapply current_read; [exact Hc|]. by eapply stale_nil.
Qed.

(** A request that passes the policy. *)
Lemma transaction_checked {R} who t0 t1 t2 v (body : body_of R) s r : policy s ≠ Absent →
  transaction who t0 t1 t2 (Some v) None body s = Ok r →
  ∃ set, _space (r_space v) (r_context v) s = Ok set ∧ _checked who t0 t1 t2 set v body s = Ok r.
Proof.
  intros Hp H. unfold transaction in H. destruct (policy s) eqn:Ep; [done|apply bind_Ok in H..]; destruct H as (set & Hs & Hc); eauto.
Qed.

(** ** Reads hold at the commit *)

Lemma mapR_lookup {A B E} (f : A → res E B) l out k x : mapR f l = Ok out → l !! k = Some x → ∃ y, out !! k = Some y ∧ f x = Ok y.
Proof.
  intros H%mapR_Ok_Forall2 Hx. destruct (Forall2_lookup_l _ _ _ _ _ H Hx) as (y & Hy & E1). eauto.
Qed.

Lemma fetch_Ok now ids space context s rows reads k i : fetch now ids space context s = Ok (rows, reads) → ids !! k = Some i →
  ∃ row t, rows !! k = Some row ∧ reads !! k = Some (i, t) ∧ transaction_time row = Ok t.
Proof.
  unfold fetch. intros (_ & _ & (_ & _ & (set & _ & H)%bind_Ok)%bind_Ok)%bind_Ok Hk. cbn zeta in H.
  apply bind_Ok in H as (_ & _ & (found & Hf%py_Ok & (rs & Hr%py_Ok & [= <- <-])%bind_Ok)%bind_Ok).
  destruct (mapR_lookup _ _ _ _ _ Hf Hk) as ([i' row] & Hrow & (row' & _ & [= <- <-])%bind_Ok).
  destruct (mapR_lookup _ _ _ _ _ Hr Hrow) as ([j t] & Ht & (t' & Et & [= <- <-])%bind_Ok).
  exists row', t'. split; [|done]. rewrite list_lookup_fmap, Hrow. done.
Qed.

(** C13: a committed transaction read the present.  Whatever the other members
    of the team did between the fetch and the commit, a transaction of a
    [serializable] or [sequenced] space that declares the versions it fetched
    commits only when every fact it read still stands, with the very content
    it read and in the caller's sight: it is as if all of it had run at the
    instant of its commit. *)
Theorem committed_reads_hold {R} who now ids t0 t1 t2 v set (body : body_of R) s0 s rows reads r :
  fetch now ids (r_space v) (r_context v) s0 = Ok (rows, reads) → declared_reads v = Some reads →
  _space (r_space v) (r_context v) s = Ok set → mem (level set) ["serializable"; "sequenced"] = true → policy s ≠ Absent →
  collision_free (map dumps (rows ++ map snd (rows_of (facts s)))) →
  transaction who t0 t1 t2 (Some v) None body s = Ok r →
  ∀ k i, ids !! k = Some i → ∃ row f, rows !! k = Some row ∧ row_get i (facts s) = Some f ∧
    eligible t0 (facts s) f (r_context v) = true ∧ dumps (to_dict f) = dumps row.
Proof.
  intros Hfetch Hv Hs Hm Hp Hc Ht k i Hk. destruct (transaction_checked _ _ _ _ _ _ _ _ Hp Ht) as (set' & Hs' & Hch).
  rewrite Hs in Hs'. injection Hs' as <-. unfold _checked in Hch.
  apply bind_Ok in Hch as ([[declared changed] before] & Hr%check_reads_Ok & _).
  destruct (fetch_Ok _ _ _ _ _ _ _ _ _ Hfetch Hk) as (row & t & Hrow & Hread & Htt).
  assert (Hin : (i, t) ∈ declared).
  { rewrite (c_declared _ _ _ _ _ _ _ _ _ Hr), Hv. simpl. by eapply list_elem_of_lookup_2. }
  destruct (fresh_reads _ _ _ _ _ _ _ _ _ Hr Hm i t Hin) as (f & Hf & He & Hft).
  exists row, f. split_and!; try done. eapply transaction_time_inj; [|done..].
  eapply collision_free_sub; [|exact Hc]. intros x. rewrite elem_of_cons, list_elem_of_singleton, list_elem_of_fmap.
  intros [-> | ->].
  - exists (to_dict f). split; [done|]. apply elem_of_app. right. apply list_elem_of_fmap. exists (i, to_dict f). split; [done|].
    unfold rows_of. apply list_elem_of_fmap. exists (i, f). split; [done|]. by apply row_get_elem.
  - exists row. split; [done|]. apply elem_of_app. left. by eapply list_elem_of_lookup_2.
Qed.

(** ** Fences *)

Definition fence_of s (key : string * string) : Z := match row_get key (leases s) with Some r => fence r | None => 0 end.

Lemma lease_Ok who now fresh item space context seconds s g s' : lease who now fresh item space context seconds s = Ok (g, s') →
  g_fence g = fence_of s (space, item) + 1 ∧
  ∀ key, fence_of s' key = if decide ((space, item) = key) then g_fence g else fence_of s key.
Proof.
  unfold lease. intros (_ & _ & (_ & _ & [_ H]%stale_unless_Ok)%bind_Ok)%bind_Ok.
  apply bind_Ok in H as (_ & _ & (n & (_ & _ & [= <-])%py_Ok%bind_Ok & [= <- <-])%bind_Ok). unfold fence_of. simpl. split.
  - by destruct (row_get (space, item) (leases s)).
  - intros key. rewrite row_get_set. by destruct (decide _).
Qed.

Lemma perform_fence o s key : fence_of s key <= fence_of (perform o s) key.
Proof.
  destruct o as [who space lvl scopes|who now fresh item space context seconds|who now item space context seconds lid token|
    who t0 t1 t2 v purging body]; cbn [perform].
  - destruct (isolation who space lvl scopes s) as [s'|] eqn:E1; [|done]. unfold isolation in E1.
    apply bind_Ok in E1 as (_ & _ & E1). apply bind_Ok in E1 as (_ & _ & E1). apply bind_Ok in E1 as (_ & _ & E1).
    apply bind_Ok in E1 as (_ & _ & E1). apply bind_Ok in E1 as (_ & _ & E1). apply bind_Ok in E1 as (spaces & _ & E1).
    apply bind_Ok in E1 as (_ & _ & [= <-]). done.
  - destruct (lease _ _ _ _ _ _ _ _) as [[g s']|] eqn:E1; [|done]. simpl. apply lease_Ok in E1 as [Hg Hf]. rewrite Hf.
    destruct (decide _) as [<-|]; lia.
  - destruct (release _ _ _ _ _ _ _ _ _) as [[n s']|] eqn:E1; [|done]. simpl. unfold release in E1.
    apply bind_Ok in E1 as (_ & _ & E1). apply bind_Ok in E1 as (_ & _ & E1). cbn zeta in E1. apply bind_Ok in E1 as (ok & _ & E1).
    unfold fence_of. destruct (row_get (space, item) (leases s)) as [r|] eqn:Er; [|done].
    apply stale_unless_Ok in E1 as [_ [= <- <-]]. simpl. rewrite row_get_set. destruct (decide _) as [<-|]; [|done]. by rewrite Er.
  - by destruct (transaction _ _ _ _ _ _ _ _) as [[x fs]|e].
Qed.

Lemma run_all_fence l s key : fence_of s key <= fence_of (run_all l s) key.
Proof.
  revert s. unfold run_all. induction l as [|o l IH]; intros s; simpl; [lia|].
  etrans; [apply (perform_fence o)|apply IH].
Qed.

Lemma fence_Ok who now set v s : _fence who now set v s = Ok () → level set = "sequenced" →
  fencing_token v = Some (fence_of s (r_space v, work_item v)).
Proof.
  unfold _fence, fence_of. intros H Hlev. rewrite Hlev in H. simpl in H. apply stale_unless_Ok in H as [_ H].
  apply bind_Ok in H as (ok & Hok & [Hl _]%stale_unless_Ok). apply andb_true_iff in Hl as [-> _].
  unfold holds_lease in Hok. destruct (row_get _ _) as [r|]; [|done]. destruct (_ || _) eqn:E1; [done|].
  apply orb_false_iff in E1 as [_ E1]. by apply negb_false_iff, bool_decide_eq_true in E1.
Qed.

(** a worker whose lease was taken over is fenced for good.  After a
    second grant of the same work item its token is smaller than the new one,
    and no transaction of a [sequenced] space that presents it commits,
    whatever happened in between and whoever calls. *)
Theorem superseded_writer_fenced who1 now1 fresh1 who2 now2 fresh2 item space context1 context2 seconds1 seconds2 l1 l2 s0 g1 s1 g2 s2 :
  lease who1 now1 fresh1 item space context1 seconds1 s0 = Ok (g1, s1) →
  lease who2 now2 fresh2 item space context2 seconds2 (run_all l1 s1) = Ok (g2, s2) →
  g_fence g1 < g_fence g2 ∧
  ∀ R who t0 t1 t2 v set (body : body_of R) s, s = run_all l2 s2 → r_space v = space → work_item v = item →
    fencing_token v = Some (g_fence g1) → _space space (r_context v) s = Ok set → level set = "sequenced" →
    ∃ e, commit (transaction who t0 t1 t2 (Some v) None body s) s = (Err e, s).
Proof.
  intros H1 H2. apply lease_Ok in H1 as [_ Hf1]. apply lease_Ok in H2 as [Hg2 Hf2].
  pose proof (run_all_fence l1 s1 (space, item)) as Hl1. pose proof (run_all_fence l2 s2 (space, item)) as Hl2.
  rewrite Hf1, decide_True in Hl1 by done. rewrite Hf2, decide_True in Hl2 by done. split; [lia|].
  intros R who t0 t1 t2 v set body s -> Hs Hi Ht Hset Hlev.
  destruct (transaction who t0 t1 t2 (Some v) None body (run_all l2 s2)) as [r|e] eqn:Et; [exfalso|by exists e].
  assert (Hp : policy (run_all l2 s2) ≠ Absent).
  { intros Ha. unfold _space, config in Hset. rewrite Ha in Hset. apply bind_Ok in Hset as (l & [= <-] & Hset).
    apply bind_Ok in Hset as (_ & _ & Hset). cbn zeta in Hset. apply bind_Ok in Hset as (_ & _ & [= <-]). done. }
  destruct (transaction_checked _ _ _ _ _ _ _ _ Hp Et) as (set' & Hs' & Hch). rewrite Hs, Hset in Hs'. injection Hs' as <-.
  unfold _checked in Hch. apply bind_Ok in Hch as ([[declared changed] before] & Hr%check_reads_Ok & _).
  pose proof (fence_Ok _ _ _ _ _ (c_fence _ _ _ _ _ _ _ _ _ Hr) Hlev) as Hf. rewrite Ht, Hs, Hi in Hf. injection Hf. lia.
Qed.

(** ** Writes stay where they may *)

Lemma rows_of_get fs i : row_get i (rows_of fs) = to_dict <$> row_get i fs.
Proof. unfold rows_of. induction fs as [|[j f] fs IH]; simpl; [done|]. by destruct (decide (i = j)). Qed.

(** A fact that is absent from both, or in both with one version. *)
Definition same_version i fs fs' : Prop :=
  match row_get i fs, row_get i fs' with
  | None, None => True
  | Some f, Some f' => ∃ t, transaction_time (to_dict f) = Ok t ∧ transaction_time (to_dict f') = Ok t
  | _, _ => False
  end.

Lemma version_of fs before i : versions (rows_of fs) = Ok before →
  match row_get i fs with
  | Some f => ∃ t, row_get i before = Some t ∧ transaction_time (to_dict f) = Ok t
  | None => row_get i before = None
  end.
Proof.
  intros Hv. pose proof (versions_get _ _ i Hv) as Hg. rewrite rows_of_get in Hg.
  assert (Hk : row_get i before = None → row_get i fs = None).
  { rewrite !row_get_None, (versions_keys _ _ Hv). unfold rows_of. rewrite map_map. by simpl. }
  destruct (row_get i fs) as [f|]; simpl in Hg; [|done]. destruct (transaction_time (to_dict f)) as [t|]; [by exists t|].
  by apply Hk in Hg.
Qed.

Lemma changes_Ok before fs0 fs ids i : versions (rows_of fs0) = Ok before → changes before fs = Ok ids →
  same_version i fs0 fs ∨ i ∈ ids.
Proof.
  intros Hb. unfold changes. intros (after & Ha & [= <-])%bind_Ok.
  pose proof (version_of _ _ i Hb) as H0. pose proof (version_of _ _ i Ha) as H1. unfold same_version.
  destruct (row_get i fs) as [f|] eqn:Ef.
  - destruct H1 as (t & Hat & Ht). destruct (decide (row_get i before = Some t)) as [E1|Hne].
    + left. destruct (row_get i fs0) as [f0|]; [|congruence]. destruct H0 as (t0 & Hbt & Ht0). exists t. split; [|done]. congruence.
    + right. apply elem_of_app. left. apply list_elem_of_fmap. exists (i, t). split; [done|].
      apply list_elem_of_In, filter_In. split; [by apply list_elem_of_In, row_get_elem|]. simpl. by rewrite bool_decide_false.
  - destruct (row_get i fs0) as [f0|]; [right|by left]. destruct H0 as (t0 & Hbt & _). apply elem_of_app. right.
    apply list_elem_of_In, filter_In. split; [|unfold has_row; by rewrite Ef].
    apply list_elem_of_In, list_elem_of_fmap. exists (i, t0). split; [done|]. by apply row_get_elem.
Qed.

Lemma forallb_elem {A} (p : A → bool) l x : forallb p l = true → x ∈ l → p x = true.
Proof. rewrite forallb_Forall, Forall_forall. eauto. Qed.

Lemma stale_not declared current i t : row_get i declared = Some t → mem i (stale declared current) = false → row_get i current = Some t.
Proof.
  intros Hd Hm. destruct (decide (row_get i current = Some t)) as [|Hne]; [done|exfalso].
  enough (mem i (stale declared current) = true) by congruence. apply mem_elem. unfold stale, sort_strings.
  rewrite sort_by_Permutation. apply list_elem_of_fmap. exists (i, t). split; [done|].
  apply list_elem_of_In, filter_In. split; [by apply list_elem_of_In, row_get_elem|]. simpl. by rewrite bool_decide_false.
Qed.

(** C14: a committed write stays within its caller's reach.  A fact whose
    version it changed, added or removed was in the caller's scope before and
    is after, carries the scopes of the space, and in a [snapshot] space was
    declared with the version it still had, so that no concurrent update is
    lost. *)
Theorem write_confined {R} who t0 t1 t2 v set (body : body_of R) s x fs : policy s ≠ Absent →
  _space (r_space v) (r_context v) s = Ok set → transaction who t0 t1 t2 (Some v) None body s = Ok (x, fs) →
  ∀ i, same_version i (facts s) fs ∨
    ((∀ f, row_get i (facts s) = Some f → matches (required_scope who) (fact_scopes f) (r_context v) = true ∧
        (level set = "snapshot" → ∃ t, (i, t) ∈ default [] (declared_reads v) ∧ read_holds t0 v s i t)) ∧
     (∀ f, row_get i fs = Some f → matches (required_scope who) (fact_scopes f) (r_context v) = true ∧
        ∀ scope, scope ∈ s_scopes set → scope ∈ fact_scopes f)).
Proof.
  intros Hp Hs Ht i. destruct (transaction_checked _ _ _ _ _ _ _ _ Hp Ht) as (set' & Hs' & Hch).
  rewrite Hs in Hs'. injection Hs' as <-. unfold _checked in Hch.
  apply bind_Ok in Hch as ([[declared changed] before] & Hr%check_reads_Ok & Hch).
  apply bind_Ok in Hch as ([x' fs'] & _ & Hch). apply bind_Ok in Hch as ([] & Hw & [= <- <-]).
  unfold check_writes in Hw. apply bind_Ok in Hw as (ids & Hids%py_Ok & Hw). cbn zeta in Hw.
  destruct (changes_Ok _ _ _ _ i (c_before _ _ _ _ _ _ _ _ _ Hr) Hids) as [|Hin]; [by left|right].
  apply bind_Ok in Hw as (_ & Hnew%py_Ok%require_Ok & Hw). apply bind_Ok in Hw as (_ & Hold%py_Ok%require_Ok & Hw).
  apply bind_Ok in Hw as (_ & Hsp%py_Ok%require_Ok & [Hsnap _]%stale_unless_Ok).
  pose proof (forallb_elem _ _ _ Hnew Hin) as N. pose proof (forallb_elem _ _ _ Hold Hin) as O.
  pose proof (forallb_elem _ _ _ Hsp Hin) as P. simpl in N, O, P. split; intros f Hf; rewrite Hf in *; simpl in *.
  - split; [done|]. intros Hlev. rewrite Hlev in Hsnap. simpl in Hsnap. apply negb_true_iff in Hsnap.
    apply existsb_false_Forall in Hsnap. rewrite Forall_forall in Hsnap. specialize (Hsnap i Hin).
    pose proof (version_of _ _ i (c_before _ _ _ _ _ _ _ _ _ Hr)) as Hb. rewrite Hf in Hb. destruct Hb as (t & Hbt & _).
    unfold has_row in Hsnap at 1. rewrite Hbt in Hsnap. simpl in Hsnap. apply orb_false_iff in Hsnap as [Hd%negb_false_iff Hm].
    apply has_row_true in Hd as [t' Hd]. exists t'.
    destruct (c_changed _ _ _ _ _ _ _ _ _ Hr) as (current & Hc & ->). rewrite <- (c_declared _ _ _ _ _ _ _ _ _ Hr).
    split; [by apply row_get_elem|]. eapply current_read; [exact Hc|]. by eapply stale_not.
  - split; [done|]. by apply included_spec.
Qed.

(** ** The policy holds without a request too *)

Lemma any_changed_Ok before rows i row : any_changed before rows = Ok false → row_get i rows = Some row →
  ∃ t, row_get i before = Some t ∧ transaction_time row = Ok t.
Proof.
  induction rows as [|[j r] rows IH]; simpl; [done|]. destruct (row_get j before) as [t0|] eqn:Ej; [|done].
  intros (t & Ht & H)%bind_Ok. destruct (String.eqb_spec t0 t) as [->|]; [|done].
  destruct (decide (i = j)) as [->|]; [intros [= <-]; by exists t|auto].
Qed.

Lemma purge_Ok {R} ids (body : body_of R) s x fs i : purge ids body s = Ok (x, fs) →
  same_version i (facts s) fs ∨ (i ∈ ids ∧ row_get i fs = None).
Proof.
  unfold purge. intros (before & Hb%py_Ok & ([x' fs'] & _ & (changed & Ha%py_Ok & H)%bind_Ok)%bind_Ok)%bind_Ok.
  apply bind_Ok in H as (_ & [Hk%negb_true_iff Hg]%py_Ok%require_Ok%andb_true_iff & [= <- <-]). subst changed.
  pose proof (version_of _ _ i Hb) as H0. unfold same_version. destruct (row_get i fs') as [f|] eqn:Ef.
  - left. destruct (any_changed_Ok _ _ i (to_dict f) Ha) as (t & Hat & Ht); [by rewrite rows_of_get, Ef|].
    destruct (row_get i (facts s)) as [f0|]; [|congruence].
    destruct H0 as (t0 & Hbt & Ht0). exists t. split; [|done]. congruence.
  - destruct (row_get i (facts s)) as [f0|]; [right|by left]. destruct H0 as (t0 & Hbt & _). split; [|done].
    assert (Hi : i ∈ map fst before) by (apply list_elem_of_fmap; exists (i, t0); split; [done|by apply row_get_elem]).
    pose proof (forallb_elem _ _ _ Hg Hi) as E1. simpl in E1. unfold has_row in E1. rewrite Ef in E1. by apply mem_elem.
Qed.

(** an active policy cannot be passed by.  While some space is isolated, a
    write that declares no request commits only as an authorized privacy
    purge, and then it changes nothing and removes no fact but those it is
    authorized for; every other write leaves the store as it was. *)
Theorem policy_not_bypassed {R} who t0 t1 t2 purging (body : body_of R) s spaces space set :
  policy s = Signed spaces → (space, set) ∈ spaces → level set ≠ "none" →
  match commit (transaction who t0 t1 t2 None purging body s) s with
  | (Err _, s') => s' = s
  | (Ok _, s') => ∃ ids, purging = Some ids ∧ ∀ i, same_version i (facts s) (facts s') ∨ (i ∈ ids ∧ row_get i (facts s') = None)
  end.
Proof.
  intros Hp Hin Hlev. destruct (transaction who t0 t1 t2 None purging body s) as [[x fs]|e] eqn:Et; simpl; [|done].
  unfold transaction in Et. rewrite Hp in Et. destruct purging as [ids|].
  - exists ids. split; [done|]. intros i. by eapply purge_Ok.
  - apply bind_Ok in Et as (l & Hl & [Hall _]%stale_unless_Ok). unfold config in Hl. rewrite Hp in Hl. injection Hl as <-.
    pose proof (forallb_elem _ _ _ Hall Hin) as E1. by apply String.eqb_eq in E1.
Qed.
End team.
