(* ===== verification/TeamStories.v ===== *)
(** * Team isolation: two workers on one fact

    Concrete stores on which the theorems of [TeamIsolationSpec] apply: notes
    with scopes, seen by the callers that hold their scopes. *)

From S2P Require Import Prelude Strings Sha256 Wire Origin Rows TeamIsolation TeamIsolationSpec.
Local Open Scope Z_scope.

Record note := Note { statement : string; n_scopes : list string; replaced_by : string }.

#[export] Instance note_fact : TeamFact note := {
  to_dict n := JObj [("statement", JStr (statement n)); ("scopes", JList (map JStr (n_scopes n)))];
  fact_scopes := n_scopes;
  superseded_by := replaced_by;
  eligible _ _ n context := included (n_scopes n) context;
}.

Definition team : list string := ["team:a"].
Definition ann : caller := Caller "ann" false "".
Definition bob : caller := Caller "bob" false "".
Definition door : note := Note "the door is open" team "".

Definition shared (lvl : string) : store := Store [("door", door)] (Signed [("default", Settings lvl team)]) [].

(** Ann fetches the door, Bob adds a fact, and Ann writes what she saw. *)
Definition seen (lvl : string) := ok_or ([], []) (fetch 1 ["door"] "default" team (shared lvl)).
Definition says (reads : list (string * string)) (item : string) (token : option Z) (lid : string) : request :=
  Request (Some reads) "default" team item token lid false.
Definition add (i : string) (n : note) : body_of () := λ fs, Ok ((), row_set i n fs).
Definition busy (lvl : string) : store := perform (Write bob 2 2 2 (Some (says [] "" None "")) None (add "lamp" (Note "the lamp is on" team ""))) (shared lvl).
Definition ann_writes (lvl : string) :=
  transaction ann 3 3 3 (Some (says (seen lvl).2 "" None "")) None (add "door" (Note "the door is shut" team "")) (busy lvl).

Definition shut : list (string * note) :=
  [("door", Note "the door is shut" team ""); ("lamp", Note "the lamp is on" team "")].

Lemma committed_reads_hold_witness : ann_writes "serializable" = Ok ((), shut) ∧
  ∃ row f, (seen "serializable").1 !! 0%nat = Some row ∧ row_get "door" (facts (busy "serializable")) = Some f ∧
    dumps (to_dict f) = dumps row.
Proof.
  assert (H : ann_writes "serializable" = Ok ((), shut)) by (vm_compute; reflexivity).
  split; [exact H|].
  destruct (committed_reads_hold ann 1 ["door"] 3 3 3 (says (seen "serializable").2 "" None "") (Settings "serializable" team)
    (add "door" (Note "the door is shut" team "")) (shared "serializable") (busy "serializable")
    (seen "serializable").1 (seen "serializable").2 ((), shut)) with (k := 0%nat) (i := "door"%string) as (row & f & Hr & Hf & _ & E1);
    [vm_compute; reflexivity..| | |exact H|reflexivity|exists row, f; by split_and!].
  - intros E1. vm_compute in E1. discriminate E1.
  - apply collision_freeb_true. vm_compute. reflexivity.
Defined.

Lemma write_confined_witness : ann_writes "snapshot" = Ok ((), shut) ∧
  ∃ t, ("door"%string, t) ∈ (seen "snapshot").2.
Proof.
  assert (H : ann_writes "snapshot" = Ok ((), shut)) by (vm_compute; reflexivity).
  split; [exact H|].
  destruct (write_confined ann 3 3 3 (says (seen "snapshot").2 "" None "") (Settings "snapshot" team)
    (add "door" (Note "the door is shut" team "")) (busy "snapshot") () shut) with (i := "door"%string) as [Hs|[Ho _]].
  - intros E1. vm_compute in E1. discriminate E1.
  - vm_compute. reflexivity.
  - exact H.
  - exfalso. unfold same_version in Hs. change (row_get "door" (facts (busy "snapshot"))) with (Some door) in Hs.
    change (row_get "door" shut) with (Some (Note "the door is shut" team "")) in Hs.
    destruct Hs as (t & H1 & H2). vm_compute in H1, H2. congruence.
  - destruct (Ho door) as [_ Hsnap]; [vm_compute; reflexivity|].
    destruct (Hsnap eq_refl) as (t & Ht & _). by exists t.
Defined.

(** Ann's lease runs out and Bob takes the item over. *)
Definition lease_ann := ok_or (Grant "" 0 0, shared "sequenced") (lease ann 0 "key-a" "close" "default" team 60 (shared "sequenced")).
Definition lease_bob := ok_or (Grant "" 0 0, shared "sequenced") (lease bob 60000000 "key-b" "close" "default" team 60 lease_ann.2).

Lemma superseded_writer_fenced_witness : g_fence lease_ann.1 = 1 ∧ g_fence lease_bob.1 = 2 ∧
  ∃ e, commit (transaction ann 60000001 60000001 60000001 (Some (says (seen "sequenced").2 "close" (Some 1) "key-a")) None
    (add "door" (Note "the door is shut" team "")) lease_bob.2) lease_bob.2 = (Err e, lease_bob.2).
Proof.
  split; [reflexivity|]. split; [reflexivity|].
  destruct (superseded_writer_fenced ann 0 "key-a" bob 60000000 "key-b" "close" "default" team team 60 60 [] []
    (shared "sequenced") lease_ann.1 lease_ann.2 lease_bob.1 lease_bob.2) as [_ H]; [reflexivity|reflexivity|].
  apply (H unit ann 60000001 60000001 60000001 (says (seen "sequenced").2 "close" (Some 1) "key-a") (Settings "sequenced" team)
    (add "door" (Note "the door is shut" team "")) lease_bob.2); reflexivity.
Defined.

Lemma policy_not_bypassed_witness :
  (commit (transaction ann 1 1 1 None (Some ["door"%string]) (λ fs, Ok ((), row_drop "door"%string fs)) (shared "snapshot")) (shared "snapshot")).1 = Ok () ∧
  match commit (transaction ann 1 1 1 None None (add "door" door) (shared "snapshot")) (shared "snapshot") with
  | (Err _, s') => s' = shared "snapshot"
  | (Ok _, _) => False
  end.
Proof.
  split; [vm_compute; reflexivity|].
  pose proof (policy_not_bypassed ann 1 1 1 None (add "door" door) (shared "snapshot") [("default", Settings "snapshot" team)]
    "default" (Settings "snapshot" team)) as H.
  destruct (commit _ _) as [[r|e] s'].
  - destruct H as (ids & [=] & _); [reflexivity|by left|done].
  - apply H; [reflexivity|by left|done].
Defined.
