(* ===== verification/MemoryBlocks.v ===== *)
(** * Working memory blocks ([unimem/memory_blocks.py])

    A block is a content file and a metadata file under the directory of its
    scope, with one audit log for all of them.  A disk is the files by their
    paths and the luck its operations will have: an operation of the operating
    system works, or fails and leaves what it had written.  Files hold what
    this module writes, or a text a failing write left behind; JSON is the
    codec of the standard library, so metadata and log rows are records.  The
    inter-process lock serializes the operations. *)

From stdpp Require Import gmap.
From S2P Require Import Prelude Sha256 Unicode Wire Strings Effects.
Local Open Scope Z_scope.

(** ** Definitions *)

Definition DEFAULT_MAX_CHARS : Z := 2000.
Definition MAX_QUOTA_CHARS : Z := 100000.

Inductive exn :=
  | MemoryBlockError | QuotaExceededError | BlockNotFoundError | SubstringNotFoundError | ReadOnlyBlockError
  | RevisionConflictError (name expected actual : ustr)
  | Py (e : pyexn).
#[export] Instance exn_eq_dec : EqDecision exn.
Proof. solve_decision. Defined.

(** ** Files *)

Record meta := Meta {
  m_name : ustr;
  m_max_chars : Z;
  m_revision : ustr;
  m_created_at : ustr;
  m_updated_at : ustr;
  m_metadata : list (string * json);
  m_read_only : bool;
  m_scope : ustr;
}.

Inductive action := Set_ | Delete.
Record entry := Entry {
  e_timestamp : ustr;
  e_block : ustr;
  e_action : action;
  e_actor : ustr;
  e_reason : ustr;
  e_revision : ustr;
  e_prev_revision : ustr;
  e_char_count : Z;
  e_scope : ustr;
}.

Inductive kind := Content | MetaJson.
Inductive variant := Live | Tmp | Bak.
(** [history.jsonl], or a file of the block [name] in the directory [dir]:
    [name.md] or [name.meta.json], itself or with [.tmp] or [.bak] after it. *)
Inductive path := History | BlockPath (dir name : ustr) (k : kind) (v : variant).

#[export] Instance kind_eq_dec : EqDecision kind.
Proof. solve_decision. Defined.
#[export] Instance variant_eq_dec : EqDecision variant.
Proof. solve_decision. Defined.
#[export] Instance path_eq_dec : EqDecision path.
Proof. solve_decision. Defined.
Definition kind_code (k : kind) : bool := match k with Content => true | MetaJson => false end.
Definition variant_code (v : variant) : option bool := match v with Live => None | Tmp => Some true | Bak => Some false end.
#[export] Instance path_countable : Countable path.
Proof.
  apply (inj_countable'
    (λ p, match p with History => None | BlockPath d n k v => Some (d, n, kind_code k, variant_code v) end)
    (λ c, match c with
          | None => History
          | Some (d, n, k, v) => BlockPath d n (if k : bool then Content else MetaJson)
              (match v with None => Live | Some true => Tmp | Some false => Bak end)
          end)).
  intros [|d n [] []]; reflexivity.
Defined.

(** A log: its lines, [None] for one that is no JSON, and whether an
    unterminated line follows them. *)
Inductive file := Text (s : ustr) | Metadata (m : meta) | Journal (rows : list (option entry)) (torn : bool).

Inductive leftover := Untouched | Partial (s : ustr) | Whole.
Inductive luck := Works | Fails (l : leftover).
Record disk := Disk { files : gmap path file; fate : list luck }.

Abbreviation op := (io disk exn).

Definition lucky : op luck := λ d,
  match fate d with l :: f => (Ok l, Disk (files d) f) | [] => (Ok Works, d) end.
Definition update (f : gmap path file → gmap path file) : op () := modify (λ d, Disk (f (files d)) (fate d)).
Definition os_error {A} : op A := raise (Py OSError).

(** Write, flush and fsync: [partial s] is the file a torn write leaves. *)
Definition put_file (p : path) (x : file) (partial : ustr → file) : op () :=
  l ← lucky;
  match l with
  | Works => update (<[p := x]>)
  | Fails Untouched => os_error
  | Fails (Partial s) => update (<[p := partial s]>);; os_error
  | Fails Whole => update (<[p := x]>);; os_error
  end.
Definition write (p : path) (x : file) : op () := put_file p x Text.
(** [open(p).read()] *)
Definition open_read (p : path) : op file :=
  l ← lucky; d ← get;
  match l with Works => of_res (get_or (files d !! p) (Py FileNotFoundError)) | Fails _ => os_error end.
Definition exists_ (p : path) : op bool := d ← get; mret (bool_decide (is_Some (files d !! p))).
(** [os.replace], [shutil.copyfile] and [os.remove] *)
Definition replace_ (src dst : path) : op () :=
  x ← open_read src; update (λ m, <[dst := x]> (delete src m)).
Definition copyfile (src dst : path) : op () := x ← open_read src; write dst x.
Definition remove (p : path) : op () := _ ← open_read p; update (delete p).
Definition makedirs : op () := l ← lucky; match l with Works => mret tt | Fails _ => os_error end.

Definition _discard (paths : list path) : op () :=
  foreach (λ p, catch (remove p) (λ e, match e with Py FileNotFoundError => Some (mret tt) | _ => None end)) paths.

(** ** The audit log *)

(** A journal's size: its whole lines and the fragment after them. *)
Definition size_of (f : option file) : nat * bool :=
  match f with Some (Journal rows torn) => (length rows, torn) | _ => (0%nat, false) end.
Definition appended (f : option file) (e : entry) : file :=
  match f with Some (Journal rows torn) => Journal (rows ++ [if torn then None else Some e]) false | _ => Journal [Some e] false end.
Definition fragment (f : option file) : file :=
  match f with Some (Journal rows _) => Journal rows true | _ => Journal [] true end.
Definition append_line (e : entry) : op () :=
  d ← get; let old := files d !! History in put_file History (appended old e) (λ _, fragment old).
Definition truncate (size : nat * bool) : op () :=
  f ← open_read History;
  update (<[History := match f with Journal rows _ => Journal (take size.1 rows) size.2 | f => f end]>).

Definition _log (e : entry) : op () :=
  makedirs;;
  had_history ← exists_ History;
  d ← get; let previous_size := size_of (files d !! History) in
  on_error (append_line e) (if (had_history : bool) then truncate previous_size else _discard [History]).

(** ** Names, scopes and revisions *)

Definition is_alnum (c : Z) : bool := between 97 122 c || between 65 90 c || between 48 57 c.
Definition is_plain (c : Z) : bool := is_alnum c || (c =? 95) || (c =? 45).
(** [re.sub(r"[^a-zA-Z0-9_\-]", "_", s)] *)
Definition plain (s : ustr) : ustr := map (λ c, if is_plain c then c else 95) s.
Definition encode (s : ustr) : res exn string := get_or (utf8 s) (Py ValueError).
Definition hexdigest (n : nat) (s : ustr) : res exn ustr := payload ← encode s; Ok (u (str_take n (sha256_hex payload))).

Definition _compute_revision (name content prev_revision : ustr) : res exn ustr :=
  hexdigest 16 (name ++ u ":" ++ content ++ u ":" ++ prev_revision).

Section unicode.
Variable uni_digit : Z → option (fin 10).
Variable uni_lower : ustr → Z → ustr → ustr.
(** The readings of the clock in an operation. *)
Variables created_now updated_now : ustr.

Definition _sanitize_name (name : ustr) : res exn ustr :=
  let clean := plain (lower uni_lower (strip name)) in
  require (negb (bool_decide (strip_of (u "_-") clean = []))) MemoryBlockError;;
  require (Z.of_nat (length clean) <=? 64) MemoryBlockError;;
  Ok clean.

(** [^(session|agent):(.{1,200})$], [.] any character: the kind and the id. *)
Definition scope_match (text : ustr) : option (ustr * ustr) :=
  let after k := let p := u k ++ [58] in
    let id := drop (length p) text in
    if starts_with p text && (1 <=? Z.of_nat (length id)) && (Z.of_nat (length id) <=? 200) then Some (u k, id) else None in
  match after "session"%string with Some m => Some m | None => after "agent"%string end.
Definition is_control (c : Z) : bool := between 0 31 c || (c =? 127).

Definition GLOBAL_SCOPE : ustr := [].
Definition normalize_scope (scope : ustr) : res exn ustr :=
  let text := strip scope in
  if bool_decide (text = []) || bool_decide (text = u "global") then Ok GLOBAL_SCOPE
  else match scope_match text with
       | Some (k, id) =>
           require (negb (bool_decide (strip id = []) || existsb is_control id)) MemoryBlockError;;
           Ok (k ++ [58] ++ strip id)
       | None => Err MemoryBlockError
       end.

(** [scope.split(":", 1)] *)
Fixpoint split_colon (s : ustr) : ustr * ustr :=
  match s with
  | [] => ([], [])
  | c :: s' => if c =? 58 then ([], s') else let '(k, id) := split_colon s' in (c :: k, id)
  end.
Definition _scope_dirname (scope : ustr) : res exn ustr :=
  let '(k, ident) := split_colon scope in
  let label := strip_of (u "_-") (take 48 (plain ident)) in
  digest ← hexdigest 12 ident;
  Ok (k ++ u "/" ++ (if bool_decide (label = []) then u "id" else label) ++ u "-" ++ digest).
(** Relative to [memory/blocks]. *)
Definition _blocks_dir (scope : ustr) : res exn ustr :=
  if bool_decide (scope = []) then Ok [] else d ← _scope_dirname scope; Ok (u "scopes/" ++ d).
Definition _meta_file (dir name : ustr) : path := BlockPath dir name MetaJson Live.
Definition _content_file (dir name : ustr) : path := BlockPath dir name Content Live.

Definition resolution_order (session agent : ustr) : res exn (list ustr) :=
  let scoped k id := if bool_decide (id = []) then Ok []
    else s ← normalize_scope (if starts_with (u k ++ [58]) id then id else u k ++ [58] ++ id); Ok [s] in
  s ← scoped "session"%string session; a ← scoped "agent"%string agent; Ok (s ++ a ++ [GLOBAL_SCOPE]).

(** ** Reading *)

Record MemoryBlock := Block {
  b_name : ustr;
  b_content : ustr;
  b_char_count : Z;
  b_max_chars : Z;
  b_revision : ustr;
  b_created_at : ustr;
  b_updated_at : ustr;
  b_metadata : list (string * json);
  b_read_only : bool;
  b_scope : ustr;
}.

Definition len (s : ustr) : Z := Z.of_nat (length s).

Definition read_block (clean dir scope : ustr) : op MemoryBlock :=
  f ← open_read (_meta_file dir clean);
  meta ← match f with Metadata m => mret m | _ => raise (Py ValueError) end;
  f ← open_read (_content_file dir clean);
  content ← match f with Text s => mret (translate_newlines s) | _ => raise (Py ValueError) end;
  mret (Block clean content (len content) (m_max_chars meta) (m_revision meta) (m_created_at meta) (m_updated_at meta)
    (m_metadata meta) (m_read_only meta) scope).
Definition _get_block_locked (name scope : ustr) : op MemoryBlock :=
  clean ← of_res (_sanitize_name name);
  dir ← of_res (_blocks_dir scope);
  catch (read_block clean dir scope) (λ e, match e with
    | Py FileNotFoundError => Some (raise BlockNotFoundError)
    | Py ValueError => Some (raise MemoryBlockError)
    | _ => None
    end).
Definition get_block (name scope : ustr) : op MemoryBlock :=
  scope ← of_res (normalize_scope scope); _get_block_locked name scope.

(** [None] for what is no dictionary. *)
Definition _read_meta (p : path) : op (option meta) :=
  catch (f ← open_read p; mret (match f with Metadata m => Some m | _ => None end))
    (λ e, match e with Py _ => Some (mret None) | _ => None end).

Fixpoint ultb (s t : ustr) : bool :=
  match s, t with
  | _, [] => false
  | [], _ :: _ => true
  | a :: s', b :: t' => (a <? b) || ((a =? b) && ultb s' t')
  end.
(** The names with a file [name.meta.json] in the directory, in the order of
    the files. *)
Definition meta_names (m : gmap path file) (dir : ustr) : list ustr :=
  sort_by (λ a b, ultb (a ++ u ".meta.json") (b ++ u ".meta.json"))
    (omap (λ p, match p.1 with BlockPath d n MetaJson Live => if bool_decide (d = dir) then Some n else None | _ => None end)
       (map_to_list m)).
Definition is_block_error (e : exn) : bool := match e with Py _ => false | _ => true end.
Fixpoint blocks_of (names : list ustr) (scope : ustr) : op (list MemoryBlock) :=
  match names with
  | [] => mret []
  | n :: names' =>
      b ← catch (b ← get_block n scope; mret (Some b)) (λ e, if is_block_error e then Some (mret None) else None);
      bs ← blocks_of names' scope; mret (match b with Some b => b :: bs | None => bs end)
  end.
Definition list_blocks (scope : ustr) : op (list MemoryBlock) :=
  scope ← of_res (normalize_scope scope); dir ← of_res (_blocks_dir scope);
  d ← get; blocks_of (meta_names (files d) dir) scope.

Fixpoint first_block (name : ustr) (order : list ustr) : op MemoryBlock :=
  match order with
  | [] => _ ← of_res (_sanitize_name name); raise BlockNotFoundError
  | scope :: order' => catch (_get_block_locked name scope)
      (λ e, match e with BlockNotFoundError => Some (first_block name order') | _ => None end)
  end.
Definition resolve_block (name session agent : ustr) : op MemoryBlock :=
  order ← of_res (resolution_order session agent); first_block name order.

(** [chosen.setdefault(block.name, block)] *)
Definition choose (chosen : list MemoryBlock) (b : MemoryBlock) : list MemoryBlock :=
  if existsb (λ c, bool_decide (b_name c = b_name b)) chosen then chosen else chosen ++ [b].
Fixpoint choose_all (order : list ustr) (chosen : list MemoryBlock) : op (list MemoryBlock) :=
  match order with
  | [] => mret chosen
  | scope :: order' => bs ← list_blocks scope; choose_all order' (fold_left choose bs chosen)
  end.
Definition resolved_blocks (session agent : ustr) : op (list MemoryBlock) :=
  order ← of_res (resolution_order session agent);
  chosen ← choose_all order []; mret (sort_by (λ a b, ultb (b_name a) (b_name b)) chosen).

(** ** Writing *)

(** The local variables the error handling looks at. *)
Record flags := Flags { content_saved : bool; content_written : bool; meta_written : bool; cleanup_backups : bool }.
Definition locals : Type := disk * flags.
Definition on_disk {A} (m : op A) : io locals exn A := zoom fst (λ s d, (d, s.2)) m.
Definition set_flags (f : flags → flags) : io locals exn () := modify (λ s, (s.1, f s.2)).
Definition flag (proj : flags → bool) : io locals exn bool := s ← get; mret (proj s.2).
Definition saved_now (f : flags) : flags := Flags true (content_written f) (meta_written f) (cleanup_backups f).
Definition written_now (f : flags) : flags := Flags (content_saved f) true (meta_written f) (cleanup_backups f).
Definition meta_now (f : flags) : flags := Flags (content_saved f) (content_written f) true (cleanup_backups f).
Definition cleanup_now (f : flags) : flags := Flags (content_saved f) (content_written f) (meta_written f) true.

Section transaction.
Variables (dir clean : ustr).
Let file_of := BlockPath dir clean.

(** The body of the [try] statement: the new files and the backup of the
    metadata are written, the content is replaced, then the metadata. *)
Definition write_copies (had_meta : bool) (content : ustr) (m : meta) : io locals exn () :=
  on_disk (write (file_of Content Tmp) (Text content));;
  on_disk (write (file_of MetaJson Tmp) (Metadata m));;
  when had_meta (on_disk (copyfile (file_of MetaJson Live) (file_of MetaJson Bak))).
Definition swap_content (had_content : bool) : io locals exn () :=
  when had_content (on_disk (replace_ (file_of Content Live) (file_of Content Bak));; set_flags saved_now);;
  on_disk (replace_ (file_of Content Tmp) (file_of Content Live));; set_flags written_now.
Definition swap_meta (e : entry) : io locals exn () :=
  on_disk (replace_ (file_of MetaJson Tmp) (file_of MetaJson Live));; set_flags meta_now;;
  on_disk (_log e);;
  set_flags cleanup_now.
Definition install (had_content had_meta : bool) (content : ustr) (m : meta) (e : entry) : io locals exn () :=
  write_copies had_meta content m;; swap_content had_content;; swap_meta e.
(** [except BaseException] *)
Definition roll_back (had_meta : bool) : io locals exn () :=
  w ← flag meta_written;
  when w (on_disk (if had_meta then replace_ (file_of MetaJson Bak) (file_of MetaJson Live)
                   else _discard [file_of MetaJson Live]));;
  saved ← flag content_saved; written ← flag content_written;
  (if saved : bool then on_disk (replace_ (file_of Content Bak) (file_of Content Live))
   else when written (on_disk (_discard [file_of Content Live])));;
  set_flags cleanup_now.
Definition clean_up : io locals exn () :=
  on_disk (_discard [file_of Content Tmp; file_of MetaJson Tmp]);;
  c ← flag cleanup_backups;
  when c (on_disk (_discard [file_of Content Bak; file_of MetaJson Bak])).
Definition transaction (had_content had_meta : bool) (content : ustr) (m : meta) (e : entry) : op () := λ d,
  let '(r, s) := finally (on_error (install had_content had_meta content m e) (roll_back had_meta)) clean_up
                   (d, Flags false false false false) in (r, s.1).
End transaction.

Definition or_else (s t : ustr) : ustr := if bool_decide (s = []) then t else s.
Definition update_dict (old new : list (string * json)) : list (string * json) :=
  fold_left (λ m kv, assoc_set kv.1 kv.2 m) new old.

Definition _write_locked (scope clean content : ustr) (max_chars : Z) (actor reason : ustr)
    (metadata : list (string * json)) (read_only : bool) : op MemoryBlock :=
  of_res (require (max_chars <=? MAX_QUOTA_CHARS) MemoryBlockError);;
  of_res (require (len content <=? max_chars) QuotaExceededError);;
  dir ← of_res (_blocks_dir scope);
  makedirs;;
  existing ← _read_meta (_meta_file dir clean);
  let prev_revision := default [] (m_revision <$> existing) in
  let created_at := or_else (default [] (m_created_at <$> existing)) created_now in
  let effective_read_only := default false (m_read_only <$> existing) || read_only in
  revision ← of_res (_compute_revision clean content prev_revision);
  let merged := update_dict (default [] (m_metadata <$> existing)) metadata in
  let meta := Meta clean max_chars revision created_at updated_now merged effective_read_only scope in
  had_content ← exists_ (_content_file dir clean);
  had_meta ← exists_ (_meta_file dir clean);
  transaction dir clean had_content had_meta content meta
    (Entry updated_now clean Set_ actor reason revision prev_revision (len content) scope);;
  mret (Block clean content (len content) max_chars revision created_at updated_now merged effective_read_only scope).

Definition _check_mutable (b : MemoryBlock) : res exn () := require (negb (b_read_only b)) ReadOnlyBlockError.
Definition _check_revision (name actual : ustr) (expected : option ustr) : res exn () :=
  match expected with
  | Some e => require (bool_decide (actual = e)) (RevisionConflictError name e actual)
  | None => Ok tt
  end.
(** The block there is, checked, or [None] after the check of a missing one. *)
Definition current (clean scope : ustr) (expected_revision : option ustr) : op (option MemoryBlock) :=
  catch (b ← _get_block_locked clean scope;
         of_res (_check_revision clean (b_revision b) expected_revision);; of_res (_check_mutable b);; mret (Some b))
    (λ e, match e with
          | BlockNotFoundError => Some (of_res (_check_revision clean [] expected_revision);; mret None)
          | _ => None end).

Definition set_block (name content : ustr) (max_chars : Z) (actor reason : ustr) (metadata : list (string * json))
    (read_only : bool) (expected_revision : option ustr) (scope : ustr) : op MemoryBlock :=
  clean ← of_res (_sanitize_name name);
  scope ← of_res (normalize_scope scope);
  _ ← current clean scope expected_revision;
  _write_locked scope clean (strip (expandtabs content)) max_chars actor reason metadata read_only.

Definition append_block (name text actor reason : ustr) (expected_revision : option ustr) (scope : ustr) : op MemoryBlock :=
  clean ← of_res (_sanitize_name name);
  scope ← of_res (normalize_scope scope);
  block ← current clean scope expected_revision;
  let base := default [] (b_content <$> block) in
  let appended := strip (expandtabs text) in
  let new_content := if bool_decide (base = []) then appended else strip (base ++ [10] ++ appended) in
  _write_locked scope clean new_content (default DEFAULT_MAX_CHARS (b_max_chars <$> block)) actor (or_else reason (u "append")) [] false.

(** [_LINE_PREFIX_RE] at the start of a line: the rest of the text after it. *)
Fixpoint drop_while (p : Z → bool) (s : ustr) : ustr :=
  match s with c :: s' => if p c then drop_while p s' else s | [] => [] end.
Definition after_one (p : Z → bool) (s : ustr) : option ustr :=
  match s with c :: _ => if p c then Some (drop_while p s) else None | [] => None end.
Definition after_char (p : Z → bool) (s : ustr) : option ustr :=
  match s with c :: s' => if p c then Some s' else None | [] => None end.
Definition line_prefix (s : ustr) : option ustr :=
  let numbered s marker := rest ← after_one (is_digit uni_digit) s; rest ← after_char marker rest; Some (drop_while is_space rest) in
  match (if starts_with (u "Line") s then rest ← after_one is_space (drop 4 s); numbered rest (Z.eqb 58) else None) with
  | Some rest => Some rest
  | None => numbered s (λ c, (c =? 8594) || (c =? 62))
  end.
(** The fuel is more than the characters left. *)
Fixpoint strip_prefixes (fuel : nat) (line_start : bool) (s : ustr) : ustr :=
  match fuel, s with
  | S fuel', c :: s' =>
      match (if line_start then line_prefix s else None) with
      | Some rest => strip_prefixes fuel' (bool_decide (last (take (length s - length rest) s) = Some 10)) rest
      | None => c :: strip_prefixes fuel' (c =? 10) s'
      end
  | _, _ => []
  end.
Definition strip_line_prefix (text : ustr) : ustr := strip_prefixes (S (length text)) true text.

Definition replace_reason (old_str new_str : ustr) : ustr :=
  u "replaced '" ++ take 20 old_str ++ u "' with '" ++ take 20 new_str ++ u "'".
Definition replace_block (name old_str new_str actor reason : ustr) (expected_revision : option ustr) (scope : ustr) : op MemoryBlock :=
  of_res (require (negb (bool_decide (old_str = []))) MemoryBlockError);;
  clean ← of_res (_sanitize_name name);
  scope ← of_res (normalize_scope scope);
  let old_str := strip_line_prefix (expandtabs old_str) in
  let new_str := strip_line_prefix (expandtabs new_str) in
  block ← _get_block_locked clean scope;
  of_res (_check_revision clean (b_revision block) expected_revision);;
  of_res (_check_mutable block);;
  let normalised := expandtabs (b_content block) in
  of_res (require (negb (occurrences old_str normalised =? 0)%nat) SubstringNotFoundError);;
  of_res (require (occurrences old_str normalised =? 1)%nat MemoryBlockError);;
  _write_locked scope clean (strip (ureplace old_str new_str normalised)) (b_max_chars block) actor
    (or_else reason (replace_reason old_str new_str)) [] false.

(** [text.rstrip("\n")] *)
Definition rstrip_newlines (s : ustr) : ustr := rev (lstrip_of [10] (rev s)).
(** [str(n)] *)
Definition decimal (n : Z) : ustr := u (pretty.pretty n).
Definition insert_lines (ls : list ustr) (line_number : Z) (insertion : ustr) : res exn (list ustr) :=
  let n := Z.of_nat (length ls) in
  if (line_number =? -1) || (n <=? line_number) then Ok (ls ++ [insertion])
  else if line_number =? 0 then Ok (insertion :: ls)
  else if (1 <=? line_number) && (line_number <=? n) then
    Ok (take (Z.to_nat line_number) ls ++ insertion :: drop (Z.to_nat line_number) ls)
  else Err MemoryBlockError.
Definition insert_block (name text : ustr) (line_number : Z) (actor reason : ustr) (expected_revision : option ustr) (scope : ustr) :
    op MemoryBlock :=
  clean ← of_res (_sanitize_name name);
  scope ← of_res (normalize_scope scope);
  block ← current clean scope expected_revision;
  let ls := match block with Some b => lines (expandtabs (b_content b)) | None => [] end in
  ls ← of_res (insert_lines ls line_number (rstrip_newlines (expandtabs text)));
  _write_locked scope clean (strip (ujoin [10] ls)) (default DEFAULT_MAX_CHARS (b_max_chars <$> block)) actor
    (or_else reason (u "inserted at line " ++ decimal line_number)) [] false.

(** ** Deleting

    [saved] is the files moved to their backups, the last one first. *)
Definition saving : Type := disk * list kind * bool.
Definition on_disk' {A} (m : op A) : io saving exn A := zoom (λ s, s.1.1) (λ s d, (d, s.1.2, s.2)) m.
Section removal.
Variables (dir clean : ustr).
Let file_of := BlockPath dir clean.

Definition move_away (e : entry) : io saving exn () :=
  foreach (λ k,
    x ← on_disk' (exists_ (file_of k Live));
    when x (on_disk' (replace_ (file_of k Live) (file_of k Bak));; modify (λ s, (s.1.1, k :: s.1.2, s.2))))
    [MetaJson; Content];;
  on_disk' (_log e);;
  modify (λ s, (s.1, true)).
Definition move_back : io saving exn () :=
  s ← get;
  foreach (λ k, on_disk' (replace_ (file_of k Bak) (file_of k Live))) s.1.2;;
  modify (λ s, (s.1, true)).
Definition drop_backups : io saving exn () :=
  s ← get; when s.2 (on_disk' (_discard (map (λ k, file_of k Bak) (rev s.1.2)))).
Definition removal (e : entry) : op () := λ d,
  let '(r, s) := finally (on_error (move_away e) move_back) drop_backups (d, [], false) in (r, s.1.1).
End removal.

Definition delete_block (name actor reason : ustr) (expected_revision : option ustr) (scope : ustr) : op bool :=
  clean ← of_res (_sanitize_name name);
  scope ← of_res (normalize_scope scope);
  dir ← of_res (_blocks_dir scope);
  has_meta ← exists_ (_meta_file dir clean); has_content ← exists_ (_content_file dir clean);
  if negb has_meta && negb has_content then
    of_res (_check_revision clean [] expected_revision);; mret false
  else
    existing ← _read_meta (_meta_file dir clean);
    let prev_revision := default [] (m_revision <$> existing) in
    of_res (_check_revision clean prev_revision expected_revision);;
    of_res (require (negb (default false (m_read_only <$> existing))) ReadOnlyBlockError);;
    revision ← of_res (_compute_revision clean [] prev_revision);
    removal dir clean (Entry updated_now clean Delete actor reason revision prev_revision 0 scope);;
    mret true.

(** ** The audit log's readers *)

(** The readable lines, the unterminated one apart. *)
Definition read_rows : op (list entry) :=
  catch (f ← open_read History; mret (match f with Journal rows _ => omap id rows | _ => [] end))
    (λ e, match e with Py FileNotFoundError => Some (mret []) | _ => None end).
Definition block_history (name scope : ustr) : op (list entry) :=
  clean ← of_res (if bool_decide (name = []) then Ok [] else _sanitize_name name);
  let every := bool_decide (scope = u "*") in
  wanted ← of_res (if every then Ok [] else normalize_scope scope);
  rows ← read_rows;
  mret (List.filter (λ e, (bool_decide (clean = []) || bool_decide (e_block e = clean)) &&
                          (every || bool_decide (e_scope e = wanted))) rows).

(** ** Rendering *)

(** [xml.sax.saxutils.escape], with and without the quote entity. *)
Definition escape_char (quotes : bool) (c : Z) : ustr :=
  if c =? 38 then u "&amp;" else if c =? 62 then u "&gt;" else if c =? 60 then u "&lt;"
  else if quotes && (c =? 34) then u "&quot;" else [c].
Definition escape (quotes : bool) (s : ustr) : ustr := concat (map (escape_char quotes) s).
Definition quoted (s : ustr) : ustr := [34] ++ s ++ [34].
Definition tag_of (name : ustr) : res exn ustr :=
  tag ← _sanitize_name name;
  Ok (match tag with c :: _ => if (is_alnum c && negb (between 48 57 c)) || (c =? 95) then tag else u "block_" ++ tag | [] => tag end).
Definition render_block (b : MemoryBlock) : res exn (list ustr) :=
  tag ← tag_of (b_name b);
  let scope_attr := if bool_decide (b_scope b = []) then [] else u " scope=" ++ quoted (escape true (b_scope b)) in
  Ok [u "  <" ++ tag ++ u ">";
      u "    <metadata chars_current=" ++ quoted (decimal (b_char_count b)) ++
        u " chars_limit=" ++ quoted (decimal (b_max_chars b)) ++
        u " read_only=" ++ quoted (if b_read_only b then u "true" else u "false") ++ scope_attr ++ u "/>";
      u "    <value>" ++ escape false (b_content b) ++ u "</value>";
      u "  </" ++ tag ++ u ">"].
Definition render_memory_blocks (blocks : list MemoryBlock) : res exn ustr :=
  match blocks with
  | [] => Ok []
  | _ => ls ← mapR render_block blocks; Ok (ujoin [10] ([u "<memory_blocks>"] ++ concat ls ++ [u "</memory_blocks>"]))
  end.
End unicode.
