(* ===== verification/MemoryBlocksSpec.v ===== *)
(** * Memory blocks: writes are atomic, and what they keep

    An operation meets at most one failure of the operating system.  Whatever
    fails, the files of the block and the log are as before, or as the
    completed write leaves them. *)

From stdpp Require Import gmap.
From S2P Require Import Prelude Sha256 Unicode Wire Strings Effects MemoryBlocks.
Local Open Scope Z_scope.

(** ** Reasoning about operations that may fail *)

(** All operations will work; at most one of them will not. *)
Definition works (l : luck) : Prop := l = Works.
Definition calm (d : disk) : Prop := Forall works (fate d).
Definition one_fault (d : disk) : Prop :=
  calm d ∨ ∃ before l after, fate d = before ++ Fails l :: after ∧ Forall works before ∧ Forall works after.

Lemma calm_one_fault d : calm d → one_fault d.
Proof. by left. Qed.

(** The primitives: on a disk with one fault they work and leave one, or fail
    and leave none. *)
Lemma holds_lucky d Q R : one_fault d →
  (∀ d', files d' = files d → one_fault d' → Q Works d') → (∀ l d', files d' = files d → calm d' → Q (Fails l) d') →
  holds lucky d Q R.
Proof.
  intros H HW HF. unfold holds, lucky. destruct d as [m [|l f]]; cbn [fate files] in *; [by apply HW|].
  destruct H as [[Hl Hf]%Forall_cons|(b & l' & a & E & Hb & Ha)].
  - rewrite Hl. apply HW; [done|by left].
  - destruct b as [|l1 b]; simplify_eq/=; [by apply HF|]. apply Forall_cons in Hb as [-> Hb]. apply HW; [done|].
    right. by exists b, l', a.
Qed.
Lemma holds_lucky_calm d Q R : calm d → (∀ d', files d' = files d → calm d' → Q Works d') → holds lucky d Q R.
Proof.
  intros H HW. unfold holds, lucky. destruct d as [m [|l f]]; cbn [fate files] in *; [by apply HW|].
  apply Forall_cons in H as [-> Hf]. by apply HW.
Qed.

Lemma holds_put_file p x partial d Q R : one_fault d →
  (∀ d', files d' = <[p := x]> (files d) → one_fault d' → Q tt d') →
  (∀ e d', (files d' = files d ∨ (∃ s, files d' = <[p := partial s]> (files d)) ∨ files d' = <[p := x]> (files d)) →
     calm d' → R e d') →
  holds (put_file p x partial) d Q R.
Proof.
  intros H HW HF. apply holds_bind, holds_lucky; [done| |].
  - intros d' E H'. apply HW; [|done]. simpl. by rewrite E.
  - intros l d' E H'. destruct l as [|s|]; (apply HF; [|exact H']); simpl; rewrite ?E; eauto.
Qed.
Lemma holds_open_read p x d Q R : one_fault d → files d !! p = Some x →
  (∀ d', files d' = files d → one_fault d' → Q x d') → (∀ e d', files d' = files d → calm d' → R e d') →
  holds (open_read p) d Q R.
Proof.
  intros H Hx HW HF. apply holds_bind, holds_lucky; [done| |].
  - intros d' E H'. unfold holds. simpl. rewrite E, Hx. by apply HW.
  - intros l d' E H'. by apply HF.
Qed.
Lemma holds_open_read_calm p d Q R : calm d →
  (∀ x d', files d !! p = Some x → files d' = files d → calm d' → Q x d') →
  (∀ d', files d !! p = None → files d' = files d → calm d' → R (Py FileNotFoundError) d') →
  holds (open_read p) d Q R.
Proof.
  intros H HW HF. apply holds_bind, holds_lucky_calm; [done|]. intros d' E H'. unfold holds. simpl. rewrite E.
  destruct (files d !! p) eqn:Ep; simpl; eauto.
Qed.
Lemma holds_replace src dst x d Q R : one_fault d → files d !! src = Some x →
  (∀ d', files d' = <[dst := x]> (delete src (files d)) → one_fault d' → Q tt d') →
  (∀ e d', files d' = files d → calm d' → R e d') → holds (replace_ src dst) d Q R.
Proof.
  intros H Hx HW HF. eapply holds_bind, holds_open_read; [done|done| |done].
  intros d' E H'. apply HW; [|done]. simpl. by rewrite E.
Qed.
Lemma holds_replace_calm src dst x d Q R : calm d → files d !! src = Some x →
  (∀ d', files d' = <[dst := x]> (delete src (files d)) → calm d' → Q tt d') → holds (replace_ src dst) d Q R.
Proof.
  intros H Hx HW. apply holds_bind, holds_open_read_calm; [done| |intros; congruence].
  intros x' d' Hx' E H'. apply HW; [|done]. simpl. congruence.
Qed.

Lemma holds_remove p d Q R : one_fault d → is_Some (files d !! p) →
  (∀ d', files d' = delete p (files d) → one_fault d' → Q tt d') →
  (∀ e d', files d' = files d → calm d' → R e d') → holds (remove p) d Q R.
Proof.
  intros H [x Hx] HW HF. eapply holds_bind, holds_open_read; [done|done| |done].
  intros d' E H'. apply HW; [|done]. simpl. by rewrite E.
Qed.

Definition swallow (p : path) : op () :=
  catch (remove p) (λ e, match e with Py FileNotFoundError => Some (mret tt) | _ => None end).
Lemma holds_swallow_calm p d (Q : () → disk → Prop) R : calm d →
  (∀ d', files d' = delete p (files d) → calm d' → Q tt d') → holds (swallow p) d Q R.
Proof.
  intros H HQ. unfold holds, swallow, catch.
  enough (holds (remove p) d Q (λ e d', e = Py FileNotFoundError ∧ Q tt d')) as Hr.
  { unfold holds in Hr. destruct (remove p d) as [[[]|e] d']; [done|]. by destruct Hr as [-> ?]. }
  apply holds_bind, holds_open_read_calm; [done| |].
  - intros x d' Hx E H'. apply HQ; [|done]. simpl. by rewrite E.
  - intros d' Hn E H'. split; [done|]. apply HQ; [|done]. rewrite E. symmetry. by apply delete_id.
Qed.
(** The files outside [ps] are the same. *)
Definition same_but (ps : list path) (m m' : gmap path file) : Prop := ∀ p, p ∉ ps → m' !! p = m !! p.
Lemma holds_swallow p d (Q : () → disk → Prop) (R : exn → disk → Prop) : one_fault d →
  (∀ d', files d' = delete p (files d) → one_fault d' → Q tt d') → (∀ e d', files d' = files d → calm d' → R e d') →
  holds (swallow p) d Q R.
Proof.
  intros H HQ HR. unfold holds, swallow, catch.
  enough (holds (remove p) d Q (λ e d', e = Py FileNotFoundError ∧ Q tt d' ∨ e = Py OSError ∧ R e d')) as Hr.
  { unfold holds in Hr. destruct (remove p d) as [[[]|e] d']; [done|]. destruct Hr as [[-> ?]|[-> ?]]; done. }
  apply holds_bind. unfold open_read. apply holds_bind, holds_lucky; [done| |].
  - intros d' E H'. unfold holds. simpl. rewrite E. destruct (files d !! p) eqn:Ep; simpl.
    + apply HQ; [|done]. done.
    + left. split; [done|]. apply HQ; [|done]. rewrite E. symmetry. by apply delete_id.
  - intros l d' E H'. right. split; [done|]. by apply HR.
Qed.
Lemma holds_discard_calm ps d (Q : () → disk → Prop) R : calm d →
  (∀ d', files d' = fold_left (λ m p, delete p m) ps (files d) → calm d' → Q tt d') → holds (_discard ps) d Q R.
Proof.
  unfold _discard. fold swallow. revert d. induction ps as [|p ps IH]; intros d H HQ; [by apply HQ|].
  apply holds_bind, holds_swallow_calm; [done|]. intros d' E H'. apply IH; [done|].
  intros d2 E2. apply HQ. by rewrite E2, E.
Qed.
Lemma holds_discard ps d (Q : () → disk → Prop) (R : exn → disk → Prop) : one_fault d →
  (∀ d', files d' = fold_left (λ m p, delete p m) ps (files d) → one_fault d' → Q tt d') →
  (∀ e d', same_but ps (files d) (files d') → calm d' → R e d') → holds (_discard ps) d Q R.
Proof.
  unfold _discard. fold swallow. revert d. induction ps as [|p ps IH]; intros d H HQ HR; [by apply HQ|].
  apply holds_bind, holds_swallow; [done| |].
  - intros d' E H'. apply IH; [done| |].
    + intros d2 E2. apply HQ. by rewrite E2, E.
    + intros e d2 Hs. apply HR. intros q [Hq Hps]%not_elem_of_cons. rewrite Hs, E by done. by apply lookup_delete_ne.
  - intros e d' E H'. apply HR; [|done]. intros q _. by rewrite E.
Qed.

Lemma holds_exists p d (Q : bool → disk → Prop) R : Q (bool_decide (is_Some (files d !! p))) d → holds (exists_ p) d Q R.
Proof. done. Qed.

(** ** The log *)

(** The log is a log. *)
Definition log_ok (m : gmap path file) : Prop := match m !! History with Some (Journal _ _) | None => True | _ => False end.

Lemma holds_log e d Q R : one_fault d → log_ok (files d) →
  (∀ d', files d' = <[History := appended (files d !! History) e]> (files d) → one_fault d' → Q tt d') →
  (∀ x d', files d' = files d → calm d' → R x d') → holds (_log e) d Q R.
Proof.
  intros H Hlog HQ HR. unfold _log, makedirs. apply holds_bind, holds_bind, holds_lucky; [done| |]; cycle 1.
  { intros l d' E H'. by apply HR. }
  intros d1 E1 H1. apply holds_ret. unfold exists_. apply holds_bind, holds_bind.
  change (holds (mret (bool_decide (is_Some (files d1 !! History))) : op bool) d1
    (λ had s', holds (d0 ← get; on_error (append_line e) (if had : bool then truncate (size_of (files d0 !! History)) else _discard [History])) s' Q R) R).
  apply holds_ret.
  change (holds (on_error (append_line e) (if bool_decide (is_Some (files d1 !! History)) then truncate (size_of (files d1 !! History)) else _discard [History])) d1 Q R).
  rewrite E1. apply holds_on_error.
  change (append_line e) with (λ d, put_file History (appended (files d !! History) e) (λ _, fragment (files d !! History)) d).
  unfold holds at 1. fold (holds (put_file History (appended (files d1 !! History) e) (λ _, fragment (files d1 !! History))) d1 Q
    (λ x s', holds (if bool_decide (is_Some (files d !! History)) then truncate (size_of (files d !! History)) else _discard [History]) s' (λ _ s2, R x s2) R)).
  rewrite E1. apply holds_put_file; [done| |].
  - intros d2 E2. apply HQ. by rewrite E2, E1.
  - intros x d2 E2 H2. rewrite E1 in E2. unfold log_ok in Hlog.
    assert (Hback : ∀ d3, files d3 = files d → calm d3 → R x d3) by (intros; by apply HR).
    destruct (files d !! History) as [[| |rows torn]|] eqn:Eh; try done.
    + rewrite bool_decide_eq_true_2 by eauto. unfold truncate. apply holds_bind, holds_open_read_calm; [done| |].
      * intros y d3 Hy E3 H3. apply Hback; [|done]. simpl. rewrite E3.
        destruct E2 as [E2|[[s E2]|E2]]; rewrite E2 in Hy |- *; simpl in Hy; simplify_map_eq.
        -- rewrite take_ge by done. by apply insert_id.
        -- rewrite take_ge by done. rewrite insert_insert_eq. by apply insert_id.
        -- rewrite take_app_length, insert_insert_eq. by apply insert_id.
      * intros d3 Hn _ _. exfalso. destruct E2 as [E2|[[s E2]|E2]]; rewrite E2 in Hn; by simplify_map_eq.
    + rewrite bool_decide_eq_false_2 by (intros [? ?]; done). apply holds_discard_calm; [done|].
      intros d3 E3 H3. apply Hback; [|done]. simpl in E3. rewrite E3.
      destruct E2 as [E2|[[s E2]|E2]]; rewrite E2; [by apply delete_id| |]; by rewrite delete_insert_eq, delete_id.
Qed.

(** ** A transaction *)

(** The backups and temporary files of a block. *)
Definition scratch_of (dir clean : ustr) (p : path) : Prop :=
  match p with BlockPath d n _ Live => False | BlockPath d n _ _ => d = dir ∧ n = clean | History => False end.
Lemma not_scratch_ne dir clean p k : ¬ scratch_of dir clean p → BlockPath dir clean k Tmp ≠ p ∧ BlockPath dir clean k Bak ≠ p.
Proof. intros H. by split; intros <-; apply H. Qed.

(** Lookups at the paths of the block and at the others. *)
Ltac elsewhere p Hs :=
  pose proof (not_scratch_ne _ _ p Content Hs) as [? ?]; pose proof (not_scratch_ne _ _ p MetaJson Hs) as [? ?].
Ltac lookups := rewrite ?lookup_insert_eq, ?lookup_delete_eq;
  repeat first [rewrite lookup_insert_ne by congruence | rewrite lookup_delete_ne by congruence | rewrite lookup_insert_eq | rewrite lookup_delete_eq];
  try done; try solve [eauto].

Section transaction.
Variables (dir clean : ustr) (fs0 : gmap path file) (content : ustr) (m : meta) (e : entry).
Local Abbreviation at_ k v := (BlockPath dir clean k v).

Local Abbreviation scratch := (scratch_of dir clean).
(** The files other than the backups and temporary ones of the block. *)
Definition same_live (fs fs' : gmap path file) : Prop := ∀ p, ¬ scratch p → fs' !! p = fs !! p.
Definition committed : gmap path file :=
  <[History := appended (fs0 !! History) e]> (<[at_ MetaJson Live := Metadata m]> (<[at_ Content Live := Text content]> fs0)).

(** What the rollback needs: the other files are as before, and what the
    flags say was replaced is in its backup. *)
Record undoable (fs : gmap path file) (f : flags) : Prop := {
  u_frame : ∀ p, ¬ scratch p → p ≠ at_ Content Live → p ≠ at_ MetaJson Live → fs !! p = fs0 !! p;
  u_content : if content_saved f then is_Some (fs0 !! at_ Content Live) ∧ fs !! at_ Content Bak = fs0 !! at_ Content Live
              else if content_written f then fs0 !! at_ Content Live = None
              else fs !! at_ Content Live = fs0 !! at_ Content Live;
  u_meta : if meta_written f then fs0 !! at_ MetaJson Live = None ∨ fs !! at_ MetaJson Bak = fs0 !! at_ MetaJson Live
           else fs !! at_ MetaJson Live = fs0 !! at_ MetaJson Live;
}.

Lemma holds_on_disk {A} (mm : op A) s (Q : A → locals → Prop) R :
  holds mm s.1 (λ a d, Q a (d, s.2)) (λ x d, R x (d, s.2)) → holds (on_disk mm) s Q R.
Proof. intros H. by apply holds_zoom. Qed.

(** The failing step leaves a state the rollback can undo. *)
Definition undone_by (x : exn) (s : locals) : Prop := undoable (files s.1) s.2 ∧ calm s.1.

Ltac undo :=
  split; [|done]; cbn [fst snd] in *;
  repeat match goal with H : _ ∨ _ |- _ => destruct H | H : ∃ _, _ |- _ => destruct H end;
  match goal with H : files ?d = _ |- context [files ?d] => rewrite H end;
  (split; cbn [saved_now written_now meta_now content_saved content_written meta_written cleanup_backups];
   [let p := fresh "p" in let Hs := fresh in intros p Hs ? ?; elsewhere p Hs; lookups|lookups..]).

Abbreviation no_flags := (Flags false false false false).
(** The temporary files and the backup of the metadata are written. *)
Lemma holds_prepare d : one_fault d → files d = fs0 →
  holds (write_copies dir clean (bool_decide (is_Some (fs0 !! at_ MetaJson Live))) content m)
    (d, no_flags)
    (λ _ s, one_fault s.1 ∧ s.2 = no_flags ∧ (∀ p, ¬ scratch p → files s.1 !! p = fs0 !! p) ∧
       files s.1 !! at_ Content Tmp = Some (Text content) ∧ files s.1 !! at_ MetaJson Tmp = Some (Metadata m) ∧
       (fs0 !! at_ MetaJson Live = None ∨ files s.1 !! at_ MetaJson Bak = fs0 !! at_ MetaJson Live)) undone_by.
Proof.
  intros H Hd. unfold write_copies. apply holds_bind, holds_on_disk, holds_put_file; [done| |intros x d' E H'; cbn [fst] in E; rewrite Hd in E; undo].
  intros d1 E1 H1. cbn [fst snd] in *. rewrite Hd in E1. clear H d Hd.
  apply holds_bind, holds_on_disk, holds_put_file; [done| |intros x d' E H'; cbn [fst snd] in *; rewrite E1 in E; undo].
  intros d2 E2 H2. cbn [fst snd] in *. rewrite E1 in E2. clear d1 E1 H1.
  apply holds_when; intros Hm.
  - apply bool_decide_eq_true in Hm as [y Hy]. apply holds_on_disk. eapply holds_bind, holds_open_read; [done| | |].
    + cbn [fst]. rewrite E2. lookups.
    + cbn [fst]. intros d3 E3 H3. rewrite E2 in E3. apply holds_put_file; [done| |].
      * intros d4 E4 H4. cbn [fst snd]. rewrite E4, E3. split_and!; try done; [|lookups..|right; lookups].
        intros p Hs. elsewhere p Hs. lookups.
      * intros x d4 E4 H4. rewrite E3 in E4. undo.
    + intros x d' E H'. cbn [fst snd] in *. rewrite E2 in E. undo.
  - apply bool_decide_eq_false in Hm. cbn [fst snd]. rewrite E2. split_and!; try done; [|lookups..|].
    + intros p Hs. elsewhere p Hs. lookups.
    + left. by apply eq_None_not_Some.
Qed.

(** The content is replaced, and the one before it kept. *)
Definition content_there (s : locals) : Prop :=
  one_fault s.1 ∧ content_written s.2 = true ∧ meta_written s.2 = false ∧
  (∀ p, ¬ scratch p → p ≠ at_ Content Live → files s.1 !! p = fs0 !! p) ∧
  files s.1 !! at_ Content Live = Some (Text content) ∧ files s.1 !! at_ MetaJson Tmp = Some (Metadata m) ∧
  (fs0 !! at_ MetaJson Live = None ∨ files s.1 !! at_ MetaJson Bak = fs0 !! at_ MetaJson Live) ∧
  (if content_saved s.2 then is_Some (fs0 !! at_ Content Live) ∧ files s.1 !! at_ Content Bak = fs0 !! at_ Content Live
   else fs0 !! at_ Content Live = None).

Lemma holds_content d : one_fault d → (∀ p, ¬ scratch p → files d !! p = fs0 !! p) →
  files d !! at_ Content Tmp = Some (Text content) → files d !! at_ MetaJson Tmp = Some (Metadata m) →
  (fs0 !! at_ MetaJson Live = None ∨ files d !! at_ MetaJson Bak = fs0 !! at_ MetaJson Live) →
  holds (swap_content dir clean (bool_decide (is_Some (fs0 !! at_ Content Live))))
    (d, no_flags) (λ _, content_there) undone_by.
Proof.
  intros H Hlive Hct Hmt Hmb. unfold swap_content. apply holds_bind, holds_when; intros Hc.
  - apply bool_decide_eq_true in Hc as [y Hy]. apply holds_bind, holds_on_disk.
    eapply holds_replace; [done|cbn [fst]; rewrite Hlive by (intros []); exact Hy| |].
    + cbn [fst snd]. intros d1 E1 H1. apply holds_bind, holds_on_disk. eapply holds_replace; [done|cbn [fst snd]; rewrite E1; lookups| |].
      * cbn [fst snd]. intros d2 E2 H2. rewrite E1 in E2. unfold holds, content_there. cbn. rewrite E2.
        split_and!; try done; try solve [lookups]; intros p Hs ?; elsewhere p Hs; lookups.
      * cbn [fst snd]. intros x d2 E2 H2. rewrite E1 in E2. undo.
    + cbn [fst snd]. intros x d2 E2 H2. undo.
  - apply bool_decide_eq_false in Hc. apply eq_None_not_Some in Hc. apply holds_bind, holds_on_disk.
    eapply holds_replace; [done|exact Hct| |].
    + cbn [fst snd]. intros d2 E2 H2. unfold holds, content_there. cbn. rewrite E2.
      split_and!; try done; try solve [lookups]; intros p Hs ?; elsewhere p Hs; lookups.
    + cbn [fst snd]. intros x d2 E2 H2. undo.
Qed.

Lemma undoable_content s : content_there s → undoable (files s.1) s.2.
Proof.
  intros (_ & Hw & Hn & Hlive & Hc & Hmt & Hmb & Hsaved). split.
  - intros p Hs ? ?. by apply Hlive.
  - destruct (content_saved s.2); [done|]. by rewrite Hw.
  - rewrite Hn. apply Hlive; [intros []|congruence].
Qed.

Lemma holds_meta s : content_there s → log_ok fs0 →
  holds (swap_meta dir clean e)
    s (λ _ s, one_fault s.1 ∧ same_live committed (files s.1) ∧ cleanup_backups s.2 = true) undone_by.
Proof.
  intros Hthere Hlog. pose proof (undoable_content _ Hthere) as Hundo. destruct s as [d f].
  destruct Hthere as (H & Hw & Hn & Hlive & Hc & Hmt & Hmb & Hsaved). cbn [fst snd] in *.
  unfold swap_meta. apply holds_bind, holds_on_disk. eapply holds_replace; [done|exact Hmt| |].
  - cbn [fst snd]. intros d1 E1 H1. apply holds_bind. unfold holds at 1. cbn [set_flags modify fst snd].
    assert (Hh : files d1 !! History = fs0 !! History).
    { rewrite E1. lookups. }
    assert (Hu : undoable (files d1) (meta_now f)).
    { rewrite E1. split; cbn [meta_now content_saved content_written meta_written].
      - intros p Hs ? ?. elsewhere p Hs. lookups.
      - rewrite Hw. destruct (content_saved f); [destruct Hsaved; split; [done|]; lookups|done].
      - destruct Hmb as [?|?]; [by left|right; lookups]. }
    apply holds_bind, holds_on_disk, holds_log; cbn [fst snd]; [done|by unfold log_ok; rewrite Hh| |].
    + intros d2 E2 H2. unfold holds. cbn. split_and!; [done| |done]. intros p Hs. rewrite E2, Hh, E1. unfold committed.
      elsewhere p Hs.
      destruct (decide (p = History)) as [->|]; [lookups|].
      destruct (decide (p = at_ MetaJson Live)) as [->|]; [lookups|].
      destruct (decide (p = at_ Content Live)) as [->|]; [lookups|]. lookups.
    + intros x d2 E2 H2. split; [|done]. cbn [fst snd]. by rewrite E2.
  - cbn [fst snd]. intros x d1 E1 H1. split; [|done]. cbn [fst snd]. by rewrite E1.
Qed.

Lemma holds_install d : one_fault d → files d = fs0 → log_ok fs0 →
  holds (install dir clean (bool_decide (is_Some (fs0 !! at_ Content Live))) (bool_decide (is_Some (fs0 !! at_ MetaJson Live))) content m e)
    (d, no_flags) (λ _ s, one_fault s.1 ∧ same_live committed (files s.1) ∧ cleanup_backups s.2 = true) undone_by.
Proof.
  intros H Hd Hlog. unfold install. apply holds_bind. eapply holds_mono; [by apply holds_prepare| |done].
  intros [] [d1 f] (H1 & Hf & Hlive & Hct & Hmt & Hmb). cbn [fst snd] in *. subst f.
  apply holds_bind. eapply holds_mono; [by apply (holds_content d1)| |done].
  intros [] s Hs. by apply holds_meta.
Qed.

Lemma holds_flag proj s (Q : bool → locals → Prop) R : Q (proj s.2) s → holds (flag proj) s Q R.
Proof. done. Qed.

(** The rollback undoes it. *)
Definition meta_back (s : locals) : Prop :=
  calm s.1 ∧ (∀ p, ¬ scratch p → p ≠ at_ Content Live → files s.1 !! p = fs0 !! p) ∧
  (if content_saved s.2 then is_Some (fs0 !! at_ Content Live) ∧ files s.1 !! at_ Content Bak = fs0 !! at_ Content Live
   else if content_written s.2 then fs0 !! at_ Content Live = None
   else files s.1 !! at_ Content Live = fs0 !! at_ Content Live).

Lemma holds_meta_back x s : undone_by x s →
  holds (when (meta_written s.2) (on_disk (if bool_decide (is_Some (fs0 !! at_ MetaJson Live))
            then replace_ (at_ MetaJson Bak) (at_ MetaJson Live) else _discard [at_ MetaJson Live])))
    s (λ _, meta_back) (λ _ _, False).
Proof.
  destruct s as [d f]. intros [[Hframe Hc Hm] H]. cbn [fst snd] in *.
  apply holds_when; intros Hw; rewrite Hw in Hm; cbn [fst snd].
  - apply holds_on_disk. cbn [fst snd]. case_bool_decide as Hd.
    + destruct Hm as [Hm|Hm]; [rewrite Hm in Hd; by destruct Hd|]. destruct Hd as [y Hy]. rewrite Hy in Hm.
      eapply holds_replace_calm; [done|exact Hm|]. intros d' E H'. split; [done|]. cbn [fst snd]. rewrite E. split.
      * intros p Hs ?. elsewhere p Hs. destruct (decide (p = at_ MetaJson Live)) as [->|]; [by rewrite Hy; lookups|lookups].
      * destruct (content_saved f); [destruct Hc; split; [done|]|destruct (content_written f)]; lookups.
    + apply eq_None_not_Some in Hd. apply holds_discard_calm; [done|]. cbn [fold_left]. intros d' E H'. split; [done|].
      cbn [fst snd]. rewrite E. split.
      * intros p Hs ?. destruct (decide (p = at_ MetaJson Live)) as [->|]; [by rewrite Hd; lookups|lookups].
      * destruct (content_saved f); [destruct Hc; split; [done|]|destruct (content_written f)]; lookups.
  - split; [done|]. split; [|done]. intros p Hs ?. destruct (decide (p = at_ MetaJson Live)) as [->|]; [done|auto].
Qed.

Lemma holds_roll_back x s : undone_by x s →
  holds (roll_back dir clean (bool_decide (is_Some (fs0 !! at_ MetaJson Live)))) s
    (λ _ s', calm s'.1 ∧ same_live fs0 (files s'.1) ∧ cleanup_backups s'.2 = true) (λ _ _, False).
Proof.
  intros Hs. unfold roll_back. apply holds_bind, holds_flag, holds_bind. eapply holds_mono; [by eapply holds_meta_back| |done].
  clear s Hs. intros [] [d f] (H & Hframe & Hc). cbn [fst snd] in *. apply holds_bind, holds_flag, holds_bind, holds_flag, holds_bind.
  cbn [fst snd]. destruct (content_saved f).
  - destruct Hc as [[y Hy] Hb]. rewrite Hy in Hb. apply holds_on_disk. eapply holds_replace_calm; [done|exact Hb|].
    intros d' E H'. split_and!; [done| |done]. cbn [fst set_flags modify]. intros p Hs. rewrite E. elsewhere p Hs.
    destruct (decide (p = at_ Content Live)) as [->|]; [by rewrite Hy; lookups|lookups].
  - apply holds_when; intros Hw; rewrite Hw in Hc.
    + apply holds_on_disk, holds_discard_calm; [done|]. intros d' E H'. split_and!; [done| |done]. cbn [fst set_flags modify fold_left] in *.
      intros p Hs. rewrite E. elsewhere p Hs. destruct (decide (p = at_ Content Live)) as [->|]; [by rewrite Hc; lookups|lookups].
    + split_and!; [done| |done]. cbn [fst set_flags modify]. intros p Hs.
      destruct (decide (p = at_ Content Live)) as [->|]; [done|auto].
Qed.

(** The cleanup touches the backups and temporary files only. *)
Lemma same_live_but k k' v v' fs fs1 fs2 : v ≠ Live → v' ≠ Live → same_live fs fs1 →
  same_but [at_ k v; at_ k' v'] fs1 fs2 → same_live fs fs2.
Proof.
  intros Hv Hv' Hs Hb p Hp. rewrite Hb; [by apply Hs|].
  rewrite !not_elem_of_cons. split_and!; [intros ->|intros ->|apply not_elem_of_nil]; apply Hp; simpl; by destruct v, v'.
Qed.
Lemma same_live_delete k k' v v' fs fs1 : v ≠ Live → v' ≠ Live → same_live fs fs1 →
  same_live fs (delete (at_ k' v') (delete (at_ k v) fs1)).
Proof.
  intros Hv Hv' Hs. apply (same_live_but k k' v v' _ fs1); [done..|]. intros p [? [? _]%not_elem_of_cons]%not_elem_of_cons. lookups.
Qed.

Lemma holds_clean_up s fs : one_fault s.1 → same_live fs (files s.1) →
  holds (clean_up dir clean) s (λ _ s', same_live fs (files s'.1)) (λ _ s', same_live fs (files s'.1)).
Proof.
  intros H Hs. unfold clean_up. apply holds_bind, holds_on_disk, holds_discard; [done| |].
  - intros d E H'. cbn [fold_left] in E. apply holds_bind, holds_flag, holds_when; cbn [fst snd]; intros _.
    + apply holds_on_disk, holds_discard; [done| |]; cbn [fst snd fold_left].
      * intros d' E' _. rewrite E', E. by apply same_live_delete, same_live_delete.
      * intros x d' Hb _. apply (same_live_but Content MetaJson Bak Bak _ (files d)); [done|done|rewrite E; by apply same_live_delete|exact Hb].
    + rewrite E. by apply same_live_delete.
  - intros x d Hb _. cbn [fst snd]. by apply (same_live_but Content MetaJson Tmp Tmp _ (files s.1)).
Qed.

Lemma holds_clean_up_calm s fs : calm s.1 → same_live fs (files s.1) →
  holds (clean_up dir clean) s (λ _ s', same_live fs (files s'.1)) (λ _ _, False).
Proof.
  intros H Hs. unfold clean_up. apply holds_bind, holds_on_disk, holds_discard_calm; [done|]. intros d E H'.
  apply holds_bind, holds_flag, holds_when; cbn [fst snd fold_left] in *; intros _.
  - apply holds_on_disk, holds_discard_calm; [done|]. cbn [fst snd fold_left]. intros d' E' _. rewrite E', E.
    by apply same_live_delete, same_live_delete.
  - rewrite E. by apply same_live_delete.
Qed.

(** A transaction commits, or changes nothing. *)
Lemma holds_transaction d : one_fault d → files d = fs0 → log_ok fs0 →
  holds (transaction dir clean (bool_decide (is_Some (fs0 !! at_ Content Live))) (bool_decide (is_Some (fs0 !! at_ MetaJson Live))) content m e)
    d (λ _ d', same_live committed (files d')) (λ _ d', same_live fs0 (files d') ∨ same_live committed (files d')).
Proof.
  intros H Hd Hlog. unfold transaction.
  assert (Ht : holds (finally (on_error (install dir clean (bool_decide (is_Some (fs0 !! at_ Content Live)))
        (bool_decide (is_Some (fs0 !! at_ MetaJson Live))) content m e) (roll_back dir clean (bool_decide (is_Some (fs0 !! at_ MetaJson Live)))))
      (clean_up dir clean)) (d, no_flags) (λ _ s, same_live committed (files s.1))
      (λ _ s, same_live fs0 (files s.1) ∨ same_live committed (files s.1))).
  { apply holds_finally, holds_on_error. eapply holds_mono; [by apply holds_install| |].
    - intros [] s (H1 & Hs & _). eapply holds_mono; [by apply holds_clean_up|done|]. auto.
    - intros x s Hs. eapply holds_mono; [by eapply holds_roll_back| |done]. intros [] s2 (H2 & Hs2 & _).
      eapply holds_mono; [by apply holds_clean_up_calm| |done]. auto. }
  unfold holds in *. by destruct (finally _ _ _) as [[[]|x] s].
Qed.
End transaction.

(** ** A removal *)

Section removal.
Variables (dir clean : ustr) (fs0 : gmap path file).
Local Abbreviation at_ k v := (BlockPath dir clean k v).
Local Abbreviation scratch := (scratch_of dir clean).

Lemma holds_on_disk' {A} (mm : op A) s (Q : A → saving → Prop) R :
  holds mm s.1.1 (λ a d, Q a (d, s.1.2, s.2)) (λ x d, R x (d, s.1.2, s.2)) → holds (on_disk' mm) s Q R.
Proof. intros H. by apply holds_zoom. Qed.

(** The files [l] are in their backups, the others as before. *)
Definition moved (fs : gmap path file) (l : list kind) : Prop :=
  NoDup l ∧ (∀ k, k ∈ l → is_Some (fs0 !! at_ k Live) ∧ fs !! at_ k Bak = fs0 !! at_ k Live ∧ fs !! at_ k Live = None) ∧
  (∀ p, ¬ scratch p → (∀ k, k ∈ l → p ≠ at_ k Live) → fs !! p = fs0 !! p).

Definition away (k : kind) : io saving exn () :=
  x ← on_disk' (exists_ (at_ k Live));
  when x (on_disk' (replace_ (at_ k Live) (at_ k Bak));; modify (λ s, (s.1.1, k :: s.1.2, s.2))).

Lemma holds_away ks d l : one_fault d → moved (files d) l → NoDup ks → (∀ k, k ∈ ks → k ∉ l) →
  holds (foreach away ks) (d, l, false)
    (λ _ s, one_fault s.1.1 ∧ moved (files s.1.1) s.1.2 ∧ s.2 = false ∧
            ∀ k, k ∈ s.1.2 ↔ k ∈ l ∨ k ∈ ks ∧ is_Some (fs0 !! at_ k Live))
    (λ _ s, calm s.1.1 ∧ moved (files s.1.1) s.1.2 ∧ s.2 = false).
Proof.
  revert d l. induction ks as [|k ks IH]; intros d l H Hm Hnd Hnew.
  { split_and!; try done. cbn. intros k. rewrite elem_of_nil. tauto. }
  apply NoDup_cons in Hnd as [Hk Hnd]. destruct Hm as (Hl & Hin & Hout).
  assert (Hkl : k ∉ l) by (apply Hnew; by left).
  assert (Hlive : files d !! at_ k Live = fs0 !! at_ k Live).
  { apply Hout; [intros []|]. intros k' Hk' [= ->]. done. }
  cbn [foreach]. apply holds_bind. unfold away at 1. apply holds_bind, holds_on_disk', holds_exists.
  cbn [fst snd]. rewrite Hlive.
  apply holds_when; intros Hx.
  - apply bool_decide_eq_true in Hx as [y Hy]. rewrite Hy in Hlive. apply holds_bind, holds_on_disk'. eapply holds_replace; [done|exact Hlive| |].
    + intros d1 E1 H1. unfold holds at 1. cbn [modify fst snd] in *.
      assert (Hm1 : moved (files d1) (k :: l)).
      { rewrite E1. split_and!; [by constructor| |].
        - intros k' [->|Hk']%elem_of_cons; [split_and!; [by eexists|by rewrite Hy; lookups|lookups]|].
          destruct (Hin k' Hk') as (? & ? & ?). assert (k' ≠ k) by (intros ->; done). split_and!; [done|lookups..].
        - intros p Hs Hp. pose proof (Hp k ltac:(by left)). elsewhere p Hs. assert (at_ k Bak ≠ p) by by destruct k.
          lookups. apply Hout; [done|]. intros k' Hk'. apply Hp. by right. }
      eapply holds_mono; [apply (IH d1 (k :: l)); try done| |done].
      * intros k' Hk' [->|Hl']%elem_of_cons; [done|]. by apply (Hnew k'); [right|].
      * intros [] s (? & ? & ? & Hiff). split_and!; try done. intros k'. rewrite Hiff, !elem_of_cons.
        split; [intros [[->|?]|[? ?]]|intros [?|[[->|?] ?]]]; eauto.
    + intros x d1 E1 H1. split_and!; [done| |done]. cbn [fst snd]. rewrite E1. by split_and!.
  - apply bool_decide_eq_false in Hx. eapply holds_mono; [apply (IH d l); try done| |done].
    + intros k' Hk'. apply Hnew. by right.
    + intros [] s (? & ? & ? & Hiff). split_and!; try done. intros k'. rewrite Hiff, !elem_of_cons.
      split; [intros [?|[? ?]]|intros [?|[[->|?] ?]]]; eauto. done.
Qed.

Lemma holds_back l l0 d b : calm d → moved (files d) l →
  holds (foreach (λ k, on_disk' (replace_ (at_ k Bak) (at_ k Live))) l) (d, l0, b)
    (λ _ s, calm s.1.1 ∧ same_live dir clean fs0 (files s.1.1) ∧ s.1.2 = l0) (λ _ _, False).
Proof.
  revert d. induction l as [|k l IH]; intros d H (Hl & Hin & Hout).
  { apply holds_ret. cbn [fst snd]. split_and!; [done| |done]. intros p Hs. apply Hout; [done|]. intros k Hk. by apply elem_of_nil in Hk. }
  cbn [foreach]. apply NoDup_cons in Hl as [Hk Hl]. destruct (Hin k ltac:(by left)) as ([y Hy] & Hb & Hn).
  rewrite Hy in Hb. apply holds_bind, holds_on_disk'. eapply holds_replace_calm; [done|exact Hb|].
  intros d1 E1 H1. cbn [fst snd] in *. apply IH; [done|]. rewrite E1. split_and!; [done| |].
  - intros k' Hk'. destruct (Hin k' ltac:(by right)) as (? & ? & ?). assert (k' ≠ k) by (intros ->; done). split_and!; [done|lookups..].
  - intros p Hs Hp. assert (at_ k Bak ≠ p) by (intros <-; by apply Hs).
    destruct (decide (p = at_ k Live)) as [->|]; [by rewrite Hy; lookups|]. lookups. apply Hout; [done|].
    intros k' [->|Hk']%elem_of_cons; [done|by apply Hp].
Qed.

Definition removed (e : entry) : gmap path file :=
  <[History := appended (fs0 !! History) e]> (delete (at_ Content Live) (delete (at_ MetaJson Live) fs0)).

Lemma holds_drop_backups fs d l b : one_fault d → same_live dir clean fs (files d) →
  holds (drop_backups dir clean) (d, l, b) (λ _ s, same_live dir clean fs (files s.1.1)) (λ _ s, same_live dir clean fs (files s.1.1)).
Proof.
  intros H Hs. unfold drop_backups. apply holds_bind. change (holds (when b (on_disk' (_discard (map (λ k, at_ k Bak) (rev l))))) (d, l, b)
    (λ _ s, same_live dir clean fs (files s.1.1)) (λ _ s, same_live dir clean fs (files s.1.1))).
  assert (Hb : ∀ d', same_but (map (λ k, at_ k Bak) (rev l)) (files d) (files d') → same_live dir clean fs (files d')).
  { intros d' Hb p Hp. rewrite Hb; [by apply Hs|]. intros (k & -> & _)%list_elem_of_fmap. by apply Hp. }
  apply holds_when; [intros _|done]. apply holds_on_disk', holds_discard; [done| |]; cbn [fst snd].
  - intros d' E _. apply Hb. rewrite E. generalize (map (λ k, at_ k Bak) (rev l)) as ps. clear.
    generalize (files d) as m. clear. intros m ps. revert m. induction ps as [|q ps IH]; intros m p; [done|].
    intros [? ?]%not_elem_of_cons. cbn [fold_left]. rewrite IH by done. lookups.
  - intros x d' Hd _. by apply Hb.
Qed.

(** A removal removes both files and logs it, or changes nothing. *)
Lemma holds_removal e d : one_fault d → files d = fs0 → log_ok fs0 →
  holds (removal dir clean e) d (λ _ d', same_live dir clean (removed e) (files d'))
    (λ _ d', same_live dir clean fs0 (files d') ∨ same_live dir clean (removed e) (files d')).
Proof.
  intros H Hd Hlog. unfold removal.
  enough (Ht : holds (finally (on_error (move_away dir clean e) (move_back dir clean)) (drop_backups dir clean)) (d, [], false)
      (λ _ s, same_live dir clean (removed e) (files s.1.1))
      (λ _ s, same_live dir clean fs0 (files s.1.1) ∨ same_live dir clean (removed e) (files s.1.1))).
  { unfold holds in *. by destruct (finally _ _ _) as [[[]|x] s]. }
  apply holds_finally, holds_on_error. eapply (holds_mono _ _
    (λ _ s, one_fault s.1.1 ∧ same_live dir clean (removed e) (files s.1.1)) _ (λ _ s, calm s.1.1 ∧ moved (files s.1.1) s.1.2)).
  - unfold move_away. fold away. apply holds_bind. eapply holds_mono; [apply (holds_away [MetaJson; Content] d [])| |].
    + done.
    + split_and!; [constructor| |by rewrite Hd]. by intros k ?%elem_of_nil.
    + repeat constructor; set_solver.
    + intros k _. apply not_elem_of_nil.
    + intros [] [[d1 l] b] (H1 & Hm & Hb & Hiff). cbn [fst snd] in *. subst b.
      assert (Hh : files d1 !! History = fs0 !! History) by (apply Hm; [intros []|congruence]).
      apply holds_bind, holds_on_disk', holds_log; cbn [fst snd]; [done|by unfold log_ok; rewrite Hh| |].
      * intros d2 E2 H2. split; [done|]. cbn [modify fst snd]. intros p Hs. rewrite E2, Hh. unfold removed.
        destruct (decide (p = History)) as [->|]; [lookups|]. rewrite !lookup_insert_ne by done.
        destruct Hm as (_ & Hin & Hout).
        assert (Hgone : ∀ k, files d1 !! at_ k Live = None).
        { intros k. destruct (fs0 !! at_ k Live) eqn:Ek.
          - apply Hin, Hiff. right. split; [destruct k; set_solver|by eexists].
          - rewrite Hout; [done|intros []|]. intros k' [?|[_ ?]]%Hiff [= ->]; [by apply not_elem_of_nil in H0|]. rewrite Ek in H0. by destruct H0. }
        destruct (decide (p = at_ Content Live)) as [->|]; [by rewrite lookup_delete_eq|].
        destruct (decide (p = at_ MetaJson Live)) as [->|]; [rewrite lookup_delete_ne by done; by rewrite lookup_delete_eq|].
        rewrite !lookup_delete_ne by done. apply Hout; [done|]. intros [] _; done.
      * intros x d2 E2 H2. split; [done|]. cbn [fst snd]. by rewrite E2.
    + intros x [[d1 l] b] (? & ? & _). done.
  - intros [] [[d1 l] b] [H1 Hs]. cbn [fst snd] in *. eapply holds_mono; [by apply holds_drop_backups|done|]. auto.
  - intros x [[d1 l] b] [H1 Hm]. cbn [fst snd] in *. unfold move_back. apply holds_bind.
    change (holds (foreach (λ k, on_disk' (replace_ (at_ k Bak) (at_ k Live))) l;; modify (λ s : saving, (s.1, true))) (d1, l, b)
      (λ _ s', holds (drop_backups dir clean) s' (λ _ s, same_live dir clean fs0 (files s.1.1) ∨ same_live dir clean (removed e) (files s.1.1))
         (λ _ s, same_live dir clean fs0 (files s.1.1) ∨ same_live dir clean (removed e) (files s.1.1)))
      (λ _ s', holds (drop_backups dir clean) s' (λ _ s, same_live dir clean fs0 (files s.1.1) ∨ same_live dir clean (removed e) (files s.1.1))
         (λ _ s, same_live dir clean fs0 (files s.1.1) ∨ same_live dir clean (removed e) (files s.1.1)))).
    apply holds_bind. eapply holds_mono; [by apply holds_back| |done].
    intros [] [[d2 l2] b2] (H2 & Hs & _). unfold holds at 1. cbn [modify fst snd] in *.
    eapply holds_mono; [apply (holds_drop_backups fs0); [by left|done]|auto|auto].
Qed.
End removal.

(** ** Operations that only read *)

Record quiet {A} (mm : op A) : Prop := {
  q_files : ∀ d, files (mm d).2 = files d;
  q_fault : ∀ d, one_fault d → one_fault (mm d).2;
  q_calm : ∀ d, calm d → calm (mm d).2;
}.

Lemma holds_quiet {A} (mm : op A) d Q R : quiet mm → one_fault d →
  (∀ a d', files d' = files d → one_fault d' → (calm d → calm d') → Q a d') →
  (∀ e d', files d' = files d → R e d') → holds mm d Q R.
Proof.
  intros [Hf Ho Hc] H HQ HR. specialize (Hf d). specialize (Ho d H). specialize (Hc d). unfold holds.
  destruct (mm d) as [[a|e] d']; eauto.
Qed.
Lemma quiet_lucky : quiet lucky.
Proof.
  split; intros [m [|l f]]; try done.
  - intros [[_ Hf]%Forall_cons|(b & l' & a & E & Hb & Ha)]; [by left|]. destruct b as [|x b]; simplify_eq/=; [by left|].
    apply Forall_cons in Hb as [_ Hb]. right. by exists b, l', a.
  - by intros [_ ?]%Forall_cons.
Qed.
Lemma quiet_pure {A} (r : res exn A) : quiet (of_res r).
Proof. by split. Qed.
Lemma quiet_bind {A B} (mm : op A) (k : A → op B) : quiet mm → (∀ a, quiet (k a)) → quiet (mm ≫= k).
Proof.
  intros [F1 O1 C1] Hk. split; intros d; unfold mbind, io_bind; specialize (F1 d); specialize (O1 d); specialize (C1 d);
    destruct (mm d) as [[a|e] d'] eqn:E; try destruct (Hk a) as [F2 O2 C2]; cbn [snd] in *; auto.
  by rewrite F2.
Qed.
Lemma quiet_catch {A} (mm : op A) h : quiet mm → (∀ e k, h e = Some k → quiet k) → quiet (catch mm h).
Proof.
  intros [F1 O1 C1] Hk. split; intros d; unfold catch; specialize (F1 d); specialize (O1 d); specialize (C1 d);
    destruct (mm d) as [[a|e] d'] eqn:E; cbn [snd] in *; auto;
    (destruct (h e) as [k|] eqn:Eh; [destruct (Hk _ _ Eh) as [F2 O2 C2]|]; cbn [snd]; auto).
  by rewrite F2.
Qed.

Create HintDb quiet.
#[export] Hint Resolve quiet_lucky quiet_pure quiet_bind quiet_catch : quiet.
Lemma quiet_ret {A} (a : A) : quiet (mret a).
Proof. by split. Qed.
Lemma quiet_raise {A} e : quiet (raise (A := A) e).
Proof. by split. Qed.
Lemma quiet_get : quiet get.
Proof. by split. Qed.
Lemma quiet_os_error {A} : quiet (os_error (A := A)).
Proof. apply quiet_raise. Qed.
#[export] Hint Resolve quiet_ret quiet_raise quiet_get quiet_os_error : quiet.
Lemma quiet_open_read p : quiet (open_read p).
Proof. unfold open_read. apply quiet_bind; [auto with quiet|]. intros []; apply quiet_bind; auto with quiet. Qed.
#[export] Hint Resolve quiet_open_read : quiet.
Lemma quiet_exists p : quiet (exists_ p).
Proof. unfold exists_. apply quiet_bind; auto with quiet. Qed.
Lemma quiet_makedirs : quiet makedirs.
Proof. unfold makedirs. apply quiet_bind; [auto with quiet|]. intros []; auto with quiet. Qed.
Lemma quiet_read_meta p : quiet (_read_meta p).
Proof. unfold _read_meta. apply quiet_catch; [apply quiet_bind; auto with quiet|]. intros [] k [= <-]; auto with quiet. Qed.
#[export] Hint Resolve quiet_exists quiet_makedirs quiet_read_meta : quiet.

Section unicode.
Variable uni_digit : Z → option (fin 10).
Variable uni_lower : ustr → Z → ustr → ustr.
Variables created_now updated_now : ustr.

Lemma quiet_get_block name scope : quiet (_get_block_locked uni_lower name scope).
Proof.
  unfold _get_block_locked, read_block. apply quiet_bind; [auto with quiet|]. intros clean. apply quiet_bind; [auto with quiet|]. intros dir.
  apply quiet_catch.
  - apply quiet_bind; [auto with quiet|]. intros f. apply quiet_bind; [destruct f; auto with quiet|]. intros mt.
    apply quiet_bind; [auto with quiet|]. intros f'. apply quiet_bind; [destruct f'; auto with quiet|]. auto with quiet.
  - intros [| | | | | |[]] k; try done; intros [= <-]; auto with quiet.
Qed.
Lemma quiet_current clean scope expected : quiet (current uni_lower clean scope expected).
Proof.
  unfold current. apply quiet_catch.
  - apply quiet_bind; [apply quiet_get_block|]. intros b. apply quiet_bind; [auto with quiet|]. intros _. apply quiet_bind; auto with quiet.
  - intros [] k; try done. intros [= <-]. apply quiet_bind; auto with quiet.
Qed.

(** ** The four edits *)

(** What [_write_locked] does: the write of [b] over the metadata [old]. *)
Definition meta_of (b : MemoryBlock) : meta :=
  Meta (b_name b) (b_max_chars b) (b_revision b) (b_created_at b) (b_updated_at b) (b_metadata b) (b_read_only b) (b_scope b).
Record written (metadata : list (string * json)) (read_only : bool) (old : option meta) (b : MemoryBlock) : Prop := {
  w_count : b_char_count b = len (b_content b);
  w_quota : len (b_content b) <= b_max_chars b <= MAX_QUOTA_CHARS;
  w_revision : _compute_revision (b_name b) (b_content b) (default [] (m_revision <$> old)) = Ok (b_revision b);
  w_created : b_created_at b = or_else (default [] (m_created_at <$> old)) created_now;
  w_updated : b_updated_at b = updated_now;
  w_metadata : b_metadata b = update_dict (default [] (m_metadata <$> old)) metadata;
  w_read_only : b_read_only b = default false (m_read_only <$> old) || read_only;
}.
Definition entry_of (actor reason : ustr) (old : option meta) (b : MemoryBlock) : entry :=
  Entry (b_updated_at b) (b_name b) Set_ actor reason (b_revision b) (default [] (m_revision <$> old)) (b_char_count b) (b_scope b).
(** The files after the write of [b]. *)
Definition after_write (fs : gmap path file) (dir actor reason : ustr) (old : option meta) (b : MemoryBlock) : gmap path file :=
  committed dir (b_name b) fs (b_content b) (meta_of b) (entry_of actor reason old b).

Definition meta_at (fs : gmap path file) (p : path) : option meta := match fs !! p with Some (Metadata mt) => Some mt | _ => None end.

(** What [_read_meta] made of the metadata: a failing read gives none. *)
Definition read_before (d : disk) (p : path) (old : option meta) : Prop := old = meta_at (files d) p ∨ ¬ calm d ∧ old = None.
Lemma read_before_earlier d d' p old : files d' = files d → (calm d → calm d') → read_before d' p old → read_before d p old.
Proof. unfold read_before. intros E C [->|[N ->]]; [left; by rewrite E|right; split; [auto|done]]. Qed.
Lemma holds_read_meta p d (Q : option meta → disk → Prop) R : one_fault d →
  (∀ old d', files d' = files d → one_fault d' → (calm d → calm d') → read_before d p old → Q old d') → holds (_read_meta p) d Q R.
Proof.
  intros H HQ. pose proof (quiet_read_meta p) as [F O C]. specialize (F d). specialize (O d H). specialize (C d).
  unfold holds. destruct (_read_meta p d) as [r d'] eqn:E. cbn [snd] in *.
  enough (∃ old, r = Ok old ∧ read_before d p old) as (old & -> & Hold) by auto.
  revert E. unfold _read_meta, open_read, catch, mbind, io_bind, lucky, read_before, meta_at.
  destruct d as [m [|[|l] f]]; cbn.
  - destruct (m !! p) as [[]|]; cbn; intros [= <- _]; eauto.
  - destruct (m !! p) as [[]|]; cbn; intros [= <- _]; eauto.
  - intros [= <- _]. eexists. split; [done|]. right. split; [|done]. intros [E _]%Forall_cons. discriminate E.
Qed.

(** [b] was written over what [d] holds, in [d']. *)
Definition wrote (d d' : disk) (actor reason : ustr) (metadata : list (string * json)) (read_only : bool) (b : MemoryBlock) : Prop :=
  ∃ dir old, _blocks_dir (b_scope b) = Ok dir ∧ read_before d (_meta_file dir (b_name b)) old ∧
    written metadata read_only old b ∧ same_live dir (b_name b) (after_write (files d) dir actor reason old b) (files d').
Definition unchanged (d d' : disk) : Prop := ∃ dir clean, same_live dir clean (files d) (files d').
Lemma same_unchanged d d' : files d' = files d → unchanged d d'.
Proof. intros E. exists [], []. intros p _. by rewrite E. Qed.

Lemma holds_write_locked scope clean content max_chars actor reason metadata read_only d :
  one_fault d → log_ok (files d) →
  let good d' b := b_name b = clean ∧ b_content b = content ∧ b_max_chars b = max_chars ∧ b_scope b = scope ∧
    wrote d d' actor reason metadata read_only b in
  holds (_write_locked created_now updated_now scope clean content max_chars actor reason metadata read_only) d
    (λ b d', good d' b) (λ _ d', unchanged d d' ∨ ∃ b, good d' b).
Proof.
  intros H Hlog good. set (R := λ (_ : exn) d', unchanged d d' ∨ ∃ b, good d' b).
  assert (Hsame : ∀ e d', files d' = files d → R e d') by (intros e d' E; left; by apply same_unchanged).
  unfold _write_locked.
  apply holds_bind; unfold require, of_res. destruct (Z.leb_spec max_chars MAX_QUOTA_CHARS) as [Hmax|]; [unfold holds at 1|exact (Hsame _ _ eq_refl)].
  apply holds_bind. destruct (Z.leb_spec (len content) max_chars) as [Hlen|]; [unfold holds at 1|exact (Hsame _ _ eq_refl)].
  apply holds_bind. destruct (_blocks_dir scope) as [dir|] eqn:Edir; [unfold holds at 1|exact (Hsame _ _ eq_refl)].
  apply holds_bind, holds_quiet; [auto with quiet|done| |exact Hsame]. intros _ d1 E1 H1 C1.
  apply holds_bind, holds_read_meta; [done|]. intros old d2 E2 H2 C2 Hold.
  apply (read_before_earlier d) in Hold; [|done|done]. rewrite E1 in E2.
  destruct (_compute_revision clean content (default [] (m_revision <$> old))) as [revision|] eqn:Erev;
    apply holds_bind; [unfold holds at 1|exact (Hsame _ _ E2)].
  unfold exists_ at 1. apply holds_bind. unfold holds at 1. cbn [mbind io_bind get mret io_ret].
  unfold exists_ at 1. apply holds_bind. unfold holds at 1. cbn [mbind io_bind get mret io_ret].
  rewrite E2. set (b := Block clean content (len content) max_chars revision _ updated_now _ _ scope).
  assert (Hw : written metadata read_only old b) by (by split).
  apply holds_bind. cbv beta. cbn [snd]. rewrite ?E2. eapply holds_mono.
  - apply (holds_transaction dir clean (files d) content (meta_of b) (entry_of actor reason old b) d2); [exact H2|exact E2|exact Hlog].
  - intros [] d3 Hs. unfold holds. cbn. split_and!; try done. exists dir, old. by split_and!.
  - intros e d3 [Hs|Hs]; [left; by exists dir, clean|right]. exists b. split_and!; try done. exists dir, old. by split_and!.
Qed.

Inductive edit :=
  | SetBlock (content : ustr) (max_chars : Z) (metadata : list (string * json)) (read_only : bool)
  | AppendBlock (text : ustr)
  | ReplaceBlock (old_str new_str : ustr)
  | InsertBlock (text : ustr) (line_number : Z).
Definition run_edit (x : edit) (name actor reason : ustr) (expected : option ustr) (scope : ustr) : op MemoryBlock :=
  match x with
  | SetBlock c n md ro => set_block uni_lower created_now updated_now name c n actor reason md ro expected scope
  | AppendBlock t => append_block uni_lower created_now updated_now name t actor reason expected scope
  | ReplaceBlock o n => replace_block uni_digit uni_lower created_now updated_now name o n actor reason expected scope
  | InsertBlock t n => insert_block uni_lower created_now updated_now name t n actor reason expected scope
  end.
(** The metadata an edit adds and the flag it sets. *)
Definition edit_metadata (x : edit) : list (string * json) := match x with SetBlock _ _ md _ => md | _ => [] end.
Definition edit_read_only (x : edit) : bool := match x with SetBlock _ _ _ ro => ro | _ => false end.

Definition edited (x : edit) (name scope actor : ustr) (d d' : disk) (b : MemoryBlock) : Prop :=
  _sanitize_name uni_lower name = Ok (b_name b) ∧ normalize_scope scope = Ok (b_scope b) ∧ ∃ reason, wrote d d' actor reason (edit_metadata x) (edit_read_only x) b.

Lemma holds_edit_write x name scope sc clean content max_chars actor reason d d0 : one_fault d → log_ok (files d) → files d = files d0 → (calm d0 → calm d) →
  _sanitize_name uni_lower name = Ok clean → normalize_scope scope = Ok sc →
  holds (_write_locked created_now updated_now sc clean content max_chars actor reason (edit_metadata x) (edit_read_only x)) d
    (λ b d', edited x name scope actor d0 d' b) (λ _ d', unchanged d0 d' ∨ ∃ b, edited x name scope actor d0 d' b).
Proof.
  intros H Hlog E C Hn Hs.
  assert (Hd : ∀ d' b r, b_name b = clean → b_scope b = sc → wrote d d' actor r (edit_metadata x) (edit_read_only x) b →
    edited x name scope actor d0 d' b).
  { intros d' b r <- <- Hw. split_and!; [done|done|]. exists r.
    destruct Hw as (dir & old & ? & Hold & ? & ?). exists dir, old. rewrite <- E. split_and!; try done. by eapply read_before_earlier. }
  eapply holds_mono; [by apply holds_write_locked| |].
  - intros b d' (? & _ & _ & ? & Hw). by eapply Hd.
  - intros e d' [(dir & c & Hs')|(b & ? & _ & _ & ? & Hw)]; [left; exists dir, c; by rewrite <- E|right; exists b; by eapply Hd].
Qed.

(** One operation that only reads. *)
Ltac reads Hq := apply holds_bind, holds_quiet;
  [first [apply quiet_pure|apply quiet_current|apply quiet_get_block]|done| |intros e d' E'; eapply (Hq e); [|exact E']; congruence];
  let a := fresh "a" in let d' := fresh "d" in let E := fresh "E" in let H := fresh "H" in
  let C := fresh "C" in intros a d' E H C.
Ltac names Hsame :=
  apply holds_bind, holds_of_res; [intros clean Hclean|by intros; apply Hsame];
  apply holds_bind, holds_of_res; [intros sc Hsc|by intros; apply Hsame].

Lemma holds_edit x name actor reason expected scope d : one_fault d → log_ok (files d) →
  holds (run_edit x name actor reason expected scope) d (λ b d', edited x name scope actor d d' b)
    (λ _ d', unchanged d d' ∨ ∃ b, edited x name scope actor d d' b).
Proof.
  intros H Hlog.
  assert (Hq : ∀ (e : exn) d1 d', files d1 = files d → files d' = files d1 → unchanged d d' ∨ ∃ b, edited x name scope actor d d' b).
  { intros e d1 d' E1 E. left. apply same_unchanged. congruence. }
  assert (Hsame : ∀ d', files d' = files d → unchanged d d' ∨ ∃ b, edited x name scope actor d d' b).
  { intros d' E. left. by apply same_unchanged. }
  assert (Hwrite : ∀ d1 sc cl c n r, files d1 = files d → one_fault d1 → (calm d → calm d1) → _sanitize_name uni_lower name = Ok cl → normalize_scope scope = Ok sc →
    holds (_write_locked created_now updated_now sc cl c n actor r (edit_metadata x) (edit_read_only x)) d1
      (λ b d', edited x name scope actor d d' b) (λ _ d', unchanged d d' ∨ ∃ b, edited x name scope actor d d' b)).
  { intros d1 sc cl c n r E1 H1 C1 Hn Hs. apply holds_edit_write; [done|by rewrite E1|done..]. }
  destruct x; unfold run_edit.
  - unfold set_block. names Hsame. reads Hq. apply Hwrite; [congruence|done|tauto|done..].
  - unfold append_block. names Hsame. reads Hq. apply Hwrite; [congruence|done|tauto|done..].
  - unfold replace_block. apply holds_bind, holds_of_res; [intros _ _|by intros; apply Hsame]. names Hsame. do 5 reads Hq.
    apply Hwrite; [congruence|done|tauto|done..].
  - unfold insert_block. names Hsame. do 2 reads Hq. apply Hwrite; [congruence|done|tauto|done..].
Qed.

(** C28: an edit of a memory block is atomic.  If at most one operation of the
    operating system fails while a block is set, appended to, replaced in or
    inserted into, then a return means that exactly the new content, the new
    metadata and the log row are in place and every other file is as it was;
    after an exception the files are all as they were, or all as the completed
    write leaves them (only the block's own [.tmp] and [.bak] files may differ). *)
Theorem edit_atomic x name actor reason expected scope d : one_fault d → log_ok (files d) →
  match run_edit x name actor reason expected scope d with
  | (Ok b, d') => edited x name scope actor d d' b
  | (Err _, d') => unchanged d d' ∨ ∃ b, edited x name scope actor d d' b
  end.
Proof. exact (holds_edit x name actor reason expected scope d). Qed.

(** ** Deletion *)


Definition deleted (name scope actor reason : ustr) (d d' : disk) : Prop :=
  ∃ dir clean sc old e, _sanitize_name uni_lower name = Ok clean ∧ normalize_scope scope = Ok sc ∧ _blocks_dir sc = Ok dir ∧
    read_before d (_meta_file dir clean) old ∧ e_action e = Delete ∧ e_block e = clean ∧ e_scope e = sc ∧
    e_prev_revision e = default [] (m_revision <$> old) ∧ e_actor e = actor ∧ e_reason e = reason ∧
    same_live dir clean (removed dir clean (files d) e) (files d').

Lemma holds_delete name actor reason expected scope d : one_fault d → log_ok (files d) →
  holds (delete_block uni_lower updated_now name actor reason expected scope) d
    (λ b d', if b : bool then deleted name scope actor reason d d' else files d' = files d)
    (λ _ d', unchanged d d' ∨ deleted name scope actor reason d d').
Proof.
  intros H Hlog. set (Q := λ (b : bool) d', if b then deleted name scope actor reason d d' else files d' = files d).
  set (R := λ (_ : exn) d', unchanged d d' ∨ deleted name scope actor reason d d').
  assert (Hsame : ∀ d', files d' = files d → unchanged d d' ∨ deleted name scope actor reason d d').
  { intros d' E. left. by apply same_unchanged. }
  assert (Hq : ∀ (e : exn) d1 d', files d1 = files d → files d' = files d1 → R e d').
  { intros e d1 d' E1 E. left. apply same_unchanged. congruence. }
  unfold delete_block. names Hsame. apply holds_bind. destruct (_blocks_dir sc) as [dir|] eqn:Edir; [|exact (Hsame _ eq_refl)].
  unfold holds at 1. cbn [of_res]. apply holds_bind, holds_exists, holds_bind, holds_exists.
  destruct (negb _ && negb _).
  - reads Hq. apply holds_ret. unfold Q. congruence.
  - apply holds_bind, holds_read_meta; [done|]. intros old d2 E2 H2 C2 Hold. do 3 reads Hq. apply holds_bind. eapply holds_mono.
    + eapply (holds_removal dir clean (files d)); [done|congruence|done].
    + intros [] d6 Hs. unfold holds. cbn. exists dir, clean, sc, old. eexists. split_and!; [..|exact Hs]; done.
    + intros x d6 [Hs|Hs]; [left; by exists dir, clean|right]. exists dir, clean, sc, old. eexists. split_and!; [..|exact Hs]; done.
Qed.

(** a deletion is atomic in the same way: it returns [True] with both files
    of the block gone and the deletion logged, [False] with nothing changed, and
    an exception leaves all of it done or none of it. *)
Theorem delete_atomic name actor reason expected scope d : one_fault d → log_ok (files d) →
  match delete_block uni_lower updated_now name actor reason expected scope d with
  | (Ok true, d') => deleted name scope actor reason d d'
  | (Ok false, d') => files d' = files d
  | (Err _, d') => unchanged d d' ∨ deleted name scope actor reason d d'
  end.
Proof.
  intros H Hlog. pose proof (holds_delete name actor reason expected scope d H Hlog) as Hd.
  unfold holds in Hd. by destruct (delete_block _ _ _ _ _ _ _ _) as [[[]|] ?].
Qed.
End unicode.
