(* ===== verification/MemoryBlocksGuards.v ===== *)
(** * Memory blocks: reading back, protection and the audit chain *)

From stdpp Require Import gmap.
From S2P Require Import Prelude Sha256 Unicode Wire Strings Effects MemoryBlocks MemoryBlocksSpec.
Local Open Scope Z_scope.

Section unicode.
Variable uni_digit : Z → option (fin 10).
Variable uni_lower : ustr → Z → ustr → ustr.
Variables created_now updated_now : ustr.
Local Abbreviation _sanitize_name := (MemoryBlocks._sanitize_name uni_lower).
Local Abbreviation _get_block_locked := (MemoryBlocks._get_block_locked uni_lower).
Local Abbreviation run_edit := (MemoryBlocksSpec.run_edit uni_digit uni_lower created_now updated_now).
Local Abbreviation delete_block := (MemoryBlocks.delete_block uni_lower updated_now).

(** ** Names are their own sanitization *)

Definition sane (c : Z) : Prop := 97 <= c <= 122 ∨ 48 <= c <= 57 ∨ c = 95 ∨ c = 45.

(** A lower case has no ASCII capital. *)
Definition lower_ok : Prop := ∀ a c b x, x ∈ uni_lower a c b → between 65 90 x = false.

Lemma sane_plain c : sane c → is_plain c = true ∧ is_space c = false ∧ (c <? 128) = true ∧ between 65 90 c = false.
Proof. unfold sane, is_plain, is_alnum, is_space, between. lia. Qed.
Lemma plain_is_sane c : is_plain c = true → between 65 90 c = false → sane c.
Proof. unfold sane, is_plain, is_alnum, between. lia. Qed.

Lemma plain_sane s : Forall (λ c, between 65 90 c = false) s → Forall sane (plain s).
Proof.
  intros H. unfold plain. apply Forall_map. eapply Forall_impl; [exact H|]. intros c Hc. simpl.
  destruct (is_plain c) eqn:E; [by apply plain_is_sane|]. right; right; by left.
Qed.
Lemma lower_in_capitals before s : lower_ok → Forall (λ c, between 65 90 c = false) (lower_in uni_lower before s).
Proof.
  intros Hl. revert before. induction s as [|c s IH]; intros before; [constructor|]. simpl. apply Forall_app. split; [|apply IH].
  destruct (c <? 128).
  - constructor; [|constructor]. destruct (between 65 90 c) eqn:E; [|done]. unfold between in *. lia.
  - apply Forall_forall. intros x Hx. by eapply Hl.
Qed.

Lemma lstrip_sane s : Forall sane s → lstrip s = s.
Proof. intros [|c k Hc _]; [done|]. simpl. by destruct (sane_plain c Hc) as (_ & -> & _). Qed.
Lemma strip_sane s : Forall sane s → strip s = s.
Proof.
  intros H. unfold strip, rstrip. rewrite (lstrip_sane s H), lstrip_sane; [apply rev_involutive|].
  rewrite Forall_forall in H |- *. intros c Hc. apply H. apply list_elem_of_In. apply list_elem_of_In in Hc. by apply in_rev in Hc.
Qed.
Lemma lower_sane before s : Forall sane s → lower_in uni_lower before s = s.
Proof.
  intros H. revert before. induction H as [|c s Hc _ IH]; intros before; [done|]. simpl.
  destruct (sane_plain c Hc) as (_ & _ & -> & ->). simpl. by rewrite IH.
Qed.
Lemma sane_fix s : Forall sane s → plain (lower uni_lower (strip s)) = s.
Proof.
  intros H. rewrite strip_sane by done. unfold lower. rewrite lower_sane by done.
  induction H as [|c s Hc _ IH]; [done|]. simpl. destruct (sane_plain c Hc) as (-> & _). by rewrite IH.
Qed.
Definition checked (clean : ustr) : res exn ustr :=
  require (negb (bool_decide (strip_of (u "_-") clean = []))) MemoryBlockError;;
  require (Z.of_nat (length clean) <=? 64) MemoryBlockError;; Ok clean.
Lemma sanitize_checked name : _sanitize_name name = checked (plain (lower uni_lower (strip name))).
Proof. done. Qed.
Lemma sanitize_idem name clean : lower_ok → _sanitize_name name = Ok clean → _sanitize_name clean = Ok clean.
Proof.
  intros Hl. rewrite !sanitize_checked.
  assert (Hc : Forall sane (plain (lower uni_lower (strip name)))) by (by apply plain_sane, lower_in_capitals).
  revert Hc. generalize (plain (lower uni_lower (strip name))) as c. intros c Hc H.
  assert (c = clean) as -> by (unfold checked in H; by res_inv). by rewrite (sane_fix clean Hc).
Qed.

(** ** Reading *)

(** The block that the files of [clean] in [dir] hold. *)
Definition block_of (clean scope : ustr) (mt : meta) (t : ustr) : MemoryBlock :=
  Block clean (translate_newlines t) (len (translate_newlines t)) (m_max_chars mt) (m_revision mt) (m_created_at mt)
    (m_updated_at mt) (m_metadata mt) (m_read_only mt) scope.

Lemma open_read_there p x d : files d !! p = Some x → ∃ d', files d' = files d ∧ (calm d → calm d') ∧
  (open_read p d = (Ok x, d') ∨ ¬ calm d ∧ open_read p d = (Err (Py OSError), d')).
Proof.
  intros Hx. unfold open_read, mbind, io_bind, lucky. destruct d as [m [|l f]]; cbn [fate files] in *.
  - cbn. rewrite Hx. eexists. split_and!; [| |by left]; done.
  - destruct l; cbn; rewrite ?Hx; exists (Disk m f).
    + split_and!; [done|by intros [_ ?]%Forall_cons|by left].
    + split_and!; [done|by intros [_ ?]%Forall_cons|right]. split; [|done]. intros [E _]%Forall_cons. discriminate E.
Qed.
Lemma get_block_there name clean scope dir mt t d : _sanitize_name name = Ok clean → _blocks_dir scope = Ok dir →
  files d !! _meta_file dir clean = Some (Metadata mt) → files d !! _content_file dir clean = Some (Text t) →
  ∃ d', files d' = files d ∧ (calm d → calm d') ∧
  (_get_block_locked name scope d = (Ok (block_of clean scope mt t), d') ∨
   ¬ calm d ∧ _get_block_locked name scope d = (Err (Py OSError), d')).
Proof.
  intros Hn Hd Hm Ht. unfold MemoryBlocks._get_block_locked. rewrite Hn, Hd.
  destruct (open_read_there _ _ _ Hm) as (d1 & E1 & C1 & H1). rewrite <- E1 in Ht.
  destruct (open_read_there _ _ _ Ht) as (d2 & E2 & C2 & H2).
  destruct H1 as [H1|[N1 H1]].
  - destruct H2 as [H2|[N2 H2]]; exists d2; (split_and!; [congruence|auto|]).
    + left. unfold read_block, catch, mbind, io_bind, of_res. rewrite H1. cbn. by rewrite H2.
    + right. split; [auto|]. unfold read_block, catch, mbind, io_bind, of_res. rewrite H1. cbn. by rewrite H2.
  - exists d1. split_and!; [done|done|right]. split; [done|]. unfold read_block, catch, mbind, io_bind, of_res. by rewrite H1.
Qed.

(** what an edit returned is what is read back.  After an edit that
    returned [b], a read of the block that meets no failure gives [b] with the
    newlines of its content translated as text mode does, and so [b] itself where
    the content has no carriage return. *)
Theorem edit_reads_back x name actor reason expected scope d b d' d2 : lower_ok → one_fault d → log_ok (files d) →
  run_edit x name actor reason expected scope d = (Ok b, d') → files d2 = files d' → calm d2 →
  ∃ d3, files d3 = files d2 ∧
    get_block uni_lower name scope d2 = (Ok (block_of (b_name b) (b_scope b) (meta_of b) (b_content b)), d3) ∧
    (13 ∉ b_content b → get_block uni_lower name scope d2 = (Ok b, d3)).
Proof.
  intros Hl H Hlog E E2 C2.
  assert (Ha : edited uni_lower created_now updated_now x name scope actor d d' b).
  { pose proof (holds_edit uni_digit uni_lower created_now updated_now x name actor reason expected scope d H Hlog) as Ha.
    unfold holds in Ha. by rewrite E in Ha. }
  destruct Ha as (Hn & Hs & r & dir & old & Hdir & Hold & Hw & Hlive).
  assert (Hm : files d2 !! _meta_file dir (b_name b) = Some (Metadata (meta_of b))).
  { rewrite E2, Hlive by (intros []). unfold after_write, committed, _meta_file. by simplify_map_eq. }
  assert (Hc : files d2 !! _content_file dir (b_name b) = Some (Text (b_content b))).
  { rewrite E2, Hlive by (intros []). unfold after_write, committed, _content_file. by simplify_map_eq. }
  destruct (get_block_there name (b_name b) (b_scope b) dir _ _ d2 Hn Hdir Hm Hc) as (d3 & E3 & _ & [H3|[? ?]]); [|done].
  assert (Hg : get_block uni_lower name scope d2 = (Ok (block_of (b_name b) (b_scope b) (meta_of b) (b_content b)), d3)).
  { unfold get_block. by rewrite Hs. }
  exists d3. split_and!; [done|done|]. intros Hcr. rewrite Hg. do 2 f_equal. unfold block_of.
  rewrite translate_newlines_id by done. destruct Hw as [Hcount _ _ _ _ _ _]. rewrite <- Hcount. by destruct b.
Qed.

(** ** Protection *)

Lemma current_refused clean scope dir mt t expected d : _sanitize_name clean = Ok clean → _blocks_dir scope = Ok dir →
  files d !! _meta_file dir clean = Some (Metadata mt) → files d !! _content_file dir clean = Some (Text t) →
  m_read_only mt = true ∨ (∃ e, expected = Some e ∧ e ≠ m_revision mt) →
  ∃ e d', current uni_lower clean scope expected d = (Err e, d') ∧ files d' = files d.
Proof.
  intros Hn Hd Hm Ht Hg. destruct (get_block_there _ _ _ _ _ _ _ Hn Hd Hm Ht) as (d1 & E1 & _ & [H1|[_ H1]]);
    unfold current, catch, mbind, io_bind; rewrite H1; [|by eauto].
  destruct Hg as [Hro|(e & -> & He)]; unfold of_res, _check_revision, _check_mutable; cbn.
  - rewrite Hro. destruct expected as [e|]; [case_bool_decide; simpl|]; eauto.
  - rewrite bool_decide_eq_false_2 by congruence. simpl. eauto.
Qed.

Definition refused {A} (o : res exn A * disk) (d : disk) : Prop := ∃ e d', o = (Err e, d') ∧ files d' = files d.
Lemma refused_bind {A B} (m : op A) (f : A → op B) d : refused (m d) d → refused ((m ≫= f) d) d.
Proof. intros (e & d' & E & F). exists e, d'. unfold mbind, io_bind. by rewrite E. Qed.
Lemma refused_pure {A B} (r : res exn A) (f : A → op B) d : (∀ a, r = Ok a → refused (f a d) d) → refused ((of_res r ≫= f) d) d.
Proof. intros H. unfold mbind, io_bind, of_res. destruct r as [a|e]; [by apply H|]. by exists e, d. Qed.

Ltac given H := let E := fresh in apply refused_pure; intros ? E; rewrite H in E; injection E as <-.

(** a protected block stays.  Where the metadata and the content of a block
    are there, and the block is read only or the caller expects another revision,
    every edit raises and changes no file, whatever operations of the operating
    system fail; and so does a deletion that can read the metadata. *)
Theorem protected_block_kept x name actor reason expected scope clean sc dir mt t d : lower_ok →
  _sanitize_name name = Ok clean → normalize_scope scope = Ok sc → _blocks_dir sc = Ok dir →
  files d !! _meta_file dir clean = Some (Metadata mt) → files d !! _content_file dir clean = Some (Text t) →
  m_read_only mt = true ∨ (∃ e, expected = Some e ∧ e ≠ m_revision mt) →
  refused (run_edit x name actor reason expected scope d) d ∧
  (calm d → refused (delete_block name actor reason expected scope d) d).
Proof.
  intros Hl Hn Hs Hd Hm Ht Hg. pose proof (sanitize_idem _ _ Hl Hn) as Hn'. split.
  - pose proof (current_refused _ _ _ _ _ _ _ Hn' Hd Hm Ht Hg) as Hc.
    destruct x; unfold MemoryBlocksSpec.run_edit.
    + unfold set_block. given Hn. given Hs. by apply refused_bind.
    + unfold append_block. given Hn. given Hs. by apply refused_bind.
    + unfold replace_block. apply refused_pure; intros ? _. given Hn. given Hs.
      destruct (get_block_there _ _ _ _ _ _ _ Hn' Hd Hm Ht) as (d1 & E1 & _ & [H1|[_ H1]]);
        unfold mbind, io_bind; rewrite H1; [|by eexists _, _].
      destruct Hg as [Hro|(e & -> & He)]; unfold of_res, _check_revision, _check_mutable; cbn.
      * rewrite Hro. destruct expected as [e|]; [case_bool_decide; simpl|]; by eexists _, _.
      * rewrite bool_decide_eq_false_2 by congruence. simpl. by eexists _, _.
    + unfold insert_block. given Hn. given Hs. by apply refused_bind.
  - intros Hcalm. unfold MemoryBlocks.delete_block. given Hn. given Hs. given Hd.
    assert (Hex : ∀ p, exists_ p d = (Ok (bool_decide (is_Some (files d !! p))), d)) by done.
    unfold mbind at 1, io_bind at 1. rewrite Hex. unfold mbind at 1, io_bind at 1. rewrite Hex, Hm. cbn [negb andb bool_decide is_Some_dec].
    destruct (open_read_there _ _ _ Hm) as (d1 & E1 & _ & [H1|[? _]]); [|done].
    assert (Hr : _read_meta (_meta_file dir clean) d = (Ok (Some mt), d1)) by (unfold _read_meta, catch, mbind, io_bind; by rewrite H1).
    unfold mbind at 1, io_bind at 1. rewrite Hr. cbn [fmap option_fmap option_map default].
    destruct Hg as [Hro|(e & -> & He)].
    + unfold mbind, io_bind, of_res, _check_revision. rewrite Hro. destruct expected as [e|]; [case_bool_decide; simpl|]; by eexists _, _.
    + unfold mbind, io_bind, of_res, _check_revision. rewrite (bool_decide_eq_false_2 (m_revision mt = e)) by congruence. simpl. by eexists _, _.
Qed.
End unicode.

(** ** The audit chain *)

Definition about (dir name : ustr) (e : entry) : bool :=
  bool_decide (e_block e = name) && bool_decide (_blocks_dir (e_scope e) = Ok dir).
(** The revision of a block after a row. *)
Definition next (_ : ustr) (e : entry) : ustr := match e_action e with Set_ => e_revision e | Delete => [] end.
Fixpoint chained (prev : ustr) (rows : list entry) : Prop :=
  match rows with [] => True | e :: rows' => e_prev_revision e = prev ∧ chained (next prev e) rows' end.

(** Every line of the log is a row; for each block the rows name the revision
    before them, and the last one leaves the revision its metadata has. *)
Definition audited (fs : gmap path file) : Prop :=
  ∃ rows, (fs !! History = None ∧ rows = [] ∨ fs !! History = Some (Journal (map Some rows) false)) ∧
    ∀ dir name, let own := List.filter (about dir name) rows in
      chained [] own ∧ default [] (m_revision <$> meta_at fs (_meta_file dir name)) = fold_left next own [].

Lemma chained_snoc p rows e : chained p (rows ++ [e]) ↔ chained p rows ∧ e_prev_revision e = fold_left next rows p.
Proof. revert p. induction rows as [|x rows IH]; intros p; simpl; [tauto|]. rewrite IH. tauto. Qed.

Lemma audited_same_live dir clean fs fs' : same_live dir clean fs fs' → audited fs → audited fs'.
Proof.
  intros Hs (rows & Hh & Hr). exists rows. rewrite Hs by (intros []). split; [done|]. intros d n. unfold meta_at.
  rewrite Hs by (intros []). apply Hr.
Qed.
Lemma audited_log_ok fs : audited fs → log_ok fs.
Proof. intros (rows & [[H _]|H] & _); unfold log_ok; by rewrite H. Qed.

(** A row for a block whose new revision is the row's. *)
Lemma audited_row fs fs' e dir : audited fs → _blocks_dir (e_scope e) = Ok dir →
  e_prev_revision e = default [] (m_revision <$> meta_at fs (_meta_file dir (e_block e))) →
  fs' !! History = Some (appended (fs !! History) e) →
  default [] (m_revision <$> meta_at fs' (_meta_file dir (e_block e))) = next [] e →
  (∀ d n, (d, n) ≠ (dir, e_block e) → meta_at fs' (_meta_file d n) = meta_at fs (_meta_file d n)) → audited fs'.
Proof.
  intros (rows & Hh & Hr) Hdir Hprev Hh' Hnew Hother. exists (rows ++ [e]). split.
  { right. rewrite Hh', map_app. destruct Hh as [[E1 E2]|E1]; rewrite E1; [by rewrite E2|done]. }
  intros d n. cbv zeta. rewrite List.filter_app. simpl. destruct (Hr d n) as [Hc Hm]. unfold about at 2 4.
  destruct (decide ((d, n) = (dir, e_block e))) as [[= -> ->]|Hne].
  - rewrite !bool_decide_eq_true_2 by done. simpl. rewrite chained_snoc, fold_left_app. simpl.
    rewrite Hnew, <- Hm, Hprev. done.
  - rewrite (Hother d n Hne). destruct (_ && _) eqn:E; [|by rewrite app_nil_r].
    apply andb_true_iff in E as [En Ed]. apply bool_decide_eq_true in En, Ed. congruence.
Qed.

Section audit.
Variable uni_digit : Z → option (fin 10).
Variable uni_lower : ustr → Z → ustr → ustr.

(** The files after some edits and deletions, the clock read anew in each, on
    an operating system that works. *)
Inductive reachable : gmap path file → Prop :=
  | at_start : reachable ∅
  | by_edit d created updated x name actor reason expected scope r d' : reachable (files d) → calm d →
      run_edit uni_digit uni_lower created updated x name actor reason expected scope d = (r, d') → reachable (files d')
  | by_delete d updated name actor reason expected scope r d' : reachable (files d) → calm d →
      delete_block uni_lower updated name actor reason expected scope d = (r, d') → reachable (files d').

Lemma calm_read d p old : calm d → read_before d p old → old = meta_at (files d) p.
Proof. by intros H [?|[? _]]. Qed.

Lemma audited_edited created updated x name scope actor d d' b : calm d → audited (files d) →
  edited uni_lower created updated x name scope actor d d' b → audited (files d').
Proof.
  intros H Ha (_ & _ & r & dir & old & Hdir & Hold & Hw & Hlive). apply calm_read in Hold; [|done].
  eapply audited_same_live; [exact Hlive|]. eapply (audited_row _ _ (entry_of actor r old b)); [exact Ha|exact Hdir|by rewrite Hold| | |].
  - unfold after_write, committed. by rewrite lookup_insert_eq.
  - unfold after_write, committed, meta_at, _meta_file. by simplify_map_eq.
  - intros dn n Hne. unfold after_write, committed, meta_at, _meta_file.
    rewrite lookup_insert_ne by done. rewrite lookup_insert_ne by (intros [= E1 E2]; apply Hne; by rewrite <- E1, <- E2). by rewrite lookup_insert_ne by done.
Qed.
Lemma audited_deleted name scope actor reason d d' : calm d → audited (files d) →
  deleted uni_lower name scope actor reason d d' → audited (files d').
Proof.
  intros H Ha (dir & clean & sc & old & e & _ & _ & Hdir & Hold & Hact & <- & <- & Hprev & _ & _ & Hlive).
  apply calm_read in Hold; [|done]. eapply audited_same_live; [exact Hlive|].
  eapply (audited_row _ _ e); [exact Ha|exact Hdir|by rewrite Hprev, Hold| | |].
  - unfold removed. by rewrite lookup_insert_eq.
  - unfold removed, meta_at, _meta_file, next. rewrite Hact. rewrite lookup_insert_ne by done.
    rewrite lookup_delete_ne by done. by rewrite lookup_delete_eq.
  - intros dn n Hne. unfold removed, meta_at, _meta_file. rewrite lookup_insert_ne by done. rewrite lookup_delete_ne by done.
    by rewrite lookup_delete_ne by (intros [= E1 E2]; apply Hne; by rewrite <- E1, <- E2).
Qed.

(** the audit log accounts for every block.  After any edits and deletions,
    returned or refused, every line of the log is a row, each row of a block
    names the revision the row before it left (none at first and after a
    deletion), and the last one leaves the revision in the block's metadata. *)
Theorem audit_chain fs : reachable fs → audited fs.
Proof.
  induction 1 as [|d created updated x name actor reason expected scope r d' _ IH Hc E|d updated name actor reason expected scope r d' _ IH Hc E].
  - exists []. split; [by left|]. intros dir name. split; [done|]. unfold meta_at. by rewrite lookup_empty.
  - pose proof (holds_edit uni_digit uni_lower created updated x name actor reason expected scope d (calm_one_fault d Hc) (audited_log_ok _ IH)) as He.
    unfold holds in He. rewrite E in He. destruct r as [b|e]; [by eapply audited_edited|].
    destruct He as [(dir & c & Hs)|[b He]]; [by eapply audited_same_live|by eapply audited_edited].
  - pose proof (holds_delete uni_lower updated name actor reason expected scope d (calm_one_fault d Hc) (audited_log_ok _ IH)) as He.
    unfold holds in He. rewrite E in He. destruct r as [[]|e]; [by eapply audited_deleted|by rewrite He|].
    destruct He as [(dir & c & Hs)|He]; [by eapply audited_same_live|by eapply audited_deleted].
Qed.
End audit.

(** ** A store

    Its first operations, with ASCII names. *)

Definition no_digits (_ : Z) : option (fin 10) := None.
Definition as_is (_ : ustr) (c : Z) (_ : ustr) : ustr := if between 65 90 c then [] else [c].
Lemma as_is_ok : lower_ok as_is.
Proof. intros a c b x. unfold as_is. destruct (between 65 90 c) eqn:E; [by intros ?%elem_of_nil|by intros ->%list_elem_of_singleton]. Qed.

Definition t0 : ustr := u "2026-01-01T00:00:00+00:00".
Definition demo_edit (x : edit) (expected : option ustr) : op MemoryBlock :=
  run_edit no_digits as_is t0 t0 x (u "Persona") (u "mcp:a") [] expected (u "session: 7").
Definition demo_delete (expected : option ustr) : op bool :=
  delete_block as_is t0 (u "Persona") (u "mcp:a") [] expected (u "session:7").
Definition on_luck (fs : gmap path file) (f : list luck) : disk := Disk fs f.

Definition fs1 : gmap path file := files (demo_edit (SetBlock (u "I am" ++ [13; 10] ++ u "here") 40 [] false) (Some []) (on_luck ∅ [])).2.
Definition fs2 : gmap path file := files (demo_edit (SetBlock (u "Fixed") 40 [] true) None (on_luck fs1 [])).2.
Definition demo_dir : ustr := ok_or [] (_blocks_dir (u "session:7")).
Definition demo_clean : ustr := u "persona".

(** The eighth operation, the replacement of the content, fails. *)
Definition failing : list luck := repeat Works 7 ++ [Fails Untouched].
Lemma failing_once fs : one_fault (on_luck fs failing).
Proof. right. exists (repeat Works 7), Untouched, []. split_and!; [done|repeat constructor|constructor]. Qed.

Lemma demo_log : log_ok fs1 ∧ log_ok ∅.
Proof. split; vm_compute; exact I. Qed.

Lemma edit_atomic_witness :
  (demo_edit (AppendBlock (u "now")) None (on_luck fs1 failing)).1 = Err (Py OSError) ∧
  let d := on_luck fs1 failing in let d' := (demo_edit (AppendBlock (u "now")) None d).2 in
  unchanged d d' ∨ ∃ b, edited as_is t0 t0 (AppendBlock (u "now")) (u "Persona") (u "session: 7") (u "mcp:a") d d' b.
Proof.
  assert (E : (demo_edit (AppendBlock (u "now")) None (on_luck fs1 failing)).1 = Err (Py OSError)) by (vm_compute; reflexivity).
  split; [exact E|]. cbv zeta.
  pose proof (edit_atomic no_digits as_is t0 t0 (AppendBlock (u "now")) (u "Persona") (u "mcp:a") [] None (u "session: 7")
    (on_luck fs1 failing) (failing_once fs1) (proj1 demo_log)) as H.
  unfold demo_edit in *. destruct (run_edit _ _ _ _ _ _ _ _ _ _ _) as [[b|e] d']; [discriminate E|exact H].
Defined.

Lemma delete_atomic_witness :
  (demo_delete None (on_luck fs1 failing)).1 = Ok true ∧
  deleted as_is (u "Persona") (u "session:7") (u "mcp:a") [] (on_luck fs1 failing) (demo_delete None (on_luck fs1 failing)).2.
Proof.
  assert (E : (demo_delete None (on_luck fs1 failing)).1 = Ok true) by (vm_compute; reflexivity).
  split; [exact E|].
  pose proof (delete_atomic as_is t0 (u "Persona") (u "mcp:a") [] None (u "session:7")
    (on_luck fs1 failing) (failing_once fs1) (proj1 demo_log)) as H.
  unfold demo_delete in *. destruct (delete_block _ _ _ _ _ _ _ _) as [[[]|e] d']; [exact H|discriminate E..].
Defined.

Definition block_or (r : res exn MemoryBlock) : MemoryBlock := ok_or (Block [] [] 0 0 [] [] [] [] false []) r.
Definition crlf_edit : edit := SetBlock (u "I am" ++ [13; 10] ++ u "here") 40 [] false.

Lemma edit_reads_back_witness :
  b_content (block_or (demo_edit crlf_edit (Some []) (on_luck ∅ [])).1) = u "I am" ++ [13; 10] ++ u "here" ∧
  b_content (block_or (get_block as_is (u "Persona") (u "session: 7") (on_luck fs1 [])).1) = u "I am" ++ [10] ++ u "here".
Proof.
  split; [vm_compute; reflexivity|].
  assert (E : (demo_edit crlf_edit (Some []) (on_luck ∅ [])).1 = Ok (block_or (demo_edit crlf_edit (Some []) (on_luck ∅ [])).1))
    by (vm_compute; reflexivity).
  destruct (edit_reads_back no_digits as_is t0 t0 crlf_edit (u "Persona") (u "mcp:a") [] (Some []) (u "session: 7")
    (on_luck ∅ []) (block_or (demo_edit crlf_edit (Some []) (on_luck ∅ [])).1) (demo_edit crlf_edit (Some []) (on_luck ∅ [])).2
    (on_luck fs1 []) as_is_ok (or_introl (List.Forall_nil _)) (proj2 demo_log)
    (eq_trans (surjective_pairing (demo_edit crlf_edit (Some []) (on_luck ∅ [])))
       (f_equal (λ r, (r, (demo_edit crlf_edit (Some []) (on_luck ∅ [])).2)) E)) eq_refl (List.Forall_nil _)) as (d3 & _ & Hg & _).
  rewrite Hg. vm_compute. reflexivity.
Defined.

Lemma protected_block_kept_witness :
  refused (demo_edit (ReplaceBlock (u "Fixed") (u "Broken")) None (on_luck fs2 failing)) (on_luck fs2 failing) ∧
  refused (demo_delete None (on_luck fs2 [])) (on_luck fs2 []).
Proof.
  assert (Hm : ∃ mt, fs2 !! _meta_file demo_dir demo_clean = Some (Metadata mt) ∧ m_read_only mt = true)
    by (eexists; split; [vm_compute; reflexivity|reflexivity]).
  destruct Hm as (mt & Hm & Hro).
  assert (Ht : fs2 !! _content_file demo_dir demo_clean = Some (Text (u "Fixed"))) by (vm_compute; reflexivity).
  split.
  - exact (proj1 (protected_block_kept no_digits as_is t0 t0 (ReplaceBlock (u "Fixed") (u "Broken")) (u "Persona") (u "mcp:a") [] None
      (u "session: 7") demo_clean (u "session:7") demo_dir mt (u "Fixed") (on_luck fs2 failing) as_is_ok
      ltac:(vm_compute; reflexivity) ltac:(vm_compute; reflexivity) ltac:(vm_compute; reflexivity) Hm Ht (or_introl Hro))).
  - refine (proj2 (protected_block_kept no_digits as_is t0 t0 (ReplaceBlock (u "Fixed") (u "Broken")) (u "Persona") (u "mcp:a") [] None
      (u "session:7") demo_clean (u "session:7") demo_dir mt (u "Fixed") (on_luck fs2 []) as_is_ok
      _ _ _ Hm Ht (or_introl Hro)) (List.Forall_nil _)); vm_compute; reflexivity.
Defined.

Lemma audit_chain_witness : audited fs2 ∧ size_of (fs2 !! History) = (2%nat, false).
Proof.
  split; [|vm_compute; reflexivity]. apply (audit_chain no_digits as_is).
  refine (by_edit no_digits as_is (on_luck fs1 []) t0 t0 (SetBlock (u "Fixed") 40 [] true) (u "Persona") (u "mcp:a") [] None (u "session: 7") _ _
    _ (List.Forall_nil _) (surjective_pairing _)).
  refine (by_edit no_digits as_is (on_luck ∅ []) t0 t0 crlf_edit (u "Persona") (u "mcp:a") [] (Some []) (u "session: 7") _ _
    (at_start no_digits as_is) (List.Forall_nil _) (surjective_pairing _)).
Defined.

(** a failing read of the metadata lifts the protection of a deletion:
    [_read_meta] makes an empty dictionary of any operating system error, so that
    [delete_block] sees neither the flag nor the revision and deletes the
    read-only block. *)
Theorem unreadable_metadata_unprotected :
  ∃ mt d', fs2 !! _meta_file demo_dir demo_clean = Some (Metadata mt) ∧ m_read_only mt = true ∧
    demo_delete (Some []) (on_luck fs2 [Fails Untouched]) = (Ok true, d') ∧
    files d' !! _meta_file demo_dir demo_clean = None ∧ files d' !! _content_file demo_dir demo_clean = None.
Proof.
  eexists _, _. split; [vm_compute; reflexivity|]. split; [reflexivity|]. split; [vm_compute; reflexivity|].
  split; vm_compute; reflexivity.
Qed.
